(* ===== verification/_CoqProject ===== *)
-Q . S2P
Prelude.v
Checksum.v
GoStrings.v
GoNet.v
GoTime.v
GoDuration.v
Parser.v
Payload.v
Fake.v
Algorithm.v
State.v
Stats.v
Whitelist.v
Window.v
Config.v
Runtime.v
Progress.v
RawSender.v
Daemon.v
Handler.v
Loops.v
Scenarios.v
Safety.v
Ledger.v
Liveness.v
HandlerSpec.v
ShapeSpec.v
CleanupSpec.v
SplitSpec.v
Delivery.v
