(* ===== verification/Prelude.v ===== *)
(** * A verification of nfqcooldown

    nfqcooldown is a Linux daemon that receives packets from a netfilter queue
    and decides, packet by packet, what the kernel does with them. In [drop]
    mode it accepts a SYN (or SYN/ACK) only when the cooldown of the client's
    address is over; in [shape] mode it spaces the SYNs of an address by
    delaying them; in [split] mode it sends the first payload packet of a
    connection as two TCP segments, possibly after a fake one with a bad
    checksum, in either order. This library translates the daemon's Go code
    to executable definitions and proves what makes it correct.

    ** Layout

    The code of Go's standard library that decides the daemon's behaviour:
    - [GoStrings]: [strings.TrimSpace], [Split], [Cut],
      [strconv.ParseUint] with base 0, and the [%x] of [fmt];
    - [GoNet]: [net.IP], [netip.ParseAddr], [net.ParseIP], [net.ParseCIDR] and
      [IPNet.Contains];
    - [GoTime], [GoDuration]: instants, saturating [Sub], [ParseDuration].

    The packages under [src/internal]:
    - [Checksum], [Payload] ([payload.go]): [internetChecksum],
      [ParseIPv4TCPPayload], [fixIPv4TCPChecksums], [SplitIPv4TCPPacket];
    - [Parser] ([parser.go]): the SYN and SYN/ACK parsers;
    - [Algorithm] ([algorithm.go]): the three cooldown algorithms behind the
      [AlgorithmI] interface, its laws as the class [AlgorithmLaws], rejection
      sampling and [NewAlgorithm];
    - [State] ([state.go]): the client map, proved against [AlgorithmLaws];
    - [Stats] ([stats.go]): the wrapping counters;
    - [Whitelist] ([whitelist.go]): [NewWhitelist], [Contains];
    - [RawSender] ([raw_linux.go]): the raw socket and its mutex.

    The command [src/cmd/nfqcooldown/main.go]:
    - [Config]: [parseConfig], [mustDuration], [mustMarkSpec], [mustMark] and
      the printing of marks;
    - [Fake]: [cloneWithFakePayloadAndBadTCPChecksum] and its checksums;
    - [Window]: [splitPayloadWindowState];
    - [Daemon]: the state [main] shares between its goroutines ([World]), with
      one definition per operation on it;
    - [Handler]: the callback, with one definition per branch
      ([payload_handler], [shape_handler], [drop_handler], ...), and the
      goroutines it starts ([release], [send_second]);
    - [Loops]: the ticks of the four cleanup loops and of the statistics loop,
      [printStats], and the daemon as a whole ([daemon_step]);
    - [Scenarios]: concrete configurations, packets and executions;
    - [Safety], [Ledger], [Liveness], [HandlerSpec], [ShapeSpec],
      [CleanupSpec], [SplitSpec], [Delivery]: theorems about the daemon.
    [Runtime] and [Progress] hold what is shared: the programs, their
    interleaving, and the logics for invariants and for progress.

    ** How code becomes definitions

    Integers are [Z] with their wrap-around written out; bytes are
    [Byte.byte]; a Go panic (an index or slice out of range) is the value
    [Panic] of the monad [go]; an error return is [Fail] of [res]. Functions
    that touch nothing shared are pure; methods that hold a mutex from entry to
    return are one transition of a record.

    The handler and the loops share state and run concurrently. [Runtime]
    gives them as programs ([prog]): trees of atomic steps on a world, with
    blocking ([Step] returning [None]: a taken mutex; [Await]: a sleep), [Fork]
    for the [go] statement and [Crash] for a panic. The same program has two
    readings: [run] executes it alone, which is how the decision theorems state
    the complete effect of a handler; [cstep] interleaves all goroutines with
    the passage of time, which is how the invariants are stated. In the
    daemon's relation [daemon_step] packets arrive one at a time (the queue
    library calls the handler from one goroutine), each loop ticks any number
    of times, and every interleaving of atomic steps is possible. A pointer to
    a pacer is an index into [w_pacers], so a pacer deleted from the map while
    a goroutine still holds it stays shared with that goroutine alone.

    The world records in [w_trace] what the daemon does to the outside:
    verdicts, printed lines (the tag of a log line, every figure of a
    statistics line). System calls of the raw sender are recorded in its
    [calls]. Whether the queue takes a modified packet, whether a system call
    succeeds and which random bytes the system delivers are functions of the
    past ([environment], [kernel]), about which nothing is assumed except
    where a theorem says so.

    ** What is shown

    - Daemon ([Safety], [Ledger], [Liveness], [CleanupSpec]): in every
      interleaving each packet gets at most one verdict, and exactly one once
      all goroutines are idle; once nothing new arrives every schedule ends, and
      only with all of them idle, so no mutex deadlocks (where cooldowns are drawn,
      as long as the generator does not reject too many numbers in a row, see
      Fuel below); the number of delayed
      packets is exact and below its limit; no goroutine panics
      exactly when the two ticker intervals are positive, which
      [parseConfig] does not check; in shape mode the reported number of
      drops is always zero; a tick of a cleanup loop removes exactly the old
      entries.
    - Drop mode ([State], [Algorithm], [HandlerSpec]): accepted packets of a
      client are a cooldown apart, whatever happens in between except the calls
      that cut a cooldown short (forgetting or force-accepting that client, a
      delayed accept of it, a cleanup with a time to live below the cooldown);
      the decision and the whole world it leaves; cooldowns stay in their
      configured range without overflow; sampling terminates and is unbiased;
      cleanup removes exactly the old clients and, with a time to live above the
      cooldowns, changes no decision; at most the configured number of packets is
      refused in a row, one more when the cleanup loop runs inside a handler.
    - Shape mode ([ShapeSpec]): the decision and the whole world it leaves, the
      bounds of a delay, and two executions in which SYNs of one address are
      accepted within the interval: a release that wakes up late, and a pacer
      deleted by the cleanup loop just after it was used.
    - Split mode ([Payload], [Checksum], [SplitSpec], [Delivery], [Window],
      [RawSender], [Fake]): whatever the options and failures, one packet goes on,
      the original or its first segment; the second segment has then been sent, is
      left to retransmission (probe), or is sent by the goroutine started unless
      that send fails; the segments carry exactly the original payload, parse
      again and have checksums that RFC 1071 accepts; they reach the wire with the right mark,
      address and delay; retransmissions pass; the pass window opens and
      closes where it should; concurrent sends keep their own marks; the fake
      keeps the headers, never panics, and its checksum is bad except when the
      valid one is zero.
    - Parsing ([Parser], [Payload], [Whitelist], [Config]): each parser accepts
      exactly what it should, errors included, and never panics; a whitelist
      contains exactly the addresses of its blocks; the options are accepted
      exactly when they denote a valid configuration, and printed marks read
      back.

    ** Fuel

    Two kinds of loop take fuel. Digit printing and [ParseDuration] take as
    much as the length of their result or input. The rejection loop of
    [randomUint64Inclusive] has no bound in the code; [fuel] counts draws, and
    [randomUint64Inclusive_terminates] shows that one acceptable draw among
    them is enough. At most half of the 64-bit numbers are rejected, all of them
    in the lower half ([Next_high]). Where a handler's fuel runs out it blocks, as
    a loop that has not left yet does; [daemon_comes_to_rest] therefore asks, of
    the state at rest and only where the drop action draws cooldowns, that one of
    the next [fuel] numbers is in the upper half.

    ** What is not modelled

    Reading [os.Args], the usage text, the startup banner and [fatalf]'s text
    (its exits are the constructors of [ConfigError]); opening the queue and
    the socket and registering the handler; signals and shutdown, so ticks
    never stop; seeding; the arguments of log lines; [raw_other.go], which only
    returns an error. Instants are nanoseconds on one line, as Go's monotonic
    clock has them, and the clock never goes back. *)

(** The prelude: machine integers, the monads of panics and errors, byte
    slices and big-endian fields, with the lemmas every component shares. *)


From Stdlib Require Export ZArith Lia.
From Stdlib Require Export Strings.Byte.
From stdpp Require Export base tactics numbers list gmap strings.
Open Scope Z_scope.

(** * Machine integers *)

(** Go's unsigned conversions reduce modulo a power of two; [int64] conversions
    reduce into the two's-complement range. *)
Definition wrapU8 (z : Z) : Z := z mod 2 ^ 8.
Definition wrapU16 (z : Z) : Z := z mod 2 ^ 16.
Definition wrapU32 (z : Z) : Z := z mod 2 ^ 32.
Definition wrapU64 (z : Z) : Z := z mod 2 ^ 64.
Definition MaxInt64 : Z := 2 ^ 63 - 1.
Definition MinInt64 : Z := - 2 ^ 63.
Definition MaxUint64 : Z := 2 ^ 64 - 1.
Definition wrapI64 (z : Z) : Z := (z + 2 ^ 63) mod 2 ^ 64 - 2 ^ 63.

(** Bitwise complement of a [uint16] ([^x] in Go). *)
Definition notU16 (z : Z) : Z := Z.lxor z 0xffff.

Lemma wrapU8_range z : 0 <= wrapU8 z < 256.
Proof. by apply Z.mod_pos_bound. Qed.
Lemma wrapU16_range z : 0 <= wrapU16 z < 65536.
Proof. by apply Z.mod_pos_bound. Qed.
Lemma wrapU32_range z : 0 <= wrapU32 z < 2 ^ 32.
Proof. by apply Z.mod_pos_bound. Qed.
Lemma wrapU64_range z : 0 <= wrapU64 z < 2 ^ 64.
Proof. by apply Z.mod_pos_bound. Qed.
Lemma wrapI64_range z : MinInt64 <= wrapI64 z <= MaxInt64.
Proof.
  unfold wrapI64, MinInt64, MaxInt64.
  pose proof (Z.mod_pos_bound (z + 2 ^ 63) (2 ^ 64) ltac:(lia)). lia.
Qed.
Lemma wrapU16_small z : 0 <= z < 65536 -> wrapU16 z = z.
Proof. apply Z.mod_small. Qed.
Lemma wrapU32_small z : 0 <= z < 2 ^ 32 -> wrapU32 z = z.
Proof. apply Z.mod_small. Qed.
Lemma wrapU64_small z : 0 <= z < 2 ^ 64 -> wrapU64 z = z.
Proof. apply Z.mod_small. Qed.
Lemma wrapU32_add_r a b : wrapU32 (a + wrapU32 b) = wrapU32 (a + b).
Proof. apply Zplus_mod_idemp_r. Qed.
Lemma wrapI64_add_l a d : wrapI64 (wrapI64 a + d) = wrapI64 (a + d).
Proof.
  unfold wrapI64. f_equal.
  replace ((a + 2 ^ 63) mod 2 ^ 64 - 2 ^ 63 + d + 2 ^ 63) with ((a + 2 ^ 63) mod 2 ^ 64 + d) by lia.
  rewrite Zplus_mod_idemp_l. f_equal. lia.
Qed.
Lemma wrapI64_small z : MinInt64 <= z <= MaxInt64 -> wrapI64 z = z.
Proof.
  unfold wrapI64, MinInt64, MaxInt64. intros Hz. rewrite Z.mod_small; lia.
Qed.

(** [ldiff]/[lxor] against an all-ones mask is subtraction. *)
Lemma notU16_sub z : 0 <= z < 65536 -> notU16 z = 65535 - z.
Proof.
  intros Hz. unfold notU16. change 65535 with (Z.ones 16).
  assert (Hhi : forall i, 16 <= i -> Z.testbit z i = false).
  { intros i Hi. rewrite <-(Z.mod_small z (2 ^ 16)) by lia.
    by apply Z.mod_pow2_bits_high. }
  rewrite Z.sub_nocarry_ldiff; apply Z.bits_inj'; intros i Hi;
    rewrite ?Z.lxor_spec, ?Z.ldiff_spec, ?Z.bits_0; change 0xffff with (Z.ones 16);
    (destruct (decide (16 <= i)) as [Hle|Hlt];
     [rewrite Z.ones_spec_high, Hhi by lia | rewrite Z.ones_spec_low by lia]);
    by destruct (Z.testbit z i).
Qed.

(** * Bytes *)

(** [u8 b] is the value of a byte, [to_byte z] Go's conversion [byte(z)]. *)
Definition u8 (b : byte) : Z := Z.of_N (Byte.to_N b).
Definition to_byte (z : Z) : byte := default x00 (Byte.of_N (Z.to_N (wrapU8 z))).

Lemma u8_range b : 0 <= u8 b < 256.
Proof. unfold u8. pose proof (Byte.to_N_bounded b). lia. Qed.
Lemma to_byte_u8 b : to_byte (u8 b) = b.
Proof. destruct b; vm_compute; reflexivity. Qed.
Lemma u8_to_byte z : u8 (to_byte z) = wrapU8 z.
Proof.
  unfold u8, to_byte. pose proof (wrapU8_range z) as Hz.
  destruct (Byte.of_N (Z.to_N (wrapU8 z))) as [b|] eqn:E; simpl.
  - apply Byte.to_of_N in E. rewrite E. lia.
  - apply Byte.of_N_None_iff in E. lia.
Qed.
Lemma u8_inj b c : u8 b = u8 c -> b = c.
Proof. intros H. by rewrite <-(to_byte_u8 b), H, to_byte_u8. Qed.

#[export] Instance byte_eq_dec : EqDecision byte := Byte.byte_eq_dec.
#[export] Instance byte_countable : Countable byte :=
  inj_countable Byte.to_N Byte.of_N Byte.of_to_N.

(** * Go computations *)

(** A Go expression either yields a value or panics (an index or slice
    expression out of range).  Errors that the source returns as values are
    part of the value's type, as in the source. *)
Inductive go (A : Type) : Type :=
| Val (a : A)
| Panic.
Arguments Val {A} a.
Arguments Panic {A}.

#[export] Instance go_ret : MRet go := fun A a => Val a.
#[export] Instance go_bind : MBind go := fun A B f m =>
  match m with Val a => f a | Panic => Panic end.

Lemma bind_val {A B} (a : A) (f : A -> go B) : (Val a ≫= f) = f a.
Proof. reflexivity. Qed.
Lemma bind_panic {A B} (f : A -> go B) : (Panic ≫= f) = Panic.
Proof. reflexivity. Qed.

(** A pair [(T, error)] of the source. *)
Inductive res (E A : Type) : Type :=
| Ok (a : A)
| Fail (e : E).
Arguments Ok {E A} a.
Arguments Fail {E A} e.
#[export] Instance res_ret E : MRet (res E) := fun _ a => Ok a.
#[export] Instance res_bind E : MBind (res E) := fun _ _ k r =>
  match r with Ok a => k a | Fail e => Fail e end.
(** Fail with [e] when the condition holds. *)
Definition fail_if {E} (b : bool) (e : E) : res E unit := if b then Fail e else Ok tt.
Lemma fail_if_Ok {E A} b (e : E) (k : unit -> res E A) a :
  (fail_if b e ≫= k) = Ok a <-> b = false /\ k tt = Ok a.
Proof. destruct b; simpl; (split; [done|]); [by intros []|by intros [_ ?]]. Qed.
Lemma and_iff_compat (P P' Q Q' : Prop) : (P <-> P') -> (Q <-> Q') -> P /\ Q <-> P' /\ Q'.
Proof. tauto. Qed.
Lemma res_bind_Ok {E A B} (r : res E A) (k : A -> res E B) b :
  (r ≫= k) = Ok b <-> exists a, r = Ok a /\ k a = Ok b.
Proof. destruct r as [a|e]; simpl; split; [eauto|by intros (? & [= ->] & ?)|done|by intros (? & ? & ?)]. Qed.

(** * Byte slices *)

(** Slices are value lists: the capacity of every slice of the source that is
    re-sliced is its length, so bounds are checked against the length. *)
Abbreviation bytes := (list byte).
Definition len {A} (l : list A) : Z := Z.of_nat (length l).

(** Total reading, used in specifications; zero outside the slice. *)
Definition byte_at (l : bytes) (i : Z) : byte := nth (Z.to_nat i) l x00.

(** [l[i]], [l[lo:hi]], [l[lo:]], [l[:hi]] and [l[i] = b]. *)
Definition idx (l : bytes) (i : Z) : go byte :=
  if decide (0 <= i < len l) then Val (byte_at l i) else Panic.
Definition sub (l : bytes) (lo hi : Z) : bytes :=
  take (Z.to_nat (hi - lo)) (drop (Z.to_nat lo) l).
Definition slice (l : bytes) (lo hi : Z) : go bytes :=
  if decide (0 <= lo <= hi /\ hi <= len l) then Val (sub l lo hi) else Panic.
Definition slice_from (l : bytes) (lo : Z) : go bytes := slice l lo (len l).
Definition slice_to (l : bytes) (hi : Z) : go bytes := slice l 0 hi.
Definition upd (l : bytes) (i : Z) (b : byte) : bytes := <[Z.to_nat i := b]> l.
Definition store (l : bytes) (i : Z) (b : byte) : go bytes :=
  if decide (0 <= i < len l) then Val (upd l i b) else Panic.

(** [make([]byte, n)] and [copy(dst[lo:hi], src)], which copies as many bytes
    as the shorter of the two slices holds. *)
Definition make (n : Z) : go bytes :=
  if decide (0 <= n) then Val (replicate (Z.to_nat n) x00) else Panic.
Definition copied (dst : bytes) (lo n : Z) (src : bytes) : bytes :=
  take (Z.to_nat lo) dst ++ take (Z.to_nat n) src ++ drop (Z.to_nat (lo + n)) dst.
Definition copy_slice (dst : bytes) (lo hi : Z) (src : bytes) : go bytes :=
  if decide (0 <= lo <= hi /\ hi <= len dst)
  then Val (copied dst lo (Z.min (hi - lo) (len src)) src) else Panic.
Definition copy_from (dst : bytes) (lo : Z) (src : bytes) : go bytes :=
  copy_slice dst lo (len dst) src.

(** [encoding/binary.BigEndian] on a slice. *)
Definition be16 (b0 b1 : byte) : Z := Z.lor (u8 b1) (Z.shiftl (u8 b0) 8).
Definition be32 (b0 b1 b2 b3 : byte) : Z :=
  Z.lor (u8 b3) (Z.lor (Z.shiftl (u8 b2) 8) (Z.lor (Z.shiftl (u8 b1) 16) (Z.shiftl (u8 b0) 24))).
Definition BigEndian_Uint16 (s : bytes) : go Z :=
  b1 ← idx s 1; b0 ← idx s 0; mret (be16 b0 b1).
Definition BigEndian_Uint32 (s : bytes) : go Z :=
  b3 ← idx s 3; b2 ← idx s 2; b1 ← idx s 1; b0 ← idx s 0; mret (be32 b0 b1 b2 b3).
(** [PutUint16(l[i:i+2], v)] writes through the slice into [l]. *)
Definition PutUint16 (l : bytes) (i v : Z) : go bytes :=
  _ ← slice l i (i + 2);
  l ← store l i (to_byte (Z.shiftr v 8));
  store l (i + 1) (to_byte v).
Definition PutUint32 (l : bytes) (i v : Z) : go bytes :=
  _ ← slice l i (i + 4);
  l ← store l i (to_byte (Z.shiftr v 24));
  l ← store l (i + 1) (to_byte (Z.shiftr v 16));
  l ← store l (i + 2) (to_byte (Z.shiftr v 8));
  store l (i + 3) (to_byte v).

(** ** Lemmas on slices *)

Lemma len_nonneg {A} (l : list A) : 0 <= len l.
Proof. unfold len. lia. Qed.
Lemma len_app {A} (l k : list A) : len (l ++ k) = len l + len k.
Proof. unfold len. rewrite length_app. lia. Qed.
Lemma len_cons {A} (x : A) (l : list A) : len (x :: l) = len l + 1.
Proof. unfold len. simpl. lia. Qed.
Lemma len_nil {A} : len (@nil A) = 0.
Proof. reflexivity. Qed.
Lemma len_take {A} n (l : list A) : 0 <= n <= len l -> len (take (Z.to_nat n) l) = n.
Proof. unfold len. intros. rewrite length_take. lia. Qed.
Lemma len_drop {A} n (l : list A) : 0 <= n <= len l -> len (drop (Z.to_nat n) l) = len l - n.
Proof. unfold len. intros. rewrite length_drop. lia. Qed.
Lemma len_replicate {A} n (x : A) : 0 <= n -> len (replicate (Z.to_nat n) x) = n.
Proof. unfold len. intros. rewrite length_replicate. lia. Qed.
Lemma len_upd l i b : len (upd l i b) = len l.
Proof. unfold len, upd. by rewrite length_insert. Qed.

Create Rewrite HintDb len.
#[export] Hint Rewrite @len_app @len_cons @len_nil len_upd : len.
#[export] Hint Rewrite @len_take @len_drop @len_replicate using lia : len.

(** Solves length arithmetic over slices. *)
Ltac len_lia := autorewrite with len in *; pose proof (@len_nonneg); lia.

Lemma byte_at_lookup l i : 0 <= i < len l -> l !! Z.to_nat i = Some (byte_at l i).
Proof.
  unfold len, byte_at. intros Hi. rewrite nth_lookup. destruct (l !! Z.to_nat i) eqn:E; [done|].
  apply lookup_ge_None in E. lia.
Qed.
Lemma byte_at_of_lookup l (i : nat) b : l !! i = Some b -> byte_at l (Z.of_nat i) = b.
Proof. unfold byte_at. rewrite Nat2Z.id, nth_lookup. by intros ->. Qed.
Lemma bytes_ext l k :
  len l = len k -> (forall i, 0 <= i < len l -> byte_at l i = byte_at k i) -> l = k.
Proof.
  intros Hlen Hat. apply list_eq_same_length with (length l); unfold len in *; [lia|lia|].
  intros i x y Hi Hx Hy. apply byte_at_of_lookup in Hx, Hy.
  rewrite <-Hx, <-Hy. apply Hat. lia.
Qed.

Lemma byte_at_app_l l k i : 0 <= i < len l -> byte_at (l ++ k) i = byte_at l i.
Proof. unfold len, byte_at. intros. apply app_nth1. lia. Qed.
Lemma byte_at_app_r l k i : len l <= i -> byte_at (l ++ k) i = byte_at k (i - len l).
Proof.
  unfold len, byte_at. intros. rewrite app_nth2 by lia. f_equal. lia.
Qed.
Lemma byte_at_take l n i : 0 <= i < n -> byte_at (take (Z.to_nat n) l) i = byte_at l i.
Proof.
  unfold byte_at. intros. rewrite !nth_lookup. by rewrite lookup_take_lt by lia.
Qed.
Lemma byte_at_drop l n i : 0 <= n -> 0 <= i -> byte_at (drop (Z.to_nat n) l) i = byte_at l (n + i).
Proof.
  unfold byte_at. intros. rewrite !nth_lookup, lookup_drop. do 2 f_equal. lia.
Qed.
Lemma byte_at_upd_eq l i b : 0 <= i < len l -> byte_at (upd l i b) i = b.
Proof.
  unfold byte_at, upd, len. intros. by rewrite nth_lookup, list_lookup_insert_eq by lia.
Qed.
Lemma byte_at_upd_ne l i j b : 0 <= i -> 0 <= j -> i <> j -> byte_at (upd l i b) j = byte_at l j.
Proof.
  unfold byte_at, upd. intros. by rewrite !nth_lookup, list_lookup_insert_ne by lia.
Qed.
Lemma byte_at_replicate n i : byte_at (replicate n x00) i = x00.
Proof.
  unfold byte_at. generalize (Z.to_nat i) as k. revert n.
  induction n as [|n IH]; intros [|k]; simpl; auto.
Qed.

Lemma idx_val l i : 0 <= i < len l -> idx l i = Val (byte_at l i).
Proof. intros. unfold idx. by rewrite decide_True. Qed.
Lemma store_val l i b : 0 <= i < len l -> store l i b = Val (upd l i b).
Proof. intros. unfold store. by rewrite decide_True. Qed.
Lemma slice_val l lo hi :
  0 <= lo <= hi -> hi <= len l -> slice l lo hi = Val (sub l lo hi).
Proof. intros. unfold slice. by rewrite decide_True. Qed.
Lemma len_sub l lo hi : 0 <= lo <= hi -> hi <= len l -> len (sub l lo hi) = hi - lo.
Proof. intros. unfold sub. rewrite len_take; [done|]. rewrite len_drop; lia. Qed.
Lemma byte_at_sub l lo hi i :
  0 <= lo -> 0 <= i < hi - lo -> byte_at (sub l lo hi) i = byte_at l (lo + i).
Proof. intros. unfold sub. by rewrite byte_at_take, byte_at_drop by lia. Qed.
Lemma slice_from_val l lo : 0 <= lo <= len l -> slice_from l lo = Val (drop (Z.to_nat lo) l).
Proof.
  intros. unfold slice_from. rewrite slice_val by lia. f_equal.
  unfold sub. apply take_ge. rewrite length_drop. unfold len in *. lia.
Qed.
Lemma slice_to_val l hi : 0 <= hi <= len l -> slice_to l hi = Val (take (Z.to_nat hi) l).
Proof. intros. unfold slice_to. rewrite slice_val by lia. unfold sub. by rewrite Z.sub_0_r. Qed.
Lemma make_val n : 0 <= n -> make n = Val (replicate (Z.to_nat n) x00).
Proof. intros. unfold make. by rewrite decide_True. Qed.
Lemma copy_slice_val dst lo hi src :
  0 <= lo <= hi -> hi <= len dst ->
  copy_slice dst lo hi src = Val (copied dst lo (Z.min (hi - lo) (len src)) src).
Proof. intros. unfold copy_slice. by rewrite decide_True. Qed.
Lemma copy_from_val dst lo src :
  0 <= lo -> lo + len src <= len dst ->
  copy_from dst lo src = Val (copied dst lo (len src) src).
Proof.
  intros. unfold copy_from. pose proof (len_nonneg src). rewrite copy_slice_val by lia.
  by rewrite Z.min_r by lia.
Qed.
Lemma copy_slice_exact dst lo hi src :
  0 <= lo <= hi -> hi <= len dst -> len src = hi - lo ->
  copy_slice dst lo hi src = Val (copied dst lo (hi - lo) src).
Proof. intros ? ? Hs. rewrite copy_slice_val by lia. by rewrite Hs, Z.min_id. Qed.
Lemma copy_slice_fits dst lo hi src :
  0 <= lo -> lo + len src <= hi -> hi <= len dst ->
  copy_slice dst lo hi src = Val (copied dst lo (len src) src).
Proof.
  intros. pose proof (len_nonneg src). rewrite copy_slice_val by lia. by rewrite Z.min_r by lia.
Qed.
Lemma len_copied dst lo n src :
  0 <= lo -> 0 <= n <= len src -> lo + n <= len dst -> len (copied dst lo n src) = len dst.
Proof.
  intros. unfold copied. rewrite !len_app, !len_take, len_drop by lia. lia.
Qed.
Lemma byte_at_copied dst lo n src i :
  0 <= lo -> 0 <= n <= len src -> lo + n <= len dst -> 0 <= i ->
  byte_at (copied dst lo n src) i
  = if decide (lo <= i < lo + n) then byte_at src (i - lo) else byte_at dst i.
Proof.
  intros. unfold copied. destruct (decide (i < lo)).
  { rewrite decide_False, byte_at_app_l, byte_at_take by (rewrite ?len_take; lia). done. }
  rewrite byte_at_app_r, len_take by (rewrite ?len_take; lia).
  case_decide.
  - rewrite byte_at_app_l, byte_at_take by (rewrite ?len_take; lia). done.
  - rewrite byte_at_app_r, len_take, byte_at_drop by (rewrite ?len_take; lia).
    f_equal. lia.
Qed.

(** ** Big-endian words *)

Lemma be16_add b0 b1 : be16 b0 b1 = 256 * u8 b0 + u8 b1.
Proof.
  unfold be16. pose proof (u8_range b0). pose proof (u8_range b1).
  rewrite Z.shiftl_mul_pow2 by lia.
  rewrite <-Z.add_nocarry_lor; [lia|].
  apply Z.bits_inj'. intros n Hn. rewrite Z.land_spec, Z.bits_0.
  destruct (decide (n < 8)).
  - rewrite (Z.mul_pow2_bits_low _ 8) by lia. by rewrite andb_false_r.
  - rewrite <-(Z.mod_small (u8 b1) (2 ^ 8)) by lia.
    by rewrite Z.mod_pow2_bits_high by lia.
Qed.
Lemma be16_range b0 b1 : 0 <= be16 b0 b1 < 65536.
Proof. rewrite be16_add. pose proof (u8_range b0). pose proof (u8_range b1). lia. Qed.
Lemma be16_to_byte v : be16 (to_byte (Z.shiftr v 8)) (to_byte v) = wrapU16 v.
Proof.
  rewrite be16_add, !u8_to_byte. unfold wrapU8, wrapU16.
  rewrite Z.shiftr_div_pow2 by lia. change (2 ^ 16) with (2 ^ 8 * 2 ^ 8).
  rewrite Z.rem_mul_r by lia. lia.
Qed.

Definition u16_at (l : bytes) (i : Z) : Z := be16 (byte_at l i) (byte_at l (i + 1)).
Definition u32_at (l : bytes) (i : Z) : Z :=
  be32 (byte_at l i) (byte_at l (i + 1)) (byte_at l (i + 2)) (byte_at l (i + 3)).
Definition put16 (l : bytes) (i v : Z) : bytes :=
  upd (upd l i (to_byte (Z.shiftr v 8))) (i + 1) (to_byte v).
Definition put32 (l : bytes) (i v : Z) : bytes :=
  put16 (put16 l i (Z.shiftr v 16)) (i + 2) v.

Lemma u16_at_range l i : 0 <= u16_at l i < 65536.
Proof. apply be16_range. Qed.
Lemma len_put16 l i v : len (put16 l i v) = len l.
Proof. unfold put16. by rewrite !len_upd. Qed.
Lemma len_put32 l i v : len (put32 l i v) = len l.
Proof. unfold put32. by rewrite !len_put16. Qed.
#[export] Hint Rewrite len_put16 len_put32 : len.

Lemma PutUint16_val l i v :
  0 <= i -> i + 2 <= len l -> PutUint16 l i v = Val (put16 l i v).
Proof.
  intros. unfold PutUint16. rewrite slice_val, bind_val by lia.
  rewrite store_val, bind_val by lia. by rewrite store_val by (rewrite len_upd; lia).
Qed.
Lemma PutUint32_val l i v :
  0 <= i -> i + 4 <= len l -> PutUint32 l i v = Val (put32 l i v).
Proof.
  intros. unfold PutUint32, put32, put16. rewrite slice_val, bind_val by lia.
  do 3 (rewrite store_val, bind_val by (rewrite ?len_upd; lia)).
  rewrite store_val by (rewrite ?len_upd; lia).
  rewrite Z.shiftr_shiftr by lia. by rewrite <-Z.add_assoc.
Qed.
Lemma slice_Uint16 l i :
  0 <= i -> i + 2 <= len l -> (slice l i (i + 2) ≫= BigEndian_Uint16) = Val (u16_at l i).
Proof.
  intros. rewrite slice_val, bind_val by lia. unfold BigEndian_Uint16.
  rewrite !idx_val by (rewrite len_sub; lia).
  rewrite !bind_val, !byte_at_sub by lia.
  unfold u16_at. by rewrite Z.add_0_r.
Qed.
Lemma slice_Uint32 l i :
  0 <= i -> i + 4 <= len l -> (slice l i (i + 4) ≫= BigEndian_Uint32) = Val (u32_at l i).
Proof.
  intros. rewrite slice_val, bind_val by lia. unfold BigEndian_Uint32.
  rewrite !idx_val by (rewrite len_sub; lia).
  rewrite !bind_val, !byte_at_sub by lia.
  unfold u32_at. by rewrite Z.add_0_r.
Qed.
Lemma byte_at_put16_ne l i v j :
  0 <= i -> 0 <= j -> j <> i -> j <> i + 1 -> byte_at (put16 l i v) j = byte_at l j.
Proof. intros. unfold put16. by rewrite !byte_at_upd_ne by lia. Qed.
Lemma u16_at_put16_eq l i v :
  0 <= i -> i + 2 <= len l -> u16_at (put16 l i v) i = wrapU16 v.
Proof.
  intros. unfold u16_at, put16.
  rewrite byte_at_upd_ne, byte_at_upd_eq by lia.
  rewrite byte_at_upd_eq by (rewrite len_upd; lia). apply be16_to_byte.
Qed.
Lemma u16_at_put16_ne l i v j :
  0 <= i -> 0 <= j -> j + 2 <= i \/ i + 2 <= j -> u16_at (put16 l i v) j = u16_at l j.
Proof. intros. unfold u16_at. by rewrite !byte_at_put16_ne by lia. Qed.
Lemma byte_at_put32_ne l i v j :
  0 <= i -> 0 <= j -> j < i \/ i + 4 <= j -> byte_at (put32 l i v) j = byte_at l j.
Proof. intros. unfold put32. by rewrite !byte_at_put16_ne by lia. Qed.

(** Disjoint bit ranges: [lor] is addition. *)
Lemma lor_shiftl_add a b n : 0 <= n -> 0 <= a < 2 ^ n -> Z.lor a (Z.shiftl b n) = a + b * 2 ^ n.
Proof.
  intros Hn Ha. rewrite Z.shiftl_mul_pow2 by lia. rewrite <-Z.add_nocarry_lor; [done|].
  apply Z.bits_inj'. intros k Hk. rewrite Z.land_spec, Z.bits_0.
  destruct (decide (k < n)).
  - rewrite (Z.mul_pow2_bits_low _ n) by lia. by rewrite andb_false_r.
  - rewrite <-(Z.mod_small a (2 ^ n)) by lia. by rewrite Z.mod_pow2_bits_high by lia.
Qed.
Lemma u32_at_u16 l i : u32_at l i = 65536 * u16_at l i + u16_at l (i + 2).
Proof.
  unfold u32_at, u16_at, be32. rewrite !be16_add. replace (i + 2 + 1) with (i + 3) by lia.
  set (b0 := byte_at l i). set (b1 := byte_at l (i + 1)).
  set (b2 := byte_at l (i + 2)). set (b3 := byte_at l (i + 3)).
  pose proof (u8_range b0). pose proof (u8_range b1).
  pose proof (u8_range b2). pose proof (u8_range b3).
  rewrite !Z.lor_assoc.
  rewrite (lor_shiftl_add (u8 b3)) by lia.
  rewrite (lor_shiftl_add _ (u8 b1)) by lia.
  rewrite (lor_shiftl_add _ (u8 b0)) by lia. lia.
Qed.
Lemma u32_at_range l i : 0 <= u32_at l i < 2 ^ 32.
Proof.
  rewrite u32_at_u16. pose proof (u16_at_range l i). pose proof (u16_at_range l (i + 2)). lia.
Qed.
Lemma u32_at_put32_eq l i v :
  0 <= i -> i + 4 <= len l -> u32_at (put32 l i v) i = wrapU32 v.
Proof.
  intros. rewrite u32_at_u16. unfold put32.
  rewrite u16_at_put16_ne, !u16_at_put16_eq by (rewrite ?len_put16; lia).
  unfold wrapU16, wrapU32. rewrite Z.shiftr_div_pow2 by lia.
  change (2 ^ 32) with (2 ^ 16 * 2 ^ 16). rewrite Z.rem_mul_r by lia. lia.
Qed.
Lemma u32_at_put16_ne l i v j :
  0 <= i -> 0 <= j -> j + 4 <= i \/ i + 2 <= j -> u32_at (put16 l i v) j = u32_at l j.
Proof. intros. unfold u32_at. by rewrite !byte_at_put16_ne by lia. Qed.

Lemma u16_at_drop l k i : 0 <= k -> 0 <= i -> u16_at (drop (Z.to_nat k) l) i = u16_at l (k + i).
Proof. intros. unfold u16_at. rewrite !byte_at_drop by lia. by rewrite Z.add_assoc. Qed.
Lemma u32_at_drop l k i : 0 <= k -> 0 <= i -> u32_at (drop (Z.to_nat k) l) i = u32_at l (k + i).
Proof. intros. unfold u32_at. rewrite !byte_at_drop by lia. by rewrite !Z.add_assoc. Qed.
Lemma u16_at_sub l lo hi i :
  0 <= lo -> 0 <= i -> i + 2 <= hi - lo -> u16_at (sub l lo hi) i = u16_at l (lo + i).
Proof. intros. unfold u16_at. rewrite !byte_at_sub by lia. by rewrite Z.add_assoc. Qed.
Lemma u32_at_sub l lo hi i :
  0 <= lo -> 0 <= i -> i + 4 <= hi - lo -> u32_at (sub l lo hi) i = u32_at l (lo + i).
Proof. intros. unfold u32_at. rewrite !byte_at_sub by lia. by rewrite !Z.add_assoc. Qed.

(** ** Stepping through in-bounds computations *)

Lemma bind_eq {A B} (m : go A) (f : A -> go B) a r : m = Val a -> f a = r -> (m ≫= f) = r.
Proof. by intros -> <-. Qed.

(** Bounds: lengths of updated and re-sliced slices, then [lia]. *)
Ltac go_bounds :=
  repeat first [rewrite len_put16 | rewrite len_put32 | rewrite len_upd | rewrite len_app];
  repeat first [rewrite len_drop by go_bounds | rewrite len_take by go_bounds
               | rewrite len_sub by go_bounds | rewrite len_replicate by go_bounds
               | rewrite len_copied by go_bounds];
  lia.
Ltac go_val :=
  first
    [ reflexivity
    | apply idx_val; go_bounds
    | apply store_val; go_bounds
    | apply slice_from_val; go_bounds
    | apply slice_to_val; go_bounds
    | apply slice_Uint16; go_bounds
    | apply slice_Uint32; go_bounds
    | apply PutUint16_val; go_bounds
    | apply PutUint32_val; go_bounds
    | apply slice_val; go_bounds
    | apply copy_from_val; go_bounds
    | apply copy_slice_exact; go_bounds
    | apply copy_slice_fits; go_bounds
    | apply make_val; go_bounds ].
(** One bind of the code; [go_guard] enters the next [if] of the code. *)
Ltac go_step := eapply bind_eq; [go_val | cbv beta zeta].
Ltac go_guard :=
  match goal with |- (if decide ?P then _ else _) = _ => destruct (decide P) end.
