(* ===== verification/Checksum.v ===== *)
(** The Internet checksum ([internetChecksum] of [internal/payload.go]) and
    what it promises: the abstract ones'-complement sum of 16-bit words, the
    validity test a receiver applies, and the lemma that writing the checksum
    into a zeroed 16-bit field makes the data valid. *)

From S2P Require Import Prelude.
Open Scope Z_scope.

(** ** The code *)

(** [for len(data) >= 2 { sum += ...; data = data[2:] }] followed by the odd
    last byte; [sum] is a [uint32]. *)
Fixpoint sumWords (sum : Z) (data : bytes) : Z :=
  match data with
  | b0 :: b1 :: rest => sumWords (wrapU32 (sum + be16 b0 b1)) rest
  | [b] => wrapU32 (sum + wrapU32 (Z.shiftl (u8 b) 8))
  | [] => sum
  end.

(** [for sum>>16 != 0 { sum = (sum & 0xffff) + (sum >> 16) }]; [fuel] bounds
    the number of loop tests, three are enough by [foldCarries_spec]. *)
Fixpoint foldCarries (fuel : nat) (sum : Z) : Z :=
  match fuel with
  | O => sum
  | S fuel' =>
      if Z.shiftr sum 16 =? 0 then sum
      else foldCarries fuel' (wrapU32 (Z.land sum 0xffff + Z.shiftr sum 16))
  end.

Definition internetChecksum (data : bytes) : Z :=
  notU16 (wrapU16 (foldCarries 3 (sumWords 0 data))).

(** ** Specification *)

(** The exact sum of the big-endian 16-bit words, an odd last byte padded with
    a zero byte. *)
Fixpoint word_sum (data : bytes) : Z :=
  match data with
  | b0 :: b1 :: rest => 256 * u8 b0 + u8 b1 + word_sum rest
  | [b] => 256 * u8 b
  | [] => 0
  end.

(** The ones'-complement 16-bit representative of a natural number: sums are
    taken modulo 65535, and only the number zero is represented by zero. *)
Definition ones_complement (s : Z) : Z := if s =? 0 then 0 else 1 + (s - 1) mod 65535.

(** What a receiver checks (RFC 1071): the ones'-complement sum of the data,
    checksum field included, is all ones. The code's own routine plays no part
    in it. *)
Definition checksum_valid (data : bytes) : Prop := ones_complement (word_sum data) = 0xffff.

(** The pseudo header and segment over which the TCP checksum is taken, for an
    IPv4 packet whose header is [ihl] bytes long. *)
Definition tcp_pseudo (packet : bytes) (ihl : Z) : bytes :=
  take 4 (drop 12 packet) ++ take 4 (drop 16 packet)
  ++ [x00; x06; to_byte (Z.shiftr (len packet - ihl) 8); to_byte (len packet - ihl)]
  ++ drop (Z.to_nat ihl) packet.
Definition ip_checksum_ok (packet : bytes) (ihl : Z) : Prop :=
  checksum_valid (take (Z.to_nat ihl) packet).
Definition tcp_checksum_ok (packet : bytes) (ihl : Z) : Prop :=
  checksum_valid (tcp_pseudo packet ihl).

(** ** The loops *)

(** Induction two bytes at a time. *)
Lemma pairs_ind (P : bytes -> Prop) :
  P [] -> (forall b, P [b]) -> (forall b0 b1 l, P l -> P (b0 :: b1 :: l)) -> forall l, P l.
Proof.
  intros H0 H1 H2 l.
  assert (P l /\ forall b, P (b :: l)) as [? _]; [|done].
  induction l as [|b l [IHl IHc]]; split; auto.
Qed.

Lemma word_sum_nonneg data : 0 <= word_sum data.
Proof.
  induction data as [|b|b0 b1 l IH] using pairs_ind; simpl; [lia| |].
  - pose proof (u8_range b). lia.
  - pose proof (u8_range b0). pose proof (u8_range b1). lia.
Qed.
Lemma word_sum_bound data : 2 * word_sum data <= 65535 * (len data + 1).
Proof.
  induction data as [|b|b0 b1 l IH] using pairs_ind; cbn [word_sum]; rewrite ?len_cons.
  - pose proof (len_nonneg (@nil byte)). lia.
  - pose proof (u8_range b). pose proof (len_nonneg (@nil byte)). lia.
  - pose proof (u8_range b0). pose proof (u8_range b1). lia.
Qed.
(** No 16-bit length IPv4 packet (with or without a pseudo header) can overflow
    the 32-bit accumulator. *)
Lemma word_sum_32 data : len data <= 131072 -> 0 <= word_sum data < 2 ^ 32.
Proof. intros H. pose proof (word_sum_nonneg data). pose proof (word_sum_bound data). lia. Qed.

Lemma sumWords_exact data : forall sum,
  0 <= sum -> sum + word_sum data < 2 ^ 32 -> sumWords sum data = sum + word_sum data.
Proof.
  induction data as [|b|b0 b1 l IH] using pairs_ind; intros sum Hs Hlt; cbn [sumWords word_sum] in *.
  - lia.
  - pose proof (u8_range b). rewrite Z.shiftl_mul_pow2 by lia. change (2 ^ 8) with 256.
    rewrite (wrapU32_small (u8 b * 256)), wrapU32_small by lia. lia.
  - rewrite be16_add. pose proof (u8_range b0). pose proof (u8_range b1). pose proof (word_sum_nonneg l).
    rewrite wrapU32_small by lia. rewrite IH by lia. lia.
Qed.

(** The end-around carry loop: one fold preserves the ones'-complement value. *)
Lemma ones_complement_range s : 0 <= s -> 0 <= ones_complement s <= 65535.
Proof.
  intros. unfold ones_complement. case_match; [lia|].
  pose proof (Z.mod_pos_bound (s - 1) 65535 ltac:(lia)). lia.
Qed.
Lemma ones_complement_small s : 0 <= s <= 65535 -> ones_complement s = s.
Proof.
  intros. unfold ones_complement. destruct (Z.eqb_spec s 0); [lia|].
  rewrite Z.mod_small; lia.
Qed.
Lemma ones_complement_fold s :
  65536 <= s -> ones_complement (s mod 65536 + s / 65536) = ones_complement s.
Proof.
  intros Hs. unfold ones_complement.
  pose proof (Z.div_mod s 65536 ltac:(lia)) as Hdm.
  pose proof (Z.mod_pos_bound s 65536 ltac:(lia)).
  assert (1 <= s / 65536) by (apply Z.div_le_lower_bound; lia).
  destruct (Z.eqb_spec (s mod 65536 + s / 65536) 0), (Z.eqb_spec s 0); try lia.
  f_equal. replace (s - 1) with (s mod 65536 + s / 65536 - 1 + s / 65536 * 65535) by lia.
  by rewrite Z.mod_add by lia.
Qed.
Lemma carry_step s :
  0 <= s < 2 ^ 32 ->
  wrapU32 (Z.land s 0xffff + Z.shiftr s 16) = s mod 65536 + s / 65536.
Proof.
  intros. change 0xffff with (Z.ones 16).
  rewrite Z.land_ones, Z.shiftr_div_pow2 by lia. change (2 ^ 16) with 65536.
  pose proof (Z.mod_pos_bound s 65536 ltac:(lia)).
  assert (s / 65536 < 65536) by (apply Z.div_lt_upper_bound; lia).
  assert (0 <= s / 65536) by (apply Z.div_pos; lia).
  apply wrapU32_small. lia.
Qed.
Lemma shiftr16_eqb s : 0 <= s -> (Z.shiftr s 16 =? 0) = (s <? 65536).
Proof.
  intros. rewrite Z.shiftr_div_pow2 by lia. change (2 ^ 16) with 65536.
  destruct (Z.ltb_spec s 65536).
  - by rewrite Z.div_small by lia.
  - apply Z.eqb_neq. assert (1 <= s / 65536) by (apply Z.div_le_lower_bound; lia). lia.
Qed.

(** Each fold strictly decreases the accumulator. *)
Lemma carry_decreases s : 65536 <= s -> s mod 65536 + s / 65536 < s.
Proof.
  intros. pose proof (Z.div_mod s 65536 ltac:(lia)).
  assert (1 <= s / 65536) by (apply Z.div_le_lower_bound; lia). lia.
Qed.

Lemma foldCarries_spec s : 0 <= s < 2 ^ 32 -> foldCarries 3 s = ones_complement s.
Proof.
  intros Hs. unfold foldCarries. rewrite shiftr16_eqb by lia.
  destruct (Z.ltb_spec s 65536); [by rewrite ones_complement_small by lia|].
  rewrite carry_step by lia. rewrite <-ones_complement_fold by lia.
  set (s1 := s mod 65536 + s / 65536).
  assert (0 <= s1 <= 131070).
  { subst s1. pose proof (Z.mod_pos_bound s 65536 ltac:(lia)).
    assert (s / 65536 < 65536) by (apply Z.div_lt_upper_bound; lia).
    assert (0 <= s / 65536) by (apply Z.div_pos; lia). lia. }
  rewrite shiftr16_eqb by lia.
  destruct (Z.ltb_spec s1 65536); [by rewrite ones_complement_small by lia|].
  rewrite carry_step by lia. rewrite <-ones_complement_fold by lia.
  set (s2 := s1 mod 65536 + s1 / 65536).
  assert (0 <= s2 < 65536).
  { clearbody s1. pose proof (Z.div_mod s1 65536 ltac:(lia)).
    pose proof (Z.mod_pos_bound s1 65536 ltac:(lia)). subst s2. lia. }
  rewrite shiftr16_eqb by lia. rewrite ones_complement_small by lia.
  by destruct (Z.ltb_spec s2 65536); [|lia].
Qed.

Lemma internetChecksum_spec data :
  word_sum data < 2 ^ 32 ->
  internetChecksum data = 65535 - ones_complement (word_sum data).
Proof.
  intros H. pose proof (word_sum_nonneg data). unfold internetChecksum.
  rewrite sumWords_exact by lia. rewrite Z.add_0_l, foldCarries_spec by lia.
  pose proof (ones_complement_range (word_sum data) ltac:(lia)).
  rewrite wrapU16_small by lia. by apply notU16_sub; lia.
Qed.

(** ** Validity *)

Lemma checksum_valid_iff data :
  checksum_valid data <-> 0 < word_sum data /\ word_sum data mod 65535 = 0.
Proof.
  pose proof (word_sum_nonneg data). unfold checksum_valid.
  generalize dependent (word_sum data). intros s Hs.
  unfold ones_complement. destruct (Z.eqb_spec s 0) as [->|]; [lia|].
  pose proof (Z.mod_pos_bound (s - 1) 65535 ltac:(lia)).
  pose proof (Z.div_mod (s - 1) 65535 ltac:(lia)).
  split.
  - intros. split; [lia|]. symmetry. apply Z.mod_unique with ((s - 1) / 65535 + 1); lia.
  - intros [_ Hm]. apply Z.mod_divide in Hm; [|lia]. destruct Hm as [q ->].
    assert ((q * 65535 - 1) mod 65535 = 65534) as ->; [|lia].
    symmetry. apply Z.mod_unique with (q - 1); lia.
Qed.
(** The receiver may run the same routine over the data: it yields zero. *)
Lemma checksum_valid_zero data :
  word_sum data < 2 ^ 32 -> checksum_valid data <-> internetChecksum data = 0.
Proof. intros H. unfold checksum_valid. rewrite internetChecksum_spec by done. lia. Qed.

(** Words at even offsets contribute independently to the sum. *)
Lemma word_sum_upd2 data : forall (k : nat) a b,
  2 * Z.of_nat k + 2 <= len data ->
  word_sum (upd (upd data (2 * Z.of_nat k) a) (2 * Z.of_nat k + 1) b)
  = word_sum data - u16_at data (2 * Z.of_nat k) + be16 a b.
Proof.
  induction data as [|c|c0 c1 l IH] using pairs_ind; intros k a b Hk.
  - change (len (@nil byte)) with 0 in Hk. lia.
  - change (len [c]) with 1 in Hk. lia.
  - destruct k as [|k].
    + change (2 * Z.of_nat 0) with 0. unfold upd, u16_at, byte_at. simpl. rewrite !be16_add. lia.
    + rewrite !len_cons in Hk. specialize (IH k a b ltac:(lia)).
      unfold upd, u16_at, byte_at in *.
      replace (Z.to_nat (2 * Z.of_nat (S k))) with (S (S (Z.to_nat (2 * Z.of_nat k)))) by lia.
      replace (Z.to_nat (2 * Z.of_nat (S k) + 1))
        with (S (S (Z.to_nat (2 * Z.of_nat k + 1)))) by lia.
      simpl. lia.
Qed.
Lemma word_sum_put16 data i v :
  0 <= i -> Z.even i = true -> i + 2 <= len data ->
  word_sum (put16 data i v) = word_sum data - u16_at data i + wrapU16 v.
Proof.
  intros Hi He Hlen. apply Z.even_spec in He. destruct He as [k ->].
  unfold put16. rewrite <-(Z2Nat.id k) in * by lia.
  rewrite word_sum_upd2 by lia. by rewrite be16_to_byte.
Qed.

Lemma ones_complement_fill s :
  0 <= s ->
  0 < s + (65535 - ones_complement s) /\ (s + (65535 - ones_complement s)) mod 65535 = 0.
Proof.
  intros Hs. unfold ones_complement. destruct (Z.eqb_spec s 0) as [->|]; [done|].
  pose proof (Z.mod_pos_bound (s - 1) 65535 ltac:(lia)).
  pose proof (Z.div_mod (s - 1) 65535 ltac:(lia)).
  split; [lia|]. symmetry. apply Z.mod_unique with ((s - 1) / 65535 + 1); lia.
Qed.

(** Storing the checksum of data whose checksum field is zero makes the data
    pass the receiver's check. *)
Lemma checksum_fill data i :
  0 <= i -> Z.even i = true -> i + 2 <= len data -> len data <= 131070 ->
  u16_at data i = 0 -> checksum_valid (put16 data i (internetChecksum data)).
Proof.
  intros Hi He Hlen Hmax Hz. pose proof (word_sum_nonneg data). pose proof (word_sum_bound data).
  pose proof (ones_complement_range (word_sum data) ltac:(lia)).
  assert (Hsum : word_sum (put16 data i (internetChecksum data))
                 = word_sum data + (65535 - ones_complement (word_sum data))).
  { rewrite word_sum_put16, Hz, internetChecksum_spec by (done || lia).
    rewrite wrapU16_small by lia. lia. }
  destruct (ones_complement_fill (word_sum data)) as [Hpos Hmod]; [done|].
  apply checksum_valid_iff. by rewrite Hsum.
Qed.

(** The [uint16] checksum as a value. *)
Lemma internetChecksum_range data : 0 <= internetChecksum data < 65536.
Proof.
  unfold internetChecksum. rewrite notU16_sub by apply wrapU16_range.
  pose proof (wrapU16_range (foldCarries 3 (sumWords 0 data))). lia.
Qed.

(** ** The pseudo header *)

Lemma len_tcp_pseudo p ihl :
  20 <= ihl <= len p -> len (tcp_pseudo p ihl) = 12 + (len p - ihl).
Proof.
  intros. unfold tcp_pseudo. rewrite !len_app, !len_cons.
  change (take 4 (drop 12 p)) with (take (Z.to_nat 4) (drop (Z.to_nat 12) p)).
  change (take 4 (drop 16 p)) with (take (Z.to_nat 4) (drop (Z.to_nat 16) p)).
  rewrite !len_take, len_drop by (rewrite ?len_drop; lia).
  change (len (@nil byte)) with 0. lia.
Qed.
(** Byte [j] of the pseudo segment, for a 4-byte [part] at offset [off]. *)
Definition tcp_pseudo_byte (p : bytes) (ihl j : Z) : byte :=
  if decide (j < 8) then byte_at p (12 + j)
  else if decide (j = 8) then x00
  else if decide (j = 9) then x06
  else if decide (j = 10) then to_byte (Z.shiftr (len p - ihl) 8)
  else if decide (j = 11) then to_byte (len p - ihl)
  else byte_at p (ihl + (j - 12)).
Lemma byte_at_tcp_pseudo p ihl j :
  20 <= ihl <= len p -> 0 <= j -> byte_at (tcp_pseudo p ihl) j = tcp_pseudo_byte p ihl j.
Proof.
  intros Hi Hj. unfold tcp_pseudo, tcp_pseudo_byte.
  change (take 4 (drop 12 p)) with (take (Z.to_nat 4) (drop (Z.to_nat 12) p)).
  change (take 4 (drop 16 p)) with (take (Z.to_nat 4) (drop (Z.to_nat 16) p)).
  destruct (decide (j < 4)).
  { rewrite byte_at_app_l, byte_at_take, byte_at_drop, decide_True
      by (rewrite ?len_take; rewrite ?len_drop; lia). done. }
  rewrite byte_at_app_r, len_take by (rewrite ?len_take; rewrite ?len_drop; lia).
  case_decide.
  { rewrite byte_at_app_l, byte_at_take, byte_at_drop
      by (rewrite ?len_take; rewrite ?len_drop; lia). f_equal. lia. }
  rewrite byte_at_app_r, len_take by (rewrite ?len_take; rewrite ?len_drop; lia).
  repeat (case_decide; [by subst|]).
  rewrite byte_at_app_r, !len_cons by (rewrite ?len_cons; change (len (@nil byte)) with 0; lia).
  change (len (@nil byte)) with 0. rewrite byte_at_drop by lia. f_equal. lia.
Qed.

(** Writing the checksum field commutes with building the pseudo segment. *)
Lemma tcp_pseudo_put16 p ihl v :
  20 <= ihl -> ihl + 20 <= len p ->
  tcp_pseudo (put16 p (ihl + 16) v) ihl = put16 (tcp_pseudo p ihl) 28 v.
Proof.
  intros Hi Hl. apply bytes_ext.
  { rewrite len_put16, !len_tcp_pseudo by (rewrite ?len_put16; lia). by rewrite len_put16. }
  intros j Hj. rewrite len_tcp_pseudo in Hj by (rewrite len_put16; lia).
  rewrite len_put16 in Hj. rewrite byte_at_tcp_pseudo by (rewrite ?len_put16; lia).
  unfold put16 at 2, tcp_pseudo_byte. rewrite len_put16.
  destruct (decide (j = 28)) as [->|]; [|destruct (decide (j = 29)) as [->|]].
  - rewrite !decide_False by lia. rewrite (byte_at_upd_ne _ (28 + 1)) by lia.
    rewrite byte_at_upd_eq by (rewrite len_tcp_pseudo; lia).
    unfold put16. replace (ihl + (28 - 12)) with (ihl + 16) by lia.
    rewrite byte_at_upd_ne, byte_at_upd_eq by lia. done.
  - rewrite !decide_False by lia.
    rewrite (byte_at_upd_eq _ (28 + 1)) by (rewrite len_upd, len_tcp_pseudo; lia).
    unfold put16. replace (ihl + (29 - 12)) with (ihl + 16 + 1) by lia.
    rewrite byte_at_upd_eq by (rewrite len_upd; lia). done.
  - rewrite !byte_at_upd_ne, byte_at_tcp_pseudo by lia. unfold tcp_pseudo_byte.
    repeat case_decide; try done; by rewrite byte_at_put16_ne by lia.
Qed.
