(* ===== verification/GoStrings.v ===== *)
(** The parts of Go's [strings], [strconv] and [fmt] packages the daemon's
    option and whitelist parsing relies on, over byte strings. *)

From S2P Require Import Prelude.
From Stdlib Require Import Ascii.
Open Scope Z_scope.

(** Byte value of a character, and the character of a byte value. *)
Definition code (c : ascii) : Z := Z.of_N (N_of_ascii c).
Definition chr (z : Z) : ascii := ascii_of_N (Z.to_N z).

Lemma code_range c : 0 <= code c < 256.
Proof. unfold code. pose proof (N_ascii_bounded c). lia. Qed.
Lemma code_chr z : 0 <= z < 256 -> code (chr z) = z.
Proof. intros. unfold code, chr. rewrite N_ascii_embedding by lia. lia. Qed.

(** Go string comparison [==] against a literal. *)
Definition seqb (s t : string) : bool := bool_decide (s = t).

(** * strings.TrimSpace *)

Definition ascii_space (z : Z) : bool := ((9 <=? z) && (z <=? 13)) || (z =? 32).
(** [unicode.IsSpace] on the two- and three-byte UTF-8 encodings: U+0085,
    U+00A0; U+1680, U+2000-U+200A, U+2028, U+2029, U+202F, U+205F, U+3000. *)
Definition space2 (a b : Z) : bool := (a =? 0xC2) && ((b =? 0x85) || (b =? 0xA0)).
Definition space3 (a b c : Z) : bool :=
  ((a =? 0xE1) && (b =? 0x9A) && (c =? 0x80))
  || ((a =? 0xE2) && (b =? 0x80)
      && (((0x80 <=? c) && (c <=? 0x8A)) || (c =? 0xA8) || (c =? 0xA9) || (c =? 0xAF)))
  || ((a =? 0xE2) && (b =? 0x81) && (c =? 0x9F))
  || ((a =? 0xE3) && (b =? 0x80) && (c =? 0x80)).

Fixpoint trim_left (s : string) : string :=
  match s with
  | EmptyString => s
  | String a s1 =>
      if ascii_space (code a) then trim_left s1
      else match s1 with
           | EmptyString => s
           | String b s2 =>
               if space2 (code a) (code b) then trim_left s2
               else match s2 with
                    | EmptyString => s
                    | String c s3 =>
                        if space3 (code a) (code b) (code c) then trim_left s3 else s
                    end
           end
  end.
(** The same from the right, on the reversed string. *)
Fixpoint trim_left_rev (s : string) : string :=
  match s with
  | EmptyString => s
  | String a s1 =>
      if ascii_space (code a) then trim_left_rev s1
      else match s1 with
           | EmptyString => s
           | String b s2 =>
               if space2 (code b) (code a) then trim_left_rev s2
               else match s2 with
                    | EmptyString => s
                    | String c s3 =>
                        if space3 (code c) (code b) (code a) then trim_left_rev s3 else s
                    end
           end
  end.
Definition trim_right (s : string) : string := String.rev (trim_left_rev (String.rev s)).
Definition TrimSpace (s : string) : string := trim_right (trim_left s).

(** * strings.Split and strings.Contains on a one-byte separator *)

Fixpoint Split (s : string) (sep : ascii) : list string :=
  match s with
  | EmptyString => [EmptyString]
  | String c rest =>
      if decide (c = sep) then EmptyString :: Split rest sep
      else match Split rest sep with
           | [] => [String c EmptyString]
           | part :: parts => String c part :: parts
           end
  end.
Fixpoint ContainsByte (s : string) (b : ascii) : bool :=
  match s with
  | EmptyString => false
  | String c rest => bool_decide (c = b) || ContainsByte rest b
  end.
(** [strings.Cut(s, sep)]: the parts around the first separator. *)
Fixpoint Cut (s : string) (sep : ascii) : option (string * string) :=
  match s with
  | EmptyString => None
  | String c rest =>
      if decide (c = sep) then Some (EmptyString, rest)
      else match Cut rest sep with
           | Some (before, after) => Some (String c before, after)
           | None => None
           end
  end.

(** * strconv.ParseUint(s, 0, bitSize) *)

(** [lower(c) = c | ('x' - 'X')]. *)
Definition lower (z : Z) : Z := Z.lor z 0x20.
Definition is_digit (z : Z) : bool := (48 <=? z) && (z <=? 57).

(** The digit loop with base prefix already removed; the boolean records
    whether an underscore was seen.  [None] stands for a syntax or range
    error. *)
Fixpoint parse_digits (base maxVal : Z) (s : string) (n : Z) (und : bool) : option (Z * bool) :=
  match s with
  | EmptyString => Some (n, und)
  | String c rest =>
      let z := code c in
      if z =? 95 then parse_digits base maxVal rest n true
      else
        let d := if is_digit z then Some (z - 48)
                 else if (97 <=? lower z) && (lower z <=? 122) then Some (lower z - 97 + 10)
                 else None in
        match d with
        | None => None
        | Some d =>
            if base <=? d then None
            else if MaxUint64 / base + 1 <=? n then None
            else let n := wrapU64 (n * base) in
                 let n1 := wrapU64 (n + d) in
                 if (n1 <? n) || (maxVal <? n1) then None
                 else parse_digits base maxVal rest n1 und
        end
  end.

(** [underscoreOK]: an underscore only between digits (or after the prefix);
    [saw] is the class of the previous character, '0' for a digit. *)
Inductive saw := SawStart | SawDigit | SawUnderscore | SawOther.
Fixpoint underscore_loop (hex : bool) (s : string) (st : saw) : bool :=
  match s with
  | EmptyString => match st with SawUnderscore => false | _ => true end
  | String c rest =>
      let z := code c in
      if is_digit z || (hex && (97 <=? lower z) && (lower z <=? 102))
      then underscore_loop hex rest SawDigit
      else if z =? 95
      then match st with SawDigit => underscore_loop hex rest SawUnderscore | _ => false end
      else match st with SawUnderscore => false | _ => underscore_loop hex rest SawOther end
  end.
Definition underscoreOK (s : string) : bool :=
  let s := match s with
           | String c rest => if (code c =? 45) || (code c =? 43) then rest else s
           | EmptyString => s
           end in
  match s with
  | String c0 (String c1 rest) =>
      if (code c0 =? 48)
         && ((lower (code c1) =? 98) || (lower (code c1) =? 111) || (lower (code c1) =? 120))
      then underscore_loop (lower (code c1) =? 120) rest SawDigit
      else underscore_loop false s SawStart
  | _ => underscore_loop false s SawStart
  end.

(** Base detection for base argument 0. *)
Definition base_prefix (s : string) : Z * string :=
  match s with
  | String c0 s1 =>
      if code c0 =? 48 then
        match s1 with
        | String c1 (String c2 s3) =>
            let l := lower (code c1) in
            if l =? 98 then (2, String c2 s3)
            else if l =? 111 then (8, String c2 s3)
            else if l =? 120 then (16, String c2 s3)
            else (8, s1)
        | _ => (8, s1)
        end
      else (10, s)
  | EmptyString => (10, s)
  end.
Definition ParseUint0 (s : string) (bitSize : Z) : option Z :=
  match s with
  | EmptyString => None
  | _ =>
      let '(base, digits) := base_prefix s in
      match parse_digits base (2 ^ bitSize - 1) digits 0 false with
      | None => None
      | Some (n, und) => if und && negb (underscoreOK s) then None else Some n
      end
  end.

(** * fmt's %x and decimal digits *)

Definition hex_digit (d : Z) : ascii := if d <? 10 then chr (48 + d) else chr (97 + (d - 10)).
(** Digits of [n], most significant first, prepended to [acc]; sixteen digits
    are enough for 64 bits. *)
Fixpoint hex_digits (fuel : nat) (n : Z) (acc : string) : string :=
  match fuel with
  | O => acc
  | S fuel' =>
      let acc := String (hex_digit (n mod 16)) acc in
      if n / 16 =? 0 then acc else hex_digits fuel' (n / 16) acc
  end.
Definition format_x (n : Z) : string := hex_digits 16 n EmptyString.

(** * Lemmas *)

Lemma ParseUint0_32_ex :
  map (fun s => ParseUint0 s 32)
    ["0x400"; "1024"; "0b101"; "0o17"; "017"; "0"; "0xFFFFFFFF"; "4294967296"; ""; "-1"; "1_000";
     "0x_1"; "1__0"; "_1"; "12z"; "0x"]%string
  = [Some 1024; Some 1024; Some 5; Some 15; Some 15; Some 0; Some 4294967295; None; None; None;
     Some 1000; Some 1; None; None; None; None].
Proof. vm_compute. reflexivity. Qed.

(** ** Hexadecimal round trip *)

Lemma parse_hex_digit d maxVal s n und :
  0 <= d < 16 -> 0 <= n -> n * 16 + d <= maxVal -> maxVal < 2 ^ 64 ->
  parse_digits 16 maxVal (String (hex_digit d) s) n und = parse_digits 16 maxVal s (n * 16 + d) und.
Proof.
  intros Hd Hn Hle Hmax. cbn [parse_digits].
  assert (Hc : (code (hex_digit d) =? 95) = false /\
    (if is_digit (code (hex_digit d)) then Some (code (hex_digit d) - 48)
     else if (97 <=? lower (code (hex_digit d))) && (lower (code (hex_digit d)) <=? 122)
          then Some (lower (code (hex_digit d)) - 97 + 10) else None) = Some d).
  { assert (exists k, d = Z.of_nat k /\ (k < 16)%nat) as (k & -> & Hk) by (exists (Z.to_nat d); lia).
    do 16 (destruct k as [|k]; [vm_compute; auto|]). lia. }
  destruct Hc as [-> ->].
  destruct (Z.leb_spec 16 d); [lia|].
  destruct (Z.leb_spec (MaxUint64 / 16 + 1) n).
  { change (MaxUint64 / 16 + 1) with 1152921504606846976 in *. lia. }
  rewrite (wrapU64_small (n * 16)), wrapU64_small by lia.
  destruct (Z.ltb_spec (n * 16 + d) (n * 16)); [lia|].
  destruct (Z.ltb_spec maxVal (n * 16 + d)); [lia|]. done.
Qed.
Lemma parse_hex_digits fuel n maxVal acc und :
  0 <= n <= maxVal -> maxVal < 2 ^ 64 -> n < 16 ^ Z.of_nat fuel -> fuel <> O ->
  parse_digits 16 maxVal (hex_digits fuel n acc) 0 und = parse_digits 16 maxVal acc n und.
Proof.
  revert n acc. induction fuel as [|fuel IH]; intros n acc Hn Hmax Hf Hne; [done|].
  cbn [hex_digits]. pose proof (Z.mod_pos_bound n 16 ltac:(lia)).
  pose proof (Z.div_mod n 16 ltac:(lia)).
  destruct (Z.eqb_spec (n / 16) 0) as [Hz|Hnz].
  - rewrite parse_hex_digit by lia. f_equal. lia.
  - rewrite Nat2Z.inj_succ, Z.pow_succ_r in Hf by lia.
    assert (0 <= n / 16) by (apply Z.div_pos; lia).
    rewrite IH; [|lia|done|apply Z.div_lt_upper_bound; lia|].
    + rewrite parse_hex_digit by lia. f_equal. lia.
    + intros ->. simpl in Hf. lia.
Qed.
Lemma hex_digits_head fuel n acc :
  fuel <> O -> exists c s, hex_digits fuel n acc = String c s.
Proof.
  revert n acc. induction fuel as [|fuel IH]; intros n acc Hf; [done|]. cbn [hex_digits].
  destruct (n / 16 =? 0); [by do 2 eexists|]. destruct fuel; [by do 2 eexists|]. by apply IH.
Qed.
Lemma ParseUint0_hex n : 0 <= n < 2 ^ 32 -> ParseUint0 ("0x" +:+ format_x n) 32 = Some n.
Proof.
  intros Hn. unfold format_x. pose proof (parse_hex_digits 16 n (2 ^ 32 - 1) EmptyString false) as Hp.
  destruct (hex_digits_head 16 n EmptyString) as (c & s & Hs); [done|]. rewrite Hs in Hp |- *.
  change ("0x" +:+ String c s) with (String "0" (String "x" (String c s))).
  unfold ParseUint0, base_prefix. change (code "0" =? 48) with true. cbv iota zeta.
  change (lower (code "x") =? 98) with false. change (lower (code "x") =? 111) with false.
  change (lower (code "x") =? 120) with true. cbv iota.
  rewrite Hp; [done|lia|lia| |done]. change (16 ^ Z.of_nat 16) with (2 ^ 64). lia.
Qed.

(** ** Trimming and splitting plain text *)

Fixpoint all_chars (P : ascii -> Prop) (s : string) : Prop :=
  match s with EmptyString => True | String c s => P c /\ all_chars P s end.
Lemma all_chars_impl (P Q : ascii -> Prop) s :
  (forall c, P c -> Q c) -> all_chars P s -> all_chars Q s.
Proof. intros HPQ. induction s; simpl; [done|]. intros [? ?]. auto. Qed.

Lemma all_chars_app P s t : all_chars P s -> all_chars P t -> all_chars P (s +:+ t).
Proof.
  induction s as [|c s IH]; intros Hs Ht; [done|].
  change (String c s +:+ t) with (String c (s +:+ t)). destruct Hs. split; auto.
Qed.
(** Printable ASCII: nothing that trimming removes. *)
Definition plain_char (c : ascii) : Prop := 33 <= code c <= 126.

Lemma not_space_plain c : plain_char c -> ascii_space (code c) = false.
Proof. unfold plain_char, ascii_space. lia. Qed.
Lemma not_space2_plain a b : plain_char a -> space2 (code a) b = false.
Proof. unfold plain_char, space2. lia. Qed.
Lemma not_space3_plain a b c : plain_char a -> space3 (code a) b c = false.
Proof. unfold plain_char, space3. lia. Qed.

Lemma trim_left_plain s : all_chars plain_char s -> trim_left s = s.
Proof.
  destruct s as [|a [|b [|c s]]]; simpl; try done; intros Hs;
    destruct Hs as (Ha & Hs); rewrite not_space_plain by done; [done|..];
    rewrite not_space2_plain by done; [done|]; by rewrite not_space3_plain.
Qed.
Lemma trim_left_rev_plain s : all_chars plain_char s -> trim_left_rev s = s.
Proof.
  destruct s as [|a [|b [|c s]]]; simpl; try done.
  - intros [Ha _]. by rewrite not_space_plain.
  - intros (Ha & Hb & _). by rewrite not_space_plain, not_space2_plain.
  - intros (Ha & Hb & Hc & _). by rewrite not_space_plain, not_space2_plain, not_space3_plain.
Qed.

Lemma rev_app_all P s t :
  all_chars P s -> all_chars P t -> all_chars P (String.rev_app s t).
Proof. revert t. induction s as [|c s IH]; intros t; simpl; [done|]. intros [? ?] ?. by apply IH. Qed.
Lemma rev_app_rev_app s t u :
  String.rev_app (String.rev_app s t) u = String.rev_app t (s +:+ u).
Proof.
  revert t. induction s as [|c s IH]; intros t; simpl; [done|]. rewrite IH. done.
Qed.
Lemma string_app_nil_r (s : string) : s +:+ EmptyString = s.
Proof.
  induction s as [|c s IH]; [done|].
  change (String c s +:+ EmptyString) with (String c (s +:+ EmptyString)). by rewrite IH.
Qed.
Lemma string_rev_rev s : String.rev (String.rev s) = s.
Proof. unfold String.rev. rewrite rev_app_rev_app. apply string_app_nil_r. Qed.

Lemma TrimSpace_plain s : all_chars plain_char s -> TrimSpace s = s.
Proof.
  intros Hs. unfold TrimSpace, trim_right. rewrite trim_left_plain by done.
  rewrite trim_left_rev_plain; [apply string_rev_rev|]. by apply rev_app_all.
Qed.

Lemma Split_one s sep : all_chars (fun c => c <> sep) s -> Split s sep = [s].
Proof.
  induction s as [|c s IH]; intros Hs; cbn [Split]; [done|]. destruct Hs as [Hc Hs].
  rewrite decide_False by done. by rewrite IH.
Qed.
Lemma Split_cons s t sep :
  all_chars (fun c => c <> sep) s -> Split (s +:+ String sep t) sep = s :: Split t sep.
Proof.
  induction s as [|c s IH]; intros Hs.
  - change (EmptyString +:+ String sep t) with (String sep t). cbn [Split]. by rewrite decide_True.
  - change (String c s +:+ String sep t) with (String c (s +:+ String sep t)). cbn [Split].
    destruct Hs as [Hc Hs]. rewrite decide_False by done. by rewrite IH.
Qed.

(** The characters of a hexadecimal number: plain, and no separator. *)
Definition hex_char (c : ascii) : Prop := plain_char c /\ c <> "/"%char.
Lemma hex_char_digit d : 0 <= d < 16 -> hex_char (hex_digit d).
Proof.
  intros Hd. assert (exists k, d = Z.of_nat k /\ (k < 16)%nat) as (k & -> & Hk)
    by (exists (Z.to_nat d); lia).
  do 16 (destruct k as [|k]; [split; [unfold plain_char; vm_compute; by split|done]|]). lia.
Qed.
Lemma hex_digits_chars fuel n acc : all_chars hex_char acc -> all_chars hex_char (hex_digits fuel n acc).
Proof.
  revert n acc. induction fuel as [|fuel IH]; intros n acc Hacc; cbn [hex_digits]; [done|].
  assert (all_chars hex_char (String (hex_digit (n mod 16)) acc))
    by (split; [apply hex_char_digit, Z.mod_pos_bound; lia|done]).
  destruct (n / 16 =? 0); [done|]. by apply IH.
Qed.
Lemma format_x_chars n : all_chars hex_char ("0x" +:+ format_x n).
Proof. apply all_chars_app; [repeat split; try done; unfold plain_char; vm_compute; done|by apply hex_digits_chars]. Qed.
