(* ===== verification/GoNet.v ===== *)
(** The parts of Go's [net] and [net/netip] packages used by the parsers and
    the whitelist: IP values, their textual form, address and CIDR parsing,
    and network membership. *)

From S2P Require Import Prelude GoStrings.
From Stdlib Require Import Ascii.
Open Scope Z_scope.

(** * net.IP *)

(** A [net.IP] is a byte slice of length 4 or 16; IPv4 addresses built by
    [net.IPv4] are 16 bytes long with the prefix [v4InV6Prefix]. *)
Definition v4InV6Prefix : bytes := replicate 10 x00 ++ [xff; xff].
Definition IPv4 (a b c d : byte) : bytes := v4InV6Prefix ++ [a; b; c; d].

(** [IP.To4]; [None] is Go's nil. *)
Definition To4 (ip : bytes) : option bytes :=
  if decide (length ip = 4%nat) then Some ip
  else if decide (length ip = 16%nat /\ take 12 ip = v4InV6Prefix) then Some (drop 12 ip)
  else None.

(** [appendDecimal] and [Addr.string4]: dotted decimal without leading zeros. *)
Definition digit (d : Z) : ascii := chr (48 + d).
Definition appendDecimal (x : Z) (rest : string) : string :=
  let rest := String (digit (x mod 10)) rest in
  let rest := if 10 <=? x then String (digit (x / 10 mod 10)) rest else rest in
  if 100 <=? x then String (digit (x / 100)) rest else rest.
Definition dot : ascii := "."%char.
Definition string4 (p4 : bytes) : string :=
  match p4 with
  | [a; b; c; d] =>
      appendDecimal (u8 a) (String dot (appendDecimal (u8 b) (String dot
        (appendDecimal (u8 c) (String dot (appendDecimal (u8 d) EmptyString))))))
  | _ => EmptyString
  end.
(** [IP.String] on IPv4 addresses, the only addresses the source prints. *)
Definition IP_String (ip : bytes) : string :=
  match To4 ip with Some p4 => string4 p4 | None => EmptyString end.

(** * netip.ParseAddr *)

Inductive Addr :=
| Addr4 (b : bytes)
| Addr6 (b : bytes) (zone : string).

(** [parseIPv4Fields]: [val] and [digLen] describe the current octet, [fields]
    the octets already read. *)
Fixpoint parseIPv4Fields (s : string) (val digLen : Z) (fields : bytes) : option bytes :=
  match s with
  | EmptyString =>
      if decide (len fields < 3) then None else Some (fields ++ [to_byte val])
  | String c rest =>
      let z := code c in
      if is_digit z then
        if (digLen =? 1) && (val =? 0) then None
        else let val := val * 10 + (z - 48) in
             if 255 <? val then None else parseIPv4Fields rest val (digLen + 1) fields
      else if z =? 46 then
        if (digLen =? 0) || seqb rest "" then None
        else if decide (len fields = 3) then None
        else parseIPv4Fields rest 0 0 (fields ++ [to_byte val])
      else None
  end.

(** One group of hexadecimal digits: value, digit count and the rest; [None]
    for a fifth digit. *)
Definition hex_val (z : Z) : option Z :=
  if is_digit z then Some (z - 48)
  else if (97 <=? z) && (z <=? 102) then Some (z - 97 + 10)
  else if (65 <=? z) && (z <=? 70) then Some (z - 65 + 10)
  else None.
Fixpoint hex_group (s : string) (off acc : Z) : option (Z * Z * string) :=
  match s with
  | EmptyString => Some (acc, off, s)
  | String c rest =>
      match hex_val (code c) with
      | None => Some (acc, off, s)
      | Some d => if 3 <? off then None else hex_group rest (off + 1) (acc * 16 + d)
      end
  end.

(** The group loop of [parseIPv6]; [room] is the number of 16-bit groups that
    still fit, so [i = 16 - 2 * room].  The result is the bytes read, the
    position of the ellipsis and the unread rest. *)
Fixpoint v6_groups (room : nat) (ip : bytes) (ellipsis : option nat) (s : string)
    : option (bytes * option nat * string) :=
  match room with
  | O => Some (ip, ellipsis, s)
  | S room' =>
      match hex_group s 0 0 with
      | None => None
      | Some (acc, off, rest) =>
          if off =? 0 then None
          else match rest with
          | EmptyString => Some (ip ++ [to_byte (Z.shiftr acc 8); to_byte acc], ellipsis, rest)
          | String c rest' =>
              if code c =? 46 then
                if negb (bool_decide (is_Some ellipsis)) && negb (len ip =? 12) then None
                else if 16 <? len ip + 4 then None
                else match parseIPv4Fields s 0 0 [] with
                     | None => None
                     | Some v4 => Some (ip ++ v4, ellipsis, EmptyString)
                     end
              else
                let ip := ip ++ [to_byte (Z.shiftr acc 8); to_byte acc] in
                if negb (code c =? 58) then None
                else match rest' with
                     | EmptyString => None
                     | String c2 rest'' =>
                         if code c2 =? 58 then
                           if bool_decide (is_Some ellipsis) then None
                           else match rest'' with
                                | EmptyString => Some (ip, Some (length ip), rest'')
                                | _ => v6_groups room' ip (Some (length ip)) rest''
                                end
                         else v6_groups room' ip ellipsis rest'
                     end
          end
      end
  end.

Definition v6_finish (ip : bytes) (ellipsis : option nat) (rest : string) : option bytes :=
  if negb (seqb rest "") then None
  else if decide (length ip < 16)%nat then
    match ellipsis with
    | None => None
    | Some e => Some (take e ip ++ replicate (16 - length ip) x00 ++ drop e ip)
    end
  else match ellipsis with Some _ => None | None => Some ip end.

Definition parseIPv6 (s0 : string) : option Addr :=
  let zoned := match Cut s0 "%"%char with
               | Some (s, zone) => if seqb zone "" then None else Some (s, zone)
               | None => Some (s0, EmptyString)
               end in
  match zoned with
  | None => None
  | Some (s, zone) =>
      let '(ellipsis, s) :=
        match s with
        | String c1 (String c2 rest) =>
            if (code c1 =? 58) && (code c2 =? 58) then (Some O, rest) else (None, s)
        | _ => (None, s)
        end in
      if bool_decide (is_Some ellipsis) && seqb s "" then Some (Addr6 (replicate 16 x00) zone)
      else match v6_groups 8 [] ellipsis s with
           | None => None
           | Some (ip, ellipsis, rest) =>
               match v6_finish ip ellipsis rest with
               | None => None
               | Some ip => Some (Addr6 ip zone)
               end
           end
  end.

(** The first of '.', ':' and '%' selects the parser. *)
Fixpoint ParseAddr_scan (s0 s : string) : option Addr :=
  match s with
  | EmptyString => None
  | String c rest =>
      if code c =? 46 then Addr4 <$> parseIPv4Fields s0 0 0 []
      else if code c =? 58 then parseIPv6 s0
      else if code c =? 37 then None
      else ParseAddr_scan s0 rest
  end.
Definition ParseAddr (s : string) : option Addr := ParseAddr_scan s s.

Definition As16 (a : Addr) : bytes :=
  match a with Addr4 b => v4InV6Prefix ++ b | Addr6 b _ => b end.
Definition Zone (a : Addr) : string :=
  match a with Addr4 _ => EmptyString | Addr6 _ z => z end.
Definition BitLen (a : Addr) : Z := match a with Addr4 _ => 32 | Addr6 _ _ => 128 end.

(** [net.ParseIP]; [None] is nil. *)
Definition ParseIP (s : string) : option bytes :=
  match ParseAddr s with
  | Some a => if seqb (Zone a) "" then Some (As16 a) else None
  | None => None
  end.

(** * Networks *)

Record IPNet := { IPNet_IP : bytes; IPNet_Mask : bytes }.

Fixpoint mask_bytes (l : nat) (n : Z) : bytes :=
  match l with
  | O => []
  | S l' => if 8 <=? n then xff :: mask_bytes l' (n - 8)
            else to_byte (Z.lxor (Z.shiftr 0xff n) 0xff) :: mask_bytes l' 0
  end.
Definition CIDRMask (ones bits : Z) : bytes := mask_bytes (Z.to_nat (bits / 8)) ones.

Definition byte_and (a b : byte) : byte := to_byte (Z.land (u8 a) (u8 b)).
Definition mask_ip (ip m : bytes) : bytes := zip_with byte_and ip m.

(** [dtoi]: the decimal prefix of a string, [None] when there is no digit or
    the number reaches [big = 0xFFFFFF]; the rest follows the number. *)
Fixpoint dtoi_loop (s : string) (n : Z) : option (Z * string) :=
  match s with
  | EmptyString => Some (n, s)
  | String c rest =>
      if is_digit (code c) then
        let n := n * 10 + (code c - 48) in
        if 0xFFFFFF <=? n then None else dtoi_loop rest n
      else Some (n, s)
  end.
Definition dtoi (s : string) : option (Z * string) :=
  match s with
  | String c _ => if is_digit (code c) then dtoi_loop s 0 else None
  | EmptyString => None
  end.

(** [net.ParseCIDR]: the address as 16 bytes and its network. *)
Definition ParseCIDR (s : string) : option (bytes * IPNet) :=
  match Cut s "/"%char with
  | None => None
  | Some (addr, mask) =>
      match ParseAddr addr, dtoi mask with
      | Some a, Some (n, rest) =>
          if seqb (Zone a) "" && seqb rest "" && (n <=? BitLen a)
          then let m := CIDRMask n (BitLen a) in
               let ip := As16 a in
               (* IP.Mask drops the IPv4-in-IPv6 prefix under a 4-byte mask *)
               let ip' := if decide (length m = 4%nat) then drop 12 ip else ip in
               Some (ip, {| IPNet_IP := mask_ip ip' m; IPNet_Mask := m |})
          else None
      | _, _ => None
      end
  end.

(** [networkNumberAndMask]. *)
Definition networkNumberAndMask (n : IPNet) : option (bytes * bytes) :=
  let ip := match To4 (IPNet_IP n) with Some p4 => Some p4
            | None => if decide (length (IPNet_IP n) = 16%nat) then Some (IPNet_IP n) else None
            end in
  match ip with
  | None => None
  | Some ip =>
      let m := IPNet_Mask n in
      if decide (length m = 4%nat)
      then if decide (length ip = 4%nat) then Some (ip, m) else None
      else if decide (length m = 16%nat)
      then if decide (length ip = 4%nat) then Some (ip, drop 12 m) else Some (ip, m)
      else None
  end.

Fixpoint masked_eqb (nn m x : bytes) : bool :=
  match nn, m, x with
  | n0 :: nn, m0 :: m, x0 :: x =>
      bool_decide (byte_and n0 m0 = byte_and x0 m0) && masked_eqb nn m x
  | _, _, _ => true
  end.
(** [IPNet.Contains]. *)
Definition IPNet_Contains (n : IPNet) (ip : bytes) : bool :=
  match networkNumberAndMask n with
  | None => bool_decide (default ip (To4 ip) = [])
  | Some (nn, m) =>
      let x := default ip (To4 ip) in
      bool_decide (length x = length nn) && masked_eqb nn m x
  end.

Lemma ParseIP_ex :
  map (fun s => IP_String <$> ParseIP s)
    ["192.0.2.1"; "0.0.0.0"; "255.255.255.255"; "::ffff:1.2.3.4"; "::FFFF:102:304"]%string
  = map Some ["192.0.2.1"; "0.0.0.0"; "255.255.255.255"; "1.2.3.4"; "1.2.3.4"]%string
  /\ map ParseIP ["192.0.2.999"; "1.2.3"; "1.2.3.4.5"; "01.2.3.4"; "1..2.3"; ""; "1.2.3.4 ";
                  "2001:db8::1::2"; "fe80::1%eth0"; "1:2:3:4:5:6:7"; ":::"; "12345::"]%string
     = replicate 12 None
  /\ ParseIP "2001:db8::1"
     = Some (map to_byte [0x20; 1; 0x0d; 0xb8; 0; 0; 0; 0; 0; 0; 0; 0; 0; 0; 0; 1]).
Proof. vm_compute. auto. Qed.

(** * Lemmas: dotted decimal round trip *)

Lemma code_digit d : 0 <= d <= 9 -> code (digit d) = 48 + d.
Proof. intros. unfold digit. apply code_chr. lia. Qed.
Lemma is_digit_digit d : 0 <= d <= 9 -> is_digit (code (digit d)) = true.
Proof. intros. rewrite code_digit by done. unfold is_digit. lia. Qed.

(** [appendDecimal] in three cases. *)
Lemma appendDecimal_cases x rest :
  0 <= x <= 255 ->
  (x <= 9 /\ appendDecimal x rest = String (digit x) rest)
  \/ (exists d1 d0, 1 <= d1 <= 9 /\ 0 <= d0 <= 9 /\ x = 10 * d1 + d0
      /\ appendDecimal x rest = String (digit d1) (String (digit d0) rest))
  \/ (exists d2 d1 d0, 1 <= d2 <= 2 /\ 0 <= d1 <= 9 /\ 0 <= d0 <= 9
      /\ x = 100 * d2 + 10 * d1 + d0
      /\ appendDecimal x rest
         = String (digit d2) (String (digit d1) (String (digit d0) rest))).
Proof.
  intros Hx. unfold appendDecimal.
  pose proof (Z.div_mod x 10 ltac:(lia)). pose proof (Z.mod_pos_bound x 10 ltac:(lia)).
  destruct (Z.leb_spec 10 x), (Z.leb_spec 100 x); try lia.
  - right. right. exists (x / 100), (x / 10 mod 10), (x mod 10).
    pose proof (Z.div_mod (x / 10) 10 ltac:(lia)).
    pose proof (Z.mod_pos_bound (x / 10) 10 ltac:(lia)).
    assert (x / 10 / 10 = x / 100) by (rewrite Z.div_div by lia; done).
    pose proof (Z.div_mod x 100 ltac:(lia)). pose proof (Z.mod_pos_bound x 100 ltac:(lia)).
    split_and!; (done || lia).
  - right. left. exists (x / 10), (x mod 10). rewrite (Z.mod_small (x / 10)) by lia.
    split_and!; (done || lia).
  - left. rewrite (Z.mod_small x) by lia. split; [lia|done].
Qed.

Lemma parse_digit d s val dl fields :
  0 <= d <= 9 -> ~ (dl = 1 /\ val = 0) -> val * 10 + d <= 255 ->
  parseIPv4Fields (String (digit d) s) val dl fields
  = parseIPv4Fields s (val * 10 + d) (dl + 1) fields.
Proof.
  intros Hd Hz Hv. cbn [parseIPv4Fields]. rewrite is_digit_digit, code_digit by done.
  replace (val * 10 + (48 + d - 48)) with (val * 10 + d) by lia.
  destruct (Z.eqb_spec dl 1), (Z.eqb_spec val 0); simpl; try tauto;
    destruct (Z.ltb_spec 255 (val * 10 + d)); (done || lia).
Qed.
Lemma parse_decimal x s fields :
  0 <= x <= 255 ->
  exists dl, 1 <= dl /\ parseIPv4Fields (appendDecimal x s) 0 0 fields
                       = parseIPv4Fields s x dl fields.
Proof.
  intros Hx. destruct (appendDecimal_cases x s Hx)
    as [[? ->]|[(d1 & d0 & ? & ? & Hxe & ->)|(d2 & d1 & d0 & ? & ? & ? & Hxe & ->)]].
  - exists 1. split; [lia|]. rewrite parse_digit by lia. done.
  - exists 2. split; [lia|]. rewrite !parse_digit by lia. f_equal; lia.
  - exists 3. split; [lia|]. rewrite !parse_digit by lia. f_equal; lia.
Qed.
Lemma parse_octet b s fields :
  s <> EmptyString -> len fields <> 3 ->
  parseIPv4Fields (appendDecimal (u8 b) (String dot s)) 0 0 fields
  = parseIPv4Fields s 0 0 (fields ++ [b]).
Proof.
  intros Hs Hf. pose proof (u8_range b).
  destruct (parse_decimal (u8 b) (String dot s) fields ltac:(lia)) as (dl & Hdl & ->).
  cbn [parseIPv4Fields]. change (code dot) with 46. simpl is_digit. cbv iota.
  destruct (Z.eqb_spec dl 0); [lia|]. unfold seqb. rewrite bool_decide_false by done. simpl.
  rewrite decide_False by done. by rewrite to_byte_u8.
Qed.
Lemma parse_last_octet b fields :
  len fields = 3 -> parseIPv4Fields (appendDecimal (u8 b) EmptyString) 0 0 fields = Some (fields ++ [b]).
Proof.
  intros Hf. pose proof (u8_range b).
  destruct (parse_decimal (u8 b) EmptyString fields ltac:(lia)) as (dl & Hdl & ->).
  cbn [parseIPv4Fields]. rewrite decide_False by lia. by rewrite to_byte_u8.
Qed.
Lemma appendDecimal_nonempty x s : 0 <= x <= 255 -> appendDecimal x s <> EmptyString.
Proof.
  intros Hx. destruct (appendDecimal_cases x s Hx)
    as [[? ->]|[(d1 & d0 & ? & ? & ? & ->)|(d2 & d1 & d0 & ? & ? & ? & ? & ->)]]; done.
Qed.

Lemma parse_string4 a b c d : parseIPv4Fields (string4 [a; b; c; d]) 0 0 [] = Some [a; b; c; d].
Proof.
  pose proof (u8_range b). pose proof (u8_range c). pose proof (u8_range d).
  cbn [string4]. do 3 (rewrite parse_octet; [|apply appendDecimal_nonempty; lia|done]).
  by apply parse_last_octet.
Qed.

(** A character that none of the special cases of the parsers mentions. *)
Definition plain_digit (c : ascii) : Prop := 48 <= code c <= 57.
Lemma scan_digit s0 d s :
  0 <= d <= 9 -> ParseAddr_scan s0 (String (digit d) s) = ParseAddr_scan s0 s.
Proof.
  intros Hd. cbn [ParseAddr_scan]. rewrite code_digit by done.
  by rewrite !(proj2 (Z.eqb_neq _ _)) by lia.
Qed.
Lemma scan_decimal s0 x s :
  0 <= x <= 255 -> ParseAddr_scan s0 (appendDecimal x s) = ParseAddr_scan s0 s.
Proof.
  intros Hx. destruct (appendDecimal_cases x s Hx)
    as [[? ->]|[(d1 & d0 & ? & ? & ? & ->)|(d2 & d1 & d0 & ? & ? & ? & ? & ->)]];
    by rewrite !scan_digit by lia.
Qed.
Lemma ParseAddr_string4 a b c d : ParseAddr (string4 [a; b; c; d]) = Some (Addr4 [a; b; c; d]).
Proof.
  unfold ParseAddr. pose proof (u8_range a).
  assert (Hscan : forall s0, ParseAddr_scan s0 (string4 [a; b; c; d])
                             = Addr4 <$> parseIPv4Fields s0 0 0 []).
  { intros s0. cbn [string4]. by rewrite scan_decimal by lia. }
  by rewrite Hscan, parse_string4.
Qed.
Lemma ParseIP_string4 a b c d : ParseIP (string4 [a; b; c; d]) = Some (IPv4 a b c d).
Proof. unfold ParseIP. by rewrite ParseAddr_string4. Qed.
Lemma To4_IPv4 a b c d : To4 (IPv4 a b c d) = Some [a; b; c; d].
Proof. reflexivity. Qed.
Lemma IP_String_IPv4 a b c d : IP_String (IPv4 a b c d) = string4 [a; b; c; d].
Proof. reflexivity. Qed.

(** ** Prefix matching *)

(** The partial mask byte keeps the top [j] bits. *)
Definition prefix_byte (j : Z) : byte := to_byte (Z.lxor (Z.shiftr 0xff j) 0xff).
Lemma byte_and_prefix b j :
  0 <= j <= 8 -> u8 (byte_and b (prefix_byte j)) = u8 b / 2 ^ (8 - j) * 2 ^ (8 - j).
Proof.
  intros Hj.
  assert (j = 0 \/ j = 1 \/ j = 2 \/ j = 3 \/ j = 4 \/ j = 5 \/ j = 6 \/ j = 7 \/ j = 8)
    as [->|[->|[->|[->|[->|[->|[->|[->| ->]]]]]]]] by lia;
    destruct b; vm_compute; reflexivity.
Qed.
Lemma masked_byte_eq b c j :
  0 <= j <= 8 ->
  byte_and b (prefix_byte j) = byte_and c (prefix_byte j)
  <-> u8 b / 2 ^ (8 - j) = u8 c / 2 ^ (8 - j).
Proof.
  intros Hj. pose proof (byte_and_prefix b j Hj) as Hb. pose proof (byte_and_prefix c j Hj) as Hc.
  assert (0 < 2 ^ (8 - j)) by (apply Z.pow_pos_nonneg; lia). split.
  - intros He. rewrite He, Hc in Hb. nia.
  - intros He. apply u8_inj. by rewrite Hb, Hc, He.
Qed.

(** The mask bytes of a prefix of length [n] of an IPv4 address. *)
Lemma CIDRMask_bytes n :
  0 <= n <= 32 ->
  CIDRMask n 32 = map prefix_byte [Z.min 8 n; Z.min 8 (Z.max 0 (n - 8));
                                   Z.min 8 (Z.max 0 (n - 16)); Z.min 8 (Z.max 0 (n - 24))].
Proof.
  intros Hn. assert (exists k, n = Z.of_nat k /\ (k <= 32)%nat) as (k & -> & Hk)
    by (exists (Z.to_nat n); lia).
  do 33 (destruct k as [|k]; [vm_compute; reflexivity|]). lia.
Qed.

Definition addr_value (a b c d : byte) : Z :=
  u8 a * 2 ^ 24 + u8 b * 2 ^ 16 + u8 c * 2 ^ 8 + u8 d.

(** Comparing prefixes byte by byte, most significant first. *)
Lemma prefix_byte_split h b h' b' j :
  0 <= j <= 8 -> 0 <= b < 256 -> 0 <= b' < 256 ->
  (256 * h + b) / 2 ^ (8 - j) = (256 * h' + b') / 2 ^ (8 - j)
  <-> h = h' /\ b / 2 ^ (8 - j) = b' / 2 ^ (8 - j).
Proof.
  intros Hj Hb Hb'.
  assert (H256 : 256 = 2 ^ j * 2 ^ (8 - j)) by (rewrite <-Z.pow_add_r by lia; by replace (j + (8 - j)) with 8 by lia).
  assert (0 < 2 ^ (8 - j)) by (apply Z.pow_pos_nonneg; lia).
  assert (Hsplit : forall h b, (256 * h + b) / 2 ^ (8 - j) = 2 ^ j * h + b / 2 ^ (8 - j)).
  { intros h0 b0. rewrite H256. replace (2 ^ j * 2 ^ (8 - j) * h0 + b0)
      with (b0 + 2 ^ j * h0 * 2 ^ (8 - j)) by lia. rewrite Z.div_add by lia. lia. }
  assert (Hsmall : forall b, 0 <= b < 256 -> 0 <= b / 2 ^ (8 - j) < 2 ^ j).
  { intros b0 ?. split; [apply Z.div_pos; lia|apply Z.div_lt_upper_bound; lia]. }
  rewrite !Hsplit. split; [|by intros [-> ->]].
  intros He. apply (Z.div_mod_unique (2 ^ j)); auto.
Qed.
Lemma div_zero_prefix b : 0 <= b < 256 -> b / 2 ^ (8 - 0) = 0.
Proof. intros. apply Z.div_small. simpl. lia. Qed.
Lemma div_full_prefix b : b / 2 ^ (8 - 8) = b.
Proof. apply Z.div_1_r. Qed.

(** Equality of the byte prefixes is equality of the address prefixes. *)
Lemma addr_prefix_iff a b c d a' b' c' d' n :
  0 <= n <= 32 ->
  addr_value a b c d / 2 ^ (32 - n) = addr_value a' b' c' d' / 2 ^ (32 - n)
  <-> u8 a / 2 ^ (8 - Z.min 8 n) = u8 a' / 2 ^ (8 - Z.min 8 n)
      /\ u8 b / 2 ^ (8 - Z.min 8 (Z.max 0 (n - 8))) = u8 b' / 2 ^ (8 - Z.min 8 (Z.max 0 (n - 8)))
      /\ u8 c / 2 ^ (8 - Z.min 8 (Z.max 0 (n - 16))) = u8 c' / 2 ^ (8 - Z.min 8 (Z.max 0 (n - 16)))
      /\ u8 d / 2 ^ (8 - Z.min 8 (Z.max 0 (n - 24))) = u8 d' / 2 ^ (8 - Z.min 8 (Z.max 0 (n - 24))).
Proof.
  intros Hn. pose proof (u8_range a). pose proof (u8_range b). pose proof (u8_range c).
  pose proof (u8_range d). pose proof (u8_range a'). pose proof (u8_range b').
  pose proof (u8_range c'). pose proof (u8_range d'). unfold addr_value.
  assert (Hcut : forall x s j, 0 <= s -> 0 <= j -> x / 2 ^ (s + j) = x / 2 ^ s / 2 ^ j).
  { intros x s j ??. rewrite Z.pow_add_r by lia. symmetry. apply Z.div_div; lia. }
  assert (Hd24 : forall x0 x1 x2 x3, 0 <= x1 < 256 -> 0 <= x2 < 256 -> 0 <= x3 < 256 ->
    (x0 * 2 ^ 24 + x1 * 2 ^ 16 + x2 * 2 ^ 8 + x3) / 2 ^ 24 = x0
    /\ (x0 * 2 ^ 24 + x1 * 2 ^ 16 + x2 * 2 ^ 8 + x3) / 2 ^ 16 = 256 * x0 + x1
    /\ (x0 * 2 ^ 24 + x1 * 2 ^ 16 + x2 * 2 ^ 8 + x3) / 2 ^ 8 = 256 * (256 * x0 + x1) + x2).
  { intros. split_and!; symmetry;
      [apply Z.div_unique with (x1 * 2 ^ 16 + x2 * 2 ^ 8 + x3)
      |apply Z.div_unique with (x2 * 2 ^ 8 + x3)|apply Z.div_unique with x3]; lia. }
  destruct (Hd24 (u8 a) (u8 b) (u8 c) (u8 d)) as (A1 & A2 & A3); try done.
  destruct (Hd24 (u8 a') (u8 b') (u8 c') (u8 d')) as (B1 & B2 & B3); try done.
  destruct (decide (n <= 8)); [|destruct (decide (n <= 16)); [|destruct (decide (n <= 24))]].
  - replace (32 - n) with (24 + (8 - n)) by lia. rewrite !Hcut, A1, B1 by lia.
    rewrite !(Z.max_l 0), (Z.min_r 8 n), (Z.min_r 8 0), !div_zero_prefix by lia. tauto.
  - replace (32 - n) with (16 + (8 - (n - 8))) by lia. rewrite !Hcut, A2, B2 by lia.
    rewrite prefix_byte_split by lia.
    rewrite !(Z.max_l 0 (n - 16)), !(Z.max_l 0 (n - 24)), (Z.max_r 0 (n - 8)) by lia.
    rewrite (Z.min_l 8 n), (Z.min_r 8 0), (Z.min_r 8 (n - 8)), !div_full_prefix by lia.
    rewrite !div_zero_prefix by lia. tauto.
  - replace (32 - n) with (8 + (8 - (n - 16))) by lia. rewrite !Hcut, A3, B3 by lia.
    rewrite prefix_byte_split by lia.
    rewrite !(Z.max_l 0 (n - 24)), (Z.max_r 0 (n - 8)), (Z.max_r 0 (n - 16)) by lia.
    rewrite (Z.min_l 8 n), (Z.min_l 8 (n - 8)), (Z.min_r 8 0), (Z.min_r 8 (n - 16)) by lia.
    rewrite !div_full_prefix, !div_zero_prefix by lia. lia.
  - replace (32 - n) with (8 - (n - 24)) by lia.
    replace (u8 a * 2 ^ 24 + u8 b * 2 ^ 16 + u8 c * 2 ^ 8 + u8 d)
      with (256 * (256 * (256 * u8 a + u8 b) + u8 c) + u8 d) by lia.
    replace (u8 a' * 2 ^ 24 + u8 b' * 2 ^ 16 + u8 c' * 2 ^ 8 + u8 d')
      with (256 * (256 * (256 * u8 a' + u8 b') + u8 c') + u8 d') by lia.
    rewrite prefix_byte_split by lia. rewrite !(Z.max_r 0) by lia.
    rewrite (Z.min_l 8 n), (Z.min_l 8 (n - 8)), (Z.min_l 8 (n - 16)), (Z.min_r 8 (n - 24)) by lia.
    rewrite !div_full_prefix. lia.
Qed.

(** Membership in an IPv4 network of prefix length [n]. *)
Lemma IPNet_Contains_prefix a b c d a' b' c' d' n :
  0 <= n <= 32 ->
  IPNet_Contains {| IPNet_IP := [a; b; c; d]; IPNet_Mask := CIDRMask n 32 |} [a'; b'; c'; d']
  = bool_decide (addr_value a' b' c' d' / 2 ^ (32 - n) = addr_value a b c d / 2 ^ (32 - n)).
Proof.
  intros Hn. unfold IPNet_Contains, networkNumberAndMask. cbn [IPNet_IP IPNet_Mask].
  rewrite CIDRMask_bytes by done. simpl.
  rewrite andb_true_r, <-!bool_decide_and. apply bool_decide_ext.
  rewrite addr_prefix_iff by done. rewrite !masked_byte_eq by lia.
  split; intros (?&?&?&?); split_and!; by symmetry.
Qed.

(** ** CIDR strings *)

(** Digits and dots: no separator, no space, no multi-byte sequence. *)
Definition ip_char (c : ascii) : Prop := 46 <= code c <= 57 /\ code c <> 47.

Lemma ip_char_digit d : 0 <= d <= 9 -> ip_char (digit d).
Proof. intros. unfold ip_char. rewrite code_digit by done. lia. Qed.
Lemma all_ip_decimal x s : 0 <= x <= 255 -> all_chars ip_char s -> all_chars ip_char (appendDecimal x s).
Proof.
  intros Hx Hs. destruct (appendDecimal_cases x s Hx)
    as [[? ->]|[(d1 & d0 & ? & ? & ? & ->)|(d2 & d1 & d0 & ? & ? & ? & ? & ->)]];
    simpl; auto using ip_char_digit with lia;
    split_and!; try done; apply ip_char_digit; lia.
Qed.
Lemma all_ip_string4 a b c d : all_chars ip_char (string4 [a; b; c; d]).
Proof.
  assert (Hdot : ip_char dot) by (unfold ip_char; change (code dot) with 46; lia).
  pose proof (u8_range a). pose proof (u8_range b). pose proof (u8_range c). pose proof (u8_range d).
  cbn [string4].
  repeat first [apply all_ip_decimal; [lia|] | split; [done|] | exact I].
Qed.

Lemma Cut_at s t sep :
  all_chars (fun c => c <> sep) s -> Cut (s +:+ String sep t) sep = Some (s, t).
Proof.
  induction s as [|c s IH]; intros Hs.
  - change (EmptyString +:+ String sep t) with (String sep t). cbn [Cut]. by rewrite decide_True.
  - change (String c s +:+ String sep t) with (String c (s +:+ String sep t)). cbn [Cut].
    destruct Hs as [Hc Hs]. rewrite decide_False by done. by rewrite IH.
Qed.
Lemma dtoi_digit d s n :
  0 <= d <= 9 -> 0 <= n <= 1000 ->
  dtoi_loop (String (digit d) s) n = dtoi_loop s (n * 10 + d).
Proof.
  intros Hd Hn. cbn [dtoi_loop]. rewrite is_digit_digit, code_digit by done.
  replace (n * 10 + (48 + d - 48)) with (n * 10 + d) by lia.
  by destruct (Z.leb_spec 0xFFFFFF (n * 10 + d)); [lia|].
Qed.
Lemma dtoi_decimal x : 0 <= x <= 255 -> dtoi (appendDecimal x EmptyString) = Some (x, EmptyString).
Proof.
  intros Hx. destruct (appendDecimal_cases x EmptyString Hx)
    as [[? ->]|[(d1 & d0 & ? & ? & -> & ->)|(d2 & d1 & d0 & ? & ? & ? & -> & ->)]];
    unfold dtoi; rewrite is_digit_digit by lia; rewrite !dtoi_digit by lia; simpl;
    do 2 f_equal; lia.
Qed.

Definition slash : ascii := "/"%char.
Definition cidr_string (a b c d : byte) (n : Z) : string :=
  string4 [a; b; c; d] +:+ String slash (appendDecimal n EmptyString).
Lemma ParseCIDR_string a b c d n :
  0 <= n <= 32 ->
  exists net, ParseCIDR (cidr_string a b c d n) = Some (IPv4 a b c d, net)
              /\ IPNet_IP net = mask_ip [a; b; c; d] (CIDRMask n 32)
              /\ IPNet_Mask net = CIDRMask n 32.
Proof.
  intros Hn. unfold ParseCIDR, cidr_string. rewrite Cut_at.
  2: { eapply all_chars_impl; [|apply all_ip_string4]. intros x Hx ->. by apply Hx. }
  rewrite ParseAddr_string4, dtoi_decimal by lia. cbn [Zone BitLen As16].
  destruct (Z.leb_spec n 32); [|lia].
  eexists. split; [reflexivity|]. split; [|reflexivity].
  rewrite CIDRMask_bytes by done. reflexivity.
Qed.
Lemma mask_ip_32 a b c d : mask_ip [a; b; c; d] (CIDRMask 32 32) = [a; b; c; d].
Proof.
  assert (Hff : forall x, byte_and x Byte.xff = x) by (intros []; vm_compute; reflexivity).
  change (CIDRMask 32 32) with [Byte.xff; Byte.xff; Byte.xff; Byte.xff].
  cbn [mask_ip zip_with]. by rewrite !Hff.
Qed.
