(* ===== verification/GoTime.v ===== *)
(** Go's [time.Time] and [time.Duration] as the daemon uses them: instants on
    one (monotonic) nanosecond line, with the zero instant, and saturating
    subtraction. *)

From S2P Require Import Prelude.
Open Scope Z_scope.

(** An instant is a number of nanoseconds since the zero time, which is 0.
    Every instant of the program is a reading of the same clock. *)
Abbreviation Time := Z (only parsing).
Abbreviation Duration := Z (only parsing).
Definition IsZero (t : Time) : bool := t =? 0.

(** [t.Sub(u)] saturates at the bounds of [int64]. *)
Definition time_Sub (t u : Time) : Duration := Z.max MinInt64 (Z.min MaxInt64 (t - u)).
Definition time_Before (t u : Time) : bool := t <? u.
(** [t.Add(d)]. *)
Definition time_Add (t : Time) (d : Duration) : Time := t + d.

Lemma time_Sub_exact t u : MinInt64 <= t - u <= MaxInt64 -> time_Sub t u = t - u.
Proof. unfold time_Sub. lia. Qed.
Lemma time_Sub_range t u : MinInt64 <= time_Sub t u <= MaxInt64.
Proof. unfold time_Sub, MinInt64, MaxInt64. lia. Qed.
(** Comparing a difference with a duration ignores saturation, upwards. *)
Lemma time_Sub_ge t u d : MinInt64 < d <= MaxInt64 -> d <= time_Sub t u <-> d <= t - u.
Proof. unfold time_Sub. lia. Qed.
Lemma time_Sub_gt t u d : MinInt64 <= d < MaxInt64 -> d < time_Sub t u <-> d < t - u.
Proof. unfold time_Sub. lia. Qed.
Lemma time_Sub_mono t t' u : t <= t' -> time_Sub t u <= time_Sub t' u.
Proof. unfold time_Sub. lia. Qed.
