(* ===== verification/GoDuration.v ===== *)
(** Go's [time.ParseDuration], with its 64-bit overflow tests and the binary64
    arithmetic it uses for fractions, and the decimal printing it inverts. *)

From S2P Require Import Prelude GoStrings.
From Stdlib Require Import Ascii.
From Corelib Require Import SpecFloat.
Open Scope Z_scope.

(** * The parser *)

Definition max_abs : Z := 2 ^ 63.

(** [leadingInt]: [None] is the overflow error. *)
Fixpoint leadingInt (s : string) (x : Z) : option (Z * string) :=
  match s with
  | EmptyString => Some (x, s)
  | String c rest =>
      if is_digit (code c) then
        if max_abs / 10 <? x then None
        else let x := wrapU64 (x * 10 + (code c - 48)) in
             if max_abs <? x then None else leadingInt rest x
      else Some (x, s)
  end.

(** The [float64] operations, on the standard specification of binary64. *)
Definition f64 (z : Z) : spec_float := binary_normalize 53 1024 z 0 false.
Definition f64_mul : spec_float -> spec_float -> spec_float := SFmul 53 1024.
Definition f64_div : spec_float -> spec_float -> spec_float := SFdiv 53 1024.
(** Conversion of a non-negative finite value to [uint64] truncates. *)
Definition f64_to_u64 (f : spec_float) : Z :=
  match f with
  | S754_finite false m e => wrapU64 (if 0 <=? e then Z.pos m * 2 ^ e else Z.pos m / 2 ^ (- e))
  | _ => 0
  end.

(** [leadingFraction]: digits after an overflow are consumed but ignored. *)
Fixpoint leadingFraction (s : string) (x : Z) (scale : spec_float) (overflow : bool)
    : Z * spec_float * string :=
  match s with
  | EmptyString => (x, scale, s)
  | String c rest =>
      if is_digit (code c) then
        if overflow then leadingFraction rest x scale true
        else if (max_abs - 1) / 10 <? x then leadingFraction rest x scale true
        else let y := wrapU64 (x * 10 + (code c - 48)) in
             if max_abs <? y then leadingFraction rest x scale true
             else leadingFraction rest y (f64_mul scale (f64 10)) false
      else (x, scale, s)
  end.

(** The unit: everything up to the next dot or digit. *)
Fixpoint take_unit (s : string) : string * string :=
  match s with
  | EmptyString => (EmptyString, EmptyString)
  | String c rest =>
      if (code c =? 46) || is_digit (code c) then (EmptyString, s)
      else let '(u, rest) := take_unit rest in (String c u, rest)
  end.
(** The two spellings of the micro sign are UTF-8 byte pairs. *)
Definition micro_b5 : string := String (chr 0xC2) (String (chr 0xB5) "s").
Definition micro_3bc : string := String (chr 0xCE) (String (chr 0xBC) "s").
Definition unitMap (u : string) : option Z :=
  if seqb u "ns" then Some 1
  else if seqb u "us" || seqb u micro_b5 || seqb u micro_3bc then Some 1000
  else if seqb u "ms" then Some 1000000
  else if seqb u "s" then Some 1000000000
  else if seqb u "m" then Some 60000000000
  else if seqb u "h" then Some 3600000000000
  else None.

(** One [number unit] group: its value and the rest. *)
Definition duration_group (s : string) : option (Z * string) :=
  match s with
  | EmptyString => None
  | String c _ =>
      if negb ((code c =? 46) || is_digit (code c)) then None
      else
        match leadingInt s 0 with
        | None => None
        | Some (v, s1) =>
            let pre := negb (seqb s1 s) in
            let '(f, scale, post, s2) :=
              match s1 with
              | String c rest =>
                  if code c =? 46 then
                    let '(f, scale, s2) := leadingFraction rest 0 (f64 1) false in
                    (f, scale, negb (seqb s2 rest), s2)
                  else (0, f64 1, false, s1)
              | EmptyString => (0, f64 1, false, s1)
              end in
            if negb pre && negb post then None
            else
              let '(u, s3) := take_unit s2 in
              if seqb u "" then None
              else
                match unitMap u with
                | None => None
                | Some unit =>
                    if max_abs / unit <? v then None
                    else
                      let v := wrapU64 (v * unit) in
                      if 0 <? f then
                        let v := wrapU64 (v + f64_to_u64 (f64_mul (f64 f) (f64_div (f64 unit) scale))) in
                        if max_abs <? v then None else Some (v, s3)
                      else Some (v, s3)
                end
        end
  end.
(** Every group consumes at least one byte, so the length bounds the loop. *)
Fixpoint duration_groups (fuel : nat) (s : string) (d : Z) : option Z :=
  match fuel with
  | O => None
  | S fuel =>
      if seqb s "" then Some d
      else match duration_group s with
           | None => None
           | Some (v, s) =>
               let d := wrapU64 (d + v) in
               if max_abs <? d then None else duration_groups fuel s d
           end
  end.
Definition ParseDuration (s : string) : option Z :=
  let '(neg, s) := match s with
                   | String c rest =>
                       if (code c =? 45) || (code c =? 43) then (code c =? 45, rest) else (false, s)
                   | EmptyString => (false, s)
                   end in
  if seqb s "0" then Some 0
  else if seqb s "" then None
  else match duration_groups (S (String.length s)) s 0 with
       | None => None
       | Some d => if neg then Some (wrapI64 (- wrapI64 d))
                   else if max_abs - 1 <? d then None else Some d
       end.

(** Values of the options' defaults and of documented spellings, errors, and
    the behaviour at the bounds. *)
Lemma ParseDuration_ex :
  map ParseDuration
    ["500ms"; "10m"; "1.5h"; "1h15m30.918s"; "-1.5s"; "0"; "+5s"; ".5s"; "1.s"; "5us"; "0.1ms";
     "9223372036854775807ns"; "-9223372036854775808ns"]%string
  = [Some 500000000; Some 600000000000; Some 5400000000000; Some 4530918000000; Some (-1500000000);
     Some 0; Some 5000000000; Some 500000000; Some 1000000000; Some 5000; Some 100000;
     Some MaxInt64; Some MinInt64]
  /\ map ParseDuration [""; "3"; "-"; "s"; "."; ".s"; "1d"; "9223372036854775808ns"; "3000000h"]%string
     = [None; None; None; None; None; None; None; None; None].
Proof. split; vm_compute; reflexivity. Qed.

(** * Decimal printing *)

(** Digits of [n], most significant first, prepended to [acc]; twenty digits
    are enough for 64 bits. *)
Fixpoint dec_digits (fuel : nat) (n : Z) (acc : string) : string :=
  match fuel with
  | O => acc
  | S fuel' =>
      let acc := String (chr (48 + n mod 10)) acc in
      if n / 10 =? 0 then acc else dec_digits fuel' (n / 10) acc
  end.
Definition decimal (n : Z) : string := dec_digits 20 n EmptyString.

Lemma dec_digits_app fuel n acc t : dec_digits fuel n acc +:+ t = dec_digits fuel n (acc +:+ t).
Proof.
  revert n acc. induction fuel as [|fuel IH]; intros n acc; cbn [dec_digits]; [done|].
  destruct (n / 10 =? 0); [done|]. apply IH.
Qed.
Lemma code_dec_digit n : code (chr (48 + n mod 10)) = 48 + n mod 10.
Proof. apply code_chr. pose proof (Z.mod_pos_bound n 10). lia. Qed.
Lemma is_digit_dec n : is_digit (code (chr (48 + n mod 10))) = true.
Proof. rewrite code_dec_digit. unfold is_digit. pose proof (Z.mod_pos_bound n 10). lia. Qed.
Lemma leadingInt_digit c s x :
  is_digit (code c) = true -> 0 <= x -> x * 10 + (code c - 48) <= max_abs ->
  leadingInt (String c s) x = leadingInt s (x * 10 + (code c - 48)).
Proof.
  intros Hc Hx Hle. cbn [leadingInt]. rewrite Hc.
  assert (0 <= code c - 48) by (unfold is_digit in Hc; lia). unfold max_abs in *.
  rewrite wrapU64_small by lia.
  destruct (Z.ltb_spec (2 ^ 63 / 10) x); [change (2 ^ 63 / 10) with 922337203685477580 in *; lia|].
  by destruct (Z.ltb_spec (2 ^ 63) (x * 10 + (code c - 48))); [lia|].
Qed.
Lemma leadingInt_dec_digits fuel n acc :
  0 <= n <= max_abs -> n < 10 ^ Z.of_nat fuel -> fuel <> O ->
  leadingInt (dec_digits fuel n acc) 0 = leadingInt acc n.
Proof.
  revert n acc. induction fuel as [|fuel IH]; intros n acc Hn Hf Hne; [done|].
  cbn [dec_digits]. pose proof (Z.mod_pos_bound n 10 ltac:(lia)).
  pose proof (Z.div_mod n 10 ltac:(lia)).
  destruct (Z.eqb_spec (n / 10) 0) as [Hz|Hnz].
  - rewrite leadingInt_digit; rewrite ?is_digit_dec, ?code_dec_digit; try done; [f_equal; lia|lia].
  - rewrite Nat2Z.inj_succ, Z.pow_succ_r in Hf by lia.
    assert (0 <= n / 10) by (apply Z.div_pos; lia).
    rewrite IH; [|lia|apply Z.div_lt_upper_bound; lia|].
    + rewrite leadingInt_digit; rewrite ?is_digit_dec, ?code_dec_digit; try done; [f_equal; lia|lia].
    + intros ->. simpl in Hf. lia.
Qed.
Lemma leadingInt_decimal n t : 0 <= n <= max_abs -> leadingInt (decimal n +:+ t) 0 = leadingInt t n.
Proof.
  intros Hn. unfold decimal. rewrite dec_digits_app, leadingInt_dec_digits; [done..| |done].
  unfold max_abs in Hn. change (10 ^ Z.of_nat 20) with 100000000000000000000. lia.
Qed.
Lemma dec_digits_head fuel n acc :
  fuel <> O -> exists c s, dec_digits fuel n acc = String c s /\ is_digit (code c) = true.
Proof.
  revert n acc. induction fuel as [|fuel IH]; intros n acc Hf; [done|]. cbn [dec_digits].
  destruct (n / 10 =? 0); [eauto using is_digit_dec|].
  destruct fuel; [simpl; eauto using is_digit_dec|]. by apply IH.
Qed.
Lemma decimal_head n t : exists c s, decimal n +:+ t = String c s /\ is_digit (code c) = true.
Proof. unfold decimal. rewrite dec_digits_app. by apply dec_digits_head. Qed.

(** A unit string stands alone: no digit or dot in it. *)
Lemma unitMap_shape u unit :
  unitMap u = Some unit ->
  0 < unit <= 3600000000000 /\ u <> EmptyString
  /\ take_unit u = (u, EmptyString) /\ forall x, leadingInt u x = Some (x, u).
Proof.
  unfold unitMap, seqb. intros Hu.
  repeat match type of Hu with
         | (if ?b then _ else _) = _ => destruct b eqn:?
         end; try done; injection Hu as <-;
    repeat match goal with
           | H : _ || _ = true |- _ => apply orb_prop in H as [H|H]
           end;
    repeat match goal with
           | H : bool_decide (u = _) = true |- _ => apply bool_decide_eq_true in H
           end; subst u; split_and!; done || lia.
Qed.
Lemma unitMap_last_not_digit n u unit : unitMap u = Some unit -> decimal n +:+ u <> "0"%string.
Proof.
  intros (_ & Hne & _)%unitMap_shape. destruct (dec_digits_head 20 n EmptyString) as (c & s & H & _); [done|].
  unfold decimal. rewrite H. destruct s; [|done]. by destruct u.
Qed.

Lemma decimal_group n u unit :
  0 <= n -> unitMap u = Some unit -> n * unit <= MaxInt64 ->
  duration_group (decimal n +:+ u) = Some (n * unit, EmptyString).
Proof.
  intros Hn Hu Hle. destruct (unitMap_shape u unit Hu) as (Hunit & Hne & Htake & Hlead).
  destruct (decimal_head n u) as (c & s & Hs & Hc).
  assert (Hmax : n <= max_abs) by (unfold MaxInt64, max_abs in *; nia).
  unfold duration_group. pose proof (leadingInt_decimal n u ltac:(lia)) as Hlead0.
  rewrite Hs in Hlead0 |- *. rewrite Hlead0, Hlead.
  rewrite Hc, orb_true_r. simpl negb. cbv iota.
  assert (Hpre : seqb u (String c s) = false).
  { unfold seqb. apply bool_decide_eq_false. intros ->. specialize (Hlead 0).
    rewrite Hlead0 in Hlead. rewrite Hlead in Hlead0.
    revert Htake. cbn [take_unit]. by rewrite Hc, orb_true_r. }
  rewrite Hpre. simpl negb.
  assert (Hdot : match u with
                 | String c rest => code c <> 46 | EmptyString => True end).
  { destruct u as [|c0 u]; [done|]. intros H46. revert Htake. cbn [take_unit]. by rewrite H46. }
  destruct u as [|c0 u]; [done|]. apply Z.eqb_neq in Hdot. rewrite Hdot. cbv iota.
  rewrite Htake. simpl andb. cbv iota.
  replace (seqb (String c0 u) "") with false by done. rewrite Hu.
  assert (Hdiv : n <= max_abs / unit) by (apply Z.div_le_lower_bound; unfold MaxInt64, max_abs in *; lia).
  destruct (Z.ltb_spec (max_abs / unit) n); [lia|]. simpl.
  rewrite wrapU64_small; [done|]. unfold MaxInt64 in *. nia.
Qed.

Lemma seqb_false s t : s <> t -> seqb s t = false.
Proof. intros. by apply bool_decide_eq_false. Qed.
Lemma duration_groups_one s v :
  s <> EmptyString -> duration_group s = Some (v, EmptyString) -> 0 <= v <= MaxInt64 ->
  duration_groups (S (String.length s)) s 0 = Some v.
Proof.
  intros Hs Hg Hv. destruct s as [|c s]; [done|]. cbn [String.length].
  cbn [duration_groups]. rewrite seqb_false by done. rewrite Hg.
  unfold MaxInt64, max_abs in *. rewrite Z.add_0_l, wrapU64_small by lia.
  by destruct (Z.ltb_spec (2 ^ 63) v); [lia|].
Qed.

(** A whole number of any unit, printed in decimal with or without a minus
    sign, parses to exactly that many nanoseconds as long as it fits an
    [int64]. *)
Lemma ParseDuration_decimal n u unit :
  0 <= n -> unitMap u = Some unit -> n * unit <= MaxInt64 ->
  ParseDuration (decimal n +:+ u) = Some (n * unit)
  /\ ParseDuration ("-" +:+ decimal n +:+ u) = Some (- (n * unit)).
Proof.
  intros Hn Hu Hle. pose proof (decimal_group n u unit Hn Hu Hle) as Hg.
  pose proof (unitMap_last_not_digit n u unit Hu) as H0.
  destruct (unitMap_shape u unit Hu) as (Hunit & _).
  destruct (decimal_head n u) as (c & s & Hs & Hc).
  assert (Hv : 0 <= n * unit <= MaxInt64) by nia.
  assert (Hgs : duration_groups (S (String.length (String c s))) (String c s) 0 = Some (n * unit))
    by (apply duration_groups_one; [done| |done]; by rewrite <-Hs).
  unfold ParseDuration. rewrite Hs in H0 |- *. change ("-" +:+ String c s) with (String "-" (String c s)).
  assert (Hsign : (code c =? 45) || (code c =? 43) = false) by (unfold is_digit in Hc; lia).
  rewrite Hsign. change ((code "-" =? 45) || (code "-" =? 43)) with true. cbv iota.
  change (code "-" =? 45) with true. rewrite !(seqb_false _ "0"), !(seqb_false _ "") by done.
  rewrite Hgs. unfold MaxInt64, max_abs in *. split.
  - by destruct (Z.ltb_spec (2 ^ 63 - 1) (n * unit)); [lia|].
  - rewrite (wrapI64_small (n * unit)), wrapI64_small by (unfold MinInt64, MaxInt64; lia). done.
Qed.
