(* ===== verification/Parser.v ===== *)
(** SYN and SYN/ACK recognition ([internal/parser.go]): the two parsers as the
    code runs them, their closed form, and what they guarantee. *)

From S2P Require Import Prelude GoStrings GoNet.
Open Scope Z_scope.

(** * The code *)

Record PacketInfo := {
  ClientIP : string;
  ClientPort : Z;
  ServerPort : Z;
  Seq : Z;
  Ack : Z
}.
(** [var info PacketInfo]. *)
Definition PacketInfo_zero : PacketInfo :=
  {| ClientIP := ""; ClientPort := 0; ServerPort := 0; Seq := 0; Ack := 0 |}.

(** [flags&bit != 0]. *)
Definition has_flag (flags : byte) (bit : Z) : bool := negb (Z.land (u8 flags) bit =? 0).
Definition version (b : byte) : Z := Z.shiftr (u8 b) 4.
Definition header_len (b : byte) : Z := Z.land (u8 b) 0x0f * 4.

(** [info, ok]: [None] is the pair with [ok = false]. *)
Definition ParseIPv4PureTCPSYNInfo (data : bytes) : go (option PacketInfo) :=
  if decide (len data < 40) then mret None
  else
    b0 ← idx data 0;
    if decide (version b0 <> 4) then mret None
    else
      let ihl := header_len b0 in
      if decide (len data < ihl + 20) then mret None
      else
        proto ← idx data 9;
        if decide (u8 proto <> 6) then mret None
        else
          tcp ← slice_from data ihl;
          flags ← idx tcp 13;
          let syn := has_flag flags 0x02 in
          let ack := has_flag flags 0x10 in
          let rst := has_flag flags 0x04 in
          let fin := has_flag flags 0x01 in
          if negb (syn && negb ack && negb rst && negb fin) then mret None
          else
            a ← idx data 12; b ← idx data 13; c ← idx data 14; d ← idx data 15;
            cport ← slice tcp 0 2 ≫= BigEndian_Uint16;
            sport ← slice tcp 2 4 ≫= BigEndian_Uint16;
            seq ← slice tcp 4 8 ≫= BigEndian_Uint32;
            mret (Some {| ClientIP := IP_String (IPv4 a b c d); ClientPort := cport;
                          ServerPort := sport; Seq := seq; Ack := 0 |}).

Definition ParseIPv4PureTCPSYN (data : bytes) : go (string * bool) :=
  info ← ParseIPv4PureTCPSYNInfo data;
  mret (match info with
        | Some info => (ClientIP info, true)
        | None => (ClientIP PacketInfo_zero, false)
        end).

Definition ParseIPv4TCPSYNACK (data : bytes) : go (option PacketInfo) :=
  if decide (len data < 40) then mret None
  else
    b0 ← idx data 0;
    if decide (version b0 <> 4) then mret None
    else
      let ihl := header_len b0 in
      if decide (len data < ihl + 20) then mret None
      else
        proto ← idx data 9;
        if decide (u8 proto <> 6) then mret None
        else
          tcp ← slice_from data ihl;
          flags ← idx tcp 13;
          let syn := has_flag flags 0x02 in
          let ack := has_flag flags 0x10 in
          let rst := has_flag flags 0x04 in
          let fin := has_flag flags 0x01 in
          if negb (syn && ack && negb rst && negb fin) then mret None
          else
            a ← idx data 16; b ← idx data 17; c ← idx data 18; d ← idx data 19;
            sport ← slice tcp 0 2 ≫= BigEndian_Uint16;
            cport ← slice tcp 2 4 ≫= BigEndian_Uint16;
            seq ← slice tcp 4 8 ≫= BigEndian_Uint32;
            ackn ← slice tcp 8 12 ≫= BigEndian_Uint32;
            mret (Some {| ClientIP := IP_String (IPv4 a b c d); ClientPort := cport;
                          ServerPort := sport; Seq := seq; Ack := ackn |}).

(** * Specification *)

(** The address field at offset [off] of the IPv4 header, as printed. *)
Definition addr_at (data : bytes) (off : Z) : string :=
  IP_String (IPv4 (byte_at data off) (byte_at data (off + 1))
                  (byte_at data (off + 2)) (byte_at data (off + 3))).

(** The packet is long enough for its own IPv4 header plus twenty bytes, is
    IPv4 and carries TCP. *)
Definition ipv4_tcp (data : bytes) : Prop :=
  40 <= len data /\ version (byte_at data 0) = 4
  /\ header_len (byte_at data 0) + 20 <= len data /\ u8 (byte_at data 9) = 6.
#[export] Instance ipv4_tcp_dec data : Decision (ipv4_tcp data).
Proof. unfold ipv4_tcp. apply _. Defined.

(** TCP flags byte of the packet, and the SYN / SYN-ACK patterns on it. *)
Definition tcp_flags (data : bytes) : byte :=
  byte_at data (header_len (byte_at data 0) + 13).
Definition pure_syn (flags : byte) : Prop := Z.land (u8 flags) 0x17 = 0x02.
Definition syn_ack (flags : byte) : Prop := Z.land (u8 flags) 0x17 = 0x12.

Lemma header_len_range b : 0 <= header_len b <= 60.
Proof.
  unfold header_len. change 0x0f with (Z.ones 4). rewrite Z.land_ones by lia.
  pose proof (Z.mod_pos_bound (u8 b) (2 ^ 4) ltac:(lia)). lia.
Qed.

(** The flag conditions of the source are bit patterns of the flags byte. *)
Lemma pure_syn_flags f :
  (has_flag f 0x02 && negb (has_flag f 0x10) && negb (has_flag f 0x04) && negb (has_flag f 0x01))
  = bool_decide (pure_syn f).
Proof. destruct f; vm_compute; reflexivity. Qed.
Lemma syn_ack_flags f :
  (has_flag f 0x02 && has_flag f 0x10 && negb (has_flag f 0x04) && negb (has_flag f 0x01))
  = bool_decide (syn_ack f).
Proof. destruct f; vm_compute; reflexivity. Qed.

(** A guard of the source failed: the packet does not satisfy [ipv4_tcp]. *)
Ltac reject_packet :=
  rewrite decide_False by (unfold ipv4_tcp; intros [(?&?&?&?) ?]; (lia || done)); reflexivity.

(** Closed form of the SYN parser. *)
Lemma ParseSYN_closed data :
  ParseIPv4PureTCPSYNInfo data
  = Val (if decide (ipv4_tcp data /\ pure_syn (tcp_flags data)) then
           let ihl := header_len (byte_at data 0) in
           Some {| ClientIP := addr_at data 12; ClientPort := u16_at data ihl;
                   ServerPort := u16_at data (ihl + 2); Seq := u32_at data (ihl + 4); Ack := 0 |}
         else None).
Proof.
  unfold ParseIPv4PureTCPSYNInfo.
  pose proof (header_len_range (byte_at data 0)) as Hihl.
  go_guard; [reject_packet|].
  go_step. go_guard; [reject_packet|]. go_guard; [reject_packet|].
  go_step. go_guard; [reject_packet|].
  do 2 go_step. rewrite byte_at_drop by lia. fold (tcp_flags data).
  rewrite pure_syn_flags. case_bool_decide; simpl negb; cbv iota; [|reject_packet].
  rewrite decide_True by (split; [repeat split; lia|done]).
  do 7 go_step.
  by rewrite !u16_at_drop, !u32_at_drop, Z.add_0_r by lia.
Qed.

Lemma ParseSYNACK_closed data :
  ParseIPv4TCPSYNACK data
  = Val (if decide (ipv4_tcp data /\ syn_ack (tcp_flags data)) then
           let ihl := header_len (byte_at data 0) in
           Some {| ClientIP := addr_at data 16; ClientPort := u16_at data (ihl + 2);
                   ServerPort := u16_at data ihl; Seq := u32_at data (ihl + 4);
                   Ack := u32_at data (ihl + 8) |}
         else None).
Proof.
  unfold ParseIPv4TCPSYNACK.
  pose proof (header_len_range (byte_at data 0)) as Hihl.
  go_guard; [reject_packet|].
  go_step. go_guard; [reject_packet|]. go_guard; [reject_packet|].
  go_step. go_guard; [reject_packet|].
  do 2 go_step. rewrite byte_at_drop by lia. fold (tcp_flags data).
  rewrite syn_ack_flags. case_bool_decide; simpl negb; cbv iota; [|reject_packet].
  rewrite decide_True by (split; [repeat split; lia|done]).
  do 8 go_step.
  by rewrite !u16_at_drop, !u32_at_drop, Z.add_0_r by lia.
Qed.

(** ** Properties *)

Lemma addr_at_parses data off :
  ParseIP (addr_at data off)
  = Some (IPv4 (byte_at data off) (byte_at data (off + 1))
               (byte_at data (off + 2)) (byte_at data (off + 3))).
Proof. unfold addr_at. rewrite IP_String_IPv4. apply ParseIP_string4. Qed.

(** C22: neither parser panics on any input. The SYN parser accepts exactly the
    IPv4 TCP packets with SYN set and ACK, RST and FIN clear, the other one
    exactly those with SYN and ACK set and RST and FIN clear, so no packet is
    accepted by both; the fields are those of the headers, the client being
    the source of a SYN and the destination of a SYN/ACK, and the printed
    client address parses back to the packet's four address bytes. *)
Theorem SYN_parsers_spec data :
  exists syn ack,
    ParseIPv4PureTCPSYNInfo data = Val syn /\ ParseIPv4TCPSYNACK data = Val ack
    /\ (is_Some syn <-> ipv4_tcp data /\ pure_syn (tcp_flags data))
    /\ (is_Some ack <-> ipv4_tcp data /\ syn_ack (tcp_flags data))
    /\ (syn = None \/ ack = None)
    /\ (forall info, syn = Some info ->
         ParseIP (ClientIP info)
         = Some (IPv4 (byte_at data 12) (byte_at data 13) (byte_at data 14) (byte_at data 15))
         /\ ClientPort info = u16_at data (header_len (byte_at data 0))
         /\ ServerPort info = u16_at data (header_len (byte_at data 0) + 2)
         /\ Seq info = u32_at data (header_len (byte_at data 0) + 4) /\ Ack info = 0)
    /\ (forall info, ack = Some info ->
         ParseIP (ClientIP info)
         = Some (IPv4 (byte_at data 16) (byte_at data 17) (byte_at data 18) (byte_at data 19))
         /\ ClientPort info = u16_at data (header_len (byte_at data 0) + 2)
         /\ ServerPort info = u16_at data (header_len (byte_at data 0))
         /\ Seq info = u32_at data (header_len (byte_at data 0) + 4)
         /\ Ack info = u32_at data (header_len (byte_at data 0) + 8)).
Proof.
  do 2 eexists. split; [apply ParseSYN_closed|]. split; [apply ParseSYNACK_closed|].
  assert (Hdisj : pure_syn (tcp_flags data) -> syn_ack (tcp_flags data) -> False)
    by (unfold pure_syn, syn_ack; lia).
  do 2 case_decide; split_and!; try tauto; cbv zeta;
    try (intros info [= <-]; cbn [ClientIP ClientPort ServerPort Seq Ack];
         rewrite addr_at_parses; done);
    try (split; [tauto|by eauto]); try done; (split; [intros [? [=]]|tauto]).
Qed.
