(* ===== verification/Payload.v ===== *)
(** TCP payload parsing and segment splitting ([internal/payload.go]): the code,
    its closed form, and the correctness of the split: the two segments parse,
    carry the payload between them, keep the header and have valid checksums. *)

From S2P Require Import Prelude Checksum GoStrings GoNet Parser.
Open Scope Z_scope.

(** * The code *)

Definition ipv4MinHeaderLen : Z := 20.
Definition tcpMinHeaderLen : Z := 20.
Definition ipProtoTCP : Z := 6.

Record TCPPayloadInfo := {
  SrcIP : bytes;
  DstIP : bytes;
  SrcPort : Z;
  DstPort : Z;
  Seq : Z;
  Ack : Z;
  Flags : Z;
  IPHeaderLen : Z;
  TCPHeaderLen : Z;
  PayloadOffset : Z;
  PayloadLen : Z;
  TotalLen : Z
}.

Definition ParseIPv4TCPPayload (packet : bytes) : go (option TCPPayloadInfo) :=
  if decide (len packet < ipv4MinHeaderLen + tcpMinHeaderLen) then mret None
  else
    b0 ← idx packet 0;
    if decide (version b0 <> 4) then mret None
    else
      let ipHeaderLen := header_len b0 in
      if decide (ipHeaderLen < ipv4MinHeaderLen \/ len packet < ipHeaderLen + tcpMinHeaderLen)
      then mret None
      else
        proto ← idx packet 9;
        if decide (u8 proto <> ipProtoTCP) then mret None
        else
          frag ← slice packet 6 8 ≫= BigEndian_Uint16;
          if decide (Z.land frag 0x3fff <> 0) then mret None
          else
            totalLen ← slice packet 2 4 ≫= BigEndian_Uint16;
            if decide (totalLen < ipHeaderLen + tcpMinHeaderLen \/ len packet < totalLen)
            then mret None
            else
              tcp ← slice packet ipHeaderLen totalLen;
              b12 ← idx tcp 12;
              let tcpHeaderLen := Z.shiftr (u8 b12) 4 * 4 in
              if decide (tcpHeaderLen < tcpMinHeaderLen \/ len tcp < tcpHeaderLen) then mret None
              else
                let payloadOffset := ipHeaderLen + tcpHeaderLen in
                let payloadLen := totalLen - payloadOffset in
                if decide (payloadLen <= 0) then mret None
                else
                  s0 ← idx packet 12; s1 ← idx packet 13;
                  s2 ← idx packet 14; s3 ← idx packet 15;
                  d0 ← idx packet 16; d1 ← idx packet 17;
                  d2 ← idx packet 18; d3 ← idx packet 19;
                  sport ← slice tcp 0 2 ≫= BigEndian_Uint16;
                  dport ← slice tcp 2 4 ≫= BigEndian_Uint16;
                  seq ← slice tcp 4 8 ≫= BigEndian_Uint32;
                  ackn ← slice tcp 8 12 ≫= BigEndian_Uint32;
                  flags ← idx tcp 13;
                  mret (Some {| SrcIP := IPv4 s0 s1 s2 s3; DstIP := IPv4 d0 d1 d2 d3;
                                SrcPort := sport; DstPort := dport; Seq := seq; Ack := ackn;
                                Flags := u8 flags; IPHeaderLen := ipHeaderLen;
                                TCPHeaderLen := tcpHeaderLen; PayloadOffset := payloadOffset;
                                PayloadLen := payloadLen; TotalLen := totalLen |}).

(** [fixIPv4TCPChecksums] mutates [packet]; the slice [tcp] aliases it from
    [ipHeaderLen] on, so writes to [tcp] are writes to [packet]. *)
Definition fixIPv4TCPChecksums (packet : bytes) (ipHeaderLen : Z) : go bytes :=
  packet ← PutUint16 packet 2 (wrapU16 (len packet));
  packet ← store packet 10 x00;
  packet ← store packet 11 x00;
  hdr ← slice_to packet ipHeaderLen;
  packet ← PutUint16 packet 10 (internetChecksum hdr);
  _ ← slice_from packet ipHeaderLen;
  packet ← store packet (ipHeaderLen + 16) x00;
  packet ← store packet (ipHeaderLen + 17) x00;
  tcp ← slice_from packet ipHeaderLen;
  pseudo ← make (12 + len tcp);
  src ← slice packet 12 16;
  pseudo ← copy_slice pseudo 0 4 src;
  dst ← slice packet 16 20;
  pseudo ← copy_slice pseudo 4 8 dst;
  pseudo ← store pseudo 9 (to_byte ipProtoTCP);
  pseudo ← PutUint16 pseudo 10 (wrapU16 (len tcp));
  pseudo ← copy_from pseudo 12 tcp;
  PutUint16 packet (ipHeaderLen + 16) (internetChecksum pseudo).

Inductive SplitError :=
| SplitOutsidePayload (splitAt payloadLen : Z)
| InvalidPacketMetadata.

Definition SplitIPv4TCPPacket (packet : bytes) (info : TCPPayloadInfo) (splitAt : Z)
    : go (res SplitError (bytes * bytes)) :=
  if decide (splitAt <= 0 \/ PayloadLen info <= splitAt)
  then mret (Fail (SplitOutsidePayload splitAt (PayloadLen info)))
  else if decide (len packet < TotalLen info \/ PayloadOffset info < 0
                  \/ TotalLen info < PayloadOffset info)
  then mret (Fail InvalidPacketMetadata)
  else
    header ← slice_to packet (PayloadOffset info);
    payload ← slice packet (PayloadOffset info) (TotalLen info);
    first ← make (len header + splitAt);
    first ← copy_slice first 0 (len first) header;
    firstPayload ← slice_to payload splitAt;
    first ← copy_from first (len header) firstPayload;
    secondPayload ← slice_from payload splitAt;
    second ← make (len header + len secondPayload);
    second ← copy_slice second 0 (len second) header;
    second ← copy_from second (len header) secondPayload;
    firstTCP ← slice_from first (IPHeaderLen info);
    _ ← slice_from second (IPHeaderLen info);
    flags ← idx firstTCP 13;
    first ← store first (IPHeaderLen info + 13) (to_byte (Z.ldiff (u8 flags) 0x09));
    second ← PutUint32 second (IPHeaderLen info + 4)
               (wrapU32 (Seq info + wrapU32 splitAt));
    first ← fixIPv4TCPChecksums first (IPHeaderLen info);
    second ← fixIPv4TCPChecksums second (IPHeaderLen info);
    mret (Ok (first, second)).

(** * Closed forms *)

Definition tcp_header_len (packet : bytes) : Z :=
  Z.shiftr (u8 (byte_at packet (header_len (byte_at packet 0) + 12))) 4 * 4.

(** The packets the parser accepts: a complete, unfragmented IPv4 packet with a
    TCP header and a non-empty payload inside its total length. *)
Definition payload_packet (packet : bytes) : Prop :=
  let ihl := header_len (byte_at packet 0) in
  let thl := tcp_header_len packet in
  version (byte_at packet 0) = 4 /\ 20 <= ihl /\ 20 <= thl
  /\ u8 (byte_at packet 9) = 6 /\ Z.land (u16_at packet 6) 0x3fff = 0
  /\ ihl + thl < u16_at packet 2 <= len packet.
#[export] Instance payload_packet_dec packet : Decision (payload_packet packet).
Proof. unfold payload_packet. cbv zeta. apply _. Defined.

Definition payload_info (packet : bytes) : TCPPayloadInfo :=
  let ihl := header_len (byte_at packet 0) in
  let thl := tcp_header_len packet in
  {| SrcIP := IPv4 (byte_at packet 12) (byte_at packet 13) (byte_at packet 14) (byte_at packet 15);
     DstIP := IPv4 (byte_at packet 16) (byte_at packet 17) (byte_at packet 18) (byte_at packet 19);
     SrcPort := u16_at packet ihl; DstPort := u16_at packet (ihl + 2);
     Seq := u32_at packet (ihl + 4); Ack := u32_at packet (ihl + 8);
     Flags := u8 (byte_at packet (ihl + 13));
     IPHeaderLen := ihl; TCPHeaderLen := thl; PayloadOffset := ihl + thl;
     PayloadLen := u16_at packet 2 - (ihl + thl); TotalLen := u16_at packet 2 |}.

(** A guard of the source failed: the packet is not a [payload_packet]. *)
Ltac reject_payload :=
  rewrite decide_False by (unfold payload_packet; intros (?&?&?&?&?&?); lia);
  reflexivity.

Lemma ParsePayload_closed packet :
  ParseIPv4TCPPayload packet
  = Val (if decide (payload_packet packet) then Some (payload_info packet) else None).
Proof.
  unfold ParseIPv4TCPPayload, ipv4MinHeaderLen, tcpMinHeaderLen, ipProtoTCP.
  pose proof (header_len_range (byte_at packet 0)) as Hihl.
  go_guard; [reject_payload|].
  go_step. go_guard; [reject_payload|]. go_guard; [reject_payload|].
  go_step. go_guard; [reject_payload|].
  go_step. go_guard; [reject_payload|].
  go_step. go_guard; [reject_payload|].
  do 2 go_step. rewrite byte_at_sub, len_sub by lia. fold (tcp_header_len packet).
  go_guard; [reject_payload|]. go_guard; [reject_payload|].
  rewrite decide_True by (repeat split; lia).
  do 13 go_step. unfold payload_info.
  by rewrite !u16_at_sub, !u32_at_sub, byte_at_sub, Z.add_0_r by lia.
Qed.

(** ** fixIPv4TCPChecksums *)

Definition fix_result (p : bytes) (ihl : Z) : bytes :=
  let p := put16 p 2 (len p) in
  let p := put16 p 10 0 in
  let p := put16 p 10 (internetChecksum (take (Z.to_nat ihl) p)) in
  let p := put16 p (ihl + 16) 0 in
  put16 p (ihl + 16) (internetChecksum (tcp_pseudo p ihl)).

(** The pseudo header as the code assembles it. *)
Lemma pseudo_assembled p ihl :
  20 <= ihl <= len p ->
  copied (put16 (upd (copied (copied (replicate (Z.to_nat (12 + (len p - ihl))) x00) 0 4
                               (sub p 12 16)) 4 4 (sub p 16 20)) 9 x06) 10 (len p - ihl))
    12 (len p - ihl) (drop (Z.to_nat ihl) p)
  = tcp_pseudo p ihl.
Proof.
  intros Hi. assert (H12 : len (sub p 12 16) = 4) by (rewrite len_sub; lia).
  assert (H16 : len (sub p 16 20) = 4) by (rewrite len_sub; lia).
  set (z := replicate _ x00). assert (Hz : len z = 12 + (len p - ihl)) by (apply len_replicate; lia).
  assert (Hc1 : len (copied z 0 4 (sub p 12 16)) = len z) by (apply len_copied; lia).
  assert (Hc2 : len (copied (copied z 0 4 (sub p 12 16)) 4 4 (sub p 16 20)) = len z)
    by (rewrite len_copied; lia).
  apply bytes_ext.
  { rewrite len_copied, len_put16, len_upd, len_tcp_pseudo
      by (rewrite ?len_put16, ?len_upd, ?len_drop; lia). lia. }
  intros j Hj.
  rewrite len_copied, len_put16, len_upd in Hj by (rewrite ?len_put16, ?len_upd, ?len_drop; lia).
  rewrite byte_at_tcp_pseudo by lia. unfold tcp_pseudo_byte.
  rewrite byte_at_copied by (rewrite ?len_put16, ?len_upd, ?len_drop; lia).
  case_decide. { rewrite !decide_False, byte_at_drop by lia. done. }
  unfold put16.
  destruct (decide (j = 11)) as [->|].
  { rewrite !decide_False by lia.
    by rewrite byte_at_upd_eq by (rewrite !len_upd; lia). }
  rewrite byte_at_upd_ne by lia.
  destruct (decide (j = 10)) as [->|].
  { rewrite !decide_False by lia. by rewrite byte_at_upd_eq by (rewrite len_upd; lia). }
  rewrite byte_at_upd_ne by lia.
  destruct (decide (j = 9)) as [->|].
  { rewrite !decide_False by lia. by rewrite byte_at_upd_eq by lia. }
  rewrite byte_at_upd_ne by lia. rewrite !byte_at_copied by lia.
  destruct (decide (j < 8)).
  - destruct (decide (4 <= j < 4 + 4)).
    + rewrite byte_at_sub by lia. f_equal. lia.
    + rewrite decide_True, byte_at_sub by lia. f_equal. lia.
  - rewrite !decide_False by lia. destruct (decide (j = 8)); [|lia]. apply byte_at_replicate.
Qed.

Lemma to_byte_wrapU16 v : to_byte (wrapU16 v) = to_byte v.
Proof.
  apply u8_inj. rewrite !u8_to_byte. unfold wrapU8, wrapU16.
  apply Z.mod_mod_divide. by exists (2 ^ 8).
Qed.
Lemma to_byte_shiftr_wrapU16 v : to_byte (Z.shiftr (wrapU16 v) 8) = to_byte (Z.shiftr v 8).
Proof.
  apply u8_inj. rewrite !u8_to_byte. unfold wrapU8, wrapU16. rewrite !Z.shiftr_div_pow2 by lia.
  rewrite (Z.mod_eq v (2 ^ 16)) by lia. change (2 ^ 16) with (2 ^ 8 * 2 ^ 8) at 1.
  replace (v - 2 ^ 8 * 2 ^ 8 * (v / 2 ^ 16)) with (v + (- (2 ^ 8 * (v / 2 ^ 16))) * 2 ^ 8) by lia.
  rewrite Z.div_add by lia.
  replace (v / 2 ^ 8 + - (2 ^ 8 * (v / 2 ^ 16))) with (v / 2 ^ 8 + (- (v / 2 ^ 16)) * 2 ^ 8) by lia.
  by rewrite Z.mod_add by lia.
Qed.
Lemma put16_wrap l i v : put16 l i (wrapU16 v) = put16 l i v.
Proof. unfold put16. by rewrite to_byte_wrapU16, to_byte_shiftr_wrapU16. Qed.

Lemma zero16 l i j : j = i + 1 -> upd (upd l i x00) j x00 = put16 l i 0.
Proof. by intros ->. Qed.

Lemma fixIPv4TCPChecksums_closed p ihl :
  20 <= ihl -> ihl + 20 <= len p -> fixIPv4TCPChecksums p ihl = Val (fix_result p ihl).
Proof.
  intros Hi Hl. unfold fixIPv4TCPChecksums, ipProtoTCP, fix_result.
  do 8 go_step. rewrite !(zero16 _ 10 11), !(zero16 _ (ihl + 16)), put16_wrap by lia.
  set (q := put16 (put16 _ 10 _) (ihl + 16) 0).
  assert (Hq : len q = len p) by (subst q; by rewrite !len_put16). clearbody q.
  do 7 go_step. rewrite len_drop by lia. do 2 go_step.
  rewrite len_drop, put16_wrap by lia. simpl (4 - 0). simpl (8 - 4).
  change (to_byte 6) with x06. rewrite pseudo_assembled by lia. go_val.
Qed.

Lemma len_fix_result p ihl : len (fix_result p ihl) = len p.
Proof. unfold fix_result. by rewrite !len_put16. Qed.

(** Only the total length and the two checksum fields change. *)
Lemma byte_at_fix_result p ihl j :
  0 <= j -> 20 <= ihl ->
  ~ (2 <= j < 4) -> ~ (10 <= j < 12) -> ~ (ihl + 16 <= j < ihl + 18) ->
  byte_at (fix_result p ihl) j = byte_at p j.
Proof. intros. unfold fix_result. by rewrite !byte_at_put16_ne by lia. Qed.
Lemma u16_at_fix_result p ihl j :
  4 <= j -> 20 <= ihl -> ~ (9 <= j < 12) -> ~ (ihl + 15 <= j < ihl + 18) ->
  u16_at (fix_result p ihl) j = u16_at p j.
Proof. intros. unfold u16_at. by rewrite !byte_at_fix_result by lia. Qed.
Lemma u32_at_fix_result p ihl j :
  12 <= j -> 20 <= ihl -> ~ (ihl + 13 <= j < ihl + 18) ->
  u32_at (fix_result p ihl) j = u32_at p j.
Proof. intros. unfold u32_at. by rewrite !byte_at_fix_result by lia. Qed.
Lemma total_len_fix_result p ihl :
  20 <= ihl -> 4 <= len p -> u16_at (fix_result p ihl) 2 = wrapU16 (len p).
Proof.
  intros. unfold fix_result. rewrite !u16_at_put16_ne by lia. by apply u16_at_put16_eq; lia.
Qed.

Lemma take_put16 n l i v :
  0 <= i -> i + 2 <= n -> n <= len l ->
  take (Z.to_nat n) (put16 l i v) = put16 (take (Z.to_nat n) l) i v.
Proof.
  intros. apply bytes_ext.
  { rewrite len_put16, !len_take by (rewrite ?len_put16; lia). done. }
  intros j Hj. rewrite len_take in Hj by (rewrite len_put16; lia).
  rewrite byte_at_take by lia. unfold put16.
  destruct (decide (j = i + 1)) as [->|].
  { by rewrite !byte_at_upd_eq by (rewrite ?len_upd, ?len_take by lia; lia). }
  rewrite !(byte_at_upd_ne _ (i + 1)) by lia.
  destruct (decide (j = i)) as [->|].
  { by rewrite !byte_at_upd_eq by (rewrite ?len_take by lia; lia). }
  by rewrite !byte_at_upd_ne, byte_at_take by lia.
Qed.
Lemma take_put16_ge n l i v :
  0 <= n <= i -> take (Z.to_nat n) (put16 l i v) = take (Z.to_nat n) l.
Proof.
  intros. unfold put16, upd. by rewrite !take_insert_ge by lia.
Qed.

(** The rewritten packet passes both checks of its receiver. *)
Lemma fix_result_ip_ok p ihl :
  20 <= ihl -> ihl + 20 <= len p -> len p <= 65535 -> Z.even ihl = true ->
  ip_checksum_ok (fix_result p ihl) ihl.
Proof.
  intros Hi Hl Hm He. unfold ip_checksum_ok, fix_result. cbv zeta.
  rewrite !(take_put16_ge _ _ (ihl + 16)) by lia.
  rewrite (take_put16 _ _ 10) by (rewrite ?len_put16; lia).
  set (q := put16 (put16 p 2 (len p)) 10 0).
  assert (Hq : len q = len p) by (subst q; by rewrite !len_put16).
  apply checksum_fill; rewrite ?len_take by lia; try (done || lia).
  subst q. rewrite take_put16 by (rewrite ?len_put16; lia).
  by rewrite u16_at_put16_eq by (rewrite ?len_take; rewrite ?len_put16; lia).
Qed.
Lemma fix_result_tcp_ok p ihl :
  20 <= ihl -> ihl + 20 <= len p -> len p <= 65535 ->
  tcp_checksum_ok (fix_result p ihl) ihl.
Proof.
  intros Hi Hl Hm. unfold tcp_checksum_ok, fix_result. cbv zeta.
  set (q := put16 _ (ihl + 16) 0).
  assert (Hq : len q = len p) by (subst q; by rewrite !len_put16).
  rewrite tcp_pseudo_put16 by lia.
  apply checksum_fill; rewrite ?len_tcp_pseudo by lia; try (done || lia).
  subst q. rewrite tcp_pseudo_put16 by (rewrite ?len_put16; lia).
  by rewrite u16_at_put16_eq by (rewrite ?len_tcp_pseudo; rewrite ?len_put16; lia).
Qed.

(** ** SplitIPv4TCPPacket *)

(** The segments before the checksums are rewritten. *)
Definition first_raw (p : bytes) (splitAt : Z) : bytes :=
  let info := payload_info p in
  let f := take (Z.to_nat (PayloadOffset info + splitAt)) p in
  upd f (IPHeaderLen info + 13) (to_byte (Z.ldiff (Flags info) 0x09)).
Definition second_raw (p : bytes) (splitAt : Z) : bytes :=
  let info := payload_info p in
  let s := take (Z.to_nat (PayloadOffset info)) p
           ++ sub p (PayloadOffset info + splitAt) (TotalLen info) in
  put32 s (IPHeaderLen info + 4) (wrapU32 (Seq info + splitAt)).
Definition first_segment (p : bytes) (splitAt : Z) : bytes :=
  fix_result (first_raw p splitAt) (IPHeaderLen (payload_info p)).
Definition second_segment (p : bytes) (splitAt : Z) : bytes :=
  fix_result (second_raw p splitAt) (IPHeaderLen (payload_info p)).

(** [make] followed by the two [copy] calls concatenates. *)
Lemma copied_concat (h b : bytes) :
  copied (copied (replicate (Z.to_nat (len h + len b)) x00) 0 (len h) h) (len h) (len b) b
  = h ++ b.
Proof.
  pose proof (len_nonneg h). pose proof (len_nonneg b). apply bytes_ext.
  { rewrite !len_copied, len_replicate, len_app
      by (rewrite ?len_copied; rewrite ?len_replicate; lia). lia. }
  intros j Hj. rewrite !len_copied, len_replicate in Hj
    by (rewrite ?len_copied; rewrite ?len_replicate; lia).
  rewrite !byte_at_copied by (rewrite ?len_copied; rewrite ?len_replicate; lia).
  destruct (decide (j < len h)).
  - rewrite decide_False, decide_True, byte_at_app_l by lia. f_equal. lia.
  - rewrite decide_True, byte_at_app_r by lia. done.
Qed.

Lemma take_sub l a b n :
  0 <= a <= b -> b <= len l -> 0 <= n <= b - a ->
  take (Z.to_nat a) l ++ take (Z.to_nat n) (sub l a b) = take (Z.to_nat (a + n)) l.
Proof.
  intros. unfold sub. rewrite take_take, Nat.min_l by lia.
  rewrite Z2Nat.inj_add by lia. by rewrite take_take_drop.
Qed.
Lemma drop_sub l a b n :
  0 <= a -> 0 <= n -> drop (Z.to_nat n) (sub l a b) = sub l (a + n) b.
Proof.
  intros. unfold sub. rewrite drop_take_drop || rewrite skipn_firstn_comm, drop_drop.
  f_equal; [lia|f_equal; lia].
Qed.

Lemma SplitIPv4TCPPacket_closed p splitAt :
  payload_packet p -> 0 < splitAt < PayloadLen (payload_info p) ->
  SplitIPv4TCPPacket p (payload_info p) splitAt
  = Val (Ok (first_segment p splitAt, second_segment p splitAt)).
Proof.
  intros (Hver & Hihl & Hthl & Hproto & Hfrag & Htot) Hs.
  pose proof (header_len_range (byte_at p 0)).
  unfold SplitIPv4TCPPacket, first_segment, second_segment, first_raw, second_raw.
  assert (Hfl : Flags (payload_info p) = u8 (byte_at p (IPHeaderLen (payload_info p) + 13))) by done.
  set (info := payload_info p) in *. cbv zeta.
  assert (Hpo : PayloadOffset info = header_len (byte_at p 0) + tcp_header_len p) by done.
  assert (Htl : TotalLen info = u16_at p 2) by done.
  assert (Hpl : PayloadLen info = TotalLen info - PayloadOffset info) by done.
  assert (Hil : IPHeaderLen info = header_len (byte_at p 0)) by done.
  clearbody info.
  go_guard; [lia|]. go_guard; [lia|]. do 6 go_step.
  set (h := take (Z.to_nat (PayloadOffset info)) p).
  set (pay := sub p (PayloadOffset info) (TotalLen info)).
  assert (Hh : len h = PayloadOffset info) by (subst h; go_bounds).
  assert (Hpay : len pay = PayloadLen info) by (subst pay; go_bounds).
  do 4 go_step. rewrite copied_concat.
  replace (len h + splitAt) with (len h + len (take (Z.to_nat splitAt) pay))
    by (rewrite len_take by lia; lia).
  rewrite copied_concat. subst h pay. rewrite take_sub, drop_sub by lia.
  do 3 go_step. rewrite byte_at_drop, byte_at_take, <-Hfl by lia.
  do 2 go_step. rewrite wrapU32_add_r.
  eapply bind_eq; [apply fixIPv4TCPChecksums_closed; go_bounds|cbv beta].
  eapply bind_eq; [apply fixIPv4TCPChecksums_closed|cbv beta; reflexivity]; [lia|].
  go_bounds.
Qed.

(** * The segments *)

(** What the two segments must parse as: the same flow, the sequence interval
    cut at [splitAt], PSH (0x08) and FIN (0x01) only on the second. *)
Definition first_info (info : TCPPayloadInfo) (splitAt : Z) : TCPPayloadInfo :=
  {| SrcIP := SrcIP info; DstIP := DstIP info; SrcPort := SrcPort info; DstPort := DstPort info;
     Seq := Seq info; Ack := Ack info; Flags := Z.ldiff (Flags info) 0x09;
     IPHeaderLen := IPHeaderLen info; TCPHeaderLen := TCPHeaderLen info;
     PayloadOffset := PayloadOffset info; PayloadLen := splitAt;
     TotalLen := PayloadOffset info + splitAt |}.
Definition second_info (info : TCPPayloadInfo) (splitAt : Z) : TCPPayloadInfo :=
  {| SrcIP := SrcIP info; DstIP := DstIP info; SrcPort := SrcPort info; DstPort := DstPort info;
     Seq := wrapU32 (Seq info + splitAt); Ack := Ack info; Flags := Flags info;
     IPHeaderLen := IPHeaderLen info; TCPHeaderLen := TCPHeaderLen info;
     PayloadOffset := PayloadOffset info; PayloadLen := PayloadLen info - splitAt;
     TotalLen := TotalLen info - splitAt |}.

(** The application bytes of a packet. *)
Definition payload_bytes (p : bytes) : bytes :=
  sub p (PayloadOffset (payload_info p)) (TotalLen (payload_info p)).

Section segments.
Context (p : bytes) (splitAt : Z).
Context (Hp : payload_packet p) (Hs : 0 < splitAt < PayloadLen (payload_info p)).

#[local] Abbreviation ihl := (header_len (byte_at p 0)).
#[local] Abbreviation thl := (tcp_header_len p).

Local Lemma segment_bounds :
  20 <= ihl <= 60 /\ 20 <= thl <= 60 /\ 0 < splitAt
  /\ ihl + thl + splitAt < u16_at p 2 /\ u16_at p 2 <= len p /\ u16_at p 2 <= 65535.
Proof.
  destruct Hp as (_ & Hihl & Hthl & _ & _ & Htot). simpl in Hs.
  pose proof (header_len_range (byte_at p 0)). pose proof (u16_at_range p 2).
  assert (thl <= 60).
  { unfold tcp_header_len. set (b := byte_at _ _). pose proof (u8_range b).
    rewrite Z.shiftr_div_pow2 by lia. assert (u8 b / 2 ^ 4 < 16) by (apply Z.div_lt_upper_bound; lia).
    lia. }
  lia.
Qed.
Local Lemma segment_ihl : IPHeaderLen (payload_info p) = ihl.
Proof. done. Qed.
Local Lemma segment_po : PayloadOffset (payload_info p) = ihl + thl.
Proof. done. Qed.
Local Lemma segment_tl : TotalLen (payload_info p) = u16_at p 2.
Proof. done. Qed.

Lemma len_first_segment : len (first_segment p splitAt) = ihl + thl + splitAt.
Proof.
  pose proof segment_bounds. unfold first_segment, first_raw. cbv zeta.
  rewrite len_fix_result, segment_po. go_bounds.
Qed.
Lemma len_second_segment : len (second_segment p splitAt) = u16_at p 2 - splitAt.
Proof.
  pose proof segment_bounds. unfold second_segment, second_raw. cbv zeta.
  rewrite len_fix_result, segment_po, segment_tl. go_bounds.
Qed.

(** The first segment is the packet's prefix outside the rewritten fields. *)
Lemma byte_at_first_segment j :
  0 <= j < ihl + thl + splitAt ->
  ~ (2 <= j < 4) -> ~ (10 <= j < 12) -> ~ (ihl + 16 <= j < ihl + 18) -> j <> ihl + 13 ->
  byte_at (first_segment p splitAt) j = byte_at p j.
Proof.
  intros. pose proof segment_bounds. unfold first_segment, first_raw. cbv zeta.
  rewrite segment_ihl, segment_po, byte_at_fix_result by lia.
  by rewrite byte_at_upd_ne, byte_at_take by lia.
Qed.
Lemma flags_first_segment :
  byte_at (first_segment p splitAt) (ihl + 13)
  = to_byte (Z.ldiff (u8 (byte_at p (ihl + 13))) 0x09).
Proof.
  pose proof segment_bounds. unfold first_segment, first_raw. cbv zeta.
  rewrite segment_ihl, segment_po, byte_at_fix_result by lia.
  by rewrite byte_at_upd_eq by go_bounds.
Qed.

(** The second segment is the header followed by the payload's tail. *)
Lemma byte_at_second_segment j :
  0 <= j < ihl + thl ->
  ~ (2 <= j < 4) -> ~ (10 <= j < 12) -> ~ (ihl + 16 <= j < ihl + 18) ->
  ~ (ihl + 4 <= j < ihl + 8) ->
  byte_at (second_segment p splitAt) j = byte_at p j.
Proof.
  intros. pose proof segment_bounds. unfold second_segment, second_raw. cbv zeta.
  rewrite segment_ihl, segment_po, segment_tl, byte_at_fix_result, byte_at_put32_ne by lia.
  by rewrite byte_at_app_l, byte_at_take by go_bounds.
Qed.
Lemma tail_second_segment k :
  0 <= k < u16_at p 2 - (ihl + thl) - splitAt ->
  byte_at (second_segment p splitAt) (ihl + thl + k) = byte_at p (ihl + thl + splitAt + k).
Proof.
  intros. pose proof segment_bounds. unfold second_segment, second_raw. cbv zeta.
  rewrite segment_ihl, segment_po, segment_tl, byte_at_fix_result, byte_at_put32_ne by lia.
  rewrite byte_at_app_r, len_take, byte_at_sub by go_bounds. f_equal. lia.
Qed.
Lemma seq_second_segment :
  u32_at (second_segment p splitAt) (ihl + 4) = wrapU32 (u32_at p (ihl + 4) + splitAt).
Proof.
  pose proof segment_bounds. unfold second_segment, second_raw. cbv zeta.
  rewrite segment_ihl, segment_po, segment_tl, u32_at_fix_result by lia.
  rewrite u32_at_put32_eq by go_bounds. apply Z.mod_mod. lia.
Qed.

Lemma total_first_segment : u16_at (first_segment p splitAt) 2 = ihl + thl + splitAt.
Proof.
  pose proof segment_bounds. pose proof len_first_segment as Hl.
  unfold first_segment in *. rewrite len_fix_result in Hl.
  rewrite total_len_fix_result, Hl by (rewrite ?segment_ihl; lia). apply wrapU16_small. lia.
Qed.
Lemma total_second_segment : u16_at (second_segment p splitAt) 2 = u16_at p 2 - splitAt.
Proof.
  pose proof segment_bounds. pose proof len_second_segment as Hl.
  unfold second_segment in *. rewrite len_fix_result in Hl.
  rewrite total_len_fix_result, Hl by (rewrite ?segment_ihl; lia). apply wrapU16_small. lia.
Qed.

Lemma first_segment_header :
  header_len (byte_at (first_segment p splitAt) 0) = ihl
  /\ tcp_header_len (first_segment p splitAt) = thl.
Proof.
  pose proof segment_bounds. unfold tcp_header_len.
  rewrite byte_at_first_segment by lia. by rewrite byte_at_first_segment by lia.
Qed.
Lemma second_segment_header :
  header_len (byte_at (second_segment p splitAt) 0) = ihl
  /\ tcp_header_len (second_segment p splitAt) = thl.
Proof.
  pose proof segment_bounds. unfold tcp_header_len.
  rewrite byte_at_second_segment by lia. by rewrite byte_at_second_segment by lia.
Qed.

Lemma to_byte_ldiff b : u8 (to_byte (Z.ldiff (u8 b) 0x09)) = Z.ldiff (u8 b) 0x09.
Proof. destruct b; vm_compute; reflexivity. Qed.

Lemma first_segment_ok : payload_packet (first_segment p splitAt).
Proof.
  pose proof segment_bounds. pose proof len_first_segment.
  destruct Hp as (Hver & _ & _ & Hproto & Hfrag & _).
  destruct first_segment_header as [Hi Ht]. unfold payload_packet. rewrite Hi, Ht. cbv zeta.
  rewrite total_first_segment. unfold u16_at. rewrite !byte_at_first_segment by lia.
  repeat split; (done || lia).
Qed.
Lemma first_segment_parsed :
  payload_info (first_segment p splitAt) = first_info (payload_info p) splitAt.
Proof.
  pose proof segment_bounds. destruct first_segment_header as [Hi Ht].
  unfold payload_info, first_info. rewrite Hi, Ht. simpl. rewrite total_first_segment.
  unfold u32_at, u16_at. rewrite flags_first_segment, to_byte_ldiff.
  rewrite !byte_at_first_segment by lia. f_equal. lia.
Qed.

Lemma second_segment_ok : payload_packet (second_segment p splitAt).
Proof.
  pose proof segment_bounds. pose proof len_second_segment.
  destruct Hp as (Hver & _ & _ & Hproto & Hfrag & _).
  destruct second_segment_header as [Hi Ht]. unfold payload_packet. rewrite Hi, Ht. cbv zeta.
  rewrite total_second_segment. unfold u16_at at 1. rewrite !byte_at_second_segment by lia.
  repeat split; (done || lia).
Qed.
Lemma second_segment_parsed :
  payload_info (second_segment p splitAt) = second_info (payload_info p) splitAt.
Proof.
  pose proof segment_bounds. destruct second_segment_header as [Hi Ht].
  unfold payload_info, second_info. rewrite Hi, Ht. simpl.
  rewrite total_second_segment, seq_second_segment.
  unfold u32_at, u16_at. rewrite !byte_at_second_segment by lia. f_equal. lia.
Qed.

(** Between them the segments carry exactly the payload. *)
Lemma segments_payload :
  payload_bytes (first_segment p splitAt) ++ payload_bytes (second_segment p splitAt)
  = payload_bytes p.
Proof.
  pose proof segment_bounds. pose proof len_first_segment. pose proof len_second_segment.
  unfold payload_bytes. rewrite first_segment_parsed, second_segment_parsed.
  unfold first_info, second_info. simpl PayloadOffset. simpl TotalLen.
  apply bytes_ext; [go_bounds|]. intros j Hj. revert Hj.
  rewrite len_app, !len_sub by lia. intros Hj. rewrite (byte_at_sub p) by lia.
  destruct (decide (j < splitAt)).
  - rewrite byte_at_app_l, byte_at_sub by go_bounds. by rewrite byte_at_first_segment by lia.
  - rewrite byte_at_app_r, len_sub, byte_at_sub by go_bounds.
    rewrite tail_second_segment by lia. f_equal. lia.
Qed.

(** Both segments pass their receiver's checksum tests. *)
Lemma header_len_even b : Z.even (header_len b) = true.
Proof. unfold header_len. rewrite Z.even_mul. apply orb_true_r. Qed.
Local Lemma len_first_raw : len (first_raw p splitAt) = ihl + thl + splitAt.
Proof. rewrite <-len_first_segment. unfold first_segment. by rewrite len_fix_result. Qed.
Local Lemma len_second_raw : len (second_raw p splitAt) = u16_at p 2 - splitAt.
Proof. rewrite <-len_second_segment. unfold second_segment. by rewrite len_fix_result. Qed.
Lemma first_segment_ip_ok : ip_checksum_ok (first_segment p splitAt) ihl.
Proof.
  pose proof segment_bounds. pose proof len_first_raw. unfold first_segment. rewrite segment_ihl.
  apply fix_result_ip_ok; [lia..|apply header_len_even].
Qed.
Lemma first_segment_tcp_ok : tcp_checksum_ok (first_segment p splitAt) ihl.
Proof.
  pose proof segment_bounds. pose proof len_first_raw. unfold first_segment. rewrite segment_ihl.
  apply fix_result_tcp_ok; lia.
Qed.
Lemma second_segment_ip_ok : ip_checksum_ok (second_segment p splitAt) ihl.
Proof.
  pose proof segment_bounds. pose proof len_second_raw. unfold second_segment. rewrite segment_ihl.
  apply fix_result_ip_ok; [lia..|apply header_len_even].
Qed.
Lemma second_segment_tcp_ok : tcp_checksum_ok (second_segment p splitAt) ihl.
Proof.
  pose proof segment_bounds. pose proof len_second_raw. unfold second_segment. rewrite segment_ihl.
  apply fix_result_tcp_ok; lia.
Qed.
End segments.

(** * Properties *)

Lemma ParsePayload_inv p info :
  ParseIPv4TCPPayload p = Val (Some info) -> payload_packet p /\ info = payload_info p.
Proof. rewrite ParsePayload_closed. case_decide; intros [= <-]. done. Qed.
Lemma ParsePayload_ok p :
  payload_packet p -> ParseIPv4TCPPayload p = Val (Some (payload_info p)).
Proof. intros. by rewrite ParsePayload_closed, decide_True. Qed.

(** A 46-byte ACK|PSH|FIN segment 192.0.2.10:443 -> 198.51.100.20:50123 with
    payload "abcdef", as in the source's tests. *)
Definition example_packet : bytes := map to_byte
  [0x45; 0; 0; 46; 0; 0; 0; 0; 64; 6; 0; 0; 192; 0; 2; 10; 198; 51; 100; 20;
   0x01; 0xbb; 0xc3; 0xcb; 0; 0; 0x03; 0xe8; 0; 0; 0x13; 0x88; 0x50; 0x19; 0xff; 0xff;
   0; 0; 0; 0; 97; 98; 99; 100; 101; 102].
Definition example_info : TCPPayloadInfo := payload_info example_packet.

(** C23: the payload parser terminates normally on every byte string, and
    accepts exactly the complete, unfragmented IPv4/TCP packets with a
    non-empty payload, reporting the fields read at their offsets. *)
Theorem ParseIPv4TCPPayload_spec (packet : bytes) :
  ParseIPv4TCPPayload packet
  = Val (if decide (payload_packet packet) then Some (payload_info packet) else None).
Proof. apply ParsePayload_closed. Qed.

(** C11: both segments of a split are packets the parser accepts again: the
    first has the original sequence number, [splitAt] payload bytes and no
    PSH/FIN, the second starts [splitAt] later (modulo 2^32), has the rest of
    the payload and the original flags. *)
Theorem split_segments_parse (p : bytes) (info : TCPPayloadInfo) (splitAt : Z)
    (Hparse : ParseIPv4TCPPayload p = Val (Some info))
    (Hs : 0 < splitAt < PayloadLen info) :
  exists first second,
    SplitIPv4TCPPacket p info splitAt = Val (Ok (first, second))
    /\ ParseIPv4TCPPayload first = Val (Some (first_info info splitAt))
    /\ ParseIPv4TCPPayload second = Val (Some (second_info info splitAt)).
Proof.
  apply ParsePayload_inv in Hparse as [Hp ->].
  exists (first_segment p splitAt), (second_segment p splitAt). split_and!.
  - by apply SplitIPv4TCPPacket_closed.
  - rewrite <-first_segment_parsed by done. by apply ParsePayload_ok, first_segment_ok.
  - rewrite <-second_segment_parsed by done. by apply ParsePayload_ok, second_segment_ok.
Qed.

Lemma split_segments_parse_witness :
  ParseIPv4TCPPayload example_packet = Val (Some example_info)
  /\ exists first second,
    SplitIPv4TCPPacket example_packet example_info 1 = Val (Ok (first, second))
    /\ ParseIPv4TCPPayload first = Val (Some (first_info example_info 1))
    /\ ParseIPv4TCPPayload second = Val (Some (second_info example_info 1)).
Proof.
  split; [vm_compute; reflexivity|].
  apply (split_segments_parse example_packet example_info 1); [vm_compute; reflexivity|].
  vm_compute. auto.
Defined.

(** C7: no payload byte is lost, duplicated or reordered: the payloads of the
    two segments concatenate to the payload of the original packet. *)
Theorem split_preserves_payload (p : bytes) (info : TCPPayloadInfo) (splitAt : Z)
    (first second : bytes)
    (Hparse : ParseIPv4TCPPayload p = Val (Some info))
    (Hsplit : SplitIPv4TCPPacket p info splitAt = Val (Ok (first, second))) :
  sub first (PayloadOffset info) (len first) ++ sub second (PayloadOffset info) (len second)
  = sub p (PayloadOffset info) (TotalLen info).
Proof.
  apply ParsePayload_inv in Hparse as [Hp ->].
  destruct (decide (0 < splitAt < PayloadLen (payload_info p))) as [Hs|Hs].
  - rewrite SplitIPv4TCPPacket_closed in Hsplit by done. injection Hsplit as <- <-.
    pose proof (segments_payload p splitAt Hp Hs) as Hcat. unfold payload_bytes in Hcat.
    rewrite first_segment_parsed, second_segment_parsed in Hcat by done.
    rewrite len_first_segment, len_second_segment by done. exact Hcat.
  - unfold SplitIPv4TCPPacket in Hsplit. rewrite decide_True in Hsplit by lia. discriminate.
Qed.

Lemma split_preserves_payload_witness :
  let f := first_segment example_packet 1 in
  let g := second_segment example_packet 1 in
  SplitIPv4TCPPacket example_packet example_info 1 = Val (Ok (f, g))
  /\ sub f 40 (len f) ++ sub g 40 (len g) = sub example_packet 40 46.
Proof.
  split; [vm_compute; reflexivity|].
  apply (split_preserves_payload example_packet example_info 1); vm_compute; reflexivity.
Defined.

(** C12: both segments carry a valid IPv4 header checksum and a valid TCP
    checksum over their pseudo header. *)
Theorem split_checksums_valid (p : bytes) (info : TCPPayloadInfo) (splitAt : Z)
    (first second : bytes)
    (Hparse : ParseIPv4TCPPayload p = Val (Some info))
    (Hsplit : SplitIPv4TCPPacket p info splitAt = Val (Ok (first, second))) :
  ip_checksum_ok first (IPHeaderLen info) /\ tcp_checksum_ok first (IPHeaderLen info)
  /\ ip_checksum_ok second (IPHeaderLen info) /\ tcp_checksum_ok second (IPHeaderLen info).
Proof.
  apply ParsePayload_inv in Hparse as [Hp ->].
  destruct (decide (0 < splitAt < PayloadLen (payload_info p))) as [Hs|Hs].
  - rewrite SplitIPv4TCPPacket_closed in Hsplit by done. injection Hsplit as <- <-.
    split_and!; [apply first_segment_ip_ok|apply first_segment_tcp_ok
                |apply second_segment_ip_ok|apply second_segment_tcp_ok]; done.
  - unfold SplitIPv4TCPPacket in Hsplit. rewrite decide_True in Hsplit by lia. discriminate.
Qed.

Lemma split_checksums_valid_witness :
  let f := first_segment example_packet 2 in
  let g := second_segment example_packet 2 in
  ip_checksum_ok f 20 /\ tcp_checksum_ok f 20 /\ ip_checksum_ok g 20 /\ tcp_checksum_ok g 20.
Proof.
  apply (split_checksums_valid example_packet example_info 2); vm_compute; reflexivity.
Defined.

Lemma split_total p info splitAt :
  ParseIPv4TCPPayload p = Val (Some info) -> SplitIPv4TCPPacket p info splitAt <> Panic.
Proof.
  intros [Hp ->]%ParsePayload_inv.
  destruct (decide (0 < splitAt < PayloadLen (payload_info p))) as [Hs|Hs].
  - by rewrite SplitIPv4TCPPacket_closed.
  - unfold SplitIPv4TCPPacket. by rewrite decide_True by lia.
Qed.

(** C30: for a parsed packet the split never panics, and fails exactly when the
    offset is not strictly inside the payload, with that error. *)
Theorem split_errors (p : bytes) (info : TCPPayloadInfo) (splitAt : Z)
    (Hparse : ParseIPv4TCPPayload p = Val (Some info)) :
  (SplitIPv4TCPPacket p info splitAt
     = Val (Fail (SplitOutsidePayload splitAt (PayloadLen info)))
   <-> splitAt <= 0 \/ PayloadLen info <= splitAt)
  /\ SplitIPv4TCPPacket p info splitAt <> Val (Fail InvalidPacketMetadata)
  /\ SplitIPv4TCPPacket p info splitAt <> Panic.
Proof.
  apply ParsePayload_inv in Hparse as [Hp ->].
  destruct (decide (0 < splitAt < PayloadLen (payload_info p))) as [Hs|Hs].
  - rewrite SplitIPv4TCPPacket_closed by done. split_and!; [|done|done].
    split; [discriminate|lia].
  - unfold SplitIPv4TCPPacket. rewrite decide_True by lia. split_and!; [|done|done].
    split; [lia|done].
Qed.

Lemma split_errors_witness :
  ParseIPv4TCPPayload example_packet = Val (Some example_info)
  /\ SplitIPv4TCPPacket example_packet example_info 6
     = Val (Fail (SplitOutsidePayload 6 6)).
Proof.
  split; [vm_compute; reflexivity|].
  apply (split_errors example_packet example_info 6); [vm_compute; reflexivity|].
  right. vm_compute. discriminate.
Defined.
