(* ===== verification/Fake.v ===== *)
(** The fake packet of the split mode ([cmd/nfqcooldown/main.go]):
    [internetChecksum], [tcpChecksumIPv4] and
    [cloneWithFakePayloadAndBadTCPChecksum], with the guarantees on the clone's
    headers and a characterisation of when its TCP checksum really is bad. *)

From S2P Require Import Prelude Checksum GoStrings GoNet Parser Payload.
Open Scope Z_scope.

(** * The code *)

(** main.go has its own copy of the checksum, with the word written
    [uint32(data[0])<<8 | uint32(data[1])]. *)
Fixpoint sumWords (sum : Z) (data : bytes) : Z :=
  match data with
  | b0 :: b1 :: rest =>
      sumWords (wrapU32 (sum + Z.lor (wrapU32 (Z.shiftl (u8 b0) 8)) (u8 b1))) rest
  | [b] => wrapU32 (sum + wrapU32 (Z.shiftl (u8 b) 8))
  | [] => sum
  end.
(** Its own carry loop, with the same test and body as payload.go's. *)
Fixpoint foldCarries (fuel : nat) (sum : Z) : Z :=
  match fuel with
  | O => sum
  | S fuel' =>
      if Z.shiftr sum 16 =? 0 then sum
      else foldCarries fuel' (wrapU32 (Z.land sum 0xffff + Z.shiftr sum 16))
  end.
Definition internetChecksum (data : bytes) : Z :=
  notU16 (wrapU16 (foldCarries 3 (sumWords 0 data))).

Inductive FakeError :=
| PacketTooShort (n : Z)
| NotIPv4
| InvalidHeaderLength
| NotTCP
| InvalidTCPHeaderLength
| EmptyPayload
| FakeTooShortForTLS (n : Z)
| RandomizeFailed
| UnknownFakeMode (mode : string).

Definition tcpChecksumIPv4 (packet : bytes) (ipHeaderLen : Z) : go (res FakeError Z) :=
  if decide (len packet < ipHeaderLen + 20) then mret (Fail InvalidHeaderLength)
  else
    let tcpLen := len packet - ipHeaderLen in
    pseudo ← make (12 + tcpLen);
    src ← slice packet 12 16;
    pseudo ← copy_slice pseudo 0 4 src;
    dst ← slice packet 16 20;
    pseudo ← copy_slice pseudo 4 8 dst;
    pseudo ← store pseudo 8 x00;
    pseudo ← store pseudo 9 x06;
    pseudo ← store pseudo 10 (to_byte (Z.shiftr tcpLen 8));
    pseudo ← store pseudo 11 (to_byte tcpLen);
    tcp ← slice_from packet ipHeaderLen;
    pseudo ← copy_from pseudo 12 tcp;
    pseudo ← store pseudo (12 + 16) x00;
    pseudo ← store pseudo (12 + 17) x00;
    mret (Ok (internetChecksum pseudo)).

(** The five bytes of a TLS handshake record header declaring 65535 bytes. *)
Definition tls_invalid_header : bytes := [x16; x03; x03; xff; xff].

(** The [switch mode] block: rewrites the payload of the clone.
    [cryptorand_Read n] is the outcome of [crypto/rand.Read] on an [n]-byte
    slice, [None] for an error. *)
Definition rewritePayload (cryptorand_Read : Z -> option bytes) (mode : string) (fake : bytes)
    (payloadOffset fakePayloadLen : Z) : go (res FakeError bytes) :=
  if seqb mode "copy" then mret (Ok fake)
  else if seqb mode "tls-invalid-length" then
    fake ← copy_slice fake payloadOffset (payloadOffset + 5) tls_invalid_header;
    if decide (5 < fakePayloadLen) then
      tail ← slice_from fake (payloadOffset + 5);
      match cryptorand_Read (len tail) with
      | None => mret (Fail RandomizeFailed)
      | Some random =>
          fake ← copy_from fake (payloadOffset + 5) random;
          mret (Ok fake)
      end
    else mret (Ok fake)
  else mret (Fail (UnknownFakeMode mode)).

(** The tail of the function: both checksums of the finished payload, the TCP
    one corrupted.  Returns the clone and the corrupted checksum. *)
Definition finishFake (fake : bytes) (ipHeaderLen : Z) : go (res FakeError (bytes * Z)) :=
  fake ← store fake 10 x00;
  fake ← store fake 11 x00;
  hdr ← slice_to fake ipHeaderLen;
  let ipChecksum := internetChecksum hdr in
  fake ← store fake 10 (to_byte (Z.shiftr ipChecksum 8));
  fake ← store fake 11 (to_byte ipChecksum);
  r ← tcpChecksumIPv4 fake ipHeaderLen;
  match r with
  | Fail e => mret (Fail e)
  | Ok validFakeChecksum =>
      let corrupted := Z.lxor validFakeChecksum 0xffff in
      let corrupted := if corrupted =? validFakeChecksum then Z.lxor corrupted 1 else corrupted in
      fake ← store fake (ipHeaderLen + 16) (to_byte (Z.shiftr corrupted 8));
      fake ← store fake (ipHeaderLen + 17) (to_byte corrupted);
      mret (Ok (fake, corrupted))
  end.

(** Result: the clone, the packet's own checksum, the corrupted checksum and
    the length of the fake payload. *)
Definition cloneWithFakePayloadAndBadTCPChecksum (cryptorand_Read : Z -> option bytes)
    (packet : bytes) (mode : string) (requestedFakeLength : Z)
    : go (res FakeError (bytes * Z * Z * Z)) :=
  if decide (len packet < 20) then mret (Fail (PacketTooShort (len packet)))
  else
    b0 ← idx packet 0;
    if decide (version b0 <> 4) then mret (Fail NotIPv4)
    else
      let ipHeaderLen := header_len b0 in
      if decide (ipHeaderLen < 20 \/ len packet < ipHeaderLen + 20)
      then mret (Fail InvalidHeaderLength)
      else
        proto ← idx packet 9;
        if decide (u8 proto <> 6) then mret (Fail NotTCP)
        else
          b12 ← idx packet (ipHeaderLen + 12);
          let tcpHeaderLen := Z.shiftr (u8 b12) 4 * 4 in
          let payloadOffset := ipHeaderLen + tcpHeaderLen in
          if decide (tcpHeaderLen < 20 \/ len packet < payloadOffset)
          then mret (Fail InvalidTCPHeaderLength)
          else
            let payloadLen := len packet - payloadOffset in
            if decide (payloadLen = 0) then mret (Fail EmptyPayload)
            else
              let fakePayloadLen :=
                if decide (0 < requestedFakeLength /\ requestedFakeLength < payloadLen)
                then requestedFakeLength else payloadLen in
              if decide (mode = "tls-invalid-length"%string /\ fakePayloadLen < 5)
              then mret (Fail (FakeTooShortForTLS fakePayloadLen))
              else
                c0 ← idx packet (ipHeaderLen + 16);
                c1 ← idx packet (ipHeaderLen + 17);
                let original := Z.lor (Z.shiftl (u8 c0) 8) (u8 c1) in
                let fakePacketLen := payloadOffset + fakePayloadLen in
                fake ← slice_to packet fakePacketLen;
                fake ← store fake 2 (to_byte (Z.shiftr fakePacketLen 8));
                fake ← store fake 3 (to_byte fakePacketLen);
                r ← rewritePayload cryptorand_Read mode fake payloadOffset fakePayloadLen;
                match r with
                | Fail e => mret (Fail e)
                | Ok fake =>
                    r ← finishFake fake ipHeaderLen;
                    match r with
                    | Fail e => mret (Fail e)
                    | Ok (fake, corrupted) => mret (Ok (fake, original, corrupted, fakePayloadLen))
                    end
                end.

(** * The checksum *)

Lemma main_word b0 b1 : Z.lor (wrapU32 (Z.shiftl (u8 b0) 8)) (u8 b1) = be16 b0 b1.
Proof.
  pose proof (u8_range b0). rewrite wrapU32_small.
  - unfold be16. apply Z.lor_comm.
  - rewrite Z.shiftl_mul_pow2; lia.
Qed.
Lemma sumWords_same data : forall sum, sumWords sum data = Checksum.sumWords sum data.
Proof.
  induction data as [|b|b0 b1 l IH] using pairs_ind; intros sum; simpl; try done.
  by rewrite main_word, IH.
Qed.
Lemma foldCarries_same fuel : forall sum, foldCarries fuel sum = Checksum.foldCarries fuel sum.
Proof. induction fuel as [|fuel IH]; intros sum; simpl; [done|]. by rewrite IH. Qed.
Lemma internetChecksum_same data : internetChecksum data = Checksum.internetChecksum data.
Proof. unfold internetChecksum. by rewrite sumWords_same, foldCarries_same. Qed.

(** C40: the two copies of the checksum, in payload.go and in main.go, compute the
    same function. *)
Theorem internetChecksum_copies_agree (data : bytes) :
  internetChecksum data = Checksum.internetChecksum data.
Proof. apply internetChecksum_same. Qed.

Lemma upd_same l i b : 0 <= i < len l -> byte_at l i = b -> upd l i b = l.
Proof.
  intros Hi <-. apply bytes_ext; [apply len_upd|]. intros j Hj. rewrite len_upd in Hj.
  destruct (decide (j = i)) as [->|]; [by rewrite byte_at_upd_eq|by rewrite byte_at_upd_ne by lia].
Qed.
Lemma upd2_put16 l i j v :
  j = i + 1 -> upd (upd l i (to_byte (Z.shiftr v 8))) j (to_byte v) = put16 l i v.
Proof. by intros ->. Qed.

Lemma tcpChecksumIPv4_closed p ihl :
  20 <= ihl -> ihl + 20 <= len p ->
  tcpChecksumIPv4 p ihl = Val (Ok (Checksum.internetChecksum (put16 (tcp_pseudo p ihl) 28 0))).
Proof.
  intros Hi Hl. unfold tcpChecksumIPv4. go_guard; [lia|]. cbv zeta. do 5 go_step.
  change (4 - 0) with 4. change (8 - 4) with 4.
  set (pseudo := copied _ 4 4 _).
  assert (Hlen : len pseudo = 12 + (len p - ihl)).
  { subst pseudo. rewrite !len_copied, len_replicate by go_bounds. done. }
  assert (H8 : byte_at pseudo 8 = x00).
  { subst pseudo. rewrite !byte_at_copied by go_bounds. rewrite !decide_False by lia.
    apply byte_at_replicate. }
  do 4 go_step. rewrite (upd_same pseudo) by (done || lia). subst pseudo.
  rewrite (upd2_put16 _ 10 11) by lia. go_step. go_step. rewrite len_drop by lia.
  rewrite pseudo_assembled by lia.
  eapply bind_eq; [apply store_val; rewrite len_tcp_pseudo; lia|cbv beta].
  eapply bind_eq; [apply store_val; rewrite len_upd, len_tcp_pseudo; lia|cbv beta].
  rewrite (zero16 _ (12 + 16) (12 + 17)) by lia. by rewrite internetChecksum_same.
Qed.

(** ** The corrupted checksum *)

(** Closed form of [finishFake]. *)
Definition fake_headers (p : bytes) (ihl : Z) : bytes :=
  let p := put16 p 10 0 in
  put16 p 10 (Checksum.internetChecksum (take (Z.to_nat ihl) p)).
Definition valid_tcp_checksum (p : bytes) (ihl : Z) : Z :=
  Checksum.internetChecksum (put16 (tcp_pseudo p ihl) 28 0).

(** Complementing a 16-bit value always changes it, so the source's second
    test never fires. *)
Lemma notU16_ne c : 0 <= c < 65536 -> (Z.lxor c 0xffff =? c) = false.
Proof. intros H. apply Z.eqb_neq. change (notU16 c <> c). rewrite notU16_sub by done. lia. Qed.

Lemma finishFake_closed p ihl :
  20 <= ihl -> ihl + 20 <= len p ->
  let q := fake_headers p ihl in
  let c := notU16 (valid_tcp_checksum q ihl) in
  finishFake p ihl = Val (Ok (put16 q (ihl + 16) c, c)).
Proof.
  intros Hi Hl q c. unfold finishFake.
  do 3 go_step. rewrite !(zero16 _ 10 11), internetChecksum_same by lia. do 2 go_step.
  rewrite (upd2_put16 _ 10 11) by lia. fold (fake_headers p ihl). fold q.
  assert (Hq : len q = len p) by (subst q; unfold fake_headers; by rewrite !len_put16).
  eapply bind_eq; [apply tcpChecksumIPv4_closed; lia|]. cbv beta iota zeta.
  fold (valid_tcp_checksum q ihl).
  rewrite notU16_ne by apply internetChecksum_range. fold (notU16 (valid_tcp_checksum q ihl)). fold c.
  do 2 go_step. by rewrite (upd2_put16 _ (ihl + 16)) by lia.
Qed.

(** The receiver's sum over the pseudo segment with the corrupted checksum. *)
Lemma corrupted_valid_iff data :
  len data <= 131070 -> 30 <= len data -> u16_at data 28 = 0 -> 0 < word_sum data ->
  checksum_valid (put16 data 28 (notU16 (Checksum.internetChecksum data)))
  <-> Checksum.internetChecksum data = 0.
Proof.
  intros Hmax Hmin Hz Hpos. pose proof (word_sum_bound data).
  pose proof (internetChecksum_range data) as Hr.
  rewrite internetChecksum_spec in * by lia.
  pose proof (ones_complement_range (word_sum data) ltac:(lia)).
  rewrite notU16_sub by lia.
  set (c := 65535 - (65535 - ones_complement (word_sum data))).
  assert (Hsum : word_sum (put16 data 28 c) = word_sum data + ones_complement (word_sum data)).
  { rewrite word_sum_put16, Hz by (done || lia). rewrite wrapU16_small by lia. lia. }
  rewrite checksum_valid_iff, Hsum.
  revert Hpos. clear. generalize (word_sum data). intros s Hs.
  unfold ones_complement. destruct (Z.eqb_spec s 0); [lia|].
  pose proof (Z.mod_pos_bound (s - 1) 65535 ltac:(lia)).
  pose proof (Z.div_mod (s - 1) 65535 ltac:(lia)) as Hd.
  set (r := (s - 1) mod 65535) in *. set (q := (s - 1) / 65535) in *.
  replace (s + (1 + r)) with (2 * (1 + r) + q * 65535) by lia. rewrite Z.mod_add by lia.
  split.
  - intros [_ Hm]. apply Z.mod_divide in Hm; [|lia]. destruct Hm as [k Hk]. lia.
  - intros Hc. assert (r = 65534) as -> by lia. split; [lia|done].
Qed.

(** The pseudo header holds the protocol number, so its sum is positive. *)
Lemma word_sum_pos data : (exists i, 0 <= i < len data /\ byte_at data i <> x00) -> 0 < word_sum data.
Proof.
  assert (Hu : forall b, b <> x00 -> 0 < u8 b).
  { intros b Hb. pose proof (u8_range b). assert (u8 b <> 0); [|lia].
    intros H0. apply Hb, u8_inj. by rewrite H0. }
  induction data as [|b|b0 b1 l IH] using pairs_ind; intros (i & Hi & Hb).
  - change (len (@nil byte)) with 0 in Hi. lia.
  - change (len [b]) with 1 in Hi. assert (i = 0) as -> by lia.
    cbn [word_sum]. pose proof (Hu b Hb). change (u8 x00) with 0. lia.
  - cbn [word_sum]. pose proof (word_sum_nonneg l).
    pose proof (u8_range b0). pose proof (u8_range b1).
    destruct (decide (i = 0)) as [->|]; [pose proof (Hu b0 Hb); lia|].
    destruct (decide (i = 1)) as [->|]; [pose proof (Hu b1 Hb); lia|].
    assert (0 < word_sum l); [|lia]. apply IH. exists (i - 2).
    rewrite !len_cons in Hi. split; [lia|]. intros Hb0. apply Hb. rewrite <-Hb0.
    change (b0 :: b1 :: l) with ([b0; b1] ++ l). by rewrite byte_at_app_r by (change (len [b0; b1]) with 2; lia).
Qed.

Lemma put16_put16 l i u v : 0 <= i -> i + 2 <= len l -> put16 (put16 l i u) i v = put16 l i v.
Proof.
  intros. apply bytes_ext; [by rewrite !len_put16|]. intros j Hj. rewrite !len_put16 in Hj.
  unfold put16. destruct (decide (j = i + 1)) as [->|].
  { by rewrite !byte_at_upd_eq by (rewrite ?len_upd; lia). }
  rewrite !(byte_at_upd_ne _ (i + 1)) by lia. destruct (decide (j = i)) as [->|].
  { by rewrite !byte_at_upd_eq by (rewrite ?len_upd; lia). }
  by rewrite !byte_at_upd_ne by lia.
Qed.

(** The checksum the source complements is the one a receiver accepts. *)
Lemma valid_tcp_checksum_ok q ihl v :
  20 <= ihl -> ihl + 20 <= len q -> len q <= 65535 ->
  tcp_checksum_ok (put16 (put16 q (ihl + 16) v) (ihl + 16) (valid_tcp_checksum q ihl)) ihl.
Proof.
  intros Hi Hl Hm. unfold tcp_checksum_ok. rewrite put16_put16, tcp_pseudo_put16 by lia.
  unfold valid_tcp_checksum.
  rewrite <-(put16_put16 (tcp_pseudo q ihl) 28 0) by (rewrite ?len_tcp_pseudo; lia).
  apply checksum_fill; rewrite ?len_put16, ?len_tcp_pseudo by lia; try (done || lia).
  apply u16_at_put16_eq; rewrite ?len_tcp_pseudo; lia.
Qed.

Lemma fake_tcp_valid_iff q ihl :
  20 <= ihl -> ihl + 20 <= len q -> len q <= 65535 ->
  tcp_checksum_ok (put16 q (ihl + 16) (notU16 (valid_tcp_checksum q ihl))) ihl
  <-> valid_tcp_checksum q ihl = 0.
Proof.
  intros Hi Hl Hm. unfold tcp_checksum_ok. rewrite tcp_pseudo_put16 by lia.
  unfold valid_tcp_checksum. set (d := put16 (tcp_pseudo q ihl) 28 0).
  assert (Hd : len d = 12 + (len q - ihl)) by (subst d; rewrite len_put16, len_tcp_pseudo; lia).
  assert (Hover : forall v, put16 (tcp_pseudo q ihl) 28 v = put16 d 28 v).
  { intros v. subst d. by rewrite put16_put16 by (rewrite ?len_tcp_pseudo; lia). }
  rewrite Hover. apply corrupted_valid_iff; [lia|lia| |].
  - subst d. apply u16_at_put16_eq; rewrite ?len_tcp_pseudo; lia.
  - apply word_sum_pos. exists 9. split; [lia|]. subst d.
    rewrite byte_at_put16_ne, byte_at_tcp_pseudo by lia. done.
Qed.

(** * The clone *)

(** What the payload rewriting leaves alone: the length and every byte before
    the payload. *)
Definition same_header (f g : bytes) (po : Z) : Prop :=
  len f = len g /\ forall j, 0 <= j < po -> byte_at f j = byte_at g j.

(** What it writes: nothing in the copy mode; a record header of type 22
    announcing 65535 bytes and then random bytes in the TLS mode. *)
Definition payload_rewritten (rnd : Z -> option bytes) (mode : string) (f g : bytes)
    (po n : Z) : Prop :=
  mode = "copy"%string /\ f = g
  \/ mode = "tls-invalid-length"%string
     /\ (forall j, 0 <= j < 5 -> byte_at f (po + j) = byte_at [x16; x03; x03; xff; xff] j)
     /\ (5 < n -> exists random, rnd (n - 5) = Some random /\
           forall j, 0 <= j < len random -> po + 5 + j < len f ->
             byte_at f (po + 5 + j) = byte_at random j).

Lemma rewritePayload_run rnd mode fake po n :
  0 <= po -> len fake = po + n -> 0 < n -> (mode = "tls-invalid-length"%string -> 5 <= n) ->
  exists r, rewritePayload rnd mode fake po n = Val r
    /\ match r with
       | Ok fake' => payload_rewritten rnd mode fake' fake po n /\ same_header fake' fake po
       | Fail e => e = RandomizeFailed /\ rnd (n - 5) = None /\ 5 < n
                   \/ e = UnknownFakeMode mode
       end.
Proof.
  intros Hpo Hlen Hn Htls. unfold rewritePayload, seqb. case_bool_decide as Hc.
  { exists (Ok fake). unfold same_header, payload_rewritten. auto. }
  case_bool_decide as Ht; [|exists (Fail (UnknownFakeMode mode)); auto].
  specialize (Htls Ht).
  assert (Hh : len tls_invalid_header = 5) by done.
  rewrite copy_slice_exact, bind_val by lia.
  replace (po + 5 - po) with 5 by lia. set (f1 := copied _ _ _ _).
  assert (Hf1 : len f1 = len fake) by (apply len_copied; lia).
  assert (Hs1 : same_header f1 fake po).
  { split; [done|]. intros j Hj. subst f1. rewrite byte_at_copied by lia.
    by rewrite decide_False by lia. }
  assert (Ht1 : forall j, 0 <= j < 5 -> byte_at f1 (po + j) = byte_at tls_invalid_header j).
  { intros j Hj. subst f1. rewrite byte_at_copied, decide_True by lia. f_equal. lia. }
  case_decide as H5.
  2:{ exists (Ok f1). split; [done|]. split; [|done]. right. split_and!; done. }
  rewrite slice_from_val, bind_val, len_drop by lia.
  replace (len f1 - (po + 5)) with (n - 5) by lia.
  destruct (rnd (n - 5)) as [random|] eqn:Hrnd; [|exists (Fail RandomizeFailed); auto].
  unfold copy_from. pose proof (len_nonneg random). rewrite copy_slice_val, bind_val by lia.
  eexists. split; [reflexivity|]. split.
  { right. split; [done|]. split.
    - intros j Hj. rewrite byte_at_copied, decide_False by lia. by apply Ht1.
    - intros _. exists random. split; [done|]. intros j Hj Hl. rewrite len_copied in Hl by lia.
      rewrite byte_at_copied, decide_True by lia. f_equal. lia. }
  destruct Hs1 as [_ Hs1]. split; [rewrite len_copied; lia|].
  intros j Hj. rewrite byte_at_copied, decide_False by lia. by apply Hs1.
Qed.

(** The packets that can be cloned; unlike [payload_packet] the payload extends
    to the end of the buffer. *)
Definition fakeable (p : bytes) : Prop :=
  version (byte_at p 0) = 4 /\ 20 <= header_len (byte_at p 0) /\ u8 (byte_at p 9) = 6
  /\ 20 <= tcp_header_len p /\ header_len (byte_at p 0) + tcp_header_len p < len p.
#[export] Instance fakeable_dec p : Decision (fakeable p).
Proof. unfold fakeable. apply _. Defined.

Definition fake_len (p : bytes) (requested : Z) : Z :=
  let payloadLen := len p - (header_len (byte_at p 0) + tcp_header_len p) in
  if decide (0 < requested /\ requested < payloadLen) then requested else payloadLen.

Definition fake_start (p : bytes) (n : Z) : bytes :=
  let total := header_len (byte_at p 0) + tcp_header_len p + n in
  put16 (take (Z.to_nat total) p) 2 total.

(** Stepping to an error result. *)
Lemma bind_fails {A B E} (m : go A) (f : A -> go (res E B)) a :
  m = Val a -> (exists e, f a = Val (Fail e)) -> exists e, (m ≫= f) = Val (Fail e).
Proof. by intros ->. Qed.
Ltac reject_step := eapply bind_fails; [go_val|cbv beta zeta].
Ltac reject_guard :=
  match goal with |- exists _, (if decide ?P then _ else _) = _ =>
    destruct (decide P); [by eexists|] end.

Lemma clone_reject rnd p mode req :
  ~ fakeable p ->
  exists e, cloneWithFakePayloadAndBadTCPChecksum rnd p mode req = Val (Fail e).
Proof.
  unfold fakeable. intros Hn. pose proof (header_len_range (byte_at p 0)) as Hr.
  unfold cloneWithFakePayloadAndBadTCPChecksum.
  reject_guard. reject_step. reject_guard. reject_guard. reject_step. reject_guard.
  reject_step. fold (tcp_header_len p). reject_guard. reject_guard.
  exfalso. apply Hn. split_and!; (done || lia).
Qed.

Lemma clone_run rnd p mode req :
  fakeable p ->
  let n := fake_len p req in
  let ihl := header_len (byte_at p 0) in
  let po := ihl + tcp_header_len p in
  cloneWithFakePayloadAndBadTCPChecksum rnd p mode req
  = if decide (mode = "tls-invalid-length"%string /\ n < 5)
    then Val (Fail (FakeTooShortForTLS n))
    else rewritePayload rnd mode (fake_start p n) po n ≫= fun r =>
         match r with
         | Fail e => mret (Fail e)
         | Ok fake => finishFake fake ihl ≫= fun r =>
             match r with
             | Fail e => mret (Fail e)
             | Ok (fake, corrupted) => mret (Ok (fake, u16_at p (ihl + 16), corrupted, n))
             end
         end.
Proof.
  intros (Hv & Hi & Hp & Ht & Hl). pose proof (header_len_range (byte_at p 0)) as Hr. cbv zeta.
  unfold cloneWithFakePayloadAndBadTCPChecksum.
  go_guard; [lia|]. go_step. go_guard; [lia|]. go_guard; [lia|].
  go_step. go_guard; [lia|]. go_step. fold (tcp_header_len p).
  go_guard; [lia|]. go_guard; [lia|].
  fold (fake_len p req).
  assert (Hn : 0 < fake_len p req <= len p - (header_len (byte_at p 0) + tcp_header_len p))
    by (unfold fake_len; case_decide; lia).
  destruct (decide (mode = _ /\ fake_len p req < 5)); [done|].
  do 5 go_step. unfold fake_start. rewrite (upd2_put16 _ 2 3) by lia.
  unfold u16_at, be16. replace (header_len (byte_at p 0) + 16 + 1) with (header_len (byte_at p 0) + 17) by lia.
  by rewrite Z.lor_comm.
Qed.

Lemma fake_len_bounds p req :
  fakeable p ->
  0 < fake_len p req <= len p - (header_len (byte_at p 0) + tcp_header_len p).
Proof. intros (_ & _ & _ & _ & Hl). unfold fake_len. case_decide; lia. Qed.
Lemma len_fake_start p n :
  fakeable p -> 0 <= n <= len p - (header_len (byte_at p 0) + tcp_header_len p) ->
  len (fake_start p n) = header_len (byte_at p 0) + tcp_header_len p + n.
Proof. intros (_ & ? & _ & ? & _) Hn. unfold fake_start. go_bounds. Qed.

(** Every outcome of the clone: an error, or the finished form of a body that
    agrees with the packet up to the payload. *)
Lemma clone_outcome rnd p mode req :
  (exists e, cloneWithFakePayloadAndBadTCPChecksum rnd p mode req = Val (Fail e))
  \/ (fakeable p /\
      let n := fake_len p req in
      let ihl := header_len (byte_at p 0) in
      exists body, same_header body (fake_start p n) (ihl + tcp_header_len p) /\
        payload_rewritten rnd mode body (fake_start p n) (ihl + tcp_header_len p) n /\
        let q := fake_headers body ihl in
        let c := notU16 (valid_tcp_checksum q ihl) in
        cloneWithFakePayloadAndBadTCPChecksum rnd p mode req
        = Val (Ok (put16 q (ihl + 16) c, u16_at p (ihl + 16), c, n))).
Proof.
  destruct (decide (fakeable p)) as [Hf|Hf]; [|left; by apply clone_reject].
  pose proof (fake_len_bounds p req Hf) as Hn. pose proof (len_fake_start p (fake_len p req) Hf ltac:(lia)) as Hl.
  pose proof Hf as (_ & Hi & _ & Ht & _). rewrite clone_run by done. cbv zeta.
  case_decide as Htls; [left; eauto|].
  destruct (rewritePayload_run rnd mode (fake_start p (fake_len p req))
              (header_len (byte_at p 0) + tcp_header_len p) (fake_len p req)) as (r & -> & Hr);
    [lia|lia|lia|intros ->; destruct (decide (fake_len p req < 5)); [exfalso; auto|lia]|].
  rewrite bind_val. destruct r as [body|e]; [|left; eauto].
  destruct Hr as [Hw Hsame]. right. split; [done|]. exists body. split; [done|]. split; [done|].
  destruct Hsame as [Hlen _]. rewrite finishFake_closed by lia. done.
Qed.

Lemma clone_total rnd p mode req :
  exists r, cloneWithFakePayloadAndBadTCPChecksum rnd p mode req = Val r.
Proof. destruct (clone_outcome rnd p mode req) as [[e ->]|(_ & body & _ & _ & ->)]; eauto. Qed.

(** C28: cloning a packet never panics, whatever the packet, mode, requested length
    and random bytes. *)
Theorem clone_never_panics (rnd : Z -> option bytes) (packet : bytes) (mode : string)
    (requestedFakeLength : Z) :
  cloneWithFakePayloadAndBadTCPChecksum rnd packet mode requestedFakeLength <> Panic.
Proof.
  by destruct (clone_total rnd packet mode requestedFakeLength) as [r ->].
Qed.

Lemma clone_body p req n body :
  let ihl := header_len (byte_at p 0) in
  let po := ihl + tcp_header_len p in
  same_header body (fake_start p n) po -> fakeable p -> n = fake_len p req ->
  len body = po + n /\ 20 <= ihl /\ 20 <= tcp_header_len p /\ 0 < n /\ po + n <= len p.
Proof.
  intros ihl po [Hb _] Hf ->. subst ihl po.
  pose proof (fake_len_bounds p req Hf). pose proof Hf as (_ & ? & _ & ? & _).
  rewrite Hb, len_fake_start by (done || lia). lia.
Qed.

Section clone.
Context (rnd : Z -> option bytes) (p : bytes) (mode : string) (req : Z).
Context (fake : bytes) (original corrupted n : Z).
Context (Hlen : len p <= 65535).
Context (Hok : cloneWithFakePayloadAndBadTCPChecksum rnd p mode req
               = Val (Ok (fake, original, corrupted, n))).
#[local] Abbreviation ihl := (header_len (byte_at p 0)).
#[local] Abbreviation po := (header_len (byte_at p 0) + tcp_header_len p).

Local Lemma clone_inv :
  fakeable p /\ n = fake_len p req /\ original = u16_at p (ihl + 16)
  /\ exists body, same_header body (fake_start p n) po
     /\ payload_rewritten rnd mode body (fake_start p n) po n
     /\ corrupted = notU16 (valid_tcp_checksum (fake_headers body ihl) ihl)
     /\ fake = put16 (fake_headers body ihl) (ihl + 16) corrupted.
Proof.
  destruct (clone_outcome rnd p mode req) as [[e He]|(Hf & body & Hs & Hw & Hr)].
  - rewrite He in Hok. discriminate.
  - rewrite Hr in Hok. injection Hok as <- <- <- <-. split_and!; eauto.
Qed.
Lemma clone_len : len fake = po + n /\ u16_at fake 2 = len fake /\ 0 < n /\ po + n <= len p.
Proof.
  destruct clone_inv as (Hf & Hn & _ & body & Hs & _ & _ & ->).
  destruct (clone_body p req n body Hs Hf Hn) as (Hb & ? & ? & ? & ?). destruct Hs as [_ Hs].
  unfold fake_headers. rewrite !len_put16. split; [done|]. split; [|lia].
  rewrite !u16_at_put16_ne by lia. unfold u16_at. rewrite !Hs by lia. fold (u16_at (fake_start p n) 2).
  unfold fake_start. rewrite u16_at_put16_eq by go_bounds. rewrite wrapU16_small; lia.
Qed.
Lemma clone_header j :
  0 <= j < po -> ~ (2 <= j < 4) -> ~ (10 <= j < 12) -> ~ (ihl + 16 <= j < ihl + 18) ->
  byte_at fake j = byte_at p j.
Proof.
  intros. destruct clone_inv as (Hf & Hn & _ & body & Hs & _ & _ & ->).
  destruct (clone_body p req n body Hs Hf Hn) as (Hb & ? & ? & ? & ?). destruct Hs as [_ Hs].
  unfold fake_headers. rewrite !byte_at_put16_ne, Hs by lia.
  unfold fake_start. by rewrite byte_at_put16_ne, byte_at_take by lia.
Qed.
Lemma clone_ip_ok : ip_checksum_ok fake ihl.
Proof.
  destruct clone_inv as (Hf & Hn & _ & body & Hs & _ & _ & ->).
  destruct (clone_body p req n body Hs Hf Hn) as (Hb & ? & ? & ? & ?).
  unfold ip_checksum_ok, fake_headers. rewrite take_put16_ge, take_put16 by go_bounds.
  apply checksum_fill; rewrite ?len_take by go_bounds; try (done || lia).
  rewrite take_put16, u16_at_put16_eq by go_bounds. done.
Qed.
Lemma clone_tcp_iff : tcp_checksum_ok fake ihl <-> corrupted = 0xffff.
Proof.
  destruct clone_inv as (Hf & Hn & _ & body & Hs & _ & Hc & ->).
  destruct (clone_body p req n body Hs Hf Hn) as (Hb & ? & ? & ? & ?).
  assert (Hq : len (fake_headers body ihl) = len body) by (unfold fake_headers; go_bounds).
  rewrite Hc, fake_tcp_valid_iff by lia.
  pose proof (internetChecksum_range (put16 (tcp_pseudo (fake_headers body ihl) ihl) 28 0)) as Hr.
  fold (valid_tcp_checksum (fake_headers body ihl) ihl) in Hr. rewrite notU16_sub by lia. lia.
Qed.
Lemma clone_fields :
  original = u16_at p (ihl + 16) /\ u16_at fake (ihl + 16) = corrupted
  /\ n = (if decide (0 < req /\ req < len p - po) then req else len p - po).
Proof.
  destruct clone_inv as (Hf & Hn & Ho & body & Hs & _ & Hc & ->).
  destruct (clone_body p req n body Hs Hf Hn) as (Hb & ? & ? & ? & ?).
  assert (Hq : len (fake_headers body ihl) = len body) by (unfold fake_headers; go_bounds).
  split; [done|]. split; [|done]. rewrite u16_at_put16_eq by lia. apply wrapU16_small. subst corrupted.
  pose proof (internetChecksum_range (put16 (tcp_pseudo (fake_headers body ihl) ihl) 28 0)) as Hr.
  unfold valid_tcp_checksum. rewrite notU16_sub by lia. lia.
Qed.
Lemma clone_complement :
  0 <= corrupted <= 65535 /\ tcp_checksum_ok (put16 fake (ihl + 16) (65535 - corrupted)) ihl.
Proof.
  destruct clone_inv as (Hf & Hn & _ & body & Hs & _ & Hc & ->).
  destruct (clone_body p req n body Hs Hf Hn) as (Hb & ? & ? & ? & ?).
  assert (Hq : len (fake_headers body ihl) = len body) by (unfold fake_headers; go_bounds).
  pose proof (internetChecksum_range (put16 (tcp_pseudo (fake_headers body ihl) ihl) 28 0)) as Hr.
  fold (valid_tcp_checksum (fake_headers body ihl) ihl) in Hr.
  rewrite notU16_sub in Hc by done. split; [lia|].
  replace (65535 - corrupted) with (valid_tcp_checksum (fake_headers body ihl) ihl) by lia.
  apply valid_tcp_checksum_ok; lia.
Qed.
(** The payload bytes of the clone are those of the rewritten body. *)
Lemma clone_payload :
  (mode = "copy"%string -> forall j, po <= j < len fake -> byte_at fake j = byte_at p j)
  /\ (mode = "tls-invalid-length"%string ->
        forall j, 0 <= j < 5 -> byte_at fake (po + j) = byte_at [x16; x03; x03; xff; xff] j).
Proof.
  destruct clone_inv as (Hf & Hn & _ & body & Hs & Hw & _ & ->).
  destruct (clone_body p req n body Hs Hf Hn) as (Hb & ? & ? & ? & ?).
  assert (Hpay : forall j, po <= j ->
    byte_at (put16 (fake_headers body ihl) (ihl + 16) corrupted) j = byte_at body j).
  { intros j Hj. unfold fake_headers. by rewrite !byte_at_put16_ne by lia. }
  split; intros Hm j Hj; rewrite Hpay by lia; destruct Hw as [[-> ->] | (Hm' & Hw & _)];
    try congruence; [|by apply Hw].
  unfold fake_headers in Hj. rewrite !len_put16 in Hj. unfold fake_start in *.
  rewrite len_put16 in *. rewrite byte_at_put16_ne, byte_at_take by lia. done.
Qed.
End clone.

(** * Properties *)


(** The example packet with its last two payload bytes chosen so that the TCP
    checksum of the segment comes out as zero. *)
Definition zero_checksum_packet : bytes :=
  upd (upd example_packet 44 (to_byte 33)) 45 (to_byte 182).
Definition no_random (n : Z) : option bytes := None.
Definition clone_of (p : bytes) : bytes :=
  match cloneWithFakePayloadAndBadTCPChecksum no_random p "copy" 0 with
  | Val (Ok (fake, _, _, _)) => fake
  | _ => []
  end.


(** C35: the fake's TCP checksum fails the receiver's check, except when the
    complement written into it is 0xffff (the correct checksum being 0x0000):
    0x0000 and 0xffff are the same ones'-complement number. *)
Theorem fake_tcp_checksum_bad_iff (rnd : Z -> option bytes) (p : bytes) (mode : string)
    (req : Z) (fake : bytes) (original corrupted n : Z)
    (Hlen : len p <= 65535)
    (Hok : cloneWithFakePayloadAndBadTCPChecksum rnd p mode req
           = Val (Ok (fake, original, corrupted, n))) :
  tcp_checksum_ok fake (header_len (byte_at p 0)) <-> corrupted = 0xffff.
Proof. by eapply clone_tcp_iff. Qed.

Lemma fake_tcp_checksum_bad_iff_witness :
  cloneWithFakePayloadAndBadTCPChecksum no_random example_packet "copy" 0
    = Val (Ok (clone_of example_packet, 0, 17328, 6))
  /\ ~ tcp_checksum_ok (clone_of example_packet) 20.
Proof.
  split; [vm_compute; reflexivity|]. intros H.
  assert (17328 = 0xffff) as Hbad; [|discriminate Hbad].
  apply (fake_tcp_checksum_bad_iff no_random example_packet "copy" 0
           (clone_of example_packet) 0 17328 6);
    [vm_compute; discriminate|vm_compute; reflexivity|exact H].
Defined.

(** C39: the exception is reachable: there is a packet the daemon accepts whose
    "bad checksum" fake carries a TCP checksum the receiver accepts. *)
Theorem fake_checksum_can_be_valid :
  exists (p fake : bytes) (info : TCPPayloadInfo) (original corrupted n : Z),
    ParseIPv4TCPPayload p = Val (Some info)
    /\ cloneWithFakePayloadAndBadTCPChecksum no_random p "copy" 0
       = Val (Ok (fake, original, corrupted, n))
    /\ tcp_checksum_ok fake (IPHeaderLen info).
Proof.
  exists zero_checksum_packet, (clone_of zero_checksum_packet), (payload_info zero_checksum_packet).
  exists 0, 0xffff, 6. split_and!; vm_compute; reflexivity.
Qed.
