(* ===== verification/Algorithm.v ===== *)
(** Cooldown algorithms ([internal/algorithm.go]): the three strategies behind
    the [Algorithm] interface, rejection sampling, and the constructor. *)

From S2P Require Import Prelude GoStrings.
Open Scope Z_scope.

(** * Random numbers *)

(** The global generator of [math/rand] as the stream of its future 64-bit
    outputs. *)
Definition rng : Type := nat -> Z.
Definition rand_Uint64 (r : rng) : Z * rng := (wrapU64 (r O), fun n => r (S n)).

(** A [time.Duration] is an [int64]. *)
Definition is_duration (d : Z) : Prop := MinInt64 <= d <= MaxInt64.

(** The [for] loop of [randomUint64Inclusive]; [fuel] bounds the number of
    draws, [None] means the loop has not left within [fuel] draws. *)
Fixpoint rejection_loop (fuel : nat) (threshold size : Z) (r : rng) : option (Z * rng) :=
  match fuel with
  | O => None
  | S fuel' =>
      let '(value, r) := rand_Uint64 r in
      if threshold <=? value then Some (value mod size, r)
      else rejection_loop fuel' threshold size r
  end.

(** [threshold := -size % size] on [uint64]. *)
Definition rejection_threshold (size : Z) : Z := wrapU64 (- size) mod size.

Definition randomUint64Inclusive (fuel : nat) (max : Z) (r : rng) : option (Z * rng) :=
  if max =? MaxUint64 then Some (rand_Uint64 r)
  else
    let size := wrapU64 (max + 1) in
    rejection_loop fuel (rejection_threshold size) size r.

Definition randomDurationInclusive (fuel : nat) (min max : Z) (r : rng) : option (Z * rng) :=
  let min := if min <? 0 then 0 else min in
  if max <=? min then Some (min, r)
  else
    let span := wrapU64 (wrapI64 (max - min)) in
    match randomUint64Inclusive fuel span r with
    | None => None
    | Some (offset, r) => Some (wrapI64 (min + wrapI64 offset), r)
    end.

(** * The algorithms *)

Record FixedAlgorithm := { Cooldown : Z }.
Record RandomAlgorithm := { Min : Z; Max : Z }.
Record JitterAlgorithm := { Base : Z; Jitter : Z }.

Definition Fixed_Next (a : FixedAlgorithm) : Z := Cooldown a.

Definition Random_Next (fuel : nat) (a : RandomAlgorithm) (r : rng) : option (Z * rng) :=
  let min := Min a in
  let max := Max a in
  let min := if min <? 0 then 0 else min in
  if max <=? min then Some (min, r) else randomDurationInclusive fuel min max r.

(** The arithmetic after the draw [raw]. *)
Definition jitter_apply (base jitter raw : Z) : Z :=
  if raw <=? jitter then
    let negativeOffset := wrapU64 (jitter - raw) in
    if wrapU64 base <=? negativeOffset then 0
    else wrapI64 (base - wrapI64 negativeOffset)
  else
    let positiveOffset := wrapU64 (raw - jitter) in
    let maxPositiveOffset := wrapU64 (wrapI64 (MaxInt64 - base)) in
    if maxPositiveOffset <? positiveOffset then MaxInt64
    else wrapI64 (base + wrapI64 positiveOffset).
Definition Jitter_Next (fuel : nat) (a : JitterAlgorithm) (r : rng) : option (Z * rng) :=
  let base := Base a in
  let base := if base <? 0 then 0 else base in
  if Jitter a <=? 0 then Some (base, r)
  else
    let jitter := wrapU64 (Jitter a) in
    match randomUint64Inclusive fuel (wrapU64 (jitter * 2)) r with
    | None => None
    | Some (raw, r) => Some (jitter_apply base jitter raw, r)
    end.

(** ** The interface *)

(** Go's [Algorithm] interface: what [State] calls.  [Next] may draw random
    numbers; [None] is a call that has not returned within [fuel] draws. *)
Class AlgorithmI (A : Type) := {
  Next : nat -> A -> rng -> option (Z * rng);
  Name : A -> string
}.
(** The promise of an algorithm to its clients: cooldowns are durations between
    [lo a] and [hi a]. *)
Class AlgorithmLaws (A : Type) `{AlgorithmI A} (valid : A -> Prop) (lo hi : A -> Z) :=
  next_range fuel a r d r' :
    valid a -> Next fuel a r = Some (d, r') -> 0 <= lo a <= d /\ d <= hi a <= MaxInt64.

(** The dynamic values [NewAlgorithm] puts behind the interface. *)
Inductive Algorithm :=
| FixedAlg (a : FixedAlgorithm)
| RandomAlg (a : RandomAlgorithm)
| JitterAlg (a : JitterAlgorithm).
#[export] Instance algorithm_dispatch : AlgorithmI Algorithm := {
  Next fuel a r := match a with
    | FixedAlg a => Some (Fixed_Next a, r)
    | RandomAlg a => Random_Next fuel a r
    | JitterAlg a => Jitter_Next fuel a r
    end;
  Name a := match a with
    | FixedAlg _ => "fixed" | RandomAlg _ => "random" | JitterAlg _ => "jitter" end%string
}.

Inductive AlgorithmError :=
| CooldownNegative
| MinDelayNegative
| MaxDelayBelowMin
| JitterNegative
| BadMode (mode : string).

Definition NewAlgorithm (mode : string) (cooldown minDelay maxDelay jitter : Z)
    : res AlgorithmError Algorithm :=
  if seqb mode "fixed" then
    if cooldown <? 0 then Fail CooldownNegative else Ok (FixedAlg {| Cooldown := cooldown |})
  else if seqb mode "random" then
    if minDelay <? 0 then Fail MinDelayNegative
    else if maxDelay <? minDelay then Fail MaxDelayBelowMin
    else Ok (RandomAlg {| Min := minDelay; Max := maxDelay |})
  else if seqb mode "jitter" then
    if cooldown <? 0 then Fail CooldownNegative
    else if jitter <? 0 then Fail JitterNegative
    else Ok (JitterAlg {| Base := cooldown; Jitter := jitter |})
  else Fail (BadMode mode).

(** * Rejection sampling *)

Lemma rejection_threshold_eq size :
  0 < size < 2 ^ 64 -> rejection_threshold size = 2 ^ 64 mod size.
Proof.
  intros Hs. unfold rejection_threshold, wrapU64. rewrite Z.mod_opp_l_nz; [|lia|].
  2: { rewrite Z.mod_small; lia. }
  rewrite (Z.mod_small size) by lia. rewrite <-(Z.mod_add (2 ^ 64 - size) 1 size) by lia.
  f_equal. lia.
Qed.
Lemma rejection_threshold_range size :
  0 < size < 2 ^ 64 -> 0 <= rejection_threshold size < size.
Proof. intros. rewrite rejection_threshold_eq by done. apply Z.mod_pos_bound. lia. Qed.
(** At most half of the draws are rejected. *)
Lemma rejection_threshold_half size :
  0 < size < 2 ^ 64 -> 2 * rejection_threshold size < 2 ^ 64.
Proof.
  intros Hs. rewrite rejection_threshold_eq by done.
  pose proof (Z.div_mod (2 ^ 64) size ltac:(lia)).
  pose proof (Z.mod_pos_bound (2 ^ 64) size ltac:(lia)).
  assert (1 <= 2 ^ 64 / size) by (apply Z.div_le_lower_bound; lia). nia.
Qed.

Lemma rejection_loop_range fuel : forall threshold size r v r',
  0 < size -> rejection_loop fuel threshold size r = Some (v, r') -> 0 <= v < size.
Proof.
  induction fuel as [|fuel IH]; intros threshold size r v r' Hs; simpl; [done|].
  case_match; [intros [= <- <-]; by apply Z.mod_pos_bound|by apply IH].
Qed.
(** The loop returns the first draw that is not rejected. *)
Lemma rejection_loop_first fuel : forall threshold size r k,
  (k < fuel)%nat -> threshold <= wrapU64 (r k) ->
  (forall j, (j < k)%nat -> wrapU64 (r j) < threshold) ->
  rejection_loop fuel threshold size r = Some (wrapU64 (r k) mod size, fun n => r (S k + n)%nat).
Proof.
  induction fuel as [|fuel IH]; intros threshold size r k Hk Hacc Hrej; [lia|]. simpl.
  destruct k as [|k].
  - destruct (Z.leb_spec threshold (wrapU64 (r O))); [done|lia].
  - pose proof (Hrej O ltac:(lia)). destruct (Z.leb_spec threshold (wrapU64 (r O))); [lia|].
    rewrite (IH _ _ _ k); [done|lia|done|]. intros j Hj. apply Hrej. lia.
Qed.
(** At most half of the 64-bit numbers are rejected, the lower ones: one draw in
    the upper half among the next [fuel] is enough for the loop to return. *)
Definition high_draw (fuel : nat) (r : rng) : Prop :=
  exists j, (j < fuel)%nat /\ 2 ^ 63 <= wrapU64 (r j).
Lemma rejection_loop_high fuel threshold size : forall r,
  2 * threshold < 2 ^ 64 -> high_draw fuel r ->
  exists v r', rejection_loop fuel threshold size r = Some (v, r').
Proof.
  induction fuel as [|fuel IH]; intros r Ht (j & Hj & Hr); [lia|]. simpl.
  destruct (Z.leb_spec threshold (wrapU64 (r O))) as [|Hlow]; [by eexists _, _|].
  apply IH; [done|]. destruct j as [|j]; [lia|]. exists j. split; [lia|done].
Qed.
Lemma randomUint64Inclusive_high fuel max r :
  0 <= max <= MaxUint64 -> high_draw fuel r ->
  exists v r', randomUint64Inclusive fuel max r = Some (v, r').
Proof.
  intros Hm Hr. unfold randomUint64Inclusive, MaxUint64 in *. case_match; [by eexists _, _|].
  apply rejection_loop_high; [|done]. rewrite wrapU64_small by lia. apply rejection_threshold_half. lia.
Qed.
Lemma Next_high fuel (a : Algorithm) r : high_draw fuel r -> exists d r', Next fuel a r = Some (d, r').
Proof.
  intros Hr. destruct a as [a|a|a]; simpl.
  - by eexists _, _.
  - unfold Random_Next. cbv zeta. generalize (if Min a <? 0 then 0 else Min a). intros m.
    destruct (Max a <=? m); [by eexists _, _|]. unfold randomDurationInclusive. cbv zeta.
    generalize (if m <? 0 then 0 else m). intros m'. destruct (Max a <=? m'); [by eexists _, _|].
    pose proof (wrapU64_range (wrapI64 (Max a - m'))) as Hs.
    edestruct (randomUint64Inclusive_high fuel) as (v & r' & ->); [|exact Hr|by eexists _, _].
    unfold MaxUint64. lia.
  - unfold Jitter_Next. cbv zeta. destruct (Jitter a <=? 0); [by eexists _, _|].
    pose proof (wrapU64_range (wrapU64 (Jitter a) * 2)) as Hs.
    edestruct (randomUint64Inclusive_high fuel) as (v & r' & ->); [|exact Hr|by eexists _, _].
    unfold MaxUint64. lia.
Qed.

Lemma randomUint64Inclusive_range fuel max r v r' :
  0 <= max <= MaxUint64 -> randomUint64Inclusive fuel max r = Some (v, r') -> 0 <= v <= max.
Proof.
  unfold randomUint64Inclusive, MaxUint64. intros Hm. case_match eqn:He.
  - intros [= <- <-]. pose proof (wrapU64_range (r O)). lia.
  - intros Hl. apply rejection_loop_range in Hl; rewrite wrapU64_small in *; lia.
Qed.

(** * Ranges *)

(** The jitter arithmetic is exact addition clamped to the durations that are
    not negative; no intermediate value wraps. *)
Lemma jitter_apply_clamp base jitter raw :
  0 <= base <= MaxInt64 -> 0 <= jitter <= MaxInt64 -> 0 <= raw <= 2 * jitter ->
  jitter_apply base jitter raw = Z.max 0 (Z.min MaxInt64 (base + (raw - jitter))).
Proof.
  unfold MaxInt64. intros Hb Hj Hr. unfold jitter_apply, MaxInt64.
  rewrite (wrapU64_small base) by lia. destruct (Z.leb_spec raw jitter).
  - rewrite wrapU64_small by lia. destruct (Z.leb_spec base (jitter - raw)); [lia|].
    rewrite !wrapI64_small by (unfold MinInt64, MaxInt64; rewrite ?wrapI64_small;
                               unfold MinInt64, MaxInt64; lia). lia.
  - rewrite (wrapU64_small (raw - jitter)) by lia.
    rewrite (wrapI64_small (_ - base)) by (unfold MinInt64, MaxInt64; lia).
    rewrite wrapU64_small by lia. destruct (Z.ltb_spec (2 ^ 63 - 1 - base) (raw - jitter)); [lia|].
    rewrite !wrapI64_small by (unfold MinInt64, MaxInt64; rewrite ?wrapI64_small;
                               unfold MinInt64, MaxInt64; lia). lia.
Qed.

Lemma randomDurationInclusive_range fuel min max r d r' :
  0 <= min <= max -> max <= MaxInt64 ->
  randomDurationInclusive fuel min max r = Some (d, r') -> min <= d <= max.
Proof.
  unfold MaxInt64. intros Hm Hx. unfold randomDurationInclusive.
  destruct (Z.ltb_spec min 0); [lia|]. destruct (Z.leb_spec max min); [intros [= <- <-]; lia|].
  rewrite wrapI64_small, wrapU64_small by (unfold MinInt64, MaxInt64; lia).
  destruct (randomUint64Inclusive _ _ _) as [[off r1]|] eqn:E; [|done]. intros [= <- <-].
  apply randomUint64Inclusive_range in E; [|unfold MaxUint64; lia].
  rewrite !wrapI64_small by (unfold MinInt64, MaxInt64; rewrite ?wrapI64_small;
                             unfold MinInt64, MaxInt64; lia). lia.
Qed.

(** The values [NewAlgorithm] builds, and the range of their cooldowns. *)
Definition valid_algorithm (a : Algorithm) : Prop :=
  match a with
  | FixedAlg a => 0 <= Cooldown a <= MaxInt64
  | RandomAlg a => 0 <= Min a <= Max a /\ Max a <= MaxInt64
  | JitterAlg a => 0 <= Base a <= MaxInt64 /\ 0 <= Jitter a <= MaxInt64
  end.
Definition cooldown_lo (a : Algorithm) : Z :=
  match a with
  | FixedAlg a => Cooldown a
  | RandomAlg a => Min a
  | JitterAlg a => Z.max 0 (Base a - Jitter a)
  end.
Definition cooldown_hi (a : Algorithm) : Z :=
  match a with
  | FixedAlg a => Cooldown a
  | RandomAlg a => Max a
  | JitterAlg a => Z.min MaxInt64 (Base a + Jitter a)
  end.

Lemma Random_Next_range fuel a r d r' :
  0 <= Min a <= Max a -> Max a <= MaxInt64 -> Random_Next fuel a r = Some (d, r') ->
  Min a <= d <= Max a.
Proof.
  intros Hm Hx. unfold Random_Next. destruct (Z.ltb_spec (Min a) 0); [lia|].
  destruct (Z.leb_spec (Max a) (Min a)); [intros [= <- <-]; lia|].
  by apply randomDurationInclusive_range.
Qed.
Lemma Jitter_Next_clamp fuel a r d r' :
  0 <= Base a <= MaxInt64 -> 0 <= Jitter a <= MaxInt64 -> Jitter_Next fuel a r = Some (d, r') ->
  exists off, - Jitter a <= off <= Jitter a /\ d = Z.max 0 (Z.min MaxInt64 (Base a + off)).
Proof.
  intros Hb Hj. unfold Jitter_Next. destruct (Z.ltb_spec (Base a) 0); [lia|].
  destruct (Z.leb_spec (Jitter a) 0).
  { intros [= <- <-]. exists 0. lia. }
  unfold MaxInt64 in *. rewrite (wrapU64_small (Jitter a)), wrapU64_small by lia.
  destruct (randomUint64Inclusive _ _ _) as [[raw r1]|] eqn:E; [|done]. intros [= <- <-].
  apply randomUint64Inclusive_range in E; [|unfold MaxUint64; lia].
  exists (raw - Jitter a). split; [lia|]. apply jitter_apply_clamp; unfold MaxInt64; lia.
Qed.

#[export] Instance algorithm_laws :
  AlgorithmLaws Algorithm valid_algorithm cooldown_lo cooldown_hi.
Proof.
  intros fuel [a|a|a] r d r' Hv Hn; simpl in *.
  - injection Hn as <- <-. unfold Fixed_Next. lia.
  - destruct Hv as [Hm Hx]. apply Random_Next_range in Hn; lia.
  - destruct Hv as [Hb Hj]. apply Jitter_Next_clamp in Hn as (off & ? & ->); lia.
Qed.

Lemma NewAlgorithm_valid mode cooldown minDelay maxDelay jitter a :
  is_duration cooldown -> is_duration maxDelay -> is_duration jitter ->
  NewAlgorithm mode cooldown minDelay maxDelay jitter = Ok a -> valid_algorithm a.
Proof.
  unfold is_duration, NewAlgorithm. intros Hc Hm Hj.
  repeat case_match; intros [= <-]; simpl; lia.
Qed.

(** * Properties *)

(** C26: rejection sampling returns as soon as one draw is accepted; it then
    returns exactly the first accepted draw reduced modulo the range size, a
    value between 0 and [max]. *)
Theorem randomUint64Inclusive_terminates (max : Z) (r : rng) (k : nat)
    (Hmax : 0 <= max < MaxUint64)
    (Hacc : rejection_threshold (max + 1) <= wrapU64 (r k))
    (Hrej : forall j, (j < k)%nat -> wrapU64 (r j) < rejection_threshold (max + 1)) :
  (forall fuel, (k < fuel)%nat ->
     randomUint64Inclusive fuel max r
     = Some (wrapU64 (r k) mod (max + 1), fun n => r (S k + n)%nat))
  /\ 0 <= wrapU64 (r k) mod (max + 1) <= max
  /\ 2 * rejection_threshold (max + 1) < 2 ^ 64.
Proof.
  unfold MaxUint64 in Hmax. split_and!.
  - intros fuel Hf. unfold randomUint64Inclusive, MaxUint64.
    destruct (Z.eqb_spec max (2 ^ 64 - 1)); [lia|]. rewrite wrapU64_small by lia.
    by apply rejection_loop_first.
  - apply Z.mod_pos_bound. lia.
  - pose proof (Z.mod_pos_bound (wrapU64 (r k)) (max + 1) ltac:(lia)). lia.
  - apply rejection_threshold_half. lia.
Qed.

Lemma randomUint64Inclusive_terminates_witness :
  randomUint64Inclusive 2 9 (fun n => if decide (n = 0)%nat then 3 else 27)
  = Some (7, fun n => if decide (2 + n = 0)%nat then 3 else 27).
Proof.
  refine (proj1 (randomUint64Inclusive_terminates 9
            (fun n => if decide (n = 0)%nat then 3 else 27) 1 _ _ _) 2%nat _).
  - unfold MaxUint64. lia.
  - vm_compute. discriminate.
  - intros [|j] Hj; [vm_compute; reflexivity|lia].
  - lia.
Defined.

(** C29: no modulo bias: among the 64-bit draws that are accepted, every residue
    below the range size has exactly [2^64 / size] preimages. *)
Theorem rejection_sampling_uniform (size residue v : Z)
    (Hsize : 0 < size < 2 ^ 64) (Hres : 0 <= residue < size) :
  (rejection_threshold size <= v < 2 ^ 64 /\ v mod size = residue)
  <-> exists k, 0 <= k < 2 ^ 64 / size
      /\ v = rejection_threshold size + (residue - rejection_threshold size) mod size + k * size.
Proof.
  rewrite rejection_threshold_eq by done.
  pose proof (Z.div_mod (2 ^ 64) size ltac:(lia)) as Hd.
  pose proof (Z.mod_pos_bound (2 ^ 64) size ltac:(lia)) as Ht.
  set (t := 2 ^ 64 mod size) in *. set (q := 2 ^ 64 / size) in *. rewrite Hd.
  pose proof (Z.mod_pos_bound (residue - t) size ltac:(lia)).
  split.
  - intros [Hv Hr]. exists ((v - t) / size).
    pose proof (Z.div_mod (v - t) size ltac:(lia)) as Hvd.
    assert ((residue - t) mod size = (v - t) mod size) as ->
      by (by rewrite <-Hr, Zminus_mod_idemp_l).
    split; [|lia]. split; [apply Z.div_pos; lia|]. apply Z.div_lt_upper_bound; lia.
  - intros (k & Hk & ->). split.
    + split; [nia|]. nia.
    + rewrite Z.mod_add, Zplus_mod_idemp_r by lia. rewrite <-(Z.mod_small residue size) at 2 by lia.
      f_equal. lia.
Qed.

Lemma rejection_sampling_uniform_witness :
  (rejection_threshold 10 <= 27 < 2 ^ 64 /\ 27 mod 10 = 7)
  <-> exists k, 0 <= k < 2 ^ 64 / 10
      /\ 27 = rejection_threshold 10 + (7 - rejection_threshold 10) mod 10 + k * 10.
Proof. apply (rejection_sampling_uniform 10 7 27); lia. Defined.

(** C16: every cooldown drawn from an algorithm built by [NewAlgorithm] lies in
    the documented range: exactly the base for fixed, between the bounds for
    random, within the jitter of the base and never negative or past the
    largest duration for jitter. *)
Theorem NewAlgorithm_cooldowns_in_range (mode : string) (cooldown minDelay maxDelay jitter : Z)
    (a : Algorithm) (fuel : nat) (r r' : rng) (d : Z)
    (Hc : is_duration cooldown) (Hx : is_duration maxDelay) (Hj : is_duration jitter)
    (Hnew : NewAlgorithm mode cooldown minDelay maxDelay jitter = Ok a)
    (Hnext : Next fuel a r = Some (d, r')) :
  0 <= cooldown_lo a <= d /\ d <= cooldown_hi a <= MaxInt64.
Proof.
  eapply algorithm_laws; [|exact Hnext]. exact (NewAlgorithm_valid _ _ _ _ _ _ Hc Hx Hj Hnew).
Qed.

Lemma NewAlgorithm_cooldowns_in_range_witness :
  let a := JitterAlg {| Base := 500; Jitter := 100 |} in
  NewAlgorithm "jitter" 500 300 700 100 = Ok a
  /\ 0 <= cooldown_lo a <= 450 /\ 450 <= cooldown_hi a <= MaxInt64.
Proof.
  split; [reflexivity|].
  refine (NewAlgorithm_cooldowns_in_range "jitter" 500 300 700 100
            (JitterAlg {| Base := 500; Jitter := 100 |}) 1 (fun _ => 251)
            (fun _ => 251) 450 _ _ _ _ _);
    [unfold is_duration, MinInt64, MaxInt64; lia..|reflexivity|vm_compute; reflexivity].
Defined.

(** One outcome of the constructor against the settings that lead to it. *)
Ltac constructor_case :=
  split; [intros Hr; simplify_eq; intuition lia
         |intros Hc; destruct_and?; destruct_or?; destruct_and?; simplify_eq; first [done | lia]].

(** C34: every outcome of the constructor and the settings that give it: each
    error exactly when its test is the first of the selected mode to fail, an
    unknown mode reported by its name, and in the remaining cases the algorithm of
    that mode with its parameters. *)
Theorem NewAlgorithm_errors (mode : string) (cooldown minDelay maxDelay jitter : Z) :
  let r := NewAlgorithm mode cooldown minDelay maxDelay jitter in
  ((r = Fail CooldownNegative <-> (mode = "fixed" \/ mode = "jitter") /\ cooldown < 0)
  /\ (r = Fail MinDelayNegative <-> mode = "random" /\ minDelay < 0)
  /\ (r = Fail MaxDelayBelowMin <-> mode = "random" /\ 0 <= minDelay /\ maxDelay < minDelay)
  /\ (r = Fail JitterNegative <-> mode = "jitter" /\ 0 <= cooldown /\ jitter < 0)
  /\ (forall m, r = Fail (BadMode m)
        <-> m = mode /\ mode <> "fixed" /\ mode <> "random" /\ mode <> "jitter")
  /\ (forall c, r = Ok (FixedAlg {| Cooldown := c |})
        <-> mode = "fixed" /\ 0 <= cooldown /\ c = cooldown)
  /\ (forall lo hi, r = Ok (RandomAlg {| Min := lo; Max := hi |})
        <-> mode = "random" /\ 0 <= minDelay <= maxDelay /\ lo = minDelay /\ hi = maxDelay)
  /\ (forall b j, r = Ok (JitterAlg {| Base := b; Jitter := j |})
        <-> mode = "jitter" /\ 0 <= cooldown /\ 0 <= jitter /\ b = cooldown /\ j = jitter))%string.
Proof.
  cbv zeta. unfold NewAlgorithm, seqb.
  destruct (decide (mode = "fixed"%string)) as [->|H1];
    [|destruct (decide (mode = "random"%string)) as [->|H2];
      [|destruct (decide (mode = "jitter"%string)) as [->|H3]]]; simpl.
  - destruct (Z.ltb_spec cooldown 0); split_and!; intros; constructor_case.
  - destruct (Z.ltb_spec minDelay 0), (Z.ltb_spec maxDelay minDelay);
      split_and!; intros; constructor_case.
  - destruct (Z.ltb_spec cooldown 0), (Z.ltb_spec jitter 0);
      split_and!; intros; constructor_case.
  - rewrite !bool_decide_false by done. split_and!; intros; constructor_case.
Qed.
