(* ===== verification/State.v ===== *)
(** Per-client cooldown state ([internal/state.go]): the mutex-protected map of
    clients and its operations, proved against the [Algorithm] interface. *)

From S2P Require Import Prelude GoStrings GoTime Algorithm.
Open Scope Z_scope.

(** * The code *)

Record ClientState := {
  cs_LastSeen : Time;
  cs_Cooldown : Duration;
  cs_DropCount : Z
}.

Record LastEvent := {
  ev_Type : string;
  ev_IP : string;
  ev_PacketID : Z;
  ev_Cooldown : Duration;
  ev_Elapsed : Duration;
  ev_Remaining : Duration
}.
Definition LastEvent_zero : LastEvent :=
  {| ev_Type := ""; ev_IP := ""; ev_PacketID := 0; ev_Cooldown := 0; ev_Elapsed := 0;
     ev_Remaining := 0 |}.

(** The fields guarded by [mu]; every method holds the lock from entry to
    return, so each is one atomic transition of this record. *)
Record State (A : Type) := {
  clients : gmap string ClientState;
  lastEvent : LastEvent;
  algorithm : A
}.
Arguments clients {A}.
Arguments lastEvent {A}.
Arguments algorithm {A}.

Definition NewState {A} (algorithm : A) : State A :=
  {| clients := ∅; lastEvent := LastEvent_zero; algorithm := algorithm |}.

(** [s.clients[ip] = st], [s.lastEvent = ev], [delete(s.clients, ip)]. *)
Definition set_client {A} (ip : string) (st : ClientState) (s : State A) : State A :=
  {| clients := <[ip := st]> (clients s); lastEvent := lastEvent s; algorithm := algorithm s |}.
Definition set_event {A} (ev : LastEvent) (s : State A) : State A :=
  {| clients := clients s; lastEvent := ev; algorithm := algorithm s |}.
Definition delete_client {A} (ip : string) (s : State A) : State A :=
  {| clients := delete ip (clients s); lastEvent := lastEvent s; algorithm := algorithm s |}.

Record Decision_ := {
  allowed : bool;
  dec_cooldown : Duration;
  elapsed : Duration;
  remaining : Duration;
  event : LastEvent
}.

Section state.
Context {A : Type} `{AlgorithmI A}.
(** Draws available to one [Next] call. *)
Context (fuel : nat).

Definition Decide (ip : string) (now : Time) (packetID : Z) (s : State A) (r : rng)
    : option (Decision_ * State A * rng) :=
  match clients s !! ip with
  | None =>
      match Next fuel (algorithm s) r with
      | None => None
      | Some (cd, r) =>
          let s := set_client ip {| cs_LastSeen := now; cs_Cooldown := cd; cs_DropCount := 0 |} s in
          let ev := {| ev_Type := "ACCEPT-FIRST"; ev_IP := ip; ev_PacketID := packetID;
                       ev_Cooldown := cd; ev_Elapsed := 0; ev_Remaining := 0 |} in
          Some ({| allowed := true; dec_cooldown := cd; elapsed := 0; remaining := 0;
                   event := ev |}, set_event ev s, r)
      end
  | Some st =>
      let el := time_Sub now (cs_LastSeen st) in
      if cs_Cooldown st <=? el then
        match Next fuel (algorithm s) r with
        | None => None
        | Some (cd, r) =>
            let s := set_client ip {| cs_LastSeen := now; cs_Cooldown := cd; cs_DropCount := 0 |} s in
            let ev := {| ev_Type := "ACCEPT"; ev_IP := ip; ev_PacketID := packetID;
                         ev_Cooldown := cd; ev_Elapsed := el; ev_Remaining := 0 |} in
            Some ({| allowed := true; dec_cooldown := cd; elapsed := el; remaining := 0;
                     event := ev |}, set_event ev s, r)
        end
      else
        let rem := wrapI64 (cs_Cooldown st - el) in
        let ev := {| ev_Type := "INSIDE-COOLDOWN"; ev_IP := ip; ev_PacketID := packetID;
                     ev_Cooldown := cs_Cooldown st; ev_Elapsed := el; ev_Remaining := rem |} in
        Some ({| allowed := false; dec_cooldown := cs_Cooldown st; elapsed := el;
                 remaining := rem; event := ev |}, set_event ev s, r)
  end.

(** [MarkDelayedAccept] and [ForceAccept]: restart the cooldown of a client. *)
Definition MarkDelayedAccept (ip : string) (now : Time) (packetID : Z) (waited : Duration)
    (s : State A) (r : rng) : option (Z * LastEvent * State A * rng) :=
  match Next fuel (algorithm s) r with
  | None => None
  | Some (cd, r) =>
      let s := set_client ip {| cs_LastSeen := now; cs_Cooldown := cd; cs_DropCount := 0 |} s in
      let ev := {| ev_Type := "ACCEPT-AFTER-DELAY"; ev_IP := ip; ev_PacketID := packetID;
                   ev_Cooldown := cd; ev_Elapsed := 0; ev_Remaining := waited |} in
      Some (cd, ev, set_event ev s, r)
  end.
Definition ForceAccept (ip : string) (now : Time) (packetID : Z) (s : State A) (r : rng)
    : option (Z * LastEvent * State A * rng) :=
  match Next fuel (algorithm s) r with
  | None => None
  | Some (cd, r) =>
      let s := set_client ip {| cs_LastSeen := now; cs_Cooldown := cd; cs_DropCount := 0 |} s in
      let ev := {| ev_Type := "FORCE-ACCEPT"; ev_IP := ip; ev_PacketID := packetID;
                   ev_Cooldown := cd; ev_Elapsed := 0; ev_Remaining := 0 |} in
      Some (cd, ev, set_event ev s, r)
  end.

Definition RememberEvent (ev : LastEvent) (s : State A) : State A := set_event ev s.

(** [Cleanup]: [now] is the reading of [time.Now()]; [order] is the order in
    which [range] visits the keys of the map. *)
Definition cleanup_visit (cutoff : Time) (acc : Z * State A) (ip : string) : Z * State A :=
  let '(removed, s) := acc in
  match clients s !! ip with
  | Some st => if time_Before (cs_LastSeen st) cutoff then (removed + 1, delete_client ip s)
               else (removed, s)
  | None => (removed, s)
  end.
Definition Cleanup (order : list string) (now : Time) (ttl : Duration) (s : State A)
    : Z * State A :=
  let cutoff := time_Add now (wrapI64 (- ttl)) in
  fold_left (cleanup_visit cutoff) order (0, s).

Definition Snapshot (s : State A) : Z * LastEvent := (Z.of_nat (size (clients s)), lastEvent s).
Definition Forget (ip : string) (s : State A) : State A := delete_client ip s.
Definition IncDrop (ip : string) (s : State A) : Z * State A :=
  match clients s !! ip with
  | None => (0, s)
  | Some st =>
      let st := {| cs_LastSeen := cs_LastSeen st; cs_Cooldown := cs_Cooldown st;
                   cs_DropCount := wrapI64 (cs_DropCount st + 1) |} in
      (cs_DropCount st, set_client ip st s)
  end.
End state.

(** * Decisions *)

Section facts.
Context {A : Type} `{AlgorithmI A}.
Context (fuel : nat).
Implicit Types (s : State A) (r : rng).

(** When a packet of [ip] at [now] is let through. *)
Definition cooled_down (ip : string) (now : Time) (s : State A) : Prop :=
  match clients s !! ip with
  | None => True
  | Some st => cs_Cooldown st <= time_Sub now (cs_LastSeen st)
  end.
#[export] Instance cooled_down_dec ip now s : Decision (cooled_down ip now s).
Proof. unfold cooled_down. destruct (clients s !! ip); apply _. Defined.

(** What a decision does to the map. *)
Definition restarted (ip : string) (now : Time) (cd : Duration) (s s' : State A) : Prop :=
  clients s' = <[ip := {| cs_LastSeen := now; cs_Cooldown := cd; cs_DropCount := 0 |}]> (clients s)
  /\ algorithm s' = algorithm s.

Lemma Decide_cases ip now id s r d s' r' :
  Decide fuel ip now id s r = Some (d, s', r') ->
  (allowed d = true /\ cooled_down ip now s /\ restarted ip now (dec_cooldown d) s s'
     /\ Next fuel (algorithm s) r = Some (dec_cooldown d, r'))
  \/ (allowed d = false /\ ~ cooled_down ip now s /\ clients s' = clients s
        /\ algorithm s' = algorithm s /\ r' = r /\
        exists st, clients s !! ip = Some st /\ dec_cooldown d = cs_Cooldown st
          /\ elapsed d = time_Sub now (cs_LastSeen st)
          /\ remaining d = wrapI64 (cs_Cooldown st - elapsed d)).
Proof.
  unfold Decide, cooled_down, restarted. destruct (clients s !! ip) as [st|] eqn:E.
  - destruct (Z.leb_spec (cs_Cooldown st) (time_Sub now (cs_LastSeen st))).
    + destruct (Next _ _ _) as [[cd r1]|] eqn:En; [|done]. intros [= <- <- <-]. left. done.
    + intros [= <- <- <-]. right. split_and!; try done; [lia|]. eauto.
  - destruct (Next _ _ _) as [[cd r1]|] eqn:En; [|done]. intros [= <- <- <-]. left. done.
Qed.
(** The figures a decision reports. *)
Definition since (ip : string) (now : Time) (s : State A) : Duration :=
  match clients s !! ip with Some st => time_Sub now (cs_LastSeen st) | None => 0 end.
Lemma Decide_figures ip now id s r d s' r' :
  Decide fuel ip now id s r = Some (d, s', r') ->
  elapsed d = since ip now s
  /\ remaining d = (if allowed d then 0 else wrapI64 (dec_cooldown d - elapsed d))
  /\ lastEvent s' = event d /\ algorithm s' = algorithm s
  /\ exists type,
       event d = {| ev_Type := type; ev_IP := ip; ev_PacketID := id;
                    ev_Cooldown := dec_cooldown d; ev_Elapsed := elapsed d;
                    ev_Remaining := remaining d |}
       /\ type = (if allowed d then if decide (clients s !! ip = None) then "ACCEPT-FIRST"
                                    else "ACCEPT"
                  else "INSIDE-COOLDOWN")%string.
Proof.
  unfold Decide, since. destruct (clients s !! ip) as [st|] eqn:E; [destruct (_ <=? _)|];
    repeat case_match; intros [= <- <- <-]; simpl; split_and!; try done; by eexists.
Qed.

(** ** Cleanup *)

(** What one visit leaves of an entry. *)
Definition survivor (cutoff : Time) (o : option ClientState) : option ClientState :=
  match o with
  | Some st => if time_Before (cs_LastSeen st) cutoff then None else Some st
  | None => None
  end.

Lemma cleanup_visit_spec cutoff k n s n1 s1 :
  cleanup_visit cutoff (n, s) k = (n1, s1) ->
  (forall ip, clients s1 !! ip
     = if decide (ip = k) then survivor cutoff (clients s !! k) else clients s !! ip)
  /\ n1 + Z.of_nat (size (clients s1)) = n + Z.of_nat (size (clients s))
  /\ lastEvent s1 = lastEvent s /\ algorithm s1 = algorithm s.
Proof.
  unfold cleanup_visit, survivor. destruct (clients s !! k) as [st|] eqn:Ek.
  - destruct (time_Before (cs_LastSeen st) cutoff) eqn:Eb; intros [= <- <-]; split_and!; try done.
    + intros ip. simpl. case_decide as Hd; [subst; apply lookup_delete_eq|by apply lookup_delete_ne].
    + simpl. rewrite map_size_delete, Ek. assert (size (clients s) <> 0)%nat; [|simpl; lia].
      intros Hz%map_size_empty_inv. by rewrite Hz, lookup_empty in Ek.
    + intros ip. case_decide; [by subst|done].
  - intros [= <- <-]. split_and!; try done. intros ip. case_decide; [by subst|done].
Qed.

Lemma cleanup_visits cutoff order : forall n s n' s',
  NoDup order ->
  fold_left (cleanup_visit cutoff) order (n, s) = (n', s') ->
  (forall ip, clients s' !! ip
     = if decide (ip ∈ order) then survivor cutoff (clients s !! ip) else clients s !! ip)
  /\ n' + Z.of_nat (size (clients s')) = n + Z.of_nat (size (clients s))
  /\ lastEvent s' = lastEvent s /\ algorithm s' = algorithm s.
Proof.
  induction order as [|k order IH]; intros n s n' s' Hnd.
  { simpl. intros [= <- <-]. split_and!; try done. }
  apply NoDup_cons in Hnd as [Hk Hnd]. cbn [fold_left].
  destruct (cleanup_visit cutoff (n, s) k) as [n1 s1] eqn:E1. intros Hf.
  apply cleanup_visit_spec in E1 as (Hl1 & Hn1 & He1 & Ha1).
  apply (IH _ _ _ _ Hnd) in Hf as (Hl & Hn & He & Ha).
  split_and!; [|lia|congruence|congruence].
  intros ip. rewrite Hl, !Hl1.
  assert (Hin : ip ∈ k :: order <-> ip = k \/ ip ∈ order) by apply elem_of_cons.
  destruct (decide (ip = k)) as [->|Hne].
  - rewrite decide_False by done. by rewrite decide_True by tauto.
  - destruct (decide (ip ∈ order)), (decide (ip ∈ k :: order)); (done || tauto).
Qed.

(** The keys of the map in some order: what [range] visits. *)
Definition ranges_over (order : list string) (s : State A) : Prop :=
  NoDup order /\ forall ip, is_Some (clients s !! ip) -> ip ∈ order.

Lemma Cleanup_lookup order now ttl s n s' :
  ranges_over order s -> Cleanup order now ttl s = (n, s') ->
  (forall ip, clients s' !! ip = survivor (now + wrapI64 (- ttl)) (clients s !! ip))
  /\ n + Z.of_nat (size (clients s')) = Z.of_nat (size (clients s))
  /\ lastEvent s' = lastEvent s /\ algorithm s' = algorithm s.
Proof.
  unfold Cleanup, time_Add. intros [Hnd Hall] Hf.
  apply cleanup_visits in Hf as (Hl & Hn & He & Ha); [|done]. split_and!; [|lia|done|done].
  intros ip. rewrite Hl. case_decide as Hin; [done|]. unfold survivor.
  destruct (clients s !! ip) as [st|] eqn:E; [|done]. exfalso. apply Hin, Hall. by rewrite E.
Qed.

(** ** Sequences of operations *)

(** One method call by any goroutine. *)
Inductive state_step : State A -> State A -> Prop :=
| step_Decide ip now id s r d s' r' :
    Decide fuel ip now id s r = Some (d, s', r') -> state_step s s'
| step_MarkDelayedAccept ip now id w s r cd ev s' r' :
    MarkDelayedAccept fuel ip now id w s r = Some (cd, ev, s', r') -> state_step s s'
| step_ForceAccept ip now id s r cd ev s' r' :
    ForceAccept fuel ip now id s r = Some (cd, ev, s', r') -> state_step s s'
| step_RememberEvent ev s : state_step s (RememberEvent ev s)
| step_Cleanup order now ttl s n s' :
    ranges_over order s -> Cleanup order now ttl s = (n, s') -> state_step s s'
| step_Forget ip s : state_step s (Forget ip s)
| step_IncDrop ip s n s' : IncDrop ip s = (n, s') -> state_step s s'.

(** What may happen between two accepted packets of client [ip], the second
    decided at time [until], for them to be a cooldown [cd] apart: decisions about
    any client, this one included, accepted or refused; delayed and forced accepts
    and forgetting of the other clients; any event and drop count; cleaning with a
    time to live of at least [cd].  Forgetting or force-accepting the client itself
    ([--forget-on-drop], [--max-drops-per-ip]), a delayed accept of it (shape
    action) and a shorter cleanup are the calls that do cut its cooldown short. *)
Inductive spacing_step (ip : string) (cd : Duration) (until : Time) : State A -> State A -> Prop :=
| spacing_Decide ip' now id s r d s' r' :
    now <= until -> Decide fuel ip' now id s r = Some (d, s', r') -> spacing_step ip cd until s s'
| spacing_MarkDelayedAccept ip' now id w s r cd' ev s' r' :
    ip' <> ip -> MarkDelayedAccept fuel ip' now id w s r = Some (cd', ev, s', r') ->
    spacing_step ip cd until s s'
| spacing_ForceAccept ip' now id s r cd' ev s' r' :
    ip' <> ip -> ForceAccept fuel ip' now id s r = Some (cd', ev, s', r') ->
    spacing_step ip cd until s s'
| spacing_Forget ip' s : ip' <> ip -> spacing_step ip cd until s (Forget ip' s)
| spacing_RememberEvent ev s : spacing_step ip cd until s (RememberEvent ev s)
| spacing_IncDrop ip' s n s' : IncDrop ip' s = (n, s') -> spacing_step ip cd until s s'
| spacing_Cleanup order now ttl s n s' :
    ranges_over order s -> now <= until -> 0 <= ttl < MaxInt64 -> cd <= ttl ->
    Cleanup order now ttl s = (n, s') -> spacing_step ip cd until s s'.

Lemma ForceAccept_restarts ip now id s r cd ev s' r' :
  ForceAccept fuel ip now id s r = Some (cd, ev, s', r') ->
  restarted ip now cd s s' /\ Next fuel (algorithm s) r = Some (cd, r').
Proof.
  unfold ForceAccept, restarted. destruct (Next _ _ _) as [[? ?]|]; [|done].
  by intros [= <- <- <- <-].
Qed.
Lemma MarkDelayedAccept_restarts ip now id w s r cd ev s' r' :
  MarkDelayedAccept fuel ip now id w s r = Some (cd, ev, s', r') ->
  restarted ip now cd s s' /\ Next fuel (algorithm s) r = Some (cd, r').
Proof.
  unfold MarkDelayedAccept, restarted. destruct (Next _ _ _) as [[? ?]|]; [|done].
  by intros [= <- <- <- <-].
Qed.
Lemma IncDrop_lookup ip s n s' :
  IncDrop ip s = (n, s') ->
  algorithm s' = algorithm s /\ forall ip',
    (clients s' !! ip' = clients s !! ip'
     \/ ip' = ip /\ exists st st', clients s !! ip = Some st /\ clients s' !! ip = Some st'
         /\ cs_LastSeen st' = cs_LastSeen st /\ cs_Cooldown st' = cs_Cooldown st
         /\ cs_DropCount st' = n /\ n = wrapI64 (cs_DropCount st + 1)).
Proof.
  unfold IncDrop. destruct (clients s !! ip) as [st|] eqn:E; intros [= <- <-]; [|by auto].
  split; [done|]. intros ip'. simpl. destruct (decide (ip' = ip)) as [->|Hne].
  - right. split; [done|]. eexists st, _. rewrite lookup_insert_eq. eauto 10.
  - left. by rewrite lookup_insert_ne.
Qed.

(** Until the cooldown has passed at [until], every such call keeps its start
    [t1] and its length. *)
Definition spaced (ip : string) (cd : Duration) (t1 until : Time) (s : State A) : Prop :=
  (exists st, clients s !! ip = Some st /\ cs_LastSeen st = t1 /\ cs_Cooldown st = cd)
  \/ cd <= time_Sub until t1.

Lemma spaced_step ip cd t1 until s s' :
  spacing_step ip cd until s s' -> spaced ip cd t1 until s -> spaced ip cd t1 until s'.
Proof.
  intros Hq [(st & Hst & HL & HC)|?]; [|by right]. unfold spaced.
  destruct Hq as [ip' now id s r d s' r' Ht Hd|ip' now id w s r cd' ev s' r' Hne Hm
    |ip' now id s r cd' ev s' r' Hne Hf|ip' s Hne|ev s|ip' s n s' Hi|order now ttl s n s' Ho Ht Htl Hcd Hc].
  - apply Decide_cases in Hd as [(_ & Hcool & [-> _] & _)|(_ & _ & -> & _)]; [|eauto].
    destruct (decide (ip' = ip)) as [->|Hne]; [|rewrite lookup_insert_ne by done; eauto].
    right. unfold cooled_down in Hcool. rewrite Hst, HC, HL in Hcool.
    pose proof (time_Sub_mono now until t1 Ht). lia.
  - apply MarkDelayedAccept_restarts in Hm as [[-> _] _]. rewrite lookup_insert_ne by done. eauto.
  - apply ForceAccept_restarts in Hf as [[-> _] _]. rewrite lookup_insert_ne by done. eauto.
  - simpl. rewrite lookup_delete_ne by done. eauto.
  - eauto.
  - apply IncDrop_lookup in Hi as [_ Hi].
    destruct (Hi ip) as [->|(-> & st1 & st2 & E & -> & ? & ? & _)]; [eauto|].
    rewrite Hst in E. injection E as <-. left. eexists. split_and!; [done|congruence..].
  - apply Cleanup_lookup in Hc as (Hl & _); [|done]. rewrite Hl, Hst. unfold survivor, time_Before.
    rewrite wrapI64_small by (unfold MinInt64, MaxInt64 in *; lia).
    destruct (Z.ltb_spec (cs_LastSeen st) (now + - ttl)); [right|eauto].
    assert (ttl < time_Sub until t1); [|lia]. apply time_Sub_gt; unfold MinInt64, MaxInt64 in *; lia.
Qed.
Lemma spaced_steps ip cd t1 until s s' :
  rtc (spacing_step ip cd until) s s' -> spaced ip cd t1 until s -> spaced ip cd t1 until s'.
Proof.
  intros Hr. induction Hr as [s|s s1 s2 Hq _ IH]; [done|]. intros Hs.
  eapply IH, spaced_step; eauto.
Qed.
End facts.

(** ** The invariant *)

(** Every tracked cooldown is one the algorithm may produce. *)
Definition wf_state {A} (valid : A -> Prop) (lo hi : A -> Z) (s : State A) : Prop :=
  valid (algorithm s)
  /\ map_Forall (fun _ st => lo (algorithm s) <= cs_Cooldown st <= hi (algorithm s)) (clients s).

Section invariant.
Context {A : Type} {valid : A -> Prop} {lo hi : A -> Z} `{!AlgorithmI A}
  `{!AlgorithmLaws A valid lo hi}.
Context (fuel : nat).

Lemma wf_restarted ip now cd (s s' : State A) r r' :
  wf_state valid lo hi s -> restarted ip now cd s s' ->
  Next fuel (algorithm s) r = Some (cd, r') -> wf_state valid lo hi s'.
Proof.
  intros [Hv Hall] [Hc Ha] Hn. unfold wf_state. rewrite Ha, Hc. split; [done|].
  apply map_Forall_insert_2; [|done]. simpl. pose proof (next_range _ _ _ _ _ Hv Hn). lia.
Qed.
Lemma wf_step (s s' : State A) :
  wf_state valid lo hi s -> state_step fuel s s' -> wf_state valid lo hi s'.
Proof.
  intros Hw Hs. revert Hw.
  destruct Hs as [ip now id s0 r d s0' r' Hd|ip now id w s0 r cd ev s0' r' Hm
    |ip now id s0 r cd ev s0' r' Hf|ev s0|order now ttl s0 n s0' Ho Hc|ip s0|ip s0 n s0' Hi];
    intros Hw; pose proof Hw as [Hv Hall].
  - apply Decide_cases in Hd as [(_ & _ & Hr & Hn)|(_ & _ & Hcl & Hal & _)].
    + by eapply wf_restarted.
    + unfold wf_state. by rewrite Hcl, Hal.
  - apply MarkDelayedAccept_restarts in Hm as [Hr Hn]. by eapply wf_restarted.
  - apply ForceAccept_restarts in Hf as [Hr Hn]. by eapply wf_restarted.
  - done.
  - apply Cleanup_lookup in Hc as (Hl & _ & _ & Ha); [|done]. unfold wf_state. rewrite Ha.
    split; [done|]. intros ip st Hst. rewrite Hl in Hst. unfold survivor in Hst.
    destruct (clients s0 !! ip) as [st0|] eqn:E; [|done]. case_match; [done|].
    injection Hst as <-. by eapply Hall.
  - split; [done|]. simpl. by apply map_Forall_delete.
  - apply IncDrop_lookup in Hi as [Ha Hi]. unfold wf_state. rewrite Ha. split; [done|].
    intros ip' st' Hst'. destruct (Hi ip') as [Heq|(-> & st1 & st2 & E1 & E2 & _ & HC & _)].
    + rewrite Heq in Hst'. by eapply Hall.
    + rewrite E2 in Hst'. injection Hst' as <-. rewrite HC. by eapply Hall.
Qed.
Lemma wf_reachable (a : A) (s : State A) :
  valid a -> rtc (state_step fuel) (NewState a) s -> wf_state valid lo hi s.
Proof.
  intros Hv Hr. assert (Hw : wf_state valid lo hi (NewState a)).
  { split; [done|]. simpl. apply map_Forall_empty. }
  revert Hw. induction Hr as [s|s s1 s2 Hs _ IH]; intros Hw; [done|].
  apply IH. by eapply wf_step.
Qed.
End invariant.

(** * Properties *)

(** Concrete inputs: the fixed 500 ms algorithm and one client, first seen at
    second 1. *)
Definition ms : Z := 1000000.
Definition fixed500 : Algorithm := FixedAlg {| Cooldown := 500 * ms |}.
Definition no_draws : rng := fun _ => 0.
Definition seen_at (t : Time) : State Algorithm :=
  {| clients := {[ "1.2.3.4"%string := {| cs_LastSeen := t; cs_Cooldown := 500 * ms;
                                   cs_DropCount := 0 |} ]};
     lastEvent := LastEvent_zero; algorithm := fixed500 |}.

Section properties.
Context {A : Type} `{!AlgorithmI A}.
Implicit Types (s : State A) (r : rng).

(** C17: a decision lets a packet through exactly when the client is unknown or
    at least its cooldown has elapsed; accepting restarts the client with a
    fresh cooldown and a zero drop count, refusing leaves every client as it was.
    The time elapsed is that since the client's last accepted packet (0 for an
    unknown one), the time remaining is what its cooldown lacks (0 when accepted),
    and the event recorded carries the branch's type, the address, the packet id
    and the same figures. *)
Theorem Decide_spec (fuel : nat) (ip : string) (now : Time) (id : Z) s r d s' r'
    (Hd : Decide fuel ip now id s r = Some (d, s', r')) :
  (allowed d = true <-> cooled_down ip now s)
  /\ (allowed d = true ->
        restarted ip now (dec_cooldown d) s s'
        /\ Next fuel (algorithm s) r = Some (dec_cooldown d, r'))
  /\ (allowed d = false ->
        clients s' = clients s /\ r' = r /\
        exists st, clients s !! ip = Some st /\ dec_cooldown d = cs_Cooldown st
          /\ elapsed d < cs_Cooldown st)
  /\ elapsed d = match clients s !! ip with
                 | Some st => time_Sub now (cs_LastSeen st)
                 | None => 0
                 end
  /\ remaining d = (if allowed d then 0 else wrapI64 (dec_cooldown d - elapsed d))
  /\ lastEvent s' = event d /\ algorithm s' = algorithm s
  /\ (ev_Type (event d) = "ACCEPT-FIRST"%string <-> clients s !! ip = None)
  /\ (ev_Type (event d) = "ACCEPT"%string <-> allowed d = true /\ clients s !! ip <> None)
  /\ (ev_Type (event d) = "INSIDE-COOLDOWN"%string <-> allowed d = false)
  /\ ev_IP (event d) = ip /\ ev_PacketID (event d) = id
  /\ ev_Cooldown (event d) = dec_cooldown d /\ ev_Elapsed (event d) = elapsed d
  /\ ev_Remaining (event d) = remaining d.
Proof.
  destruct (Decide_figures _ _ _ _ _ _ _ _ _ Hd) as (HE & HR & Hl & Hal & type & Hev & ->).
  rewrite Hl, Hev. cbn [ev_Type ev_IP ev_PacketID ev_Cooldown ev_Elapsed ev_Remaining].
  rewrite <-Hev, HR, HE. unfold since.
  apply Decide_cases in Hd
    as [(Ha & Hc & Hr & Hn)|(Ha & Hc & Hcl & _ & Hr & st & Hst & HC & HE' & _)]; rewrite Ha.
  - case_decide as Hnone; split_and!; intuition congruence.
  - rewrite Hst. split_and!; try done; try (intuition congruence).
    intros _. split_and!; try done. exists st. split_and!; try done.
    unfold cooled_down in Hc. rewrite Hst in Hc. lia.
Qed.

(** Cleaning removes exactly the clients last seen more than [ttl] ago, in
    whatever order the map is visited, and returns their number. *)
Lemma Cleanup_filter (order : list string) (now : Time) (ttl : Duration) s n s'
    (Ho : ranges_over order s) (Httl : MinInt64 < ttl <= MaxInt64)
    (Hc : Cleanup order now ttl s = (n, s')) :
  clients s' = filter (fun kv => ~ (ttl < now - cs_LastSeen kv.2)) (clients s)
  /\ n = Z.of_nat (size (clients s)) - Z.of_nat (size (clients s'))
  /\ lastEvent s' = lastEvent s /\ algorithm s' = algorithm s.
Proof.
  apply Cleanup_lookup in Hc as (Hl & Hn & He & Ha); [|done].
  split_and!; [|lia|done|done]. apply map_eq. intros ip. rewrite Hl. unfold survivor, time_Before.
  rewrite wrapI64_small by (unfold MinInt64, MaxInt64 in *; lia).
  destruct (clients s !! ip) as [st|] eqn:E; symmetry.
  - destruct (Z.ltb_spec (cs_LastSeen st) (now + - ttl)).
    + apply map_lookup_filter_None_2. right. intros x Hx. rewrite E in Hx.
      injection Hx as <-. simpl. lia.
    + apply map_lookup_filter_Some_2; [done|]. simpl. lia.
  - apply map_lookup_filter_None_2. by left.
Qed.

(** C19: forgetting is unobservable while the time to live is at least every
    tracked cooldown: cleaning up first never changes a later decision. *)
Theorem Cleanup_transparent (order : list string) (now later : Time) (ttl : Duration) s n s'
    (ip : string)
    (Ho : ranges_over order s) (Httl : 0 <= ttl < MaxInt64)
    (Hcd : map_Forall (fun _ st => cs_Cooldown st <= ttl) (clients s))
    (Hc : Cleanup order now ttl s = (n, s')) (Hlater : now <= later) :
  cooled_down ip later s' <-> cooled_down ip later s.
Proof.
  apply Cleanup_lookup in Hc as (Hl & _); [|done]. unfold cooled_down. rewrite Hl.
  unfold survivor, time_Before. rewrite wrapI64_small by (unfold MinInt64, MaxInt64 in *; lia).
  destruct (clients s !! ip) as [st|] eqn:E; [|done].
  destruct (Z.ltb_spec (cs_LastSeen st) (now + - ttl)); [|done].
  split; [intros _|done]. pose proof (Hcd ip st E) as Hle. simpl in Hle.
  assert (ttl < time_Sub later (cs_LastSeen st)); [|lia].
  apply time_Sub_gt; unfold MinInt64, MaxInt64 in *; lia.
Qed.

(** C8: two accepted packets of a client are at least the first one's cooldown
    apart, whatever happens between them of: decisions about any client, this one
    included; delayed or forced accepts and forgetting of other clients; events and
    drop counts; cleaning with a time to live of at least that cooldown (the clock
    not running past the second packet).  Excluded are exactly the calls that cut
    the client's own cooldown short: forgetting it ([--forget-on-drop]), forcing or
    delaying an accept of it ([--max-drops-per-ip], shape action), and cleaning
    with a shorter time to live. *)
Theorem accepted_spacing (fuel1 fuel2 fuel3 : nat) (ip : string) (t1 t2 : Time) (id1 id2 : Z)
    s r d1 s1 r1 s2 r2 d2 s3 r3
    (H1 : Decide fuel1 ip t1 id1 s r = Some (d1, s1, r1)) (Ha1 : allowed d1 = true)
    (Hbetween : rtc (spacing_step fuel2 ip (dec_cooldown d1) t2) s1 s2)
    (H2 : Decide fuel3 ip t2 id2 s2 r2 = Some (d2, s3, r3)) (Ha2 : allowed d2 = true) :
  dec_cooldown d1 <= time_Sub t2 t1.
Proof.
  apply Decide_cases in H1 as [(_ & _ & [Hc _] & _)|(? & _)]; [|congruence].
  apply Decide_cases in H2 as [(_ & Hcool & _)|(? & _)]; [|congruence].
  destruct (spaced_steps fuel2 ip (dec_cooldown d1) t1 t2 s1 s2 Hbetween) as [(st & Hst & HL & HC)|?];
    [|unfold cooled_down in Hcool; by rewrite Hst, HL, HC in Hcool|done].
  left. rewrite Hc, lookup_insert_eq. by eexists.
Qed.
End properties.

(** C18: from a fresh state, after any sequence of method calls, every tracked
    cooldown is within the range the algorithm promises.  Stated against the
    [Algorithm] interface, for any implementation that keeps its promise. *)
Theorem State_reachable_cooldowns {A : Type} {valid : A -> Prop} {lo hi : A -> Z}
    `{!AlgorithmI A} `{!AlgorithmLaws A valid lo hi} (fuel : nat) (a : A) (s : State A)
    (Ha : valid a) (Hr : rtc (state_step fuel) (NewState a) s) :
  wf_state valid lo hi s.
Proof. by eapply wf_reachable. Qed.

Definition accept_first : option (Decision_ * State Algorithm * rng) :=
  Decide 1 "1.2.3.4" (1000 * ms) 7 (NewState fixed500) no_draws.

Lemma Decide_spec_witness :
  exists d s' r', accept_first = Some (d, s', r') /\ allowed d = true
    /\ cooled_down "1.2.3.4" (1000 * ms) (NewState fixed500).
Proof.
  destruct accept_first as [[[d s'] r']|] eqn:E; [|vm_compute in E; discriminate].
  assert (Ha : allowed d = true) by (vm_compute in E; injection E as <- <- <-; reflexivity).
  exists d, s', r'. split; [reflexivity|]. split; [exact Ha|].
  apply (Decide_spec 1 "1.2.3.4" (1000 * ms) 7 (NewState fixed500) no_draws d s' r' E). exact Ha.
Defined.


Lemma Cleanup_transparent_witness :
  cooled_down "1.2.3.4" (2000 * ms)
    (Cleanup ["1.2.3.4"%string] (2000 * ms) (600 * ms) (seen_at (1000 * ms))).2
  <-> cooled_down "1.2.3.4" (2000 * ms) (seen_at (1000 * ms)).
Proof.
  apply (Cleanup_transparent ["1.2.3.4"%string] (2000 * ms) (2000 * ms) (600 * ms)
           (seen_at (1000 * ms)) 1 _ "1.2.3.4").
  - split; [apply NoDup_singleton|]. intros ip [x Hx]. simpl in Hx.
    apply lookup_singleton_Some in Hx as [<- _]. by apply list_elem_of_singleton.
  - vm_compute. split; [discriminate|reflexivity].
  - intros ip x Hx. simpl in Hx. apply lookup_singleton_Some in Hx as [_ <-].
    vm_compute. discriminate.
  - vm_compute. reflexivity.
  - reflexivity.
Defined.

(** The same client refused at 1200 ms, another client forgotten, a cleaning at
    1300 ms, and the client accepted again at 1600 ms. *)
Definition state_after (o : option (Decision_ * State Algorithm * rng)) : State Algorithm :=
  match o with Some (_, s, _) => s | None => NewState fixed500 end.
Definition refused_between : option (Decision_ * State Algorithm * rng) :=
  Decide 1 "1.2.3.4" (1200 * ms) 8 (state_after accept_first) no_draws.
Definition cleaned_between : State Algorithm :=
  (Cleanup ["1.2.3.4"%string] (1300 * ms) (500 * ms)
     (Forget "5.6.7.8" (state_after refused_between))).2.
Definition accept_second : option (Decision_ * State Algorithm * rng) :=
  Decide 1 "1.2.3.4" (1600 * ms) 9 cleaned_between no_draws.
Lemma accepted_spacing_witness :
  exists d1 s1 d2 s3,
    accept_first = Some (d1, s1, no_draws) /\ accept_second = Some (d2, s3, no_draws)
    /\ dec_cooldown d1 = 500 * ms /\ dec_cooldown d1 <= time_Sub (1600 * ms) (1000 * ms).
Proof.
  eexists _, _, _, _. split; [vm_compute; reflexivity|]. split; [vm_compute; reflexivity|].
  split; [reflexivity|].
  eapply (accepted_spacing 1 1 1 "1.2.3.4" (1000 * ms) (1600 * ms) 7 9 (NewState fixed500) no_draws
            _ (state_after accept_first) no_draws cleaned_between no_draws);
    [vm_compute; reflexivity|reflexivity| |vm_compute; reflexivity|reflexivity].
  eapply rtc_l.
  { eapply (spacing_Decide 1 _ _ _ "1.2.3.4" (1200 * ms) 8 _ no_draws _ (state_after refused_between));
      [vm_compute; discriminate|vm_compute; reflexivity]. }
  eapply rtc_l; [apply (spacing_Forget 1 _ _ _ "5.6.7.8"); discriminate|]. apply rtc_once.
  eapply (spacing_Cleanup 1 _ _ _ ["1.2.3.4"%string] (1300 * ms) (500 * ms)).
  - split; [apply NoDup_singleton|]. intros ip [x Hx].
    assert (Hm : clients (Forget "5.6.7.8" (state_after refused_between))
                 = {[ "1.2.3.4"%string := {| cs_LastSeen := 1000 * ms; cs_Cooldown := 500 * ms;
                                            cs_DropCount := 0 |} ]}) by (vm_compute; reflexivity).
    rewrite Hm in Hx.
    apply lookup_singleton_Some in Hx as [<- _]. by apply list_elem_of_singleton.
  - vm_compute. discriminate.
  - vm_compute. split; [discriminate|reflexivity].
  - vm_compute. discriminate.
  - apply surjective_pairing.
Defined.

(** A client accepted first, and a refused packet of it counted. *)
Definition accepted_and_counted : State Algorithm :=
  (IncDrop "1.2.3.4" (state_after accept_first)).2.
Lemma State_reachable_cooldowns_witness :
  clients accepted_and_counted
    = {[ "1.2.3.4"%string := {| cs_LastSeen := 1000 * ms; cs_Cooldown := 500 * ms;
                               cs_DropCount := 1 |} ]}
  /\ wf_state valid_algorithm cooldown_lo cooldown_hi accepted_and_counted.
Proof.
  split; [vm_compute; reflexivity|].
  apply (State_reachable_cooldowns 1 fixed500).
  - vm_compute. split; discriminate.
  - apply (rtc_l _ _ (state_after accept_first)); [|apply rtc_once].
    + eapply (step_Decide 1 "1.2.3.4" (1000 * ms) 7 _ no_draws). vm_compute. reflexivity.
    + eapply (step_IncDrop 1 "1.2.3.4"). apply surjective_pairing.
Defined.
