(* ===== verification/Stats.v ===== *)
(** Aggregate counters ([internal/stats.go]): atomically updated [uint64]s. *)

From S2P Require Import Prelude.
Open Scope Z_scope.

Record Counters := {
  Accepted : Z;
  Dropped : Z;
  Delayed : Z;
  Rejected : Z;
  DelayOverflowDropped : Z
}.
Definition Counters_zero : Counters :=
  {| Accepted := 0; Dropped := 0; Delayed := 0; Rejected := 0; DelayOverflowDropped := 0 |}.

(** [atomic.AddUint64(&c.f, 1)] wraps. *)
Definition inc (n : Z) : Z := wrapU64 (n + 1).

Definition IncDelayOverflowDropped (c : Counters) : Counters :=
  {| Accepted := Accepted c; Dropped := Dropped c; Delayed := Delayed c; Rejected := Rejected c;
     DelayOverflowDropped := inc (DelayOverflowDropped c) |}.
Definition IncAccepted (c : Counters) : Counters :=
  {| Accepted := inc (Accepted c); Dropped := Dropped c; Delayed := Delayed c;
     Rejected := Rejected c; DelayOverflowDropped := DelayOverflowDropped c |}.
Definition IncDropped (c : Counters) : Counters :=
  {| Accepted := Accepted c; Dropped := inc (Dropped c); Delayed := Delayed c;
     Rejected := Rejected c; DelayOverflowDropped := DelayOverflowDropped c |}.
Definition IncDelayed (c : Counters) : Counters :=
  {| Accepted := Accepted c; Dropped := Dropped c; Delayed := inc (Delayed c);
     Rejected := Rejected c; DelayOverflowDropped := DelayOverflowDropped c |}.
Definition IncRejected (c : Counters) : Counters :=
  {| Accepted := Accepted c; Dropped := Dropped c; Delayed := Delayed c;
     Rejected := inc (Rejected c); DelayOverflowDropped := DelayOverflowDropped c |}.
(** [Snapshot] returns accepted, delayed, dropped, rejected. *)
Definition Counters_Snapshot (c : Counters) : Z * Z * Z * Z :=
  (Accepted c, Delayed c, Dropped c, Rejected c).
Definition GetDelayOverflowDropped (c : Counters) : Z := DelayOverflowDropped c.
