(* ===== verification/Whitelist.v ===== *)
(** The IPv4 whitelist ([internal/whitelist.go]): construction from the option
    string and membership, with the address round trip, prefix matching and
    the end-to-end meaning of a whitelisted address. *)

From S2P Require Import Prelude GoStrings GoNet.
From Stdlib Require Import Ascii.
Open Scope Z_scope.

(** * The code *)

Record Whitelist := { nets : list IPNet }.

Inductive WhitelistError :=
| InvalidNetwork (item : string)
| UnsupportedFamily (item : string)
| InvalidAddress (item : string).

(** The body of the loop for one non-empty item. *)
Definition whitelist_item (item : string) : res WhitelistError IPNet :=
  if ContainsByte item "/"%char then
    match ParseCIDR item with
    | None => Fail (InvalidNetwork item)
    | Some (ip, network) =>
        match To4 ip with
        | None => Fail (UnsupportedFamily item)
        | Some ip4 => Ok {| IPNet_IP := ip4; IPNet_Mask := IPNet_Mask network |}
        end
    end
  else
    match ParseIP item with
    | None => Fail (InvalidAddress item)
    | Some ip =>
        match To4 ip with
        | None => Fail (UnsupportedFamily item)
        | Some ip4 =>
            match ParseCIDR (IP_String ip4 +:+ "/32") with
            | None => Fail (InvalidAddress item)
            | Some (_, network) => Ok network
            end
        end
    end.
Fixpoint whitelist_loop (items : list string) (acc : list IPNet) : res WhitelistError Whitelist :=
  match items with
  | [] => Ok {| nets := acc |}
  | rawItem :: items =>
      let item := TrimSpace rawItem in
      if seqb item "" then whitelist_loop items acc
      else match whitelist_item item with
           | Fail e => Fail e
           | Ok network => whitelist_loop items (acc ++ [network])
           end
  end.
Definition NewWhitelist (value : string) : res WhitelistError Whitelist :=
  if seqb (TrimSpace value) "" then Ok {| nets := [] |}
  else whitelist_loop (Split value ","%char) [].

Fixpoint any_contains (l : list IPNet) (ip : bytes) : bool :=
  match l with
  | [] => false
  | network :: l => if IPNet_Contains network ip then true else any_contains l ip
  end.
Definition Contains (w : Whitelist) (ipStr : string) : bool :=
  match ParseIP ipStr with
  | None => false
  | Some ip =>
      match To4 ip with
      | None => false
      | Some ip => any_contains (nets w) ip
      end
  end.
Definition Len (w : Whitelist) : Z := Z.of_nat (length (nets w)).

(** The examples of the source's tests. *)
Lemma NewWhitelist_ex :
  (exists w, NewWhitelist "192.0.2.1,198.51.100.0/24" = Ok w
     /\ map (Contains w) ["192.0.2.1"; "198.51.100.42"; "2001:db8::1"; "192.0.2.2"]%string
        = [true; true; false; false])
  /\ NewWhitelist "192.0.2.999" = Fail (InvalidAddress "192.0.2.999")
  /\ NewWhitelist "192.0.2.0/99" = Fail (InvalidNetwork "192.0.2.0/99")
  /\ NewWhitelist "2001:db8::1" = Fail (UnsupportedFamily "2001:db8::1")
  /\ NewWhitelist "2001:db8::/32" = Fail (UnsupportedFamily "2001:db8::/32").
Proof. split; [eexists; split; vm_compute; reflexivity|]. vm_compute. auto. Qed.

(** * Trimming and splitting well-formed items *)

(** The characters of an address or CIDR item. *)
Definition item_char (c : ascii) : Prop := 46 <= code c <= 57.

Definition comma : ascii := ","%char.
Lemma item_plain_char c : item_char c -> plain_char c.
Proof. unfold item_char, plain_char. lia. Qed.
Lemma item_not_comma c : item_char c -> c <> comma.
Proof. intros Hc ->. unfold item_char in Hc. by destruct Hc. Qed.

Lemma ContainsByte_slash s t : ContainsByte (s +:+ String slash t) slash = true.
Proof.
  induction s as [|c s IH].
  - change (EmptyString +:+ String slash t) with (String slash t). cbn [ContainsByte].
    by rewrite bool_decide_true.
  - change (String c s +:+ String slash t) with (String c (s +:+ String slash t)).
    cbn [ContainsByte]. rewrite IH. apply orb_true_r.
Qed.
Lemma ContainsByte_no_slash s : all_chars ip_char s -> ContainsByte s slash = false.
Proof.
  induction s as [|c s IH]; intros Hs; [done|]. cbn [ContainsByte]. destruct Hs as [Hc Hs].
  rewrite IH by done. rewrite bool_decide_false; [done|]. intros ->. by apply Hc.
Qed.

(** * Whitelists of addresses and networks *)

(** One option item: an address, or an address with a prefix length. *)
Record entry := { e_a : byte; e_b : byte; e_c : byte; e_d : byte; e_prefix : option Z }.
Definition entry_ok (e : entry) : Prop :=
  match e_prefix e with Some n => 0 <= n <= 32 | None => True end.
Definition entry_len (e : entry) : Z := default 32 (e_prefix e).
Definition entry_string (e : entry) : string :=
  match e_prefix e with
  | Some n => cidr_string (e_a e) (e_b e) (e_c e) (e_d e) n
  | None => string4 [e_a e; e_b e; e_c e; e_d e]
  end.
(** The address belongs to the entry's block: their first [entry_len] bits agree. *)
Definition in_block (e : entry) (a b c d : byte) : bool :=
  bool_decide (addr_value a b c d / 2 ^ (32 - entry_len e)
               = addr_value (e_a e) (e_b e) (e_c e) (e_d e) / 2 ^ (32 - entry_len e)).
Fixpoint join_commas (l : list entry) : string :=
  match l with
  | [] => EmptyString
  | [e] => entry_string e
  | e :: l => entry_string e +:+ String comma (join_commas l)
  end.

Lemma entry_string_chars e : entry_ok e -> all_chars item_char (entry_string e).
Proof.
  unfold entry_ok, entry_string. intros He.
  assert (Hip : forall s, all_chars ip_char s -> all_chars item_char s).
  { intros s. apply all_chars_impl. unfold ip_char, item_char. tauto. }
  destruct (e_prefix e) as [n|]; [|apply Hip, all_ip_string4].
  unfold cidr_string. apply all_chars_app; [apply Hip, all_ip_string4|].
  split; [unfold item_char; change (code slash) with 47; lia|].
  apply Hip, all_ip_decimal; [lia|done].
Qed.
Lemma string4_nonempty a b c d t : string4 [a; b; c; d] +:+ t <> EmptyString.
Proof.
  pose proof (u8_range a). cbn [string4].
  destruct (appendDecimal_cases (u8 a) (String dot (appendDecimal (u8 b) (String dot
    (appendDecimal (u8 c) (String dot (appendDecimal (u8 d) EmptyString)))))) ltac:(lia))
    as [[? ->]|[(? & ? & ? & ? & ? & ->)|(? & ? & ? & ? & ? & ? & ? & ->)]]; done.
Qed.
Lemma entry_string_nonempty e : entry_string e <> EmptyString.
Proof.
  unfold entry_string. destruct (e_prefix e); [apply string4_nonempty|].
  rewrite <-(string_app_nil_r (string4 _)). apply string4_nonempty.
Qed.

Lemma whitelist_item_entry e :
  entry_ok e ->
  whitelist_item (entry_string e)
  = Ok {| IPNet_IP := [e_a e; e_b e; e_c e; e_d e]; IPNet_Mask := CIDRMask (entry_len e) 32 |}.
Proof.
  unfold entry_ok, entry_string, entry_len, whitelist_item. intros He.
  destruct (e_prefix e) as [n|]; cbn [default].
  - unfold cidr_string at 1. change "/"%char with slash. rewrite ContainsByte_slash.
    destruct (ParseCIDR_string (e_a e) (e_b e) (e_c e) (e_d e) n He) as (net & -> & _ & ->).
    by rewrite To4_IPv4.
  - change "/"%char with slash. rewrite ContainsByte_no_slash by apply all_ip_string4.
    rewrite ParseIP_string4, To4_IPv4.
    change (IP_String [e_a e; e_b e; e_c e; e_d e] +:+ String slash "32")
      with (cidr_string (e_a e) (e_b e) (e_c e) (e_d e) 32).
    destruct (ParseCIDR_string (e_a e) (e_b e) (e_c e) (e_d e) 32) as ([ip m] & -> & Hip & Hm); [lia|].
    cbn [IPNet_IP IPNet_Mask] in Hip, Hm. by rewrite Hip, Hm, mask_ip_32.
Qed.

Definition entry_net (e : entry) : IPNet :=
  {| IPNet_IP := [e_a e; e_b e; e_c e; e_d e]; IPNet_Mask := CIDRMask (entry_len e) 32 |}.

Lemma seqb_empty_false s : s <> EmptyString -> seqb s "" = false.
Proof. by destruct s. Qed.
Lemma whitelist_loop_step e items acc :
  entry_ok e ->
  whitelist_loop (entry_string e :: items) acc = whitelist_loop items (acc ++ [entry_net e]).
Proof.
  intros He. cbn [whitelist_loop].
  rewrite TrimSpace_plain by (eapply all_chars_impl, entry_string_chars, He; apply item_plain_char).
  rewrite seqb_empty_false by apply entry_string_nonempty.
  by rewrite whitelist_item_entry.
Qed.
Lemma whitelist_loop_entries es acc :
  es <> [] -> Forall entry_ok es ->
  whitelist_loop (Split (join_commas es) comma) acc = Ok {| nets := acc ++ map entry_net es |}.
Proof.
  intros Hne Hes. revert acc Hne. induction Hes as [|e es He Hes IH]; intros acc Hne; [done|].
  destruct es as [|e' es].
  - cbn [join_commas]. rewrite Split_one by (eapply all_chars_impl, entry_string_chars, He; apply item_not_comma).
    by rewrite whitelist_loop_step.
  - change (join_commas (e :: e' :: es)) with (entry_string e +:+ String comma (join_commas (e' :: es))).
    rewrite Split_cons by (eapply all_chars_impl, entry_string_chars, He; apply item_not_comma).
    rewrite whitelist_loop_step by done. rewrite IH by done. by rewrite <-app_assoc.
Qed.
Lemma any_contains_entries es a b c d :
  Forall entry_ok es ->
  any_contains (map entry_net es) [a; b; c; d] = existsb (fun e => in_block e a b c d) es.
Proof.
  induction 1 as [|e es He Hes IH]; [done|]. cbn [any_contains map existsb]. rewrite IH.
  assert (Hn : 0 <= entry_len e <= 32).
  { unfold entry_ok in He. unfold entry_len. destruct (e_prefix e); simpl; lia. }
  unfold entry_net at 1. rewrite IPNet_Contains_prefix by done. unfold in_block.
  by destruct (bool_decide _).
Qed.
Lemma join_commas_chars es : Forall entry_ok es -> all_chars plain_char (join_commas es).
Proof.
  induction 1 as [|e es He Hes IH]; [done|].
  assert (Hc : all_chars plain_char (entry_string e)).
  { eapply all_chars_impl, entry_string_chars, He. apply item_plain_char. }
  destruct es as [|e' es]; [done|].
  change (join_commas (e :: e' :: es)) with (entry_string e +:+ String comma (join_commas (e' :: es))).
  apply all_chars_app; [done|]. split; [|done]. by split.
Qed.
Lemma join_commas_nonempty e es : join_commas (e :: es) <> EmptyString.
Proof.
  destruct es as [|e' es]; [apply entry_string_nonempty|].
  change (join_commas (e :: e' :: es)) with (entry_string e +:+ String comma (join_commas (e' :: es))).
  pose proof (entry_string_nonempty e). by destruct (entry_string e).
Qed.

(** * Properties *)

(** C21: end to end, the option string made of well-formed addresses and
    networks yields a whitelist of one network per item, which contains
    exactly the addresses whose leading bits agree with some item. *)
Theorem whitelist_end_to_end es :
  Forall entry_ok es ->
  exists w, NewWhitelist (join_commas es) = Ok w /\ Len w = Z.of_nat (length es)
    /\ forall a b c d, Contains w (string4 [a; b; c; d]) = existsb (fun e => in_block e a b c d) es.
Proof.
  intros Hes. exists {| nets := map entry_net es |}. split_and!.
  - destruct es as [|e es]; [done|]. unfold NewWhitelist.
    replace (seqb (TrimSpace (join_commas (e :: es))) "") with false.
    + change ","%char with comma. by rewrite whitelist_loop_entries.
    + symmetry. apply seqb_empty_false. rewrite TrimSpace_plain; [apply join_commas_nonempty|].
      by apply join_commas_chars.
  - unfold Len. cbn [nets]. by rewrite length_map.
  - intros a b c d. unfold Contains. rewrite ParseIP_string4, To4_IPv4. by apply any_contains_entries.
Qed.

Definition example_entries : list entry :=
  [ {| e_a := Byte.xc0; e_b := Byte.x00; e_c := Byte.x02; e_d := Byte.x01; e_prefix := None |};
    {| e_a := Byte.xc6; e_b := Byte.x33; e_c := Byte.x64; e_d := Byte.x07; e_prefix := Some 24 |} ].
Lemma whitelist_end_to_end_witness :
  join_commas example_entries = "192.0.2.1,198.51.100.7/24"%string
  /\ exists w, NewWhitelist (join_commas example_entries) = Ok w /\ Len w = 2
      /\ Contains w (string4 [Byte.xc6; Byte.x33; Byte.x64; Byte.xff]) = true.
Proof.
  split; [reflexivity|].
  destruct (whitelist_end_to_end example_entries) as (w & Hw & Hlen & Hc).
  - repeat constructor; unfold entry_ok; simpl; lia.
  - exists w. split; [exact Hw|]. split; [exact Hlen|]. rewrite Hc. reflexivity.
Defined.

(** The non-empty trimmed items of the option string, none for a blank one. *)
Definition option_items (value : string) : list string :=
  if seqb (TrimSpace value) "" then []
  else List.filter (fun s => negb (seqb s "")) (map TrimSpace (Split value ","%char)).

Lemma whitelist_loop_items items acc :
  match whitelist_loop items acc with
  | Ok w => exists ns, nets w = acc ++ ns
      /\ Forall2 (fun i n => whitelist_item i = Ok n)
           (List.filter (fun s => negb (seqb s "")) (map TrimSpace items)) ns
  | Fail e => exists pre i post,
      List.filter (fun s => negb (seqb s "")) (map TrimSpace items) = pre ++ i :: post
      /\ Forall (fun i => exists n, whitelist_item i = Ok n) pre /\ whitelist_item i = Fail e
  end.
Proof.
  revert acc. induction items as [|i items IH]; intros acc; cbn [whitelist_loop map List.filter].
  { exists []. by rewrite app_nil_r. }
  destruct (seqb (TrimSpace i) ""); cbn [negb]; [apply IH|].
  destruct (whitelist_item (TrimSpace i)) as [n|e] eqn:Hi.
  - specialize (IH (acc ++ [n])). destruct (whitelist_loop items (acc ++ [n])) as [w|e].
    + destruct IH as (ns & Hns & Hf). exists (n :: ns). rewrite Hns, <-app_assoc. auto.
    + destruct IH as (pre & j & post & Heq & Hpre & Hj).
      exists (TrimSpace i :: pre), j, post. rewrite Heq. eauto.
  - by exists [], (TrimSpace i), (List.filter (fun s => negb (seqb s "")) (map TrimSpace items)).
Qed.

(** ** What an item means *)

Definition has_slash (item : string) : Prop := exists s t, item = s +:+ String slash t.
(** A Go [net.IP] that is an IPv4 address: four bytes, or sixteen with the
    IPv4-in-IPv6 prefix. *)
Definition v4_form (ip : bytes) (a b c d : byte) : Prop := ip = [a; b; c; d] \/ ip = IPv4 a b c d.

(** A plain address is the network of that one address; an item with a slash is
    the network of its mask, at the IPv4 address written before the slash. *)
Inductive item_denotes : string -> IPNet -> Prop :=
| denotes_address item ip a b c d :
    ~ has_slash item -> ParseIP item = Some ip -> v4_form ip a b c d ->
    item_denotes item {| IPNet_IP := [a; b; c; d]; IPNet_Mask := [xff; xff; xff; xff] |}
| denotes_network item ip network a b c d :
    has_slash item -> ParseCIDR item = Some (ip, network) -> v4_form ip a b c d ->
    item_denotes item {| IPNet_IP := [a; b; c; d]; IPNet_Mask := IPNet_Mask network |}.
Inductive item_rejected : string -> WhitelistError -> Prop :=
| rejected_network item :
    has_slash item -> ParseCIDR item = None -> item_rejected item (InvalidNetwork item)
| rejected_network_family item ip network :
    has_slash item -> ParseCIDR item = Some (ip, network) ->
    (forall a b c d, ~ v4_form ip a b c d) -> item_rejected item (UnsupportedFamily item)
| rejected_address item :
    ~ has_slash item -> ParseIP item = None -> item_rejected item (InvalidAddress item)
| rejected_address_family item ip :
    ~ has_slash item -> ParseIP item = Some ip ->
    (forall a b c d, ~ v4_form ip a b c d) -> item_rejected item (UnsupportedFamily item).

Lemma ContainsByte_has_slash item : ContainsByte item "/"%char = true <-> has_slash item.
Proof.
  split; [|intros (s & t & ->); apply ContainsByte_slash].
  induction item as [|c item IH]; cbn [ContainsByte]; [done|].
  case_bool_decide as Hc; [intros _; exists EmptyString, item; by subst|].
  intros Hi. destruct (IH Hi) as (s & t & ->). by exists (String c s), t.
Qed.
Lemma To4_form ip q :
  To4 ip = Some q <-> exists a b c d, q = [a; b; c; d] /\ v4_form ip a b c d.
Proof.
  assert (Hfour : forall l : bytes, length l = 4%nat -> exists a b c d, l = [a; b; c; d])
    by (intros [|a [|b [|c [|d [|]]]]]; simpl; intros [=]; eauto).
  unfold To4. split.
  - case_decide as H4; [intros [= <-]; destruct (Hfour ip H4) as (a & b & c & d & ->);
      exists a, b, c, d; by split; [|left]|].
    case_decide as H16; [|done]. intros [= <-]. destruct H16 as [Hl Ht].
    destruct (Hfour (drop 12 ip)) as (a & b & c & d & Hd); [rewrite length_drop; lia|].
    exists a, b, c, d. split; [done|]. right. unfold IPv4.
    by rewrite <-(take_drop 12 ip), Ht, Hd.
  - intros (a & b & c & d & -> & [-> | ->]); reflexivity.
Qed.
Lemma To4_none ip : To4 ip = None -> forall a b c d, ~ v4_form ip a b c d.
Proof.
  intros Hn a b c d Hf. enough (To4 ip = Some [a; b; c; d]) by congruence.
  apply To4_form. by exists a, b, c, d.
Qed.

(** The loop body computes that meaning. *)
Lemma whitelist_item_spec item :
  match whitelist_item item with
  | Ok n => item_denotes item n
  | Fail e => item_rejected item e
  end.
Proof.
  unfold whitelist_item. pose proof (ContainsByte_has_slash item) as Hs.
  destruct (ContainsByte item _).
  - assert (has_slash item) by by apply Hs.
    destruct (ParseCIDR item) as [[ip net]|] eqn:E; [|by constructor].
    destruct (To4 ip) as [ip4|] eqn:E4; [|eapply rejected_network_family; eauto using To4_none].
    apply To4_form in E4 as (a & b & c & d & -> & Hf). by eapply denotes_network.
  - assert (~ has_slash item) by (intros H; apply Hs in H; done).
    destruct (ParseIP item) as [ip|] eqn:E; [|by constructor].
    destruct (To4 ip) as [ip4|] eqn:E4; [|eapply rejected_address_family; eauto using To4_none].
    apply To4_form in E4 as (a & b & c & d & -> & Hf).
    replace (ParseCIDR (IP_String [a; b; c; d] +:+ "/32")) with (ParseCIDR (cidr_string a b c d 32))
      by reflexivity.
    destruct (ParseCIDR_string a b c d 32) as ([nip m] & -> & Hip & Hm); [lia|].
    cbn [IPNet_IP IPNet_Mask] in Hip, Hm. rewrite Hip, Hm, mask_ip_32.
    by eapply (denotes_address item ip).
Qed.
Lemma denotes_not_rejected item n e : item_denotes item n -> ~ item_rejected item e.
Proof.
  intros Hd Hr.
  destruct Hd as [item ip a b c d Hs Hp Hf|item ip net a b c d Hs Hp Hf];
    inversion Hr; subst; simplify_eq; first [done | congruence | by eapply H1].
Qed.

(** C31: a whitelist is built exactly when every non-empty item is an IPv4
    address or network, one network per item in order: a plain address gives
    the single-address network, an item with a slash the network of its mask.
    Otherwise the error is that of the first item which is not, and tells an
    unparsable network, an unparsable address and another address family
    apart. *)
Theorem NewWhitelist_items value :
  match NewWhitelist value with
  | Ok w => Forall2 item_denotes (option_items value) (nets w)
  | Fail e => exists pre i post, option_items value = pre ++ i :: post
      /\ Forall (fun i => exists n, item_denotes i n) pre /\ item_rejected i e
      /\ ~ exists n, item_denotes i n
  end.
Proof.
  unfold NewWhitelist, option_items. destruct (seqb (TrimSpace value) ""); [constructor|].
  pose proof (whitelist_loop_items (Split value ","%char) []) as H.
  destruct (whitelist_loop _ _).
  - destruct H as (ns & -> & H). eapply Forall2_impl; [exact H|]. intros i n Hi. simpl in Hi.
    pose proof (whitelist_item_spec i) as Hw. by rewrite Hi in Hw.
  - destruct H as (pre & i & post & -> & Hpre & Hi). exists pre, i, post.
    pose proof (whitelist_item_spec i) as Hw. rewrite Hi in Hw. split_and!; [done| |done|].
    + eapply Forall_impl; [exact Hpre|]. intros j [n Hj]. exists n.
      pose proof (whitelist_item_spec j) as Hwj. by rewrite Hj in Hwj.
    + intros [n Hn]. by eapply denotes_not_rejected.
Qed.
