(* ===== verification/Window.v ===== *)
(** The payload pass window ([splitPayloadWindowState] of
    [cmd/nfqcooldown/main.go]): the first payload packet to an address opens a
    fixed window during which later ones are split. *)

From S2P Require Import Prelude GoTime.
Open Scope Z_scope.

(** * The code *)

(** [splitPayloadWindowState]: the map guarded by [mu], keyed by the four bytes
    of the address. Both methods hold the lock throughout. *)
Record splitPayloadWindowState := { lastPass : gmap bytes Time }.
Definition newSplitPayloadWindowState : splitPayloadWindowState := {| lastPass := ∅ |}.

(** [s.lastPass[clientIP]]: a missing key reads as the zero time. *)
Definition last_pass (s : splitPayloadWindowState) (clientIP : bytes) : Time :=
  default 0 (lastPass s !! clientIP).

(** [decide]: whether to split, and the time since the window opened. *)
Definition decide_window (clientIP : bytes) (now : Time) (window : Duration)
    (s : splitPayloadWindowState) : (bool * Duration) * splitPayloadWindowState :=
  let last := last_pass s clientIP in
  if IsZero last || (window <=? time_Sub now last) then
    let s := {| lastPass := <[clientIP := now]> (lastPass s) |} in
    let sincePass := if negb (IsZero last) then time_Sub now last else 0 in
    (false, sincePass, s)
  else (true, time_Sub now last, s).

(** [cleanup]: [order] is the order in which [range] visits the keys. *)
Definition window_visit (now : Time) (ttl : Duration)
    (acc : Z * splitPayloadWindowState) (clientIP : bytes) : Z * splitPayloadWindowState :=
  let '(removed, s) := acc in
  match lastPass s !! clientIP with
  | Some last =>
      if ttl <? time_Sub now last
      then (removed + 1, {| lastPass := delete clientIP (lastPass s) |})
      else (removed, s)
  | None => (removed, s)
  end.
Definition cleanup_window (order : list bytes) (now : Time) (ttl : Duration)
    (s : splitPayloadWindowState) : Z * splitPayloadWindowState :=
  fold_left (window_visit now ttl) order (0, s).

(** * Windows over a run *)

(** A payload packet to an address, or a cleanup pass. *)
Inductive window_op :=
| Packet (clientIP : bytes) (now : Time)
| CleanupPass (order : list bytes) (now : Time).
Definition op_time (o : window_op) : Time :=
  match o with Packet _ t | CleanupPass _ t => t end.

(** The decisions of a run, newest last, and the final state. *)
Fixpoint run_window (window ttl : Duration) (ops : list window_op) (s : splitPayloadWindowState)
    : list (bytes * Time * bool) * splitPayloadWindowState :=
  match ops with
  | [] => ([], s)
  | Packet ip now :: ops =>
      let '(split, _, s) := decide_window ip now window s in
      let '(ds, s) := run_window window ttl ops s in ((ip, now, split) :: ds, s)
  | CleanupPass order now :: ops =>
      run_window window ttl ops (snd (cleanup_window order now ttl s))
  end.
(** Without the cleanup passes. *)
Definition packets (ops : list window_op) : list window_op :=
  List.filter (fun o => match o with Packet _ _ => true | _ => false end) ops.

(** Times never decrease along the run and start after zero. *)
Fixpoint times_from (t : Time) (ops : list window_op) : Prop :=
  match ops with
  | [] => True
  | o :: ops => t <= op_time o /\ times_from (op_time o) ops
  end.

(** The specification of one address: the passes it would make and the
    packets split, from the opening time of its current window. *)
Fixpoint window_spec (window : Duration) (opened : option Time) (pkts : list Time) : list bool :=
  match pkts with
  | [] => []
  | now :: pkts =>
      match opened with
      | Some t => if decide (now < t + window) then true :: window_spec window opened pkts
                  else false :: window_spec window (Some now) pkts
      | None => false :: window_spec window (Some now) pkts
      end
  end.

(** * Cleanup *)

Definition window_survivor (now : Time) (ttl : Duration) (o : option Time) : option Time :=
  match o with Some last => if ttl <? time_Sub now last then None else Some last | None => None end.

Lemma window_survivor_idem now ttl o :
  window_survivor now ttl (window_survivor now ttl o) = window_survivor now ttl o.
Proof.
  destruct o as [last|]; simpl; [|done]. destruct (ttl <? time_Sub now last) eqn:E; simpl; [done|].
  by rewrite E.
Qed.
Lemma window_visit_spec now ttl k n s n1 s1 :
  window_visit now ttl (n, s) k = (n1, s1) ->
  (forall ip, lastPass s1 !! ip
     = if decide (ip = k) then window_survivor now ttl (lastPass s !! ip) else lastPass s !! ip)
  /\ n1 + Z.of_nat (size (lastPass s1)) = n + Z.of_nat (size (lastPass s)).
Proof.
  unfold window_visit. destruct (lastPass s !! k) as [last|] eqn:E;
    [destruct (ttl <? time_Sub now last) eqn:Et|]; intros [= <- <-]; cbn [lastPass].
  - split.
    + intros ip. case_decide as Hd; [subst; by rewrite lookup_delete_eq, E; simpl; rewrite Et|].
      by rewrite lookup_delete_ne.
    + rewrite map_size_delete_Some by (by eexists).
      assert (size (lastPass s) <> 0%nat); [|lia]. apply map_size_ne_0_lookup. eauto.
  - split; [|done]. intros ip. case_decide; [|done]. subst. rewrite E. simpl. by rewrite Et.
  - split; [|done]. intros ip. case_decide; [|done]. subst. by rewrite E.
Qed.
Lemma cleanup_fold_spec now ttl order n s n1 s1 :
  fold_left (window_visit now ttl) order (n, s) = (n1, s1) ->
  (forall ip, lastPass s1 !! ip = if decide (ip ∈ order)
     then window_survivor now ttl (lastPass s !! ip) else lastPass s !! ip)
  /\ n1 + Z.of_nat (size (lastPass s1)) = n + Z.of_nat (size (lastPass s)).
Proof.
  revert n s. induction order as [|k order IH]; intros n s; cbn [fold_left].
  { intros [= <- <-]. split; [|done]. intros ip. by rewrite decide_False by apply not_elem_of_nil. }
  destruct (window_visit now ttl (n, s) k) as [n0 s0] eqn:Ev. intros Hf.
  apply window_visit_spec in Ev as [Hv Hnv]. apply IH in Hf as [Hf Hnf]. split; [|lia].
  intros ip. rewrite Hf, Hv. destruct (decide (ip = k)) as [->|Hne].
  - rewrite window_survivor_idem. rewrite (decide_True (P := k ∈ k :: order)) by left.
    by case_decide.
  - destruct (decide (ip ∈ order)).
    + by rewrite decide_True by (by right).
    + rewrite decide_False; [done|]. intros [?|?]%elem_of_cons; done.
Qed.

(** A cleanup pass over the keys of the map. *)
Lemma cleanup_window_filter order now ttl s n s' :
  (forall ip, ip ∈ dom (lastPass s) -> ip ∈ order) ->
  cleanup_window order now ttl s = (n, s') ->
  lastPass s' = filter (fun kv => time_Sub now (snd kv) <= ttl) (lastPass s)
  /\ n = Z.of_nat (size (lastPass s)) - Z.of_nat (size (lastPass s')).
Proof.
  intros Horder H. apply cleanup_fold_spec in H as [Hl Hn]. split; [|lia].
  apply map_eq. intros ip. rewrite Hl, map_lookup_filter.
  destruct (lastPass s !! ip) as [last|] eqn:E.
  - rewrite decide_True by (apply Horder, elem_of_dom; eauto). simpl.
    destruct (Z.ltb_spec ttl (time_Sub now last)).
    + rewrite option_guard_False by (simpl; lia). done.
    + rewrite option_guard_True by (simpl; lia). done.
  - by case_decide.
Qed.

(** * The windows of one address *)

(** The entry of the map agrees with the specification's window, or was
    cleaned up once that window had expired. *)
Definition window_sim (window : Duration) (t : Time) (opened entry : option Time) : Prop :=
  match entry with
  | Some u => opened = Some u /\ 0 < u
  | None => match opened with Some u => u + window < t | None => True end
  end.
Lemma window_sim_later window t t' opened entry :
  t <= t' -> window_sim window t opened entry -> window_sim window t' opened entry.
Proof. unfold window_sim. intros. repeat case_match; try done. lia. Qed.
Lemma window_sim_cleanup window t opened entry :
  0 < window -> window_sim window t opened entry ->
  window_sim window t opened (window_survivor t window entry).
Proof.
  unfold window_sim. destruct entry as [u|]; simpl; [|done]. intros Hw [-> Hu].
  destruct (Z.ltb_spec window (time_Sub t u)) as [Hlt|]; [|done]. revert Hlt. unfold time_Sub, MinInt64. lia.
Qed.

Lemma decide_window_sim window ip now s opened split since s' :
  0 < window <= MaxInt64 -> 0 < now -> window_sim window now opened (lastPass s !! ip) ->
  decide_window ip now window s = (split, since, s') ->
  exists opened', forall pkts,
    window_spec window opened (now :: pkts) = split :: window_spec window opened' pkts
    /\ window_sim window now opened' (lastPass s' !! ip).
Proof.
  unfold decide_window, last_pass. intros Hw Hnow Hsim.
  destruct (lastPass s !! ip) as [u|] eqn:E; cbn [default window_sim] in *.
  - destruct Hsim as [-> Hu]. simpl. assert (Hz : IsZero u = false) by (unfold IsZero; lia).
    rewrite Hz. simpl.
    destruct (Z.leb_spec window (time_Sub now u)) as [Hle|Hlt]; intros [= <- <- <-].
    + exists (Some now). intros pkts. cbn [window_spec lastPass].
      rewrite decide_False by (apply time_Sub_ge in Hle; [lia|unfold MinInt64; lia]).
      rewrite lookup_insert_eq. done.
    + exists (Some u). intros pkts. cbn [window_spec].
      rewrite decide_True; [by rewrite E|].
      apply Z.lt_nge. intros Hge. apply Z.lt_nge in Hlt. apply Hlt, time_Sub_ge; unfold MinInt64; lia.
  - simpl. intros [= <- <- <-]. exists (Some now). intros pkts. cbn [window_spec lastPass].
    rewrite lookup_insert_eq. split; [|done]. destruct opened; [|done].
    by rewrite decide_False by lia.
Qed.
Lemma decide_window_other window ip ip' now s r s' :
  ip' <> ip -> decide_window ip now window s = (r, s') -> lastPass s' !! ip' = lastPass s !! ip'.
Proof.
  unfold decide_window. intros Hne. case_match; intros [= <- <-]; [|done].
  cbn [lastPass]. by rewrite lookup_insert_ne.
Qed.

Definition times_of (ip : bytes) (ops : list window_op) : list Time :=
  omap (fun o => match o with
                 | Packet ip' t => if decide (ip' = ip) then Some t else None
                 | CleanupPass _ _ => None
                 end) ops.
Definition decisions_of (ip : bytes) (ds : list (bytes * Time * bool)) : list bool :=
  omap (fun d => if decide (fst (fst d) = ip) then Some (snd d) else None) ds.

Lemma run_window_sim window ip ops t s opened :
  0 < window <= MaxInt64 -> 0 < t -> times_from t ops ->
  window_sim window t opened (lastPass s !! ip) ->
  decisions_of ip (fst (run_window window window ops s))
  = window_spec window opened (times_of ip ops).
Proof.
  intros Hw. revert t s opened. induction ops as [|o ops IH]; intros t s opened Ht Htimes Hsim; [done|].
  destruct Htimes as [Hto Htimes]. eapply window_sim_later in Hsim; [|exact Hto].
  destruct o as [ip' now|order now]; cbn [run_window op_time] in *.
  - destruct (decide_window ip' now window s) as [[split since] s'] eqn:Ed.
    destruct (run_window window window ops s') as [ds s1] eqn:Er.
    specialize (IH now s'). rewrite Er in IH. cbn [fst] in *.
    unfold decisions_of, times_of. cbn [omap list_omap fst snd].
    destruct (decide (ip' = ip)) as [->|Hne].
    + destruct (decide_window_sim window ip now s opened split since s' Hw ltac:(lia) Hsim Ed) as (o' & Ho).
      destruct (Ho (times_of ip ops)) as [Hspec Hsim']. fold (times_of ip ops). rewrite Hspec.
      f_equal. apply IH; done || lia.
    + apply IH; try (done || lia). erewrite decide_window_other; [done| |done]. done.
  - destruct (cleanup_window order now window s) as [n s'] eqn:Ec. cbn [snd].
    unfold times_of. cbn [omap list_omap]. apply (IH now); [lia|done|].
    apply cleanup_fold_spec in Ec as [Hl _]. rewrite Hl. case_decide; [|done].
    apply window_sim_cleanup; [lia|done].
Qed.

(** C13: over any run with a non-decreasing clock, the packets to one address
    are split exactly when less than the window has passed since the packet
    that opened the current window, which itself passes; other addresses and
    the cleanup loop (whose time to live is the window) never change that. *)
Theorem pass_window_spec window ops ip :
  0 < window <= MaxInt64 -> times_from 1 ops ->
  decisions_of ip (fst (run_window window window ops newSplitPayloadWindowState))
  = window_spec window None (times_of ip ops).
Proof. intros Hw Hops. by apply (run_window_sim window ip ops 1). Qed.

Definition example_ip (b : byte) : bytes := [Byte.xc0; Byte.x00; Byte.x02; b].
Lemma pass_window_spec_witness :
  let ops := [Packet (example_ip Byte.x01) 10; Packet (example_ip Byte.x02) 20;
              Packet (example_ip Byte.x01) 25; CleanupPass [example_ip Byte.x01] 45;
              Packet (example_ip Byte.x01) 50; Packet (example_ip Byte.x01) 59] in
  decisions_of (example_ip Byte.x01)
    (fst (run_window 30 30 ops newSplitPayloadWindowState)) = [false; true; false; true].
Proof.
  cbv zeta. rewrite (pass_window_spec 30); [reflexivity|unfold MaxInt64; lia|].
  simpl. lia.
Defined.
