(* ===== verification/Config.v ===== *)
(** The options ([parseConfig] and its helpers in [cmd/nfqcooldown/main.go]):
    from the strings and numbers the [flag] package delivers to the [Config]
    the daemon runs with. *)

From S2P Require Import Prelude GoStrings GoDuration.
From Stdlib Require Import Ascii.
Open Scope Z_scope.

(** * The code *)

(** What [flag.Parse] leaves in the variables of [parseConfig]. *)
Record Flags := {
  fl_queue : Z; fl_action : string; fl_mode : string; fl_cooldown : string;
  fl_min_delay : string; fl_max_delay : string; fl_jitter : string; fl_whitelist : string;
  fl_verbose : bool; fl_seed : Z; fl_stats_every : string; fl_cleanup_after : string;
  fl_cleanup_every : string; fl_forget_on_drop : bool; fl_max_drops_per_ip : Z;
  fl_packet : string; fl_max_pending_delays : Z; fl_burst_interval : string;
  fl_burst_max_delay : string; fl_skip_mark : string; fl_reject_mark : string;
  fl_split_at : Z; fl_split_mark : string; fl_split_delay : string; fl_split_seen_ttl : string;
  fl_split_probe : bool; fl_split_reverse : bool; fl_fake_bad_checksum : bool;
  fl_fake_payload : string; fl_fake_length : Z; fl_fake_delay : string; fl_pass_window : string
}.
(** The defaults declared with the flags. *)
Definition default_flags : Flags := {|
  fl_queue := 443; fl_action := "drop"; fl_mode := "fixed"; fl_cooldown := "500ms";
  fl_min_delay := "300ms"; fl_max_delay := "700ms"; fl_jitter := "100ms"; fl_whitelist := "";
  fl_verbose := false; fl_seed := 0; fl_stats_every := "30s"; fl_cleanup_after := "10m";
  fl_cleanup_every := "30s"; fl_forget_on_drop := false; fl_max_drops_per_ip := 0;
  fl_packet := "syn"; fl_max_pending_delays := 0; fl_burst_interval := "100ms";
  fl_burst_max_delay := "1s"; fl_skip_mark := ""; fl_reject_mark := "";
  fl_split_at := 1; fl_split_mark := "0x1000"; fl_split_delay := "1ms"; fl_split_seen_ttl := "1m";
  fl_split_probe := false; fl_split_reverse := false; fl_fake_bad_checksum := false;
  fl_fake_payload := "tls-invalid-length"; fl_fake_length := 0; fl_fake_delay := "5ms";
  fl_pass_window := "0"
|}.

Record Config := {
  QueueNum : Z; Action : string; Mode : string; Cooldown : Z; MinDelay : Z; MaxDelay : Z;
  Jitter : Z; Whitelist : string; Verbose : bool; Seed : Z; StatsEvery : Z; CleanupAfter : Z;
  CleanupEvery : Z; ForgetOnDrop : bool; MaxDropsPerIP : Z; PacketKind : string;
  MaxPendingDelays : Z; BurstInterval : Z; BurstMaxDelay : Z;
  SkipMarkEnabled : bool; SkipMarkValue : Z; SkipMarkMask : Z; SkipMarkSpec : string;
  RejectMarkEnabled : bool; RejectMarkValue : Z; RejectMarkSpec : string;
  SplitAt : Z; SplitMarkEnabled : bool; SplitMarkValue : Z; SplitMarkSpec : string;
  SplitDelay : Z; SplitSeenTTL : Z; SplitProbe : bool; SplitReverse : bool;
  FakeBadChecksum : bool; FakePayload : string; FakeLength : Z; FakeDelay : Z; PassWindow : Z
}.

(** The exits through [fatalf], one constructor per message. *)
Inductive ConfigError :=
| BadDuration (name value : string)
| BadMark (name value : string)
| InvalidMark (name value : string)
| EmptyMask (name value : string)
| InvalidMask (name value : string)
| ZeroMask (name value : string)
| ZeroMark (name value : string)
| BadAction | BadModeName | BadPacket
| ShapeRequiresSyn | SplitRequiresPayload | PayloadRequiresSplit | SplitRequiresMark
| BadSplitAt | BadSplitDelay | ProbeAndReverse | FakeAndProbe | BadFakePayload
| BadFakeLength | FakeLengthTooShort | BadFakeDelay | BadPassWindow | BadSplitSeenTTL
| BadMaxDropsPerIP | BadMaxPendingDelays | BadBurstInterval | BadBurstMaxDelay.

Definition mustDuration (name value : string) : res ConfigError Z :=
  match ParseDuration value with
  | None => Fail (BadDuration name value)
  | Some d => Ok d
  end.

Definition mustMarkSpec (name value : string) : res ConfigError (bool * Z * Z) :=
  let value := TrimSpace value in
  if seqb value "" then Ok (false, 0, 0)
  else
    match Split value "/"%char with
    | part0 :: rest =>
        if (2 <? Z.of_nat (length (part0 :: rest))) || seqb part0 "" then Fail (BadMark name value)
        else
          match ParseUint0 part0 32 with
          | None => Fail (InvalidMark name value)
          | Some mark =>
              match rest with
              | part1 :: _ =>
                  if seqb part1 "" then Fail (EmptyMask name value)
                  else match ParseUint0 part1 32 with
                       | None => Fail (InvalidMask name value)
                       | Some mask => if mask =? 0 then Fail (ZeroMask name value)
                                      else Ok (true, wrapU32 mark, wrapU32 mask)
                       end
              | [] => Ok (true, wrapU32 mark, wrapU32 0xffffffff)
              end
          end
    | [] => Fail (BadMark name value)
    end.

Definition mustMark (name value : string) : res ConfigError (bool * Z) :=
  let value := TrimSpace value in
  if seqb value "" then Ok (false, 0)
  else match ParseUint0 value 32 with
       | None => Fail (InvalidMark name value)
       | Some mark => if mark =? 0 then Fail (ZeroMark name value) else Ok (true, wrapU32 mark)
       end.

Definition formatSkipMark (cfg : Config) : string :=
  if negb (SkipMarkEnabled cfg) then "disabled"
  else "0x" +:+ format_x (SkipMarkValue cfg) +:+ "/0x" +:+ format_x (SkipMarkMask cfg).
Definition formatRejectMark (cfg : Config) : string :=
  if negb (RejectMarkEnabled cfg) then "disabled" else "0x" +:+ format_x (RejectMarkValue cfg).

(** The tests between parsing and building the [Config], in order. *)
Definition checkOptions (fl : Flags) (splitMarkEnabled : bool)
    (splitDelay fakeDelay passWindow splitSeenTTL burstInterval burstMaxDelay : Z)
    : res ConfigError unit :=
  let action := fl_action fl in
  let mode := fl_mode fl in
  let packet := fl_packet fl in
  let fakePayload := fl_fake_payload fl in
  let fakeLength := fl_fake_length fl in
  _ ← fail_if (negb (seqb action "drop") && negb (seqb action "shape") && negb (seqb action "split"))
        BadAction;
  _ ← fail_if (negb (seqb mode "fixed") && negb (seqb mode "random") && negb (seqb mode "jitter"))
        BadModeName;
  _ ← fail_if (negb (seqb packet "syn") && negb (seqb packet "synack") && negb (seqb packet "payload"))
        BadPacket;
  _ ← fail_if (seqb action "shape" && negb (seqb packet "syn")) ShapeRequiresSyn;
  _ ← fail_if (seqb action "split" && negb (seqb packet "payload")) SplitRequiresPayload;
  _ ← fail_if (seqb packet "payload" && negb (seqb action "split")) PayloadRequiresSplit;
  _ ← fail_if (seqb action "split" && negb splitMarkEnabled) SplitRequiresMark;
  _ ← fail_if (fl_split_at fl <=? 0) BadSplitAt;
  _ ← fail_if (splitDelay <? 0) BadSplitDelay;
  _ ← fail_if (fl_split_probe fl && fl_split_reverse fl) ProbeAndReverse;
  _ ← fail_if (fl_fake_bad_checksum fl && fl_split_probe fl) FakeAndProbe;
  _ ← fail_if (negb (seqb fakePayload "copy") && negb (seqb fakePayload "tls-invalid-length"))
        BadFakePayload;
  _ ← fail_if (fakeLength <? 0) BadFakeLength;
  _ ← fail_if ((0 <? fakeLength) && seqb fakePayload "tls-invalid-length" && (fakeLength <? 5))
        FakeLengthTooShort;
  _ ← fail_if (fakeDelay <? 0) BadFakeDelay;
  _ ← fail_if (passWindow <? 0) BadPassWindow;
  _ ← fail_if (splitSeenTTL <=? 0) BadSplitSeenTTL;
  _ ← fail_if (fl_max_drops_per_ip fl <? 0) BadMaxDropsPerIP;
  _ ← fail_if (fl_max_pending_delays fl <? 0) BadMaxPendingDelays;
  _ ← fail_if (burstInterval <=? 0) BadBurstInterval;
  fail_if (burstMaxDelay <? 0) BadBurstMaxDelay.

Definition parseConfig (fl : Flags) : res ConfigError Config :=
  cooldown ← mustDuration "cooldown" (fl_cooldown fl);
  minDelay ← mustDuration "min-delay" (fl_min_delay fl);
  maxDelay ← mustDuration "max-delay" (fl_max_delay fl);
  jitter ← mustDuration "jitter" (fl_jitter fl);
  statsEvery ← mustDuration "stats-every" (fl_stats_every fl);
  cleanupAfter ← mustDuration "cleanup-after" (fl_cleanup_after fl);
  cleanupEvery ← mustDuration "cleanup-every" (fl_cleanup_every fl);
  burstInterval ← mustDuration "burst-interval" (fl_burst_interval fl);
  burstMaxDelay ← mustDuration "burst-max-delay" (fl_burst_max_delay fl);
  '(skipMarkEnabled, skipMarkValue, skipMarkMask) ← mustMarkSpec "skip-mark" (fl_skip_mark fl);
  '(rejectMarkEnabled, rejectMarkValue) ← mustMark "reject-mark" (fl_reject_mark fl);
  '(splitMarkEnabled, splitMarkValue) ← mustMark "split-mark" (fl_split_mark fl);
  splitDelay ← mustDuration "split-delay" (fl_split_delay fl);
  splitSeenTTL ← mustDuration "split-seen-ttl" (fl_split_seen_ttl fl);
  fakeDelay ← mustDuration "fake-delay" (fl_fake_delay fl);
  passWindow ← mustDuration "pass-window" (fl_pass_window fl);
  _ ← checkOptions fl splitMarkEnabled splitDelay fakeDelay passWindow splitSeenTTL
        burstInterval burstMaxDelay;
  Ok {|
    QueueNum := fl_queue fl; Action := fl_action fl; Mode := fl_mode fl; Cooldown := cooldown;
    MinDelay := minDelay; MaxDelay := maxDelay; Jitter := jitter; Whitelist := fl_whitelist fl;
    Verbose := fl_verbose fl; Seed := fl_seed fl; StatsEvery := statsEvery;
    CleanupAfter := cleanupAfter; CleanupEvery := cleanupEvery;
    ForgetOnDrop := fl_forget_on_drop fl; MaxDropsPerIP := fl_max_drops_per_ip fl;
    PacketKind := fl_packet fl; MaxPendingDelays := fl_max_pending_delays fl;
    BurstInterval := burstInterval; BurstMaxDelay := burstMaxDelay;
    SkipMarkEnabled := skipMarkEnabled; SkipMarkValue := skipMarkValue;
    SkipMarkMask := skipMarkMask; SkipMarkSpec := TrimSpace (fl_skip_mark fl);
    RejectMarkEnabled := rejectMarkEnabled; RejectMarkValue := rejectMarkValue;
    RejectMarkSpec := TrimSpace (fl_reject_mark fl); SplitAt := fl_split_at fl;
    SplitMarkEnabled := splitMarkEnabled; SplitMarkValue := splitMarkValue;
    SplitMarkSpec := TrimSpace (fl_split_mark fl); SplitDelay := splitDelay;
    SplitSeenTTL := splitSeenTTL; SplitProbe := fl_split_probe fl;
    SplitReverse := fl_split_reverse fl; FakeBadChecksum := fl_fake_bad_checksum fl;
    FakePayload := fl_fake_payload fl; FakeLength := fl_fake_length fl;
    FakeDelay := fakeDelay; PassWindow := passWindow
  |}.

(** * What a configuration satisfies *)

Definition valid_config (c : Config) : Prop :=
  (Action c = "drop" \/ Action c = "shape" \/ Action c = "split")%string
  /\ (Mode c = "fixed" \/ Mode c = "random" \/ Mode c = "jitter")%string
  /\ (PacketKind c = "syn" \/ PacketKind c = "synack" \/ PacketKind c = "payload")%string
  /\ (Action c = "shape" -> PacketKind c = "syn")%string
  /\ (Action c = "split" -> PacketKind c = "payload")%string
  /\ (PacketKind c = "payload" -> Action c = "split")%string
  /\ (Action c = "split"%string -> SplitMarkEnabled c = true)
  /\ 0 < SplitAt c /\ 0 <= SplitDelay c
  /\ ~ (SplitProbe c = true /\ SplitReverse c = true)
  /\ ~ (FakeBadChecksum c = true /\ SplitProbe c = true)
  /\ (FakePayload c = "copy" \/ FakePayload c = "tls-invalid-length")%string
  /\ 0 <= FakeLength c
  /\ (FakePayload c = "tls-invalid-length"%string -> 0 < FakeLength c -> 5 <= FakeLength c)
  /\ 0 <= FakeDelay c /\ 0 <= PassWindow c /\ 0 < SplitSeenTTL c /\ 0 <= MaxDropsPerIP c
  /\ 0 <= MaxPendingDelays c /\ 0 < BurstInterval c /\ 0 <= BurstMaxDelay c.

(** Every field is the flag, or what its string denotes. *)
Definition flags_denote (fl : Flags) (c : Config) : Prop :=
  ParseDuration (fl_cooldown fl) = Some (Cooldown c)
  /\ ParseDuration (fl_min_delay fl) = Some (MinDelay c)
  /\ ParseDuration (fl_max_delay fl) = Some (MaxDelay c)
  /\ ParseDuration (fl_jitter fl) = Some (Jitter c)
  /\ ParseDuration (fl_stats_every fl) = Some (StatsEvery c)
  /\ ParseDuration (fl_cleanup_after fl) = Some (CleanupAfter c)
  /\ ParseDuration (fl_cleanup_every fl) = Some (CleanupEvery c)
  /\ ParseDuration (fl_burst_interval fl) = Some (BurstInterval c)
  /\ ParseDuration (fl_burst_max_delay fl) = Some (BurstMaxDelay c)
  /\ ParseDuration (fl_split_delay fl) = Some (SplitDelay c)
  /\ ParseDuration (fl_split_seen_ttl fl) = Some (SplitSeenTTL c)
  /\ ParseDuration (fl_fake_delay fl) = Some (FakeDelay c)
  /\ ParseDuration (fl_pass_window fl) = Some (PassWindow c)
  /\ mustMarkSpec "skip-mark" (fl_skip_mark fl)
     = Ok (SkipMarkEnabled c, SkipMarkValue c, SkipMarkMask c)
  /\ mustMark "reject-mark" (fl_reject_mark fl) = Ok (RejectMarkEnabled c, RejectMarkValue c)
  /\ mustMark "split-mark" (fl_split_mark fl) = Ok (SplitMarkEnabled c, SplitMarkValue c)
  /\ SkipMarkSpec c = TrimSpace (fl_skip_mark fl)
  /\ RejectMarkSpec c = TrimSpace (fl_reject_mark fl)
  /\ SplitMarkSpec c = TrimSpace (fl_split_mark fl)
  /\ QueueNum c = fl_queue fl /\ Action c = fl_action fl /\ Mode c = fl_mode fl
  /\ Whitelist c = fl_whitelist fl /\ Verbose c = fl_verbose fl /\ Seed c = fl_seed fl
  /\ ForgetOnDrop c = fl_forget_on_drop fl /\ MaxDropsPerIP c = fl_max_drops_per_ip fl
  /\ PacketKind c = fl_packet fl /\ MaxPendingDelays c = fl_max_pending_delays fl
  /\ SplitAt c = fl_split_at fl /\ SplitProbe c = fl_split_probe fl
  /\ SplitReverse c = fl_split_reverse fl /\ FakeBadChecksum c = fl_fake_bad_checksum fl
  /\ FakePayload c = fl_fake_payload fl /\ FakeLength c = fl_fake_length fl.

(** Reading one boolean test of [checkOptions] as its proposition. *)
Ltac option_test :=
  unfold seqb; repeat case_bool_decide; simpl;
  repeat match goal with
         | |- context [?f ?c] => match type of (f c) with bool => is_var c; destruct (f c) end
         end; intuition (congruence || lia || auto).

Lemma checkOptions_Ok fl c :
  flags_denote fl c ->
  checkOptions fl (SplitMarkEnabled c) (SplitDelay c) (FakeDelay c) (PassWindow c)
    (SplitSeenTTL c) (BurstInterval c) (BurstMaxDelay c) = Ok tt
  <-> valid_config c.
Proof.
  intros (_&_&_&_&_&_&_&_&_&_&_&_&_&_&_&_&_&_&_&_&Ha&Hm&_&_&_&_&Hd&Hp&Hpd&Hs&Hpr&Hrev&Hf&Hfp&Hfl).
  unfold checkOptions, valid_config. cbv zeta.
  rewrite <-Ha, <-Hm, <-Hp, <-Hd, <-Hpd, <-Hs, <-Hpr, <-Hrev, <-Hf, <-Hfp, <-Hfl.
  repeat (rewrite fail_if_Ok; apply and_iff_compat; [option_test|]).
  unfold fail_if. destruct (Z.ltb_spec (BurstMaxDelay c) 0); split; done || lia.
Qed.

Lemma mustDuration_Ok name value d :
  mustDuration name value = Ok d <-> ParseDuration value = Some d.
Proof. unfold mustDuration. destruct (ParseDuration value); split; by intros [= ->]. Qed.

(** Take the binds of [parseConfig] apart. *)
Ltac config_binds H :=
  repeat match type of H with
         | (_ ≫= _) = Ok _ =>
             let Hd := fresh "Hd" in
             apply res_bind_Ok in H as (? & Hd & H); try apply mustDuration_Ok in Hd
         | match ?x with pair _ _ => _ end = Ok _ => destruct x
         end.

(** The options are accepted exactly when every string denotes a value and
    the combination is valid, and then every field of the [Config] is the
    flag or the value its string denotes; in particular any accepted
    configuration is valid. *)
Lemma parseConfig_iff fl c :
  parseConfig fl = Ok c <-> flags_denote fl c /\ valid_config c.
Proof.
  split.
  - unfold parseConfig. intros H. config_binds H. injection H as <-.
    match goal with |- flags_denote _ ?c /\ _ => assert (Hfl : flags_denote fl c) end;
      [|split; [exact Hfl|]].
    2: { apply (checkOptions_Ok fl); [exact Hfl|]. simpl.
         match goal with H : checkOptions _ _ _ _ _ _ _ _ = Ok ?u |- _ => by destruct u end. }
    unfold flags_denote. simpl. by split_and!.
  - intros [Hd Hv]. apply (checkOptions_Ok fl) in Hv; [|done]. unfold parseConfig, mustDuration.
    destruct Hd as (->&->&->&->&->&->&->&->&->&->&->&->&->&->&->&->&Hd). simpl.
    rewrite Hv. simpl. f_equal. clear Hv. destruct c. simpl in Hd.
    repeat match goal with H : _ /\ _ |- _ => destruct H end. by subst.
Qed.

(** C24: the options are accepted exactly when every string denotes a value and
    the combination is valid, and then every field of the [Config] is the
    flag or the value its string denotes. In particular every accepted
    configuration is valid, and a whole number of any unit given as a duration
    denotes exactly that many nanoseconds. *)
Theorem parseConfig_spec fl c :
  (parseConfig fl = Ok c <-> flags_denote fl c /\ valid_config c)
  /\ (forall name n u unit, unitMap u = Some unit -> 0 <= n -> n * unit <= MaxInt64 ->
        mustDuration name (decimal n +:+ u) = Ok (n * unit)
        /\ mustDuration name ("-" +:+ decimal n +:+ u) = Ok (- (n * unit))).
Proof.
  split; [apply parseConfig_iff|]. intros name n u unit Hu Hn Hle. unfold mustDuration.
  destruct (ParseDuration_decimal n u unit Hn Hu Hle) as [-> ->]. done.
Qed.
Lemma parseConfig_spec_witness :
  exists c, parseConfig default_flags = Ok c /\ flags_denote default_flags c /\ valid_config c
    /\ Cooldown c = 500000000 /\ SplitMarkValue c = 0x1000.
Proof.
  destruct (parseConfig default_flags) as [c|e] eqn:E; [|by vm_compute in E].
  exists c. split; [reflexivity|]. destruct (proj1 (proj1 (parseConfig_spec default_flags c)) E) as [Hd Hv].
  split; [exact Hd|]. split; [exact Hv|]. vm_compute in E. injection E as <-. by split.
Defined.

(** * Marks *)

Lemma format_x_plain n : all_chars plain_char ("0x" +:+ format_x n).
Proof. eapply all_chars_impl, format_x_chars. by intros c []. Qed.
Lemma format_x_no_slash n : all_chars (fun c => c <> "/"%char) ("0x" +:+ format_x n).
Proof. eapply all_chars_impl, format_x_chars. by intros c []. Qed.

(** A mark in hexadecimal, as the daemon prints it, reads back as itself,
    alone or with a mask; a missing mask means all bits, a zero mark (for
    [mustMark]) and a zero mask are refused. *)
Lemma mark_roundtrip name v m :
  0 <= v < 2 ^ 32 -> 0 <= m < 2 ^ 32 ->
  let vs := "0x" +:+ format_x v in
  let ms := "0x" +:+ format_x m in
  mustMark name vs = (if v =? 0 then Fail (ZeroMark name vs) else Ok (true, v))
  /\ mustMarkSpec name vs = Ok (true, v, 0xffffffff)
  /\ mustMarkSpec name (vs +:+ "/" +:+ ms)
     = (if m =? 0 then Fail (ZeroMask name (vs +:+ "/" +:+ ms)) else Ok (true, v, m)).
Proof.
  intros Hv Hm. cbv zeta.
  assert (Hne : forall n t, seqb (("0x" +:+ format_x n) +:+ t) "" = false) by done.
  assert (Hne0 : forall n, seqb ("0x" +:+ format_x n) "" = false) by done.
  assert (Htrim : TrimSpace (("0x" +:+ format_x v) +:+ "/" +:+ "0x" +:+ format_x m)
                  = ("0x" +:+ format_x v) +:+ "/" +:+ "0x" +:+ format_x m).
  { apply TrimSpace_plain, all_chars_app; [apply format_x_plain|].
    apply all_chars_app; [by repeat split; unfold plain_char|apply format_x_plain]. }
  unfold mustMark, mustMarkSpec. split_and!.
  - rewrite TrimSpace_plain by apply format_x_plain. rewrite Hne0, ParseUint0_hex by done.
    by rewrite wrapU32_small.
  - rewrite TrimSpace_plain by apply format_x_plain.
    rewrite Hne0, Split_one by apply format_x_no_slash. rewrite Hne0, ParseUint0_hex by done.
    by rewrite wrapU32_small.
  - rewrite Htrim, Hne.
    change ("/" +:+ "0x" +:+ format_x m) with (String "/" ("0x" +:+ format_x m)).
    rewrite Split_cons by apply format_x_no_slash. rewrite Split_one by apply format_x_no_slash.
    rewrite !Hne0, !ParseUint0_hex by done. by rewrite !wrapU32_small.
Qed.
Lemma parse_digits_range base maxVal s n und v u :
  0 <= n <= maxVal -> parse_digits base maxVal s n und = Some (v, u) -> 0 <= v <= maxVal.
Proof.
  revert n und. induction s as [|c s IH]; intros n und Hn; cbn [parse_digits]; [by intros [= <- _]|].
  destruct (code c =? 95); [by apply IH|].
  destruct (if is_digit (code c) then _ else _) as [d|]; [|done].
  destruct (base <=? d); [done|]. destruct (_ <=? n); [done|].
  destruct (Z.ltb_spec maxVal (wrapU64 (wrapU64 (n * base) + d))); [by rewrite orb_true_r|].
  destruct (_ || _); [done|]. apply IH. pose proof (wrapU64_range (wrapU64 (n * base) + d)). lia.
Qed.
Lemma ParseUint0_range s v : ParseUint0 s 32 = Some v -> 0 <= v < 2 ^ 32.
Proof.
  unfold ParseUint0. destruct s as [|c s]; [done|]. destruct (base_prefix _) as [base digits].
  destruct (parse_digits _ _ _ _ _) as [[n u]|] eqn:E; [|done].
  apply parse_digits_range in E; [|lia]. destruct (u && _); [done|]. intros [= <-]. lia.
Qed.
Lemma mustMarkSpec_Ok name value en v m :
  mustMarkSpec name value = Ok (en, v, m) ->
  (en = false /\ v = 0 /\ m = 0 /\ TrimSpace value = EmptyString)
  \/ (en = true /\ 0 <= v < 2 ^ 32 /\ 0 < m < 2 ^ 32 /\ TrimSpace value <> EmptyString).
Proof.
  unfold mustMarkSpec. destruct (seqb (TrimSpace value) "") eqn:E.
  { intros [= <- <- <-]. apply bool_decide_eq_true in E. auto. }
  apply bool_decide_eq_false in E. destruct (Split _ _) as [|p0 rest]; [done|].
  destruct (_ || _); [done|]. destruct (ParseUint0 p0 32) as [mark|] eqn:Ep; [|done].
  apply ParseUint0_range in Ep. destruct rest as [|p1 rest].
  - intros [= <- <- <-]. right. rewrite !wrapU32_small by lia. split_and!; done || lia.
  - destruct (seqb p1 ""); [done|]. destruct (ParseUint0 p1 32) as [mask|] eqn:Em; [|done].
    apply ParseUint0_range in Em. destruct (Z.eqb_spec mask 0); [done|]. intros [= <- <- <-].
    right. rewrite !wrapU32_small by lia. split_and!; done || lia.
Qed.
Lemma mustMark_Ok name value en v :
  mustMark name value = Ok (en, v) ->
  (en = false /\ v = 0 /\ TrimSpace value = EmptyString)
  \/ (en = true /\ 0 < v < 2 ^ 32 /\ TrimSpace value <> EmptyString).
Proof.
  unfold mustMark. destruct (seqb (TrimSpace value) "") eqn:E.
  { intros [= <- <-]. apply bool_decide_eq_true in E. auto. }
  apply bool_decide_eq_false in E. destruct (ParseUint0 _ 32) as [mark|] eqn:Ep; [|done].
  apply ParseUint0_range in Ep. destruct (Z.eqb_spec mark 0); [done|]. intros [= <- <-].
  right. rewrite !wrapU32_small by lia. split_and!; done || lia.
Qed.

(** What an accepted configuration knows of its marks. *)
Definition valid_marks (c : Config) : Prop :=
  (SkipMarkEnabled c = true -> 0 <= SkipMarkValue c < 2 ^ 32 /\ 0 < SkipMarkMask c < 2 ^ 32)
  /\ (RejectMarkEnabled c = true -> 0 < RejectMarkValue c < 2 ^ 32)
  /\ (Action c = "split"%string -> 0 < SplitMarkValue c < 2 ^ 32).
Lemma parseConfig_marks fl c : flags_denote fl c /\ valid_config c -> valid_marks c.
Proof.
  intros [Hd Hv]. destruct Hd as (_&_&_&_&_&_&_&_&_&_&_&_&_&Hs&Hr&Hp&_).
  destruct Hv as (_&_&_&_&_&_&Hsp&_). unfold valid_marks.
  apply mustMarkSpec_Ok in Hs. apply mustMark_Ok in Hr. apply mustMark_Ok in Hp.
  split_and!; intros Hen.
  - by destruct Hs as [[? _]|(_ & ? & ? & _)]; [congruence|].
  - by destruct Hr as [[? _]|(_ & ? & _)]; [congruence|].
  - specialize (Hsp Hen). by destruct Hp as [[? _]|(_ & ? & _)]; [congruence|].
Qed.

(** C33: in an accepted configuration, the marks are 32-bit, the mask, the
    reject mark and the split mark are not zero, and the skip and reject
    marks as printed at startup read back as themselves. *)
Theorem printed_marks_read_back fl c name :
  parseConfig fl = Ok c ->
  valid_marks c
  /\ mustMarkSpec name (formatSkipMark c)
     = (if SkipMarkEnabled c then Ok (true, SkipMarkValue c, SkipMarkMask c)
        else Fail (InvalidMark name "disabled"))
  /\ mustMark name (formatRejectMark c)
     = (if RejectMarkEnabled c then Ok (true, RejectMarkValue c)
        else Fail (InvalidMark name "disabled")).
Proof.
  intros H. apply parseConfig_iff, parseConfig_marks in H. split; [done|].
  destruct H as (Hs & Hr & _). unfold formatSkipMark, formatRejectMark. split.
  - destruct (SkipMarkEnabled c); [|reflexivity]. destruct Hs as [Hv Hm]; [done|]. simpl negb. cbv iota.
    pose proof (mark_roundtrip name (SkipMarkValue c) (SkipMarkMask c) Hv ltac:(lia)) as (_ & _ & H).
    destruct (Z.eqb_spec (SkipMarkMask c) 0); [lia|]. exact H.
  - destruct (RejectMarkEnabled c); [|reflexivity]. specialize (Hr eq_refl). simpl negb. cbv iota.
    pose proof (mark_roundtrip name (RejectMarkValue c) 0 ltac:(lia) ltac:(lia)) as (H & _).
    destruct (Z.eqb_spec (RejectMarkValue c) 0); [lia|]. exact H.
Qed.
Definition marked_flags : Flags := {|
  fl_queue := 443; fl_action := "shape"; fl_mode := "fixed"; fl_cooldown := "500ms";
  fl_min_delay := "300ms"; fl_max_delay := "700ms"; fl_jitter := "100ms"; fl_whitelist := "";
  fl_verbose := false; fl_seed := 0; fl_stats_every := "30s"; fl_cleanup_after := "10m";
  fl_cleanup_every := "30s"; fl_forget_on_drop := false; fl_max_drops_per_ip := 0;
  fl_packet := "syn"; fl_max_pending_delays := 0; fl_burst_interval := "1090ms";
  fl_burst_max_delay := "10ms"; fl_skip_mark := " 0x400/0X400"; fl_reject_mark := "2048";
  fl_split_at := 1; fl_split_mark := "0x1000"; fl_split_delay := "1ms"; fl_split_seen_ttl := "1m";
  fl_split_probe := false; fl_split_reverse := false; fl_fake_bad_checksum := false;
  fl_fake_payload := "tls-invalid-length"; fl_fake_length := 0; fl_fake_delay := "5ms";
  fl_pass_window := "0"
|}.
Lemma printed_marks_read_back_witness :
  exists c, parseConfig marked_flags = Ok c /\ formatSkipMark c = "0x400/0x400"%string
    /\ mustMarkSpec "skip-mark" (formatSkipMark c) = Ok (true, 0x400, 0x400)
    /\ mustMark "reject-mark" (formatRejectMark c) = Ok (true, 0x800).
Proof.
  destruct (parseConfig marked_flags) as [c|e] eqn:E; [|by vm_compute in E].
  exists c. destruct (printed_marks_read_back marked_flags c "skip-mark" E) as (_ & H1 & _).
  destruct (printed_marks_read_back marked_flags c "reject-mark" E) as (_ & _ & H2).
  split; [reflexivity|]. rewrite H1, H2. vm_compute in E. injection E as <-. by split_and!.
Defined.
