(* ===== verification/Runtime.v ===== *)
(** Goroutines over a shared world: programs as trees of atomic steps, a
    sequential interpreter, interleaving semantics, and an invariant rule for
    programs whose threads carry ghost state. *)

From S2P Require Import Prelude GoTime.
Open Scope Z_scope.

(** * Programs *)

(** A goroutine. [Step] is one atomic access to the world (a critical section,
    an atomic counter operation, one [sync.Map] operation, one system call);
    it cannot be taken where its function is [None]. [Await] is blocked until
    the clock reaches an instant, [Fork] is the [go] statement and [Crash] a
    run-time panic. *)
Inductive prog (W : Type) (A : Type) : Type :=
| Ret (a : A)
| Step {R : Type} (f : W -> option (R * W)) (k : R -> prog W A)
| Await (t : Time) (k : prog W A)
| Fork (task : prog W unit) (k : prog W A)
| Crash.
Arguments Ret {W A} a.
Arguments Step {W A R} f k.
Arguments Await {W A} t k.
Arguments Fork {W A} task k.
Arguments Crash {W A}.

Fixpoint prog_bind {W A B : Type} (f : A -> prog W B) (p : prog W A) : prog W B :=
  match p with
  | Ret a => f a
  | Step g k => Step g (fun r => prog_bind f (k r))
  | Await t k => Await t (prog_bind f k)
  | Fork task k => Fork task (prog_bind f k)
  | Crash => Crash
  end.
#[export] Instance prog_ret W : MRet (prog W) := fun _ => Ret.
#[export] Instance prog_mbind W : MBind (prog W) := fun _ _ f p => prog_bind f p.

Section operations.
Context {W : Type}.
Definition modify (f : W -> W) : prog W unit := Step (fun w => Some (tt, f w)) Ret.
Definition gets {R} (f : W -> R) : prog W R := Step (fun w => Some (f w, w)) Ret.
Definition update {R} (f : W -> R * W) : prog W R := Step (fun w => Some (f w)) Ret.
Definition try_update {R} (f : W -> option (R * W)) : prog W R := Step f Ret.
Definition go_stmt (task : prog W unit) : prog W unit := Fork task (Ret tt).
(** A computation that panics brings its goroutine down. *)
Definition lift {A} (m : go A) : prog W A := match m with Val a => Ret a | Panic => Crash end.
End operations.
Arguments modify {W} f : simpl never.
Arguments gets {W R} f : simpl never.
Arguments update {W R} f : simpl never.
Arguments try_update {W R} f : simpl never.
Arguments go_stmt {W} task : simpl never.

Lemma ret_bind {W A B} (a : A) (k : A -> prog W B) : (Ret a ≫= k) = k a.
Proof. reflexivity. Qed.
Lemma lift_bind {W A B} (m : go A) a (k : A -> prog W B) : m = Val a -> (lift m ≫= k) = k a.
Proof. by intros ->. Qed.

(** A world with a clock that only moves forward. *)
Class Clocked (W : Type) := {
  clock : W -> Time;
  advance : Time -> W -> W
}.
Class ClockedLaws (W : Type) `{Clocked W} :=
  clock_advance : forall t w, clock (advance t w) = Z.max t (clock w).

(** [time.Now()] and [time.Sleep(d)]. *)
Definition Now {W} `{Clocked W} : prog W Time := gets clock.
Definition Sleep {W} `{Clocked W} (d : Duration) : prog W unit :=
  now ← Now; Await (time_Add now d) (Ret tt).

(** * Running one goroutine alone *)

(** The result, the world and the goroutines started, in order; sleeping
    moves the clock. [None]: a step could not be taken, or a panic. *)
Fixpoint run {W A : Type} `{Clocked W} (p : prog W A) (w : W) : option (A * W * list (prog W unit)) :=
  match p with
  | Ret a => Some (a, w, [])
  | Step f k => match f w with Some (r, w') => run (k r) w' | None => None end
  | Await t k => run k (advance t w)
  | Fork task k =>
      match run k w with Some (a, w', ts) => Some (a, w', task :: ts) | None => None end
  | Crash => None
  end.

Section run_facts.
Context {W : Type} `{Clocked W}.

Lemma run_bind {A B : Type} (p : prog W A) (k : A -> prog W B) w :
  run (p ≫= k) w
  = match run p w with
    | Some (a, w', ts) =>
        match run (k a) w' with Some (b, w'', ts') => Some (b, w'', ts ++ ts') | None => None end
    | None => None
    end.
Proof.
  unfold mbind, prog_mbind. revert k w.
  induction p as [A a|A R f k' IH|A t p IH|A task _ p IH|A]; intros k w; simpl.
  - by destruct (run (k a) w) as [[[??]?]|].
  - destruct (f w) as [[r w']|]; [apply IH|done].
  - apply IH.
  - rewrite IH. destruct (run p w) as [[[a w'] ts]|]; [|done].
    by destruct (run (k a) w') as [[[??]?]|].
  - done.
Qed.
Lemma run_modify f w : run (modify f : prog W unit) w = Some (tt, f w, []).
Proof. reflexivity. Qed.
Lemma run_modify_bind {B : Type} f (k : unit -> prog W B) w : run (modify f ≫= k) w = run (k tt) (f w).
Proof. reflexivity. Qed.
Lemma run_gets_bind {R B : Type} (f : W -> R) (k : R -> prog W B) w :
  run (gets f ≫= k) w = run (k (f w)) w.
Proof. reflexivity. Qed.
Lemma run_update_bind {R B : Type} (f : W -> R * W) (k : R -> prog W B) w :
  run (update f ≫= k) w = run (k (fst (f w))) (snd (f w)).
Proof. unfold update, mbind, prog_mbind. simpl. by destruct (f w). Qed.
Lemma run_try_bind {R B : Type} (f : W -> option (R * W)) (k : R -> prog W B) w r w' :
  f w = Some (r, w') -> run (try_update f ≫= k) w = run (k r) w'.
Proof. intros Hf. unfold try_update, mbind, prog_mbind. simpl. by rewrite Hf. Qed.
Lemma run_go_bind {B : Type} task (k : unit -> prog W B) w :
  run (go_stmt task ≫= k) w
  = match run (k tt) w with Some (b, w', ts) => Some (b, w', task :: ts) | None => None end.
Proof. reflexivity. Qed.
Lemma run_ret {A : Type} (a : A) w : run (Ret a : prog W A) w = Some (a, w, []).
Proof. reflexivity. Qed.
End run_facts.

(** * Interleaving *)

Record conf (W : Type) := { threads : list (prog W unit); world : W }.
Arguments threads {W}.
Arguments world {W}.

Section interleaving.
Context {W : Type} `{ClockedLaws W}.

(** One step of one goroutine; the last component is what it starts. *)
Inductive tstep : prog W unit -> W -> prog W unit -> W -> list (prog W unit) -> Prop :=
| t_step R (f : W -> option (R * W)) k w r w' :
    f w = Some (r, w') -> tstep (Step f k) w (k r) w' []
| t_await t k w : t <= clock w -> tstep (Await t k) w k w []
| t_fork task k w : tstep (Fork task k) w k w [task].

(** [start j w p w']: the idle thread [j] may begin [p] (the next packet of the
    handler thread, the next tick of a loop). *)
Context (start : nat -> W -> prog W unit -> W -> Prop).

Inductive cstep : conf W -> conf W -> Prop :=
| c_thread ts w i p p' w' new :
    ts !! i = Some p -> tstep p w p' w' new ->
    cstep {| threads := ts; world := w |} {| threads := <[i := p']> ts ++ new; world := w' |}
| c_time ts w t :
    cstep {| threads := ts; world := w |} {| threads := ts; world := advance t w |}
| c_start ts w j p w' :
    ts !! j = Some (Ret tt) -> start j w p w' ->
    cstep {| threads := ts; world := w |} {| threads := <[j := p]> ts; world := w' |}.

(** One step of the thread [i], and a whole schedule of thread numbers. *)
Definition texec (p : prog W unit) (w : W) : option (prog W unit * W * list (prog W unit)) :=
  match p with
  | Step f k => match f w with Some (r, w') => Some (k r, w', []) | None => None end
  | Await t k => if decide (t <= clock w) then Some (k, w, []) else None
  | Fork task k => Some (k, w, [task])
  | Ret _ | Crash => None
  end.
Definition exec_thread (i : nat) (c : conf W) : option (conf W) :=
  match threads c !! i with
  | Some p =>
      match texec p (world c) with
      | Some (p', w', new) => Some {| threads := <[i := p']> (threads c) ++ new; world := w' |}
      | None => None
      end
  | None => None
  end.
Fixpoint run_schedule (sched : list nat) (c : conf W) : option (conf W) :=
  match sched with
  | [] => Some c
  | i :: sched => match exec_thread i c with Some c => run_schedule sched c | None => None end
  end.

Lemma exec_thread_cstep i c c' : exec_thread i c = Some c' -> cstep c c'.
Proof.
  destruct c as [ts w]. unfold exec_thread, texec. cbn [threads world].
  destruct (ts !! i) as [p|] eqn:Hi; [|done]. destruct p as [a|R f k|t k|task k|]; try done.
  - destruct (f w) as [[r w']|] eqn:Hf; [|done]. intros [= <-].
    eapply c_thread; [done|]. by constructor.
  - case_decide; [|done]. intros [= <-]. eapply c_thread; [done|]. by constructor.
  - intros [= <-]. eapply c_thread; [done|]. by constructor.
Qed.
Lemma run_schedule_rtc sched c c' : run_schedule sched c = Some c' -> rtc cstep c c'.
Proof.
  revert c. induction sched as [|i sched IH]; intros c; cbn [run_schedule]; [by intros [= ->]|].
  destruct (exec_thread i c) as [c1|] eqn:E; [|done]. intros Hr.
  eapply rtc_l; [by eapply exec_thread_cstep|by apply IH].
Qed.

(** ** Invariants with ghost state *)

(** Every thread owns a ghost state; [Inv] relates the world to all of them;
    [Idle] holds of the ghost state of a finished thread. *)
Context {G : Type} (Inv : W -> list G -> Prop) (Idle : G -> Prop).

(** From any world satisfying the invariant, the program's next step keeps it
    for some new ghost state, whatever the other threads do in between. *)
Fixpoint safe {A : Type} (p : prog W A) (g : G) (Q : A -> G -> Prop) : Prop :=
  match p with
  | Ret a => Q a g
  | Step f k =>
      forall w gs i r w', gs !! i = Some g -> Inv w gs -> f w = Some (r, w') ->
      exists g', Inv w' (<[i := g']> gs) /\ safe (k r) g' Q
  | Await t k => safe k g Q
  | Fork task k =>
      exists g' gt,
        (forall w gs i, gs !! i = Some g -> Inv w gs -> Inv w (<[i := g']> gs ++ [gt]))
        /\ safe task gt (fun _ => Idle) /\ safe k g' Q
  | Crash => False
  end.

Lemma safe_weaken {A : Type} (p : prog W A) g (Q Q' : A -> G -> Prop) :
  (forall a g, Q a g -> Q' a g) -> safe p g Q -> safe p g Q'.
Proof.
  revert g Q Q'. induction p as [A a|A R f k IH|A t p IH|A task _ p IH|A]; intros g Q Q' HQ; simpl; eauto.
  - intros Hs w gs i r w' Hg HI Hf. destruct (Hs w gs i r w' Hg HI Hf) as (g' & ? & ?). eauto.
  - intros (g' & gt & ? & ? & ?). eauto 10.
Qed.
Lemma safe_bind {A B : Type} (p : prog W A) (k : A -> prog W B) g (Q : B -> G -> Prop) :
  safe p g (fun a g' => safe (k a) g' Q) -> safe (p ≫= k) g Q.
Proof.
  unfold mbind, prog_mbind. revert k g.
  induction p as [A a|A R f k' IH|A t p IH|A task _ p IH|A]; intros k g; simpl; auto.
  - intros Hs w gs i r w' Hg HI Hf. destruct (Hs w gs i r w' Hg HI Hf) as (g' & ? & ?). eauto.
  - intros (g' & gt & ? & ? & ?). eauto 10.
Qed.

Definition conf_ok (c : conf W) : Prop :=
  exists gs, Inv (world c) gs /\ Forall2 (fun p g => safe p g (fun _ => Idle)) (threads c) gs.

(** The clock and new work keep the invariant. *)
Context (Inv_time : forall w gs t, Inv w gs -> Inv (advance t w) gs).
Context (Inv_start : forall j w p w' gs g,
  start j w p w' -> gs !! j = Some g -> Idle g -> Inv w gs ->
  exists g', Inv w' (<[j := g']> gs) /\ safe p g' (fun _ => Idle)).

Lemma cstep_ok c c' : conf_ok c -> cstep c c' -> conf_ok c'.
Proof.
  intros (gs & HI & HF) Hstep. destruct Hstep as [ts w i p p' w' new Hi Ht|ts w t|ts w j p w' Hj Hs];
    cbn [threads world] in *.
  - destruct (Forall2_lookup_l _ _ _ _ _ HF Hi) as (g & Hg & Hsafe).
    inversion Ht as [R f k w0 r w0' Hf|t k w0 Hle|task k w0]; subst; simpl in Hsafe.
    + destruct (Hsafe w gs i r w' Hg HI Hf) as (g' & HI' & Hs'). exists (<[i := g']> gs).
      split; [done|]. cbn [threads]. rewrite app_nil_r. by apply Forall2_insert.
    + exists gs. split; [done|]. cbn [threads]. rewrite app_nil_r.
      rewrite <-(list_insert_id gs i g) by done. by apply Forall2_insert.
    + destruct Hsafe as (g' & gt & HI' & Htask & Hk). exists (<[i := g']> gs ++ [gt]).
      split; [by apply HI'|]. apply Forall2_app; [by apply Forall2_insert|by constructor].
  - exists gs. split; [by apply Inv_time|done].
  - destruct (Forall2_lookup_l _ _ _ _ _ HF Hj) as (g & Hg & Hidle). simpl in Hidle.
    destruct (Inv_start j w p w' gs g Hs Hg Hidle HI) as (g' & HI' & Hp).
    exists (<[j := g']> gs). split; [done|]. by apply Forall2_insert.
Qed.
Lemma reachable_ok c c' : conf_ok c -> rtc cstep c c' -> conf_ok c'.
Proof. intros Hc Hr. induction Hr as [|c c1 c' Hs Hr IH]; [done|]. apply IH. by eapply cstep_ok. Qed.
Lemma reachable_no_crash c c' : conf_ok c -> rtc cstep c c' -> Crash ∉ threads c'.
Proof.
  intros Hc Hr (i & Hi)%list_elem_of_lookup. apply reachable_ok in Hr as (gs & _ & HF); [|done].
  destruct (Forall2_lookup_l _ _ _ _ _ HF Hi) as (g & _ & []).
Qed.
End interleaving.

(** * Relations every step keeps *)

Section keeps.
Context {W : Type} (R : W -> W -> Prop).

(** No step of the program, or of a goroutine it starts, leaves [R], and none
    panics. *)
Fixpoint keeps {A : Type} (p : prog W A) : Prop :=
  match p with
  | Ret _ => True
  | Step f k => forall w r w', f w = Some (r, w') -> R w w' /\ keeps (k r)
  | Await t k => keeps k
  | Fork task k => keeps task /\ keeps k
  | Crash => False
  end.

Lemma keeps_bind {A B : Type} (p : prog W A) (k : A -> prog W B) :
  keeps p -> (forall a, keeps (k a)) -> keeps (p ≫= k).
Proof.
  unfold mbind, prog_mbind. revert k.
  induction p as [A a|A T f k' IH|A t p IH|A task _ p IH|A]; intros k; simpl; auto.
  - intros Hp Hk w r w' Hf. destruct (Hp w r w' Hf). auto.
  - intros [Ht Hp] Hk. auto.
Qed.
Lemma keeps_modify f : (forall w, R w (f w)) -> keeps (modify f).
Proof. intros Hf w r w' [= <- <-]. by split. Qed.
Lemma keeps_gets {T} (f : W -> T) : (forall w, R w w) -> keeps (gets f).
Proof. intros Hr w r w' [= <- <-]. by split. Qed.
Lemma keeps_update {T} (f : W -> T * W) : (forall w, R w (snd (f w))) -> keeps (update f).
Proof. intros Hf w r w' [= Hw]. specialize (Hf w). rewrite Hw in Hf. by split. Qed.
Lemma keeps_try {T} (f : W -> option (T * W)) :
  (forall w r w', f w = Some (r, w') -> R w w') -> keeps (try_update f).
Proof. intros Hf w r w' Hw. split; [by eapply Hf|done]. Qed.
Lemma keeps_go task : keeps task -> keeps (go_stmt task).
Proof. intros Ht. by split. Qed.
Lemma keeps_lift {A} (m : go A) : m <> Panic -> keeps (lift m).
Proof. by destruct m. Qed.

(** A program that keeps a relation the invariant is stable under is safe with
    any ghost state. *)
Lemma keeps_safe {A G : Type} (Inv : W -> list G -> Prop) (Idle : G -> Prop) (g0 g : G)
    (p : prog W A) (Q : A -> G -> Prop) :
  (forall w w' gs, R w w' -> Inv w gs -> Inv w' gs) ->
  (forall w gs, Inv w gs -> Inv w (gs ++ [g0])) -> Idle g0 ->
  keeps p -> (forall a, Q a g) -> safe Inv Idle p g Q.
Proof.
  intros HR Hfork Hidle. revert g Q.
  induction p as [A a|A T f k IH|A t p IH|A task IHt p IH|A]; intros g Q; simpl; auto.
  - intros Hp HQ w gs i r w' Hg HI Hf. destruct (Hp w r w' Hf) as [Hw Hk].
    exists g. split; [|by apply IH]. rewrite list_insert_id by done. by eapply HR.
  - intros [Ht Hp] HQ. exists g, g0. split; [|by auto].
    intros w gs i Hg HI. rewrite list_insert_id by done. by apply Hfork.
Qed.
End keeps.

Lemma keeps_reachable {W} `{ClockedLaws W} (R : W -> W -> Prop) `{!PreOrder R}
    (start : nat -> W -> prog W unit -> W -> Prop) c c' :
  (forall t w, R w (advance t w)) ->
  (forall j w p w', start j w p w' -> R w w' /\ keeps R p) ->
  Forall (keeps R) (threads c) -> rtc (cstep start) c c' ->
  R (world c) (world c') /\ Forall (keeps R) (threads c').
Proof.
  intros Htime Hstart HF Hr. induction Hr as [c|c c1 c' Hs Hr IH]; [by split|].
  assert (R (world c) (world c1) /\ Forall (keeps R) (threads c1)) as [HR1 HF1].
  { destruct Hs as [ts w i p p' w' new Hi Ht|ts w t|ts w j p w' Hj Hs]; cbn [threads world] in *.
    - pose proof (Forall_lookup_1 _ _ _ _ HF Hi) as Hp.
      destruct Ht as [T f k w r w' Hf|t k w Hle|task k w]; simpl in Hp.
      + destruct (Hp w r w' Hf). split; [done|]. rewrite app_nil_r. by apply Forall_insert.
      + split; [done|]. rewrite app_nil_r. by apply Forall_insert.
      + destruct Hp. split; [done|]. apply Forall_app. split; [by apply Forall_insert|by constructor].
    - by split.
    - destruct (Hstart j w p w' Hs). split; [done|]. by apply Forall_insert. }
  destruct (IH HF1) as [HR2 HF2]. split; [by etransitivity|done].
Qed.

(** * Running one goroutine among others *)

Section among.
Context {W : Type} `{Clocked W}.
(** [I w w']: what the other goroutines may do to the world between two steps. *)
Context (I : W -> W -> Prop).

(** The goroutine ends with [a] and leaves [w'], the others acting before every
    step of it and after the last. *)
Fixpoint among {A : Type} (p : prog W A) (w : W) (a : A) (w' : W) : Prop :=
  match p with
  | Ret b => a = b /\ I w w'
  | Step f k => exists w1 r w2, I w w1 /\ f w1 = Some (r, w2) /\ among (k r) w2 a w'
  | Await t k => exists w1, I w w1 /\ among k (advance t w1) a w'
  | Fork task k => among k w a w'
  | Crash => False
  end.

Lemma among_run `{!Reflexive I} {A : Type} (p : prog W A) w a w' ts :
  run p w = Some (a, w', ts) -> among p w a w'.
Proof.
  revert w ts. induction p as [A b|A R f k IH|A t p IH|A task _ p IH|A]; intros w ts; simpl.
  - intros [= -> -> _]. by split.
  - destruct (f w) as [[r w1]|] eqn:E; [|done]. intros Hr. exists w, r, w1.
    split_and!; [reflexivity|done|by eapply IH].
  - intros Hr. exists w. split; [reflexivity|by eapply IH].
  - destruct (run p w) as [[[b w1] ts']|] eqn:E; [|done]. intros [= -> -> _]. by eapply IH.
  - done.
Qed.
Lemma among_bind `{!Reflexive I} {A B : Type} (p : prog W A) (k : A -> prog W B) w b w' :
  among (p ≫= k) w b w' -> exists a w1, among p w a w1 /\ among (k a) w1 b w'.
Proof.
  unfold mbind, prog_mbind. revert k w.
  induction p as [A a|A R f k' IH|A t p IH|A task _ p IH|A]; intros k w; simpl.
  - intros Hk. by exists a, w.
  - intros (w1 & r & w2 & HI & Hf & Hk). destruct (IH r k w2 Hk) as (a & w3 & ? & ?).
    exists a, w3. split; [|done]. by exists w1, r, w2.
  - intros (w1 & HI & Hk). destruct (IH k _ Hk) as (a & w3 & ? & ?). exists a, w3. split; [|done].
    by exists w1.
  - apply IH.
  - done.
Qed.
(** A goroutine whose own steps keep a relation the others keep too. *)
Lemma among_keeps {A : Type} (R : W -> W -> Prop) `{!PreOrder R} (p : prog W A) w a w' :
  (forall w w', I w w' -> R w w') -> (forall t w, R w (advance t w)) ->
  keeps R p -> among p w a w' -> R w w'.
Proof.
  intros HI Ht. revert w. induction p as [A b|A T f k IH|A t p IH|A task _ p IH|A]; intros w; simpl.
  - intros _ [_ ?]. by apply HI.
  - intros Hk (w1 & r & w2 & H1 & Hf & Ha). destruct (Hk w1 r w2 Hf) as [Hw Hk'].
    transitivity w1; [by apply HI|]. transitivity w2; [done|]. by eapply IH.
  - intros Hk (w1 & H1 & Ha). transitivity w1; [by apply HI|].
    transitivity (advance t w1); [apply Ht|]. by eapply IH.
  - intros [_ Hk]. by eapply IH.
  - done.
Qed.
End among.
