(* ===== verification/Progress.v ===== *)
(** Progress of goroutines that share locks: a program logic in which a step
    may be blocked only by another goroutine that holds a lock, and its
    consequence that without new work every schedule ends with all goroutines
    idle. *)

From S2P Require Import Prelude GoTime Runtime.
From Stdlib Require Import Wellfounded.Inverse_Image.
Open Scope Z_scope.

(** * Schedules end *)

Section quiet.
Context {W : Type} `{ClockedLaws W}.

(** Time passes, then one goroutine takes a step; no packet arrives and no
    ticker fires. *)
Inductive quiet_step : conf W -> conf W -> Prop :=
| quiet_intro ts w t i p p' w' new :
    ts !! i = Some p -> tstep p (advance t w) p' w' new ->
    quiet_step {| threads := ts; world := w |} {| threads := <[i := p']> ts ++ new; world := w' |}.

Lemma quiet_cstep start c c' : quiet_step c c' -> rtc (cstep start) c c'.
Proof.
  intros [ts w t i p p' w' new Hi Ht]. eapply rtc_l; [apply c_time|].
  apply rtc_once. by eapply c_thread.
Qed.
Lemma quiet_csteps start c c' : rtc quiet_step c c' -> rtc (cstep start) c c'.
Proof.
  intros Hr. induction Hr as [|c c1 c' Hs Hr IH]; [done|]. etransitivity; [by apply quiet_cstep|done].
Qed.

(** A step replaces a program by one of its subprograms, next to those it
    starts. *)
Definition yields (p p' : prog W unit) (new : list (prog W unit)) : Prop :=
  match p with
  | Step f k => new = [] /\ exists r, p' = k r
  | Await _ k => new = [] /\ p' = k
  | Fork task k => new = [task] /\ p' = k
  | Ret _ | Crash => False
  end.
Definition smaller (ts' ts : list (prog W unit)) : Prop :=
  exists p p' new rest, ts ≡ₚ p :: rest /\ yields p p' new /\ ts' ≡ₚ p' :: new ++ rest.

Lemma thread_ind (P : prog W unit -> Prop) :
  (forall a, P (Ret a)) -> (forall R (f : W -> option (R * W)) k, (forall r, P (k r)) -> P (Step f k)) ->
  (forall t k, P k -> P (Await t k)) -> (forall task k, P task -> P k -> P (Fork task k)) ->
  P Crash -> forall p, P p.
Proof.
  intros Hret Hstep Hawait Hfork Hcrash.
  refine (fix IH (p : prog W unit) : P p := match p with
    | Ret a => Hret a | Step f k => Hstep _ f k (fun r => IH (k r)) | Await t k => Hawait t k (IH k)
    | Fork task k => Hfork task k (IH task) (IH k) | Crash => Hcrash end).
Qed.

Lemma cons_perm_cases {A} (x y : A) l k :
  x :: l ≡ₚ y :: k -> x = y /\ l ≡ₚ k \/ exists m, l ≡ₚ y :: m /\ k ≡ₚ x :: m.
Proof.
  intros Hp. assert (y ∈ x :: l) as [->|Hin]%elem_of_cons by (rewrite Hp; left).
  - left. split; [done|]. by apply (inj (x ::.)) in Hp.
  - right. apply elem_of_Permutation in Hin as [m Hm]. exists m. split; [done|].
    apply (inj (y ::.)). rewrite <-Hp, Hm. by rewrite Permutation_swap.
Qed.
Lemma Acc_perm ts ts' : Acc smaller ts -> ts ≡ₚ ts' -> Acc smaller ts'.
Proof.
  intros [Hacc] Hp. constructor. intros x (p & p' & new & rest & Hts & Hy & Hx). apply Hacc.
  exists p, p', new, rest. by rewrite Hp.
Qed.
Lemma Acc_thread p :
  (forall p' new, yields p p' new -> forall ts, Acc smaller ts -> Acc smaller (p' :: new ++ ts)) ->
  forall ts, Acc smaller ts -> Acc smaller (p :: ts).
Proof.
  intros Hp ts Hts. induction Hts as [ts Hacc IH]. constructor.
  intros x (q & q' & new & rest & Hperm & Hy & Hx).
  apply cons_perm_cases in Hperm as [[<- Hrest]|(m & Hts & Hrest)].
  - apply Acc_perm with (q' :: new ++ ts); [by apply Hp|]. by rewrite Hx, Hrest.
  - apply Acc_perm with (p :: q' :: new ++ m).
    + apply IH. by exists q, q', new, m.
    + rewrite Hx, Hrest. by rewrite <-Permutation_middle, Permutation_swap.
Qed.
Lemma Acc_threads ts : Acc smaller ts.
Proof.
  assert (Hone : forall p ts, Acc smaller ts -> Acc smaller (p :: ts)).
  { induction p as [a|R f k IH|t k IH|task k IHt IHk|] using thread_ind; apply Acc_thread; simpl.
    - done.
    - intros p' new (-> & r & ->) ts0 Hts. by apply IH.
    - intros p' new (-> & ->) ts0 Hts. by apply IH.
    - intros p' new (-> & ->) ts0 Hts. by apply IHk, IHt.
    - done. }
  induction ts as [|p ts IH]; [|by apply Hone].
  constructor. intros x (p & p' & new & rest & Hp & _). by apply Permutation_nil_cons in Hp.
Qed.

Lemma quiet_smaller c c' : quiet_step c c' -> smaller (threads c') (threads c).
Proof.
  intros [ts w t i p p' w' new Hi Ht]. cbn [threads].
  exists p, p', new, (delete i ts). split; [by apply delete_Permutation|]. split.
  - by destruct Ht as [R f k w0 r w0' Hf|t0 k w0 Hle|task k w0]; simpl; eauto.
  - rewrite insert_take_drop by (by eapply lookup_lt_Some). rewrite delete_take_drop.
    rewrite <-app_assoc. simpl. rewrite <-Permutation_middle, !app_assoc.
    constructor. by rewrite (Permutation_app_comm _ new), app_assoc.
Qed.
(** No execution without new work is infinite, whatever the schedule. *)
Lemma quiet_terminates c : Acc (fun c2 c1 => quiet_step c1 c2) c.
Proof.
  assert (Hwf : well_founded (fun c2 c1 : conf W => smaller (threads c2) (threads c1)))
    by (apply wf_inverse_image; intros ts; apply Acc_threads).
  induction (Hwf c) as [c _ IH]. constructor. intros c' Hs. by apply IH, quiet_smaller.
Qed.
End quiet.

(** * Nothing is stuck *)

Section live.
Context {W : Type} `{ClockedLaws W}.

(** Every thread owns a ghost state; [Free] ones hold no lock. In a [Starved]
    world a step may be blocked for want of an outside resource (random draws). *)
Context {G : Type} (Inv : W -> list G -> Prop) (Free : G -> Prop) (Starved : W -> Prop).

(** Every step keeps the invariant for some new ghost state; in a world that is
    not starved it is blocked only where another thread holds a lock, and then
    this one holds none. Sleeping and starting goroutines are done without
    locks. *)
Fixpoint live {A : Type} (p : prog W A) (g : G) (Q : A -> G -> Prop) : Prop :=
  match p with
  | Ret a => Q a g
  | Step f k =>
      forall w gs i, gs !! i = Some g -> Inv w gs ->
      (f w = None -> ~ Starved w -> Free g /\ exists j h, gs !! j = Some h /\ ~ Free h)
      /\ forall r w', f w = Some (r, w') -> exists g', Inv w' (<[i := g']> gs) /\ live (k r) g' Q
  | Await t k => Free g /\ live k g Q
  | Fork task k =>
      Free g /\ live k g Q
      /\ exists gt, (forall w gs i, gs !! i = Some g -> Inv w gs -> Inv w (gs ++ [gt]))
                    /\ live task gt (fun _ => Free)
  | Crash => False
  end.

Lemma live_weaken {A : Type} (p : prog W A) g (Q Q' : A -> G -> Prop) :
  (forall a g, Q a g -> Q' a g) -> live p g Q -> live p g Q'.
Proof.
  revert g Q Q'. induction p as [A a|A R f k IH|A t p IH|A task _ p IH|A]; intros g Q Q' HQ; simpl; eauto.
  - intros Hs w gs i Hg HI. destruct (Hs w gs i Hg HI) as [Hn Hk]. split; [done|].
    intros r w' Hf. destruct (Hk r w' Hf) as (g' & ? & ?). eauto.
  - intros [? ?]. eauto.
  - intros (? & ? & ?). eauto.
Qed.
Lemma live_bind {A B : Type} (p : prog W A) (k : A -> prog W B) g (Q : B -> G -> Prop) :
  live p g (fun a g' => live (k a) g' Q) -> live (p ≫= k) g Q.
Proof.
  unfold mbind, prog_mbind. revert k g.
  induction p as [A a|A R f k' IH|A t p IH|A task _ p IH|A]; intros k g; simpl; auto.
  - intros Hs w gs i Hg HI. destruct (Hs w gs i Hg HI) as [Hn Hk]. split; [done|].
    intros r w' Hf. destruct (Hk r w' Hf) as (g' & ? & ?). eauto.
  - intros [? ?]. eauto.
  - intros (? & ? & ?). eauto.
Qed.
(** A program whose steps are always possible and keep a relation the
    invariant is stable under, and which neither sleeps nor starts anything. *)
Fixpoint calm (R : W -> W -> Prop) {A : Type} (p : prog W A) : Prop :=
  match p with
  | Ret _ => True
  | Step f k => forall w, exists r w', f w = Some (r, w') /\ R w w' /\ calm R (k r)
  | _ => False
  end.
Lemma live_calm (R : W -> W -> Prop) {A B : Type} (p : prog W A) (k : A -> prog W B) g Q :
  (forall w w' gs, R w w' -> Inv w gs -> Inv w' gs) ->
  calm R p -> (forall a, live (k a) g Q) -> live (p ≫= k) g Q.
Proof.
  intros HR Hp Hk. apply live_bind. revert Hp Hk.
  induction p as [A a|A T f k' IH|A t p IH|A task _ p IH|A]; simpl; try done.
  intros Hp Hk w gs i Hg HI. destruct (Hp w) as (r & w' & Hf & Hw & Hc). rewrite Hf.
  split; [done|]. intros r' w'' [= <- <-]. exists g. split; [|by apply IH].
  rewrite list_insert_id by done. by eapply HR.
Qed.
Lemma calm_bind (R : W -> W -> Prop) {A B : Type} (p : prog W A) (k : A -> prog W B) :
  calm R p -> (forall a, calm R (k a)) -> calm R (p ≫= k).
Proof.
  unfold mbind, prog_mbind. intros Hp Hk. revert Hp.
  induction p as [A a|A T f k' IH|A t p IH|A task _ p IH|A]; simpl; try done.
  intros Hp w. destruct (Hp w) as (r & w' & Hf & Hw & Hc). exists r, w'. auto.
Qed.
Lemma calm_modify (R : W -> W -> Prop) f : (forall w, R w (f w)) -> calm R (modify f).
Proof. intros Hf w. exists tt, (f w). by split_and!. Qed.
Lemma calm_gets (R : W -> W -> Prop) {T} (f : W -> T) : (forall w, R w w) -> calm R (gets f).
Proof. intros Hr w. exists (f w), w. by split_and!. Qed.
Lemma calm_update (R : W -> W -> Prop) {T} (f : W -> T * W) :
  (forall w, R w (snd (f w))) -> calm R (update f).
Proof. intros Hf w. exists (fst (f w)), (snd (f w)). specialize (Hf w). destruct (f w). by split_and!. Qed.

Definition conf_live (c : conf W) : Prop :=
  exists gs, Inv (world c) gs /\ Forall2 (fun p g => live p g (fun _ => Free)) (threads c) gs.

Context (Inv_time : forall w gs t, Inv w gs -> Inv (advance t w) gs).

(** A thread that is not idle can move, or the holder of a lock can. *)
Lemma stuck_idle c :
  conf_live c -> ~ Starved (advance 0 (world c)) -> (forall c', ~ quiet_step c c') ->
  Forall (eq (Ret tt)) (threads c).
Proof.
  intros (gs & HI & HF) Hdraw Hstuck. destruct c as [ts w]. cbn [threads world] in *.
  assert (Hno : forall i p t p' w' new, ts !! i = Some p -> tstep p (advance t w) p' w' new -> False)
    by (intros i p t p' w' new Hi Ht; by eapply Hstuck, quiet_intro).
  assert (Hmove : forall i p g, ts !! i = Some p -> gs !! i = Some g -> live p g (fun _ => Free) ->
    Free g /\ (p = Ret tt \/ exists j h, gs !! j = Some h /\ ~ Free h)).
  { intros i p g Hi Hg Hp. destruct p as [[]|R f k|t k|task k|]; simpl in Hp.
    - auto.
    - destruct (Hp (advance 0 w) gs i Hg) as [Hn _]; [by apply Inv_time|].
      destruct (f (advance 0 w)) as [[r w']|] eqn:Hf; [|naive_solver].
      destruct (Hno i _ 0 (k r) w' [] Hi). by constructor.
    - destruct (Hno i _ t k (advance t w) [] Hi). constructor. rewrite clock_advance. lia.
    - destruct (Hno i _ 0 k (advance 0 w) [task] Hi). constructor.
    - done. }
  assert (Hfree : forall j h, gs !! j = Some h -> Free h).
  { intros j h Hj. destruct (Forall2_lookup_r _ _ _ _ _ HF Hj) as (p & Hp & Hl).
    by destruct (Hmove j p h Hp Hj Hl). }
  apply Forall_lookup. intros i p Hi. destruct (Forall2_lookup_l _ _ _ _ _ HF Hi) as (g & Hg & Hl).
  destruct (Hmove i p g Hi Hg Hl) as [_ [->|(j & h & Hj & Hh)]]; [done|]. by destruct Hh; eapply Hfree.
Qed.

Context (start : nat -> W -> prog W unit -> W -> Prop).
Context (Inv_start : forall j w p w' gs g,
  start j w p w' -> gs !! j = Some g -> Free g -> Inv w gs ->
  Inv w' gs /\ live p g (fun _ => Free)).

Lemma tstep_live w p p' w' new gs i g :
  tstep p w p' w' new -> gs !! i = Some g -> Inv w gs -> live p g (fun _ => Free) ->
  exists g' gt, Inv w' (<[i := g']> gs ++ gt) /\ live p' g' (fun _ => Free)
    /\ Forall2 (fun p g => live p g (fun _ => Free)) new gt.
Proof.
  intros Ht Hg HI Hp. destruct Ht as [R f k w r w' Hf|t k w Hle|task k w]; simpl in Hp.
  - destruct (Hp w gs i Hg HI) as [_ Hk]. destruct (Hk r w' Hf) as (g' & ? & ?).
    exists g', []. by rewrite app_nil_r.
  - destruct Hp. exists g, []. by rewrite app_nil_r, list_insert_id.
  - destruct Hp as (_ & Hk & gt & Hfork & Htask). exists g, [gt].
    rewrite list_insert_id by done. split; [by eapply Hfork|]. split; [done|by constructor].
Qed.
Lemma cstep_live c c' : conf_live c -> cstep start c c' -> conf_live c'.
Proof.
  intros (gs & HI & HF) Hstep. destruct Hstep as [ts w i p p' w' new Hi Ht|ts w t|ts w j p w' Hj Hs];
    cbn [threads world] in *.
  - destruct (Forall2_lookup_l _ _ _ _ _ HF Hi) as (g & Hg & Hp).
    destruct (tstep_live w p p' w' new gs i g Ht Hg HI Hp) as (g' & gt & HI' & Hp' & Hnew).
    exists (<[i := g']> gs ++ gt). split; [done|]. apply Forall2_app; [by apply Forall2_insert|done].
  - exists gs. split; [by apply Inv_time|done].
  - destruct (Forall2_lookup_l _ _ _ _ _ HF Hj) as (g & Hg & Hfree).
    destruct (Inv_start j w p w' gs g Hs Hg Hfree HI) as (HI' & Hp).
    exists gs. split; [done|]. rewrite <-(list_insert_id gs j g) by done. by apply Forall2_insert.
Qed.
Lemma reachable_live c c' : conf_live c -> rtc (cstep start) c c' -> conf_live c'.
Proof. intros Hc Hr. induction Hr as [|c c1 c' Hs Hr IH]; [done|]. apply IH. by eapply cstep_live. Qed.

End live.
