(* ===== verification/RawSender.v ===== *)
(** The raw IPv4 sender ([internal/raw_linux.go]): sends serialised by a mutex
    because the packet mark is a property of the shared socket. *)

From S2P Require Import Prelude GoTime Parser Payload Runtime.
Open Scope Z_scope.

(** * The code *)

(** System calls on the socket and whether each succeeded. *)
Inductive syscall :=
| SetMark (fd mark : Z) (ok : bool)
| Sendto (fd : Z) (packet dst : bytes) (ok : bool)
| CloseFd (fd : Z) (ok : bool).
(** The operating system: the outcome of the next call given the past ones. *)
Record kernel := {
  setsockopt_ok : list syscall -> bool;
  sendto_ok : list syscall -> bool;
  close_ok : list syscall -> bool
}.

(** [RawIPv4Sender] and the history of its socket, newest call first. *)
Record RawIPv4Sender := { fd : Z; mu : bool; calls : list syscall }.
Definition set_fd (z : Z) (s : RawIPv4Sender) : RawIPv4Sender :=
  {| fd := z; mu := mu s; calls := calls s |}.
Definition set_mu (b : bool) (s : RawIPv4Sender) : RawIPv4Sender :=
  {| fd := fd s; mu := b; calls := calls s |}.
Definition add_call (c : syscall) (s : RawIPv4Sender) : RawIPv4Sender :=
  {| fd := fd s; mu := mu s; calls := c :: calls s |}.

(** What a world that holds a sender offers. *)
Class HasSender (W : Type) := {
  sender : W -> RawIPv4Sender;
  on_sender : (RawIPv4Sender -> RawIPv4Sender) -> W -> W
}.

Inductive SendError := NotInitialized | NotCompleteIPv4 | SenderClosed | SetsockoptError | SendtoError.

(** A possibly nil [*RawIPv4Sender]. *)
Inductive sender_ptr := NilSender | SenderPtr.

Section code.
Context {W : Type} `{HasSender W}.
Context (K : kernel).

(** [s.mu.Lock()], [s.mu.Unlock()]. *)
Definition lock_sender : prog W unit :=
  try_update (fun w => if mu (sender w) then None else Some (tt, on_sender (set_mu true) w)).
Definition unlock_sender : prog W unit := modify (on_sender (set_mu false)).

Definition setsockopt_mark (d mark : Z) : prog W bool :=
  update (fun w => let ok := setsockopt_ok K (calls (sender w)) in
                   (ok, on_sender (add_call (SetMark d mark ok)) w)).
Definition sendto (d : Z) (packet dst : bytes) : prog W bool :=
  update (fun w => let ok := sendto_ok K (calls (sender w)) in
                   (ok, on_sender (add_call (Sendto d packet dst ok)) w)).
Definition close_fd (d : Z) : prog W bool :=
  update (fun w => let ok := close_ok K (calls (sender w)) in
                   (ok, on_sender (add_call (CloseFd d ok)) w)).

(** [Send]: the lock is released by a deferred call on every return. *)
Definition Send (s : sender_ptr) (packet : bytes) (mark : Z) : prog W (res SendError unit) :=
  match s with
  | NilSender => Ret (Fail NotInitialized)
  | SenderPtr =>
      if decide (len packet < ipv4MinHeaderLen) then Ret (Fail NotCompleteIPv4)
      else
        b0 ← lift (idx packet 0);
        if decide (version b0 <> 4) then Ret (Fail NotCompleteIPv4)
        else
          lock_sender;;
          d ← gets (fun w => fd (sender w));
          if decide (d < 0) then unlock_sender;; Ret (Fail SenderClosed)
          else
            ok ← setsockopt_mark d mark;
            if negb ok then unlock_sender;; Ret (Fail SetsockoptError)
            else
              dst ← lift (slice packet 16 20);
              ok ← sendto d packet dst;
              unlock_sender;;
              Ret (if (ok : bool) then Ok tt else Fail SendtoError)
  end.

(** [Close]: [Ok false] is a close error of the system. *)
Definition Close (s : sender_ptr) : prog W bool :=
  match s with
  | NilSender => Ret true
  | SenderPtr =>
      d ← gets (fun w => fd (sender w));
      if decide (d < 0) then Ret true
      else
        lock_sender;;
        d ← gets (fun w => fd (sender w));
        if decide (d < 0) then unlock_sender;; Ret true
        else
          ok ← close_fd d;
          modify (on_sender (set_fd (-1)));;
          unlock_sender;;
          Ret ok
  end.
End code.

(** [NewRawIPv4Sender]: opening the socket and its IP_HDRINCL option. *)
Definition NewRawIPv4Sender (socket_result : option Z) (hdrincl_ok : bool) : option RawIPv4Sender :=
  match socket_result with
  | None => None
  | Some d => if negb hdrincl_ok then None else Some {| fd := d; mu := false; calls := [] |}
  end.

(** * Marks of sent datagrams *)

(** The SO_MARK the socket carries: the last one set. *)
Fixpoint current_mark (l : list syscall) : Z :=
  match l with
  | SetMark _ m true :: _ => m
  | _ :: l => current_mark l
  | [] => 0
  end.
Fixpoint closed (l : list syscall) : bool :=
  match l with CloseFd _ _ :: _ => true | _ :: l => closed l | [] => false end.
(** Datagrams handed to the system, with the mark they left with. *)
Fixpoint datagrams (l : list syscall) : list (bytes * Z * bytes) :=
  match l with
  | Sendto _ p dst _ :: l => (p, current_mark l, dst) :: datagrams l
  | _ :: l => datagrams l
  | [] => []
  end.
(** No call on the socket after it was closed. *)
Fixpoint no_use_after_close (l : list syscall) : Prop :=
  match l with [] => True | _ :: l => closed l = false /\ no_use_after_close l end.

(** * The mutex discipline *)

Class HasSenderLaws (W : Type) `{HasSender W} :=
  sender_on_sender : forall f w, sender (on_sender f w) = f (sender w).

(** What a goroutine knows of the sender: nothing without the lock; with it,
    that it holds the lock, the descriptor it read, the mark it set, or that it
    has just closed the descriptor. *)
Inductive hold := Out | Locked | Opened (d : Z) | Marked (d m : Z) | Closing.

Section discipline.
(** The packets and marks [Send] is called with. *)
Context (P : bytes -> Z -> Prop).

Definition fd_ok (s : RawIPv4Sender) : Prop := closed (calls s) = true -> fd s < 0.
Definition hold_ok (h : hold) (s : RawIPv4Sender) : Prop :=
  match h with
  | Out => False
  | Locked => fd_ok s
  | Opened d => fd s = d /\ closed (calls s) = false
  | Marked d m => fd s = d /\ closed (calls s) = false /\ current_mark (calls s) = m
  | Closing => True
  end.
Definition calls_ok (l : list syscall) : Prop :=
  no_use_after_close l
  /\ forall p m dst, (p, m, dst) ∈ datagrams l -> P p m /\ dst = sub p 16 20.
Definition sender_inv (s : RawIPv4Sender) (gs : list hold) : Prop :=
  calls_ok (calls s)
  /\ if mu s
     then exists i h, gs !! i = Some h /\ hold_ok h s
            /\ forall j g, gs !! j = Some g -> j <> i -> g = Out
     else Forall (eq Out) gs /\ fd_ok s.

Lemma holder_known s gs i g :
  gs !! i = Some g -> g <> Out -> sender_inv s gs ->
  mu s = true /\ hold_ok g s /\ calls_ok (calls s)
  /\ forall j g', gs !! j = Some g' -> j <> i -> g' = Out.
Proof.
  intros Hi Hg [Hc Hm]. destruct (mu s).
  - destruct Hm as (i' & h & Hh & Hok & Hall). destruct (decide (i' = i)) as [->|Hne].
    + rewrite Hi in Hh. injection Hh as <-. done.
    + destruct Hg. by apply (Hall i g Hi).
  - destruct Hm as [HF _]. destruct Hg. symmetry. by apply (Forall_lookup_1 _ _ _ _ HF Hi).
Qed.
Lemma holder_step s s' gs i g g' :
  gs !! i = Some g -> g <> Out -> sender_inv s gs ->
  mu s' = true -> calls_ok (calls s') -> hold_ok g' s' -> sender_inv s' (<[i := g']> gs).
Proof.
  intros Hi Hg HI Hm Hc Hok. destruct (holder_known s gs i g Hi Hg HI) as (_ & _ & _ & Hall).
  split; [done|]. rewrite Hm. exists i, g'. split; [by apply list_lookup_insert_eq, lookup_lt_is_Some; eauto|].
  split; [done|]. intros j g0 Hj Hne. rewrite list_lookup_insert_ne in Hj by done. by apply (Hall j).
Qed.
Lemma holder_unlock s gs i g :
  gs !! i = Some g -> g <> Out -> sender_inv s gs -> fd_ok s ->
  sender_inv (set_mu false s) (<[i := Out]> gs).
Proof.
  intros Hi Hg HI Hfd. destruct (holder_known s gs i g Hi Hg HI) as (_ & _ & Hc & Hall).
  split; [done|]. split; [|done]. apply Forall_lookup. intros j g' Hj.
  destruct (decide (j = i)) as [->|Hne].
  - rewrite list_lookup_insert_eq in Hj by (apply lookup_lt_is_Some; eauto). by injection Hj as <-.
  - rewrite list_lookup_insert_ne in Hj by done. symmetry. by apply (Hall j).
Qed.
Lemma acquire s gs i :
  gs !! i = Some Out -> sender_inv s gs -> mu s = false ->
  sender_inv (set_mu true s) (<[i := Locked]> gs).
Proof.
  intros Hi [Hc Hm] Hmu. rewrite Hmu in Hm. destruct Hm as [HF Hfd]. split; [done|].
  exists i, Locked. split; [by apply list_lookup_insert_eq, lookup_lt_is_Some; eauto|].
  split; [done|]. intros j g Hj Hne. rewrite list_lookup_insert_ne in Hj by done.
  symmetry. by apply (Forall_lookup_1 _ _ _ _ HF Hj).
Qed.

(** A world step that leaves the sender alone keeps the invariant. *)
Lemma sender_inv_frame s gs i g : gs !! i = Some g -> sender_inv s gs -> sender_inv s (<[i := g]> gs).
Proof. intros Hi HI. by rewrite list_insert_id. Qed.
Lemma sender_inv_fork s gs : sender_inv s gs -> sender_inv s (gs ++ [Out]).
Proof.
  intros [Hc Hm]. split; [done|]. destruct (mu s).
  - destruct Hm as (i & h & Hi & Hok & Hall). exists i, h. split; [by apply lookup_app_l_Some|].
    split; [done|]. intros j g [Hj|[? Hj]]%lookup_app_Some Hne; [by apply (Hall j)|].
    by apply list_lookup_singleton_Some in Hj as [_ <-].
  - destruct Hm as [HF ?]. split; [|done]. apply Forall_app. by repeat constructor.
Qed.

Section programs.
Context {W : Type} `{HasSenderLaws W}.
Context (K : kernel).
Definition world_inv (w : W) (gs : list hold) : Prop := sender_inv (sender w) gs.

Ltac holder Hg HI :=
  let H := fresh in
  pose proof (fun Hne => holder_known _ _ _ _ Hg Hne HI) as H; specialize (H ltac:(done));
  destruct H as (? & ? & ? & _).

Lemma lock_safe Q : Q tt Locked -> safe world_inv (eq Out) lock_sender Out Q.
Proof.
  intros HQ w gs i r w' Hg HI Hf. destruct (mu (sender w)) eqn:Em; [done|]. injection Hf as <- <-.
  exists Locked. split; [|done]. unfold world_inv. rewrite sender_on_sender. by apply acquire.
Qed.
Lemma unlock_safe g Q :
  g <> Out -> (forall s, hold_ok g s -> fd_ok s) -> Q tt Out ->
  safe world_inv (eq Out) unlock_sender g Q.
Proof.
  intros Hne Hfd HQ w gs i r w' Hg HI [= <- <-]. exists Out. split; [|done].
  unfold world_inv. rewrite sender_on_sender. eapply holder_unlock; try done.
  apply Hfd. by apply (holder_known _ _ _ _ Hg Hne HI).
Qed.
Lemma fd_read_safe Q :
  (forall d, d < 0 -> Q d Locked) -> (forall d, 0 <= d -> Q d (Opened d)) ->
  safe world_inv (eq Out) (gets (fun w => fd (sender w))) Locked Q.
Proof.
  intros HQ1 HQ2 w gs i r w' Hg HI [= <- <-]. holder Hg HI.
  destruct (decide (fd (sender w) < 0)).
  - exists Locked. split; [by apply sender_inv_frame|by apply HQ1].
  - exists (Opened (fd (sender w))). split; [|apply HQ2; lia].
    apply (holder_step (sender w) _ gs i Locked); try done. split; [done|].
    destruct (closed _) eqn:E; [|done].
    match goal with H : hold_ok Locked _ |- _ => specialize (H E) end. lia.
Qed.
Lemma setsockopt_safe d m Q :
  (forall ok : bool, Q ok (if ok then Marked d m else Opened d)) ->
  safe world_inv (eq Out) (setsockopt_mark K d m) (Opened d) Q.
Proof.
  intros HQ w gs i r w' Hg HI Hf. injection Hf as <- <-. holder Hg HI.
  eexists. split; [|apply HQ]. unfold world_inv. rewrite sender_on_sender.
  match goal with H : hold_ok _ _ |- _ => destruct H as [Hd Hcl] end.
  match goal with H : calls_ok _ |- _ => destruct H as [Hu Hp] end.
  apply (holder_step (sender w) _ gs i (Opened d)); try done. by destruct (setsockopt_ok K _).
Qed.
Lemma sendto_safe d m packet dst Q :
  P packet m -> dst = sub packet 16 20 -> (forall ok, Q ok (Opened d)) ->
  safe world_inv (eq Out) (sendto K d packet dst) (Marked d m) Q.
Proof.
  intros HP Hdst HQ w gs i r w' Hg HI Hf. injection Hf as <- <-. holder Hg HI.
  exists (Opened d). split; [|apply HQ]. unfold world_inv. rewrite sender_on_sender.
  match goal with H : hold_ok _ _ |- _ => destruct H as (Hd & Hcl & Hm) end.
  match goal with H : calls_ok _ |- _ => destruct H as [Hu Hp] end.
  apply (holder_step (sender w) _ gs i (Marked d m)); try done. split; [by split|]. simpl.
  intros p m' dst' [Heq|Hin]%elem_of_cons; [|by eapply Hp]. injection Heq as -> -> ->. by subst m.
Qed.
Lemma close_safe d Q :
  (forall ok, Q ok Closing) -> safe world_inv (eq Out) (close_fd K d) (Opened d) Q.
Proof.
  intros HQ w gs i r w' Hg HI Hf. injection Hf as <- <-. holder Hg HI.
  exists Closing. split; [|apply HQ]. unfold world_inv. rewrite sender_on_sender.
  match goal with H : hold_ok _ _ |- _ => destruct H as (Hd & Hcl) end.
  match goal with H : calls_ok _ |- _ => destruct H as [Hu Hp] end.
  by apply (holder_step (sender w) _ gs i (Opened d)).
Qed.
Lemma forget_fd_safe Q :
  Q tt Locked -> safe world_inv (eq Out) (modify (on_sender (set_fd (-1)))) Closing Q.
Proof.
  intros HQ w gs i r w' Hg HI [= <- <-]. holder Hg HI. exists Locked. split; [|done].
  unfold world_inv. rewrite sender_on_sender. by apply (holder_step (sender w) _ gs i Closing).
Qed.

Lemma opened_fd_ok d s : hold_ok (Opened d) s -> fd_ok s.
Proof. unfold hold_ok, fd_ok. intros [_ ->]. done. Qed.
Lemma Send_safe ptr packet mark :
  P packet mark ->
  safe world_inv (eq Out) (Send K ptr packet mark) Out (fun _ => eq Out).
Proof.
  intros HP. destruct ptr; [done|]. unfold Send. case_decide as Hlen; [done|].
  assert (20 <= len packet) by (unfold ipv4MinHeaderLen in Hlen; lia).
  rewrite (lift_bind _ (byte_at packet 0)) by (apply idx_val; lia). case_decide; [done|].
  apply safe_bind, lock_safe, safe_bind, fd_read_safe; intros d Hd.
  - rewrite decide_True by done. by apply safe_bind, unlock_safe.
  - rewrite decide_False by lia. apply safe_bind, setsockopt_safe. intros [].
    + simpl negb. cbv iota. rewrite (lift_bind _ (sub packet 16 20)) by (apply slice_val; lia).
      apply safe_bind, sendto_safe; [done|done|]. intros ok.
      apply safe_bind, unlock_safe; [done|apply opened_fd_ok|done].
    + apply safe_bind, unlock_safe; [done|apply opened_fd_ok|done].
Qed.
Lemma Close_safe ptr : safe world_inv (eq Out) (Close K ptr) Out (fun _ => eq Out).
Proof.
  destruct ptr; [done|]. unfold Close. apply safe_bind.
  intros w gs i r w' Hg HI [= <- <-]. exists Out. split; [by apply sender_inv_frame|].
  cbn [safe]. destruct (decide (fd (sender w) < 0)) as [Hd0|Hd0]; [done|].
  apply safe_bind, lock_safe, safe_bind, fd_read_safe; intros d Hd.
  - rewrite decide_True by done. by apply safe_bind, unlock_safe.
  - rewrite decide_False by lia. apply safe_bind, close_safe. intros ok.
    apply safe_bind, forget_fd_safe, safe_bind, unlock_safe; done.
Qed.
End programs.
End discipline.

(** * A sender shared by goroutines *)

(** The sender and the clock, as the smallest world. *)
Record sender_world := { sw_sender : RawIPv4Sender; sw_now : Time }.
#[export] Instance sender_world_clocked : Clocked sender_world := {
  clock := sw_now;
  advance t w := {| sw_sender := sw_sender w; sw_now := Z.max t (sw_now w) |}
}.
#[export] Instance sender_world_laws : ClockedLaws sender_world.
Proof. by intros t w. Qed.
#[export] Instance sender_world_sender : HasSender sender_world := {
  sender := sw_sender;
  on_sender f w := {| sw_sender := f (sw_sender w); sw_now := sw_now w |}
}.
#[export] Instance sender_world_sender_laws : HasSenderLaws sender_world.
Proof. by intros f w. Qed.

(** Every goroutine may send any requested packet, or close the sender. *)
Inductive sender_start (K : kernel) (P : bytes -> Z -> Prop) :
    nat -> sender_world -> prog sender_world unit -> sender_world -> Prop :=
| start_send j w packet mark :
    P packet mark -> sender_start K P j w (Send K SenderPtr packet mark;; Ret tt) w
| start_close j w : sender_start K P j w (Close K SenderPtr;; Ret tt) w.
Definition sender_conf (n : nat) (d : Z) : conf sender_world :=
  {| threads := replicate n (Ret tt);
     world := {| sw_sender := {| fd := d; mu := false; calls := [] |}; sw_now := 1 |} |}.

(** C9: whatever the interleaving of any number of concurrent sends and closes,
    and whichever system calls fail, no send panics, every datagram leaves to
    the destination address of its own header with the mark its own [Send] was
    called with, and no system call is made on the socket after it is closed. *)
Theorem sends_keep_their_marks K (P : bytes -> Z -> Prop) n d c :
  rtc (cstep (sender_start K P)) (sender_conf n d) c ->
  Crash ∉ threads c
  /\ no_use_after_close (calls (sw_sender (world c)))
  /\ forall packet mark dst, (packet, mark, dst) ∈ datagrams (calls (sw_sender (world c))) ->
       P packet mark /\ dst = sub packet 16 20.
Proof.
  intros Hr.
  assert (Hok : conf_ok (world_inv P) (eq Out) (sender_conf n d)).
  { exists (replicate n Out). split.
    - split; [by split; [done|intros ??? ?%elem_of_nil]|]. split; [|done].
      by apply Forall_replicate.
    - by apply Forall2_replicate. }
  assert (Hstart : forall j w p w' gs g, sender_start K P j w p w' -> gs !! j = Some g -> Out = g ->
    world_inv P w gs -> exists g', world_inv P w' (<[j := g']> gs)
      /\ safe (world_inv P) (eq Out) p g' (fun _ => eq Out)).
  { intros j w p w' gs g Hs Hg <- HI. exists Out.
    destruct Hs; (split; [by apply sender_inv_frame|]); apply safe_bind.
    - eapply safe_weaken; [|by apply Send_safe]. by intros ? ? <-.
    - eapply safe_weaken; [|by apply Close_safe]. by intros ? ? <-. }
  split.
  - apply (reachable_no_crash (sender_start K P) (world_inv P) (eq Out)) with (sender_conf n d); auto.
  - apply (reachable_ok (sender_start K P) (world_inv P) (eq Out)) in Hr as (gs & [Hc _] & _); auto.
Qed.

(** Two sends with different marks, interleaved: the second waits for the lock. *)
Definition all_ok : kernel :=
  {| setsockopt_ok _ := true; sendto_ok _ := true; close_ok _ := true |}.
Definition both (packet : bytes) (mark : Z) : Prop :=
  packet = example_packet /\ (mark = 0x1000 \/ mark = 0x2000).
Definition two_sends : conf sender_world :=
  {| threads := [Send all_ok SenderPtr example_packet 0x1000;; Ret tt;
                 Send all_ok SenderPtr example_packet 0x2000;; Ret tt];
     world := world (sender_conf 2 3) |}.
Lemma two_sends_reachable :
  rtc (cstep (sender_start all_ok both)) (sender_conf 2 3) two_sends.
Proof.
  eapply rtc_l; [|eapply rtc_once].
  - apply (c_start _ [Ret tt; Ret tt] _ 0); [done|]. apply start_send. by split; [|left].
  - apply (c_start _ [_; Ret tt] _ 1); [done|]. apply start_send. by split; [|right].
Qed.
Lemma sends_keep_their_marks_witness :
  exists c, rtc (cstep (sender_start all_ok both)) (sender_conf 2 3) c
    /\ map (fun x => snd (fst x)) (datagrams (calls (sw_sender (world c)))) = [0x2000; 0x1000]
    /\ forall packet mark dst, (packet, mark, dst) ∈ datagrams (calls (sw_sender (world c))) ->
         both packet mark.
Proof.
  destruct (run_schedule [0; 0; 0; 0; 0; 1; 1; 1; 1; 1]%nat two_sends) as [c|] eqn:E;
    [|by vm_compute in E].
  assert (Hr : rtc (cstep (sender_start all_ok both)) (sender_conf 2 3) c)
    by (etransitivity; [apply two_sends_reachable|by eapply run_schedule_rtc]).
  exists c. split; [exact Hr|]. split.
  - vm_compute in E. injection E as <-. reflexivity.
  - intros packet mark dst Hin.
    exact (proj1 (proj2 (proj2 (sends_keep_their_marks all_ok both 2 3 c Hr)) packet mark dst Hin)).
Defined.
