(* ===== verification/Daemon.v ===== *)
(** The daemon's shared state ([main] in [cmd/nfqcooldown/main.go]): client
    state, counters, the concurrent maps, the pacers, the raw sender, and the
    trace of what the program does to the outside. *)

From S2P Require Import Prelude GoStrings GoTime Algorithm State Stats Window Runtime RawSender.
Open Scope Z_scope.

(** * Data *)

Record shapeFlowKey := {
  fk_ClientIP : string;
  fk_ClientPort : Z;
  fk_ServerPort : Z;
  fk_Seq : Z
}.
#[export] Instance shapeFlowKey_eq_dec : EqDecision shapeFlowKey.
Proof. solve_decision. Defined.
#[export] Instance shapeFlowKey_countable : Countable shapeFlowKey.
Proof.
  apply (inj_countable' (fun k => (fk_ClientIP k, fk_ClientPort k, fk_ServerPort k, fk_Seq k))
    (fun '(ip, cp, sp, seq) =>
       {| fk_ClientIP := ip; fk_ClientPort := cp; fk_ServerPort := sp; fk_Seq := seq |})).
  by intros [].
Defined.

(** The pacer of one address; [bp_mu] is its mutex. *)
Record burstPacerState := {
  bp_mu : bool;
  LastRelease : Time;
  LastSeen : Time;
  Pending : bool
}.
Definition burstPacerState_zero : burstPacerState :=
  {| bp_mu := false; LastRelease := 0; LastSeen := 0; Pending := false |}.
Definition set_bp_mu (b : bool) (p : burstPacerState) : burstPacerState :=
  {| bp_mu := b; LastRelease := LastRelease p; LastSeen := LastSeen p; Pending := Pending p |}.
Definition set_LastRelease (t : Time) (p : burstPacerState) : burstPacerState :=
  {| bp_mu := bp_mu p; LastRelease := t; LastSeen := LastSeen p; Pending := Pending p |}.
Definition set_LastSeen (t : Time) (p : burstPacerState) : burstPacerState :=
  {| bp_mu := bp_mu p; LastRelease := LastRelease p; LastSeen := t; Pending := Pending p |}.
Definition set_Pending (b : bool) (p : burstPacerState) : burstPacerState :=
  {| bp_mu := bp_mu p; LastRelease := LastRelease p; LastSeen := LastSeen p; Pending := b |}.

Record splitSegmentKey := {
  sk_SrcIP : bytes;
  sk_DstIP : bytes;
  sk_SrcPort : Z;
  sk_DstPort : Z;
  sk_Seq : Z;
  sk_PayloadLen : Z
}.
#[export] Instance splitSegmentKey_eq_dec : EqDecision splitSegmentKey.
Proof. solve_decision. Defined.
#[export] Instance splitSegmentKey_countable : Countable splitSegmentKey.
Proof.
  apply (inj_countable'
    (fun k => (sk_SrcIP k, sk_DstIP k, sk_SrcPort k, sk_DstPort k, sk_Seq k, sk_PayloadLen k))
    (fun '(a, b, c, d, e, f) =>
       {| sk_SrcIP := a; sk_DstIP := b; sk_SrcPort := c; sk_DstPort := d; sk_Seq := e;
          sk_PayloadLen := f |})).
  by intros [].
Defined.

(** [nfqueue.Attribute]: the fields the handler reads. *)
Record Attribute := { PacketID : option Z; Payload : option bytes; Mark : option Z }.
Inductive verdict := NfDrop | NfAccept.

(** A line of [printStats]: the figures and the last event, with the settings
    the action and mode select. *)
Inductive stats_settings :=
| ShapeSettings (burstInterval burstMaxDelay maxPendingDelays : Z)
| RandomSettings (min max maxDropsPerIP : Z)
| JitterSettings (cooldown jitter maxDropsPerIP : Z)
| FixedSettings (cooldown maxDropsPerIP : Z).
Record stats_line := {
  sl_accepted : Z;
  sl_delayed : option Z;
  sl_dropped : Z;
  sl_tracked_ips : Z;
  sl_packet : string;
  sl_settings : stats_settings;
  sl_last : LastEvent
}.

(** What the program does to the outside, and the packets it receives. *)
Inductive Event :=
| Arrived (a : Attribute)
| SetVerdict (id : Z) (v : verdict)
| SetVerdictWithMark (id : Z) (v : verdict) (mark : Z)
| SetVerdictModPacketWithConnMark (id : Z) (v : verdict) (mark : Z) (packet : bytes) (ok : bool)
| Logged (line : string)
| LoggedError (line : string)
| StatsPrinted (line : stats_line)
| CleanupPrinted (what : string) (removed ttl : Z).

(** * The world *)

Record World := {
  w_clock : Time;
  w_state : State Algorithm;
  w_rng : rng;
  w_counters : Counters;
  w_pendingDelays : Z;
  w_burstPacerByIP : gmap string nat;
  w_pacers : list burstPacerState;
  w_shapePendingFlows : gset shapeFlowKey;
  w_splitSeen : gmap splitSegmentKey Time;
  w_splitPayloadWindow : splitPayloadWindowState;
  w_rawSender : RawIPv4Sender;
  w_trace : list Event
}.

Definition with_clock f (w : World) : World :=
  {| w_clock := f (w_clock w); w_state := w_state w; w_rng := w_rng w; w_counters := w_counters w;
     w_pendingDelays := w_pendingDelays w; w_burstPacerByIP := w_burstPacerByIP w;
     w_pacers := w_pacers w; w_shapePendingFlows := w_shapePendingFlows w;
     w_splitSeen := w_splitSeen w; w_splitPayloadWindow := w_splitPayloadWindow w;
     w_rawSender := w_rawSender w; w_trace := w_trace w |}.
Definition with_state s r (w : World) : World :=
  {| w_clock := w_clock w; w_state := s; w_rng := r; w_counters := w_counters w;
     w_pendingDelays := w_pendingDelays w; w_burstPacerByIP := w_burstPacerByIP w;
     w_pacers := w_pacers w; w_shapePendingFlows := w_shapePendingFlows w;
     w_splitSeen := w_splitSeen w; w_splitPayloadWindow := w_splitPayloadWindow w;
     w_rawSender := w_rawSender w; w_trace := w_trace w |}.
Definition with_counters f (w : World) : World :=
  {| w_clock := w_clock w; w_state := w_state w; w_rng := w_rng w; w_counters := f (w_counters w);
     w_pendingDelays := w_pendingDelays w; w_burstPacerByIP := w_burstPacerByIP w;
     w_pacers := w_pacers w; w_shapePendingFlows := w_shapePendingFlows w;
     w_splitSeen := w_splitSeen w; w_splitPayloadWindow := w_splitPayloadWindow w;
     w_rawSender := w_rawSender w; w_trace := w_trace w |}.
Definition with_pendingDelays f (w : World) : World :=
  {| w_clock := w_clock w; w_state := w_state w; w_rng := w_rng w; w_counters := w_counters w;
     w_pendingDelays := f (w_pendingDelays w); w_burstPacerByIP := w_burstPacerByIP w;
     w_pacers := w_pacers w; w_shapePendingFlows := w_shapePendingFlows w;
     w_splitSeen := w_splitSeen w; w_splitPayloadWindow := w_splitPayloadWindow w;
     w_rawSender := w_rawSender w; w_trace := w_trace w |}.
Definition with_pacers m l (w : World) : World :=
  {| w_clock := w_clock w; w_state := w_state w; w_rng := w_rng w; w_counters := w_counters w;
     w_pendingDelays := w_pendingDelays w; w_burstPacerByIP := m;
     w_pacers := l; w_shapePendingFlows := w_shapePendingFlows w;
     w_splitSeen := w_splitSeen w; w_splitPayloadWindow := w_splitPayloadWindow w;
     w_rawSender := w_rawSender w; w_trace := w_trace w |}.
Definition with_flows f (w : World) : World :=
  {| w_clock := w_clock w; w_state := w_state w; w_rng := w_rng w; w_counters := w_counters w;
     w_pendingDelays := w_pendingDelays w; w_burstPacerByIP := w_burstPacerByIP w;
     w_pacers := w_pacers w; w_shapePendingFlows := f (w_shapePendingFlows w);
     w_splitSeen := w_splitSeen w; w_splitPayloadWindow := w_splitPayloadWindow w;
     w_rawSender := w_rawSender w; w_trace := w_trace w |}.
Definition with_splitSeen f (w : World) : World :=
  {| w_clock := w_clock w; w_state := w_state w; w_rng := w_rng w; w_counters := w_counters w;
     w_pendingDelays := w_pendingDelays w; w_burstPacerByIP := w_burstPacerByIP w;
     w_pacers := w_pacers w; w_shapePendingFlows := w_shapePendingFlows w;
     w_splitSeen := f (w_splitSeen w); w_splitPayloadWindow := w_splitPayloadWindow w;
     w_rawSender := w_rawSender w; w_trace := w_trace w |}.
Definition with_window s (w : World) : World :=
  {| w_clock := w_clock w; w_state := w_state w; w_rng := w_rng w; w_counters := w_counters w;
     w_pendingDelays := w_pendingDelays w; w_burstPacerByIP := w_burstPacerByIP w;
     w_pacers := w_pacers w; w_shapePendingFlows := w_shapePendingFlows w;
     w_splitSeen := w_splitSeen w; w_splitPayloadWindow := s;
     w_rawSender := w_rawSender w; w_trace := w_trace w |}.
Definition with_rawSender f (w : World) : World :=
  {| w_clock := w_clock w; w_state := w_state w; w_rng := w_rng w; w_counters := w_counters w;
     w_pendingDelays := w_pendingDelays w; w_burstPacerByIP := w_burstPacerByIP w;
     w_pacers := w_pacers w; w_shapePendingFlows := w_shapePendingFlows w;
     w_splitSeen := w_splitSeen w; w_splitPayloadWindow := w_splitPayloadWindow w;
     w_rawSender := f (w_rawSender w); w_trace := w_trace w |}.
Definition with_event e (w : World) : World :=
  {| w_clock := w_clock w; w_state := w_state w; w_rng := w_rng w; w_counters := w_counters w;
     w_pendingDelays := w_pendingDelays w; w_burstPacerByIP := w_burstPacerByIP w;
     w_pacers := w_pacers w; w_shapePendingFlows := w_shapePendingFlows w;
     w_splitSeen := w_splitSeen w; w_splitPayloadWindow := w_splitPayloadWindow w;
     w_rawSender := w_rawSender w; w_trace := e :: w_trace w |}.

#[export] Instance World_clocked : Clocked World := {
  clock := w_clock;
  advance t := with_clock (Z.max t)
}.
#[export] Instance World_clocked_laws : ClockedLaws World.
Proof. by intros t w. Qed.
#[export] Instance World_sender : HasSender World := {
  sender := w_rawSender;
  on_sender := with_rawSender
}.
#[export] Instance World_sender_laws : HasSenderLaws World.
Proof. by intros f w. Qed.

(** The world [main] starts with: nothing recorded, the sender as opened. *)
Definition initial_world (now : Time) (algorithm : Algorithm) (r : rng) (s : RawIPv4Sender) : World :=
  {| w_clock := now; w_state := NewState algorithm; w_rng := r; w_counters := Counters_zero;
     w_pendingDelays := 0; w_burstPacerByIP := ∅; w_pacers := []; w_shapePendingFlows := ∅;
     w_splitSeen := ∅; w_splitPayloadWindow := newSplitPayloadWindowState; w_rawSender := s;
     w_trace := [] |}.

(** * Operations *)

Definition emit (e : Event) : prog World unit := modify (with_event e).
Definition logVerbose (enabled : bool) (line : string) : prog World unit :=
  if enabled then emit (Logged line) else Ret tt.
Definition count (f : Counters -> Counters) : prog World unit := modify (with_counters f).
Definition state_op (f : State Algorithm -> State Algorithm) : prog World unit :=
  modify (fun w => with_state (f (w_state w)) (w_rng w) w).
(** A method of [State] that may draw random numbers; it blocks (does not
    return) where the model's fuel for rejected draws runs out. *)
Definition state_draw {R} (f : State Algorithm -> rng -> option (R * State Algorithm * rng))
    : prog World R :=
  try_update (fun w => match f (w_state w) (w_rng w) with
                       | Some (a, s, r) => Some (a, with_state s r w)
                       | None => None
                       end).

(** [atomic.LoadInt64(&pendingDelays)], [atomic.AddInt64(&pendingDelays, d)]. *)
Definition load_pendingDelays : prog World Z := gets w_pendingDelays.
Definition add_pendingDelays (d : Z) : prog World unit :=
  modify (with_pendingDelays (fun n => wrapI64 (n + d))).

(** [shapePendingFlows] and [splitSeen], by [sync.Map] operation. *)
Definition flows_Load (k : shapeFlowKey) : prog World bool :=
  gets (fun w => bool_decide (k ∈ w_shapePendingFlows w)).
Definition flows_Store (k : shapeFlowKey) : prog World unit := modify (with_flows (fun s => {[k]} ∪ s)).
Definition flows_Delete (k : shapeFlowKey) : prog World unit := modify (with_flows (fun s => s ∖ {[k]})).
Definition seen_Load (k : splitSegmentKey) : prog World (option Time) :=
  gets (fun w => w_splitSeen w !! k).
Definition seen_Store (k : splitSegmentKey) (t : Time) : prog World unit :=
  modify (with_splitSeen (fun m => <[k := t]> m)).
Definition seen_Delete (k : splitSegmentKey) : prog World unit :=
  modify (with_splitSeen (fun m => delete k m)).

(** [burstPacerByIP.LoadOrStore(ip, &burstPacerState{})]: pointers are indices
    of [w_pacers]. *)
Definition pacers_LoadOrStore (ip : string) : prog World nat :=
  update (fun w => match w_burstPacerByIP w !! ip with
                   | Some p => (p, w)
                   | None =>
                       let p := length (w_pacers w) in
                       (p, with_pacers (<[ip := p]> (w_burstPacerByIP w))
                                       (w_pacers w ++ [burstPacerState_zero]) w)
                   end).
Definition pacers_Load (ip : string) : prog World (option nat) :=
  gets (fun w => w_burstPacerByIP w !! ip).
Definition pacers_Delete (ip : string) : prog World unit :=
  modify (fun w => with_pacers (delete ip (w_burstPacerByIP w)) (w_pacers w) w).

(** The pacer a pointer refers to: its mutex and fields. *)
Definition pacer_Lock (p : nat) : prog World unit :=
  try_update (fun w => match w_pacers w !! p with
                       | Some b => if bp_mu b then None
                                   else Some (tt, with_pacers (w_burstPacerByIP w)
                                                    (<[p := set_bp_mu true b]> (w_pacers w)) w)
                       | None => None
                       end).
Definition pacer_read {R} (p : nat) (f : burstPacerState -> R) : prog World R :=
  try_update (fun w => match w_pacers w !! p with Some b => Some (f b, w) | None => None end).
Definition pacer_write (p : nat) (f : burstPacerState -> burstPacerState) : prog World unit :=
  modify (fun w => with_pacers (w_burstPacerByIP w) (alter f p (w_pacers w)) w).
Definition pacer_Unlock (p : nat) : prog World unit := pacer_write p (set_bp_mu false).

(** [splitPayloadWindow.decide(ip, now, window)]. *)
Definition window_decide (ip : bytes) (now : Time) (window : Duration) : prog World (bool * Duration) :=
  update (fun w => let '(r, s) := decide_window ip now window (w_splitPayloadWindow w) in
                   (r, with_window s w)).
