(* ===== verification/Handler.v ===== *)
(** The packet handler of [main] ([cmd/nfqcooldown/main.go]): the whole
    callback, branch by branch, and the goroutines it starts. *)

From S2P Require Import Prelude GoStrings GoNet GoTime Algorithm State Stats Whitelist Window.
From S2P Require Import Runtime RawSender Parser Payload Fake Config Daemon.
Open Scope Z_scope.

(** What surrounds the program: the outcome of the library's modifying verdict
    and the system's random bytes, given everything done so far, and the
    outcome of socket calls. *)
Record environment := {
  mod_verdict_ok : list Event -> bool;
  cryptorand_Read : list Event -> Z -> option bytes;
  os : kernel
}.

(** Rebinding of names that several components declare. *)
#[local] Abbreviation Seq := Payload.Seq.
#[local] Abbreviation PayloadLen := Payload.PayloadLen.

Section handler.
Context (cfg : Config) (whitelist : Whitelist.Whitelist) (env : environment).
(** Draws available to one cooldown. *)
Context (fuel : nat).

(** [rawSender]: opened for split actions other than the probe. *)
Definition rawSender : sender_ptr :=
  if seqb (Action cfg) "split" && negb (SplitProbe cfg) then SenderPtr else NilSender.

Definition nf_SetVerdict (id : Z) (v : verdict) : prog World unit := emit (SetVerdict id v).
Definition nf_SetVerdictModPacketWithConnMark (id : Z) (v : verdict) (mark : Z) (packet : bytes)
    : prog World bool :=
  update (fun w => let ok := mod_verdict_ok env (w_trace w) in
                   (ok, with_event (SetVerdictModPacketWithConnMark id v mark packet ok) w)).

(** [_ = nf.SetVerdict(id, NfAccept); return 0]. *)
Definition accept (id : Z) : prog World Z := nf_SetVerdict id NfAccept;; Ret 0.

Definition or_mark (mark : Z) (packetMark : option Z) : Z :=
  match packetMark with Some m => Z.lor mark m | None => mark end.
Definition dropOrReject (id : Z) (packetMark : option Z) : prog World unit :=
  if negb (RejectMarkEnabled cfg) then nf_SetVerdict id NfDrop
  else emit (SetVerdictWithMark id NfAccept (or_mark (RejectMarkValue cfg) packetMark)).

(** The skip-mark test of both halves of the handler. *)
Definition skip_marked (packetMark : option Z) : bool :=
  SkipMarkEnabled cfg
  && match packetMark with
     | Some m => Z.land m (SkipMarkMask cfg) =? Z.land (SkipMarkValue cfg) (SkipMarkMask cfg)
     | None => false
     end.

Definition plain_event (type ip : string) (id : Z) : LastEvent :=
  {| ev_Type := type; ev_IP := ip; ev_PacketID := id; ev_Cooldown := 0; ev_Elapsed := 0;
     ev_Remaining := 0 |}.
Definition remaining_event (type ip : string) (id : Z) (remaining : Duration) : LastEvent :=
  {| ev_Type := type; ev_IP := ip; ev_PacketID := id; ev_Cooldown := 0; ev_Elapsed := 0;
     ev_Remaining := remaining |}.

(** ** Payload packets *)

(** [copy(key[:], ip.To4())] into a zeroed [[4]byte]. *)
Definition key4 (ip : bytes) : bytes := take 4 (default [] (To4 ip) ++ replicate 4 Byte.x00).
Definition split_key (info : TCPPayloadInfo) : splitSegmentKey :=
  {| sk_SrcIP := key4 (SrcIP info); sk_DstIP := key4 (DstIP info); sk_SrcPort := SrcPort info;
     sk_DstPort := DstPort info; sk_Seq := Seq info; sk_PayloadLen := PayloadLen info |}.
Definition second_key (info : TCPPayloadInfo) : splitSegmentKey :=
  {| sk_SrcIP := key4 (SrcIP info); sk_DstIP := key4 (DstIP info); sk_SrcPort := SrcPort info;
     sk_DstPort := DstPort info; sk_Seq := wrapU32 (Seq info + wrapU32 (SplitAt cfg));
     sk_PayloadLen := PayloadLen info - SplitAt cfg |}.

(** [if d > 0 { time.Sleep(d) }]. *)
Definition sleep_if (d : Duration) : prog World unit := if 0 <? d then Sleep d else Ret tt.

(** The fake packet: [Some r] when the handler returns [r] there. *)
Definition send_fake (id : Z) (payload : bytes) (splitKey : splitSegmentKey) (mark : Z)
    : prog World (option Z) :=
  rand ← gets (fun w => cryptorand_Read env (w_trace w));
  cloned ← lift (cloneWithFakePayloadAndBadTCPChecksum rand payload (FakePayload cfg) (FakeLength cfg));
  match cloned with
  | Fail _ =>
      seen_Delete splitKey;;
      logVerbose (Verbose cfg) "FAKE-BAD-CHECKSUM-SKIP";;
      r ← accept id; Ret (Some r)
  | Ok (fake, _, _, _) =>
      sent ← Send (os env) rawSender fake mark;
      match (sent : res SendError unit) with
      | Fail _ =>
          seen_Delete splitKey;;
          emit (LoggedError "fake bad-checksum raw send failed");;
          r ← accept id; Ret (Some r)
      | Ok _ =>
          logVerbose (Verbose cfg) "FAKE-BAD-CHECKSUM-SENT";;
          sleep_if (FakeDelay cfg);;
          if negb (SplitReverse cfg) then
            ok ← nf_SetVerdictModPacketWithConnMark id NfAccept mark payload;
            if negb ok then
              seen_Delete splitKey;;
              emit (LoggedError "fake original verdict failed");;
              r ← accept id; Ret (Some r)
            else
              logVerbose (Verbose cfg) "FAKE-BAD-CHECKSUM-ORIGINAL";; Ret (Some 0)
          else logVerbose (Verbose cfg) "FAKE-BAD-CHECKSUM-BEFORE-REVERSE";; Ret None
      end
  end.

(** The second segment first, then the first as the verdict. *)
Definition split_reversed (id : Z) (first second : bytes) (splitKey secondKey : splitSegmentKey)
    (mark : Z) : prog World Z :=
  now ← Now;
  seen_Store secondKey now;;
  sent ← Send (os env) rawSender second mark;
  match (sent : res SendError unit) with
  | Fail _ =>
      seen_Delete splitKey;;
      seen_Delete secondKey;;
      emit (LoggedError "reverse split raw send failed");;
      accept id
  | Ok _ =>
      logVerbose (Verbose cfg) "SPLIT-REVERSE-RAW-SENT";;
      sleep_if (SplitDelay cfg);;
      ok ← nf_SetVerdictModPacketWithConnMark id NfAccept mark first;
      if negb ok then
        seen_Delete splitKey;;
        emit (LoggedError "reverse split verdict failed");;
        accept id
      else logVerbose (Verbose cfg) "SPLIT-REVERSE";; Ret 0
  end.

(** The goroutine that sends the second segment after the delay. *)
Definition send_second (second : bytes) (secondKey : splitSegmentKey) (mark : Z) : prog World unit :=
  sleep_if (SplitDelay cfg);;
  sent ← Send (os env) rawSender second mark;
  match (sent : res SendError unit) with
  | Fail _ => seen_Delete secondKey;; emit (LoggedError "split raw send failed")
  | Ok _ => logVerbose (Verbose cfg) "SPLIT-RAW-SENT"
  end.

Definition split_segments (id : Z) (payload : bytes) (info : TCPPayloadInfo)
    (splitKey : splitSegmentKey) (mark : Z) : prog World Z :=
  segments ← lift (SplitIPv4TCPPacket payload info (SplitAt cfg));
  match segments with
  | Fail _ =>
      seen_Delete splitKey;;
      logVerbose (Verbose cfg) "SPLIT-SKIP";;
      accept id
  | Ok (first, second) =>
      let secondKey := second_key info in
      if SplitReverse cfg then split_reversed id first second splitKey secondKey mark
      else
        ok ← nf_SetVerdictModPacketWithConnMark id NfAccept mark first;
        if negb ok then
          seen_Delete splitKey;;
          emit (LoggedError "split verdict failed");;
          accept id
        else if SplitProbe cfg then logVerbose (Verbose cfg) "SPLIT-PROBE";; Ret 0
        else
          now ← Now;
          seen_Store secondKey now;;
          go_stmt (send_second second secondKey mark);;
          logVerbose (Verbose cfg) "SPLIT";;
          Ret 0
  end.

(** The pass window: whether the packet passes instead of being split. *)
Definition pass_window (id : Z) (info : TCPPayloadInfo) (splitKey : splitSegmentKey)
    : prog World bool :=
  if 0 <? PassWindow cfg then
    now ← Now;
    '(shouldSplit, _) ← window_decide (key4 (DstIP info)) now (PassWindow cfg);
    if negb shouldSplit then
      now ← Now;
      seen_Store splitKey now;;
      logVerbose (Verbose cfg) "SPLIT-PASS-WINDOW";;
      nf_SetVerdict id NfAccept;;
      Ret true
    else logVerbose (Verbose cfg) "SPLIT-ACTIVE-WINDOW";; Ret false
  else Ret false.

Definition payload_handler (id : Z) (payload : bytes) (packetMark : option Z) : prog World Z :=
  parsed ← lift (ParseIPv4TCPPayload payload);
  match parsed with
  | None => accept id
  | Some info =>
      if skip_marked packetMark then accept id
      else
        let splitKey := split_key info in
        alreadySplit ← seen_Load splitKey;
        match alreadySplit with
        | Some _ => logVerbose (Verbose cfg) "SPLIT-RETRANSMIT-PASS";; accept id
        | None =>
            passed ← pass_window id info splitKey;
            if (passed : bool) then Ret 0
            else
              now ← Now;
              seen_Store splitKey now;;
              let mark := or_mark (SplitMarkValue cfg) packetMark in
              returned ← (if FakeBadChecksum cfg then send_fake id payload splitKey mark
                          else Ret None);
              match returned with
              | Some r => Ret r
              | None => split_segments id payload info splitKey mark
              end
        end
  end.

(** ** SYN packets in shape mode *)

Definition flow_key (info : PacketInfo) : shapeFlowKey :=
  {| fk_ClientIP := ClientIP info; fk_ClientPort := ClientPort info;
     fk_ServerPort := ServerPort info; fk_Seq := Parser.Seq info |}.

(** The goroutine that releases a delayed packet. *)
Definition release (packetID : Z) (ip : string) (key : shapeFlowKey) (delay : Duration)
    (pacer : nat) : prog World unit :=
  Sleep delay;;
  pacer_Lock pacer;;
  releasedAt ← Now;
  pacer_write pacer (set_LastRelease releasedAt);;
  pacer_write pacer (set_LastSeen releasedAt);;
  pacer_write pacer (set_Pending false);;
  pacer_Unlock pacer;;
  flows_Delete key;;
  count IncAccepted;;
  logVerbose (Verbose cfg) "SHAPE-RELEASE";;
  nf_SetVerdict packetID NfAccept;;
  (* deferred *)
  add_pendingDelays (-1).

(** A packet dropped by the shaper. *)
Definition shape_drop (id : Z) (packetMark : option Z) (ev : option LastEvent) (line : string)
    : prog World Z :=
  count IncDelayOverflowDropped;;
  match ev with Some ev => state_op (RememberEvent ev) | None => Ret tt end;;
  logVerbose (Verbose cfg) line;;
  dropOrReject id packetMark;;
  Ret 0.

(** The packet is delayed: the pacer is locked on entry. *)
Definition shape_delay (id : Z) (srcIP : string) (flowKey : shapeFlowKey) (actualDelay : Duration)
    (pacer : nat) : prog World Z :=
  pacer_write pacer (set_Pending true);;
  pacer_Unlock pacer;;
  flows_Store flowKey;;
  count IncDelayed;;
  add_pendingDelays 1;;
  state_op (RememberEvent (remaining_event "SHAPE-DELAY" srcIP id actualDelay));;
  logVerbose (Verbose cfg) "SHAPE-DELAY";;
  go_stmt (release id srcIP flowKey actualDelay pacer);;
  Ret 0.

(** The decision when the interval has not passed; the pacer is locked. *)
Definition shape_wait (id : Z) (srcIP : string) (flowKey : shapeFlowKey) (packetMark : option Z)
    (now lastRelease : Time) (pacer : nat) : prog World Z :=
  let actualDelay := wrapI64 (BurstInterval cfg - time_Sub now lastRelease) in
  let actualDelay := if actualDelay <? 0 then 0 else actualDelay in
  if (0 <? BurstMaxDelay cfg) && (BurstMaxDelay cfg <? actualDelay) then
    pacer_Unlock pacer;;
    shape_drop id packetMark (Some (remaining_event "SHAPE-OVERFLOW-DROP" srcIP id actualDelay))
      "SHAPE-OVERFLOW-DROP"
  else
    pending ← pacer_read pacer Pending;
    if (pending : bool) then
      pacer_Unlock pacer;;
      shape_drop id packetMark (Some (remaining_event "SHAPE-IP-PENDING-DROP" srcIP id actualDelay))
        "SHAPE-IP-PENDING-DROP"
    else
      full ← (if 0 <? MaxPendingDelays cfg
              then n ← load_pendingDelays; Ret (MaxPendingDelays cfg <=? n)
              else Ret false);
      if (full : bool) then
        pacer_Unlock pacer;;
        shape_drop id packetMark None "SHAPE-PENDING-DROP"
      else shape_delay id srcIP flowKey actualDelay pacer.

Definition shape_handler (id : Z) (synInfo : PacketInfo) (srcIP : string) (packetMark : option Z)
    (now : Time) : prog World Z :=
  let flowKey := flow_key synInfo in
  pending ← flows_Load flowKey;
  if (pending : bool) then
    shape_drop id packetMark (Some (plain_event "SHAPE-FLOW-PENDING-DROP" srcIP id))
      "SHAPE-FLOW-PENDING-DROP"
  else
    pacer ← pacers_LoadOrStore srcIP;
    pacer_Lock pacer;;
    pacer_write pacer (set_LastSeen now);;
    lastRelease ← pacer_read pacer LastRelease;
    if IsZero lastRelease || (BurstInterval cfg <=? time_Sub now lastRelease) then
      pacer_write pacer (set_LastRelease now);;
      pacer_write pacer (set_LastSeen now);;
      pacer_write pacer (set_Pending false);;
      pacer_Unlock pacer;;
      count IncAccepted;;
      state_op (RememberEvent (plain_event "SHAPE-ACCEPT" srcIP id));;
      logVerbose (Verbose cfg) "SHAPE-ACCEPT";;
      accept id
    else shape_wait id srcIP flowKey packetMark now lastRelease pacer.

(** ** SYN and SYN/ACK packets in drop mode *)

Definition drop_handler (id : Z) (srcIP : string) (packetMark : option Z) (now : Time)
    : prog World Z :=
  d ← state_draw (fun s r => Decide fuel srcIP now id s r);
  if allowed d then
    count IncAccepted;;
    logVerbose (Verbose cfg) "ACCEPT";;
    accept id
  else
    dropCount ← update (fun w => let '(n, s) := IncDrop srcIP (w_state w) in
                                 (n, with_state s (w_rng w) w));
    if (0 <? MaxDropsPerIP cfg) && (MaxDropsPerIP cfg <? dropCount) then
      forcedAt ← Now;
      state_draw (fun s r => match ForceAccept fuel srcIP forcedAt id s r with
                             | Some (cd, _, s, r) => Some (cd, s, r)
                             | None => None
                             end);;
      count IncAccepted;;
      logVerbose (Verbose cfg) "FORCE-ACCEPT";;
      accept id
    else
      count IncDropped;;
      state_op (RememberEvent {| ev_Type := "DROP"; ev_IP := srcIP; ev_PacketID := id;
                                 ev_Cooldown := dec_cooldown d; ev_Elapsed := elapsed d;
                                 ev_Remaining := remaining d |});;
      (if ForgetOnDrop cfg then state_op (Forget srcIP) else Ret tt);;
      logVerbose (Verbose cfg) "DROP";;
      dropOrReject id packetMark;;
      Ret 0.

(** ** The callback *)

(** [synInfo], [srcIP], [matched] after the [switch]. *)
Definition match_packet (payload : bytes) : go (option (PacketInfo * string)) :=
  if seqb (PacketKind cfg) "syn" then
    info ← ParseIPv4PureTCPSYNInfo payload;
    mret (option_map (fun i => (i, ClientIP i)) info)
  else if seqb (PacketKind cfg) "synack" then
    info ← ParseIPv4TCPSYNACK payload;
    mret (option_map (fun i => (PacketInfo_zero, ClientIP i)) info)
  else mret None.

(** An accepted packet that touches neither cooldowns nor pacers. *)
Definition pass_through (id : Z) (srcIP type : string) : prog World Z :=
  state_op (RememberEvent (plain_event type srcIP id));;
  count IncAccepted;;
  logVerbose (Verbose cfg) type;;
  accept id.

Definition syn_handler (id : Z) (payload : bytes) (packetMark : option Z) : prog World Z :=
  matched ← lift (match_packet payload);
  match matched with
  | None => accept id
  | Some (synInfo, srcIP) =>
      if skip_marked packetMark then pass_through id srcIP "ACCEPT-SKIP-MARK"
      else if Contains whitelist srcIP then pass_through id srcIP "ACCEPT-WHITELIST"
      else
        now ← Now;
        if seqb (Action cfg) "shape" then shape_handler id synInfo srcIP packetMark now
        else drop_handler id srcIP packetMark now
  end.

Definition handler (a : Attribute) : prog World Z :=
  match PacketID a with
  | None => Ret 0
  | Some id =>
      match Daemon.Payload a with
      | None => accept id
      | Some payload =>
          if seqb (PacketKind cfg) "payload" then payload_handler id payload (Mark a)
          else syn_handler id payload (Mark a)
      end
  end.
End handler.
