(* ===== verification/Loops.v ===== *)
(** The periodic loops of [cmd/nfqcooldown/main.go], the statistics line, and
    the whole daemon: its goroutines and what may start them. *)

From S2P Require Import Prelude GoStrings GoTime Algorithm State Stats Window Whitelist Runtime.
From S2P Require Import RawSender Config Daemon Handler.
Open Scope Z_scope.

(** * Statistics *)

(** [printStats]: nothing is printed for the split action. *)
Definition printStats (cfg : Config) (tracked accepted delayed dropped : Z) (ev : LastEvent)
    : prog World unit :=
  if seqb (Action cfg) "shape" then
    emit (StatsPrinted {| sl_accepted := accepted; sl_delayed := Some delayed;
      sl_dropped := dropped; sl_tracked_ips := tracked; sl_packet := PacketKind cfg;
      sl_settings := ShapeSettings (BurstInterval cfg) (BurstMaxDelay cfg) (MaxPendingDelays cfg);
      sl_last := ev |})
  else if seqb (Action cfg) "drop" then
    emit (StatsPrinted {| sl_accepted := accepted; sl_delayed := None;
      sl_dropped := dropped; sl_tracked_ips := tracked; sl_packet := PacketKind cfg;
      sl_settings :=
        if seqb (Mode cfg) "random"
        then RandomSettings (MinDelay cfg) (MaxDelay cfg) (MaxDropsPerIP cfg)
        else if seqb (Mode cfg) "jitter"
        then JitterSettings (Config.Cooldown cfg) (Config.Jitter cfg) (MaxDropsPerIP cfg)
        else FixedSettings (Config.Cooldown cfg) (MaxDropsPerIP cfg);
      sl_last := ev |})
  else Ret tt.

(** One tick of [statsLoop]. *)
Definition stats_tick (cfg : Config) : prog World unit :=
  if Verbose cfg then Ret tt
  else
    '(tracked, ev) ← gets (fun w => Snapshot (w_state w));
    accepted ← gets (fun w => Accepted (w_counters w));
    delayed ← gets (fun w => Delayed (w_counters w));
    dropped ← gets (fun w => Dropped (w_counters w));
    _ ← gets (fun w => Rejected (w_counters w));
    printStats cfg tracked accepted delayed dropped ev.

(** * Cleanup *)

Definition print_removed (what : string) (removed ttl : Z) : prog World unit :=
  if 0 <? removed then emit (CleanupPrinted what removed ttl) else Ret tt.

(** One tick of [cleanupLoop]; [order] is the order of the map's iteration. *)
Definition cleanup_tick (cfg : Config) (order : list string) : prog World unit :=
  now ← Now;
  removed ← update (fun w => let '(n, s) := Cleanup order now (CleanupAfter cfg) (w_state w) in
                             (n, with_state s (w_rng w) w));
  print_removed "cleanup" removed (CleanupAfter cfg).

(** One tick of [splitPayloadWindowCleanupLoop], with the tick's time. *)
Definition window_tick (cfg : Config) (now : Time) (order : list bytes) : prog World unit :=
  removed ← update (fun w =>
    let '(n, s) := cleanup_window order now (PassWindow cfg) (w_splitPayloadWindow w) in
    (n, with_window s w));
  print_removed "split payload-window cleanup" removed (PassWindow cfg).

(** One tick of [splitSeenCleanupLoop]: [Range] visits keys in some order and
    calls the function on those present; other goroutines run in between. *)
Fixpoint split_seen_range (now : Time) (ttl : Duration) (order : list splitSegmentKey) (removed : Z)
    : prog World Z :=
  match order with
  | [] => Ret removed
  | key :: order =>
      value ← seen_Load key;
      match value with
      | None => split_seen_range now ttl order removed
      | Some seenAt =>
          if ttl <? time_Sub now seenAt
          then seen_Delete key;; split_seen_range now ttl order (removed + 1)
          else split_seen_range now ttl order removed
      end
  end.
Definition split_seen_tick (cfg : Config) (now : Time) (order : list splitSegmentKey)
    : prog World unit :=
  removed ← split_seen_range now (SplitSeenTTL cfg) order 0;
  print_removed "split cleanup" removed (SplitSeenTTL cfg).

(** One tick of [shapeCleanupLoop]. *)
Fixpoint shape_range (now : Time) (ttl : Duration) (order : list string) (removed : Z)
    : prog World Z :=
  match order with
  | [] => Ret removed
  | key :: order =>
      value ← pacers_Load key;
      match value with
      | None => shape_range now ttl order removed
      | Some pacer =>
          pacer_Lock pacer;;
          stale ← pacer_read pacer (fun b => negb (Pending b) && negb (IsZero (LastSeen b))
                                            && (ttl <? time_Sub now (LastSeen b)));
          pacer_Unlock pacer;;
          if (stale : bool)
          then pacers_Delete key;; shape_range now ttl order (removed + 1)
          else shape_range now ttl order removed
      end
  end.
Definition shape_tick (cfg : Config) (now : Time) (order : list string) : prog World unit :=
  removed ← shape_range now (CleanupAfter cfg) order 0;
  print_removed "shape cleanup" removed (CleanupAfter cfg).

(** * The daemon *)

(** [time.NewTicker(d)] panics for a non-positive interval. *)
Definition NewTicker (every : Duration) : go unit := if every <=? 0 then Panic else Val tt.
Definition loop_start (every : Duration) : prog World unit := lift (NewTicker every).

Section daemon.
Context (cfg : Config) (whitelist : Whitelist.Whitelist) (env : environment) (fuel : nat).

(** The goroutines of [main]: the handler's, idle until a packet comes, and
    the loops, each creating its ticker first. The window loop exists only
    with a pass window. *)
Definition daemon_threads : list (prog World unit) :=
  [ Ret tt;
    loop_start (CleanupEvery cfg);
    loop_start (CleanupEvery cfg);
    loop_start (CleanupEvery cfg);
    if 0 <? PassWindow cfg then loop_start (CleanupEvery cfg) else Ret tt;
    loop_start (StatsEvery cfg) ].

(** The next packet for the handler, the next tick of a loop. A tick's time
    is not after the present. *)
Inductive daemon_start : nat -> World -> prog World unit -> World -> Prop :=
| packet_arrives w a :
    daemon_start 0 w (handler cfg whitelist env fuel a;; Ret tt) (with_event (Arrived a) w)
| cleanup_ticks w order : daemon_start 1 w (cleanup_tick cfg order) w
| shape_ticks w now order : now <= w_clock w -> daemon_start 2 w (shape_tick cfg now order) w
| split_seen_ticks w now order :
    now <= w_clock w -> daemon_start 3 w (split_seen_tick cfg now order) w
| window_ticks w now order :
    0 < PassWindow cfg -> now <= w_clock w -> daemon_start 4 w (window_tick cfg now order) w
| stats_ticks w : daemon_start 5 w (stats_tick cfg) w.

Definition daemon_step : conf World -> conf World -> Prop := cstep daemon_start.
Definition daemon_conf (w : World) : conf World := {| threads := daemon_threads; world := w |}.

(** ** Executions *)

(** An execution as a list of actions: a thread runs until it blocks or ends
    (at most a number of steps), time passes, a packet arrives, the ticker of
    [shapeCleanupLoop] fires. *)
Inductive action :=
| Drive (thread steps : nat)
| Clock (t : Time)
| Deliver (a : Attribute)
| ShapeTick (order : list string).

Fixpoint drive (i steps : nat) (c : conf World) : conf World :=
  match steps with
  | O => c
  | S steps => match exec_thread i c with Some c' => drive i steps c' | None => c end
  end.
Definition perform (act : action) (c : conf World) : option (conf World) :=
  match act with
  | Drive i steps => Some (drive i steps c)
  | Clock t => Some {| threads := threads c; world := advance t (world c) |}
  | Deliver a =>
      match threads c !! 0%nat with
      | Some (Ret _) =>
          Some {| threads := <[0%nat := handler cfg whitelist env fuel a;; Ret tt]> (threads c);
                  world := with_event (Arrived a) (world c) |}
      | _ => None
      end
  | ShapeTick order =>
      match threads c !! 2%nat with
      | Some (Ret _) =>
          Some {| threads := <[2%nat := shape_tick cfg (w_clock (world c)) order]> (threads c);
                  world := world c |}
      | _ => None
      end
  end.
Fixpoint execute (acts : list action) (c : conf World) : option (conf World) :=
  match acts with
  | [] => Some c
  | act :: acts => match perform act c with Some c => execute acts c | None => None end
  end.

Lemma drive_rtc i steps c : rtc daemon_step c (drive i steps c).
Proof.
  revert c. induction steps as [|n IH]; intros c; cbn [drive]; [done|].
  destruct (exec_thread i c) as [c'|] eqn:E; [|done].
  eapply rtc_l; [by eapply exec_thread_cstep|apply IH].
Qed.
Lemma execute_rtc acts c c' : execute acts c = Some c' -> rtc daemon_step c c'.
Proof.
  revert c. induction acts as [|act acts IH]; intros c; cbn [execute]; [by intros [= ->]|].
  destruct (perform act c) as [c1|] eqn:E; [|done]. intros Hr.
  transitivity c1; [|by apply IH]. destruct c as [ts w].
  destruct act as [i n|t|a|order]; unfold perform in E; cbn [threads world] in E.
  - injection E as <-. apply drive_rtc.
  - injection E as <-. apply rtc_once.
    change (with_clock (Z.max t) w) with (advance t w). apply c_time.
  - destruct (ts !! 0%nat) as [[[]| | | |]|] eqn:E0; try done. injection E as <-.
    apply rtc_once. eapply c_start; [done|]. constructor.
  - destruct (ts !! 2%nat) as [[[]| | | |]|] eqn:E2; try done. injection E as <-.
    apply rtc_once. eapply c_start; [done|]. by constructor.
Qed.
End daemon.
