(* ===== verification/Scenarios.v ===== *)
(** Concrete configurations, packets and executions, on which the theorems
    about the daemon are instantiated. *)

From S2P Require Import Prelude GoStrings GoNet GoTime Algorithm State Stats Window Whitelist.
From S2P Require Import Runtime RawSender Parser Payload Fake Config Daemon Handler Loops.
Open Scope Z_scope.

(** Flags of an action, the rest at their defaults unless given. *)
Definition scenario_flags (action packet : string) (verbose forget : bool)
    (maxDrops maxPending : Z) (reject passWindow : string) : Flags := {|
  fl_queue := 443; fl_action := action; fl_mode := "fixed"; fl_cooldown := "500ms";
  fl_min_delay := "300ms"; fl_max_delay := "700ms"; fl_jitter := "100ms";
  fl_whitelist := "198.51.100.0/24";
  fl_verbose := verbose; fl_seed := 0; fl_stats_every := "30s"; fl_cleanup_after := "10m";
  fl_cleanup_every := "30s"; fl_forget_on_drop := forget; fl_max_drops_per_ip := maxDrops;
  fl_packet := packet; fl_max_pending_delays := maxPending; fl_burst_interval := "100ms";
  fl_burst_max_delay := "1s"; fl_skip_mark := "0x400/0x400"; fl_reject_mark := reject;
  fl_split_at := 2; fl_split_mark := "0x1000"; fl_split_delay := "1ms"; fl_split_seen_ttl := "1m";
  fl_split_probe := false; fl_split_reverse := false; fl_fake_bad_checksum := false;
  fl_fake_payload := "tls-invalid-length"; fl_fake_length := 0; fl_fake_delay := "5ms";
  fl_pass_window := passWindow
|}.
Definition config_of (fl : Flags) (d : Config) : Config :=
  match parseConfig fl with Ok c => c | Fail _ => d end.
Lemma default_accepted : exists c, parseConfig default_flags = Ok c.
Proof. destruct (parseConfig default_flags) as [c|e] eqn:E; [by exists c|by vm_compute in E]. Qed.
Definition default_config : Config := Eval vm_compute in
  match parseConfig default_flags as r
        return match r with Ok _ => Config | Fail _ => unit end with
  | Ok c => c
  | Fail _ => tt
  end.
Definition shape_config : Config := Eval vm_compute in
  config_of (scenario_flags "shape" "syn" false false 0 2 "0x800" "0") default_config.
Definition drop_config : Config := Eval vm_compute in
  config_of (scenario_flags "drop" "syn" false false 2 0 "0x800" "0") default_config.
Definition forget_config : Config := Eval vm_compute in
  config_of (scenario_flags "drop" "syn" false true 2 0 "" "0") default_config.
Definition split_config : Config := Eval vm_compute in
  config_of (scenario_flags "split" "payload" false false 0 0 "" "0") default_config.
Definition window_config : Config := Eval vm_compute in
  config_of (scenario_flags "split" "payload" false false 0 0 "" "1s") default_config.

Lemma scenario_configs :
  map (fun c => Action c) [shape_config; drop_config; forget_config; split_config; window_config]
  = ["shape"; "drop"; "drop"; "split"; "split"]%string.
Proof. reflexivity. Qed.

(** A SYN from 192.0.2.[host], client port [port], to port 443. *)
Definition syn_packet (host port : Z) : bytes := map to_byte
  ([0x45; 0; 0; 40; 0; 1; 0x40; 0; 64; 6; 0; 0; 192; 0; 2; host; 203; 0; 113; 5]
   ++ [Z.shiftr port 8; port; 1; 0xbb; 0; 0; 0; 7; 0; 0; 0; 0; 0x50; 0x02; 0xff; 0xff; 0; 0; 0; 0]).
Definition syn (id host port : Z) : Attribute :=
  {| PacketID := Some id; Payload := Some (syn_packet host port); Mark := None |}.
Definition payload_attr (id : Z) : Attribute :=
  {| PacketID := Some id; Payload := Some example_packet; Mark := Some 0x2 |}.

Definition scenario_env : environment :=
  {| mod_verdict_ok _ := true; cryptorand_Read _ n := Some (replicate (Z.to_nat n) Byte.x00);
     os := all_ok |}.
Definition scenario_whitelist : Whitelist.Whitelist :=
  match NewWhitelist "198.51.100.0/24" with Ok w => w | Fail _ => {| nets := [] |} end.
Definition scenario_world : World :=
  initial_world (1000 * ms) fixed500 no_draws {| fd := 3; mu := false; calls := [] |}.

(** Three SYNs of one client in the shaper: the first passes, the second is
    delayed, the third is dropped because the second is pending. *)
Definition shaped_actions : list action :=
  [Drive 1 1; Drive 2 1; Drive 3 1; Drive 5 1; Deliver (syn 1 1 5001); Drive 0 100;
   Deliver (syn 2 1 5002); Drive 0 100; Deliver (syn 3 1 5003); Drive 0 100].
Definition shaped : option (conf World) :=
  execute shape_config scenario_whitelist scenario_env 1 shaped_actions
    (daemon_conf shape_config scenario_world).

(** The same, until the delayed packet has been released. *)
Definition released : option (conf World) :=
  match shaped with
  | Some c => execute shape_config scenario_whitelist scenario_env 1
                [Drive 6 100; Clock (1200 * ms); Drive 6 100] c
  | None => None
  end.
Lemma shaped_reachable c :
  shaped = Some c ->
  rtc (daemon_step shape_config scenario_whitelist scenario_env 1)
      (daemon_conf shape_config scenario_world) c.
Proof. apply execute_rtc. Qed.
Lemma released_reachable c :
  released = Some c ->
  rtc (daemon_step shape_config scenario_whitelist scenario_env 1)
      (daemon_conf shape_config scenario_world) c.
Proof.
  unfold released. destruct shaped as [c1|] eqn:E; [|done]. intros H.
  etransitivity; [by apply shaped_reachable|by eapply execute_rtc].
Qed.

Definition idle (p : prog World unit) : bool := match p with Ret _ => true | _ => false end.
Lemma all_idle (ts : list (prog World unit)) :
  forallb idle ts = true -> Forall (eq (Ret tt)) ts.
Proof.
  induction ts as [|p ts IH]; [by constructor|]. simpl. intros [Hp Hts]%andb_prop.
  constructor; [|by apply IH]. by destruct p as [[]| | | |].
Qed.
