(* ===== verification/Safety.v ===== *)
(** What no step of the daemon does: panic, or count a drop in shape mode. *)

From S2P Require Import Prelude GoStrings GoNet GoTime Algorithm State Stats Window Whitelist.
From S2P Require Import Runtime RawSender Parser Payload Fake Config Daemon Handler Loops Scenarios.
Open Scope Z_scope.

(** * Relations on the counters *)

Lemma Send_keeps {W} `{HasSender W} (R : W -> W -> Prop) K ptr packet mark :
  (forall w, R w w) -> (forall f w, R w (on_sender f w)) -> keeps R (Send K ptr packet mark).
Proof.
  intros Hr Hs. destruct ptr; [done|]. unfold Send. case_decide as Hlen; [done|].
  assert (20 <= len packet) by (unfold ipv4MinHeaderLen in Hlen; lia).
  rewrite (lift_bind _ (byte_at packet 0)) by (apply idx_val; lia). case_decide; [done|].
  assert (Hunlock : forall r : res SendError unit, keeps R (unlock_sender;; Ret r))
    by (intros r; apply keeps_bind; [by apply keeps_modify|done]).
  apply keeps_bind; [apply keeps_try; intros w r w'; case_match; intros [= <- <-]; done|].
  intros _. apply keeps_bind; [by apply keeps_gets|]. intros d. case_decide; [apply Hunlock|].
  apply keeps_bind; [apply keeps_update; intros w; apply Hs|]. intros [|]; [|apply Hunlock]. simpl negb. cbv iota.
  rewrite (lift_bind _ (sub packet 16 20)) by (apply slice_val; lia).
  apply keeps_bind; [apply keeps_update; intros w; apply Hs|]. intros ok. apply Hunlock.
Qed.

Section counters.
Context (R : World -> World -> Prop).
(** [R] looks at the counters only, and allows these increments. *)
Context (R_frame : forall w w', w_counters w' = w_counters w -> R w w').
Context (R_accepted : forall w, R w (with_counters IncAccepted w)).
Context (R_delayed : forall w, R w (with_counters IncDelayed w)).
Context (R_overflow : forall w, R w (with_counters IncDelayOverflowDropped w)).
Context (cfg : Config) (whitelist : Whitelist.Whitelist) (env : environment) (fuel : nat).

Ltac leaf :=
  match goal with
  | |- True => exact I
  | |- keeps _ (Ret _) => exact I
  | |- keeps _ (modify _) => apply keeps_modify; intros; first [by apply R_frame | auto]
  | |- keeps _ (gets _) => apply keeps_gets; intros; by apply R_frame
  | |- keeps _ (update _) =>
      apply keeps_update; intros; apply R_frame; repeat case_match; by simplify_eq
  | |- keeps _ (try_update _) =>
      apply keeps_try; intros; repeat case_match; simplify_eq; by apply R_frame
  | |- keeps _ (Send _ _ _ _) => apply Send_keeps; intros; by apply R_frame
  end.
Ltac keep :=
  repeat first
    [ leaf
    | progress unfold accept, shape_drop, pass_through, nf_SetVerdict, emit, logVerbose, count,
        state_op, seen_Delete, seen_Store, seen_Load, flows_Load, flows_Store, flows_Delete,
        dropOrReject, sleep_if, Sleep, Now, pacer_Lock, pacer_Unlock, pacer_read, pacer_write,
        pacers_LoadOrStore, pacers_Load, pacers_Delete, load_pendingDelays, add_pendingDelays,
        nf_SetVerdictModPacketWithConnMark, state_draw, window_decide, print_removed
    | apply keeps_bind; [|intros ?]
    | case_match
    | progress cbn [keeps] ].

Lemma send_fake_keeps id payload key mark : keeps R (send_fake cfg env id payload key mark).
Proof.
  unfold send_fake. apply keeps_bind; [keep|]. intros rand. apply keeps_bind; [|intros; keep].
  apply keeps_lift. by destruct (clone_total rand payload (FakePayload cfg) (FakeLength cfg)) as [r ->].
Qed.
Lemma send_second_keeps second key mark : keeps R (send_second cfg env second key mark).
Proof. unfold send_second. keep. Qed.
Lemma split_segments_keeps id payload info key mark :
  ParseIPv4TCPPayload payload = Val (Some info) ->
  keeps R (split_segments cfg env id payload info key mark).
Proof.
  intros Hp. unfold split_segments. apply keeps_bind; [by apply keeps_lift, split_total|].
  intros [[first second]|e]; [|keep]. unfold split_reversed. case_match; [keep|].
  apply keeps_bind; [keep|]. intros ok. case_match; [keep|]. case_match; [keep|].
  do 2 (apply keeps_bind; [keep|]; intros ?). apply keeps_bind; [apply keeps_go, send_second_keeps|].
  intros _. keep.
Qed.
Lemma payload_handler_keeps id payload packetMark :
  keeps R (payload_handler cfg env id payload packetMark).
Proof.
  unfold payload_handler. rewrite ParsePayload_closed.
  rewrite (lift_bind _ (if decide (payload_packet payload) then Some (payload_info payload) else None))
    by done.
  case_decide as Hp; [|keep]. case_match; [keep|]. apply keeps_bind; [keep|].
  intros seen. case_match; [keep|]. unfold pass_window. apply keeps_bind; [keep|].
  intros passed. case_match; [done|]. do 2 (apply keeps_bind; [keep|]; intros ?).
  apply keeps_bind; [case_match; [apply send_fake_keeps|done]|]. intros [r|]; [done|].
  apply split_segments_keeps. by apply ParsePayload_ok.
Qed.

Lemma release_keeps id ip key delay pacer : keeps R (release cfg id ip key delay pacer).
Proof. unfold release. keep. Qed.
Lemma shape_handler_keeps id info ip packetMark now :
  keeps R (shape_handler cfg id info ip packetMark now).
Proof.
  unfold shape_handler, shape_wait, shape_delay, go_stmt.
  keep; (split; [apply release_keeps|done]).
Qed.

(** The drop half of the handler also counts drops. *)
Context (R_dropped : Action cfg <> "shape"%string -> forall w, R w (with_counters IncDropped w)).
Lemma drop_handler_keeps id ip packetMark now :
  Action cfg <> "shape"%string -> keeps R (drop_handler cfg fuel id ip packetMark now).
Proof. intros Hs. specialize (R_dropped Hs). unfold drop_handler. keep. Qed.

Lemma match_packet_total payload : match_packet cfg payload <> Panic.
Proof.
  unfold match_packet. rewrite ParseSYN_closed, ParseSYNACK_closed. by repeat case_match.
Qed.
Lemma handler_keeps a : keeps R (handler cfg whitelist env fuel a).
Proof.
  unfold handler. destruct (PacketID a) as [id|]; [|done]. destruct (Daemon.Payload a) as [payload|]; [|keep].
  destruct (seqb (PacketKind cfg) "payload"); [apply payload_handler_keeps|].
  unfold syn_handler. apply keeps_bind; [apply keeps_lift, match_packet_total|].
  intros [[info ip]|]; [|keep]. case_match; [keep|]. case_match; [keep|].
  apply keeps_bind; [keep|]. intros now. unfold seqb. case_bool_decide.
  - apply shape_handler_keeps.
  - by apply drop_handler_keeps.
Qed.

Lemma split_seen_range_keeps now ttl order n : keeps R (split_seen_range now ttl order n).
Proof. revert n. induction order as [|k order IH]; intros n; cbn [split_seen_range]; keep; apply IH. Qed.
Lemma shape_range_keeps now ttl order n : keeps R (shape_range now ttl order n).
Proof. revert n. induction order as [|k order IH]; intros n; cbn [shape_range]; keep; apply IH. Qed.

Lemma daemon_start_keeps j w p w' :
  daemon_start cfg whitelist env fuel j w p w' -> R w w' /\ keeps R p.
Proof.
  intros Hs. destruct Hs; (split; [by apply R_frame|]).
  - apply keeps_bind; [apply handler_keeps|done].
  - unfold cleanup_tick. keep.
  - unfold shape_tick. apply keeps_bind; [apply shape_range_keeps|]. intros n. keep.
  - unfold split_seen_tick. apply keeps_bind; [apply split_seen_range_keeps|]. intros n. keep.
  - unfold window_tick. keep.
  - unfold stats_tick, printStats. keep.
Qed.
Lemma daemon_threads_keeps :
  0 < CleanupEvery cfg -> 0 < StatsEvery cfg -> Forall (keeps R) (daemon_threads cfg).
Proof.
  intros Hc Hs. unfold daemon_threads, loop_start, NewTicker.
  destruct (Z.leb_spec (CleanupEvery cfg) 0); [lia|]. destruct (Z.leb_spec (StatsEvery cfg) 0); [lia|].
  repeat constructor. by case_match.
Qed.
End counters.

(** * Panics *)

#[local] Instance true_preorder : PreOrder (fun _ _ : World => True).
Proof. by split. Qed.

Definition zero_stats_flags : Flags := {|
  fl_queue := 443; fl_action := "drop"; fl_mode := "fixed"; fl_cooldown := "500ms";
  fl_min_delay := "300ms"; fl_max_delay := "700ms"; fl_jitter := "100ms"; fl_whitelist := "";
  fl_verbose := true; fl_seed := 0; fl_stats_every := "0"; fl_cleanup_after := "10m";
  fl_cleanup_every := "30s"; fl_forget_on_drop := false; fl_max_drops_per_ip := 0;
  fl_packet := "syn"; fl_max_pending_delays := 0; fl_burst_interval := "100ms";
  fl_burst_max_delay := "1s"; fl_skip_mark := ""; fl_reject_mark := "";
  fl_split_at := 1; fl_split_mark := "0x1000"; fl_split_delay := "1ms"; fl_split_seen_ttl := "1m";
  fl_split_probe := false; fl_split_reverse := false; fl_fake_bad_checksum := false;
  fl_fake_payload := "tls-invalid-length"; fl_fake_length := 0; fl_fake_delay := "5ms";
  fl_pass_window := "0"
|}.
(** C25: from any world, in every interleaving of packets, timers and
    goroutines, no goroutine panics, exactly when the cleanup and statistics
    intervals are positive; otherwise a loop panics on creating its ticker.
    [parseConfig] does not check those intervals: options it accepts
    ([--stats-every 0]) make the started daemon panic. *)
Theorem daemon_panics_iff_bad_interval whitelist env fuel w :
  (forall cfg,
    (forall c, rtc (daemon_step cfg whitelist env fuel) (daemon_conf cfg w) c -> Crash ∉ threads c)
    <-> 0 < CleanupEvery cfg /\ 0 < StatsEvery cfg)
  /\ exists cfg, parseConfig zero_stats_flags = Ok cfg /\ Crash ∈ threads (daemon_conf cfg w).
Proof.
  split; [intros cfg; split|].
  - intros Hsafe. specialize (Hsafe _ (rtc_refl _ _)).
    unfold daemon_conf, daemon_threads, loop_start, NewTicker in Hsafe. simpl in Hsafe.
    destruct (Z.leb_spec (CleanupEvery cfg) 0); [destruct Hsafe; apply list_elem_of_lookup; by exists 1%nat|].
    destruct (Z.leb_spec (StatsEvery cfg) 0); [destruct Hsafe; apply list_elem_of_lookup; by exists 5%nat|]. done.
  - intros [Hc Hs] c Hr.
    destruct (keeps_reachable (fun _ _ => True) (daemon_start cfg whitelist env fuel) (daemon_conf cfg w) c)
      as [_ HF]; [done|intros j w0 p w0' H; by apply (daemon_start_keeps (fun _ _ => True)) in H|by apply daemon_threads_keeps|done|].
    intros Hin. rewrite Forall_forall in HF. by apply (HF Crash).
  - destruct (parseConfig zero_stats_flags) as [cfg|e] eqn:E; [|by vm_compute in E].
    exists cfg. split; [done|]. assert (Hs : StatsEvery cfg = 0) by (vm_compute in E; by injection E as <-).
    unfold daemon_conf, daemon_threads, loop_start, NewTicker. rewrite Hs.
    apply list_elem_of_lookup. by exists 5%nat.
Qed.

(** * Shape mode and the drop counter *)

Definition same_dropped (w w' : World) : Prop := Dropped (w_counters w') = Dropped (w_counters w).
#[local] Instance same_dropped_preorder : PreOrder same_dropped.
Proof. split; [by intros w|]. intros w1 w2 w3 H12 H23. unfold same_dropped in *. congruence. Qed.

(** C36: in shape mode the [Dropped] counter stays zero however many packets
    the shaper drops, so every statistics line reports no drops. *)
Theorem shape_mode_reports_no_drops cfg whitelist env fuel now alg r s c :
  Action cfg = "shape"%string -> 0 < CleanupEvery cfg -> 0 < StatsEvery cfg ->
  rtc (daemon_step cfg whitelist env fuel) (daemon_conf cfg (initial_world now alg r s)) c ->
  Dropped (w_counters (world c)) = 0
  /\ (Verbose cfg = false -> exists line w', run (stats_tick cfg) (world c) = Some (tt, w', [])
        /\ w_trace w' = StatsPrinted line :: w_trace (world c)
        /\ sl_dropped line = 0 /\ sl_accepted line = Accepted (w_counters (world c))).
Proof.
  intros Ha Hc Hs Hr.
  destruct (keeps_reachable same_dropped (daemon_start cfg whitelist env fuel)
              (daemon_conf cfg (initial_world now alg r s)) c) as [Hd _]; try done.
  - intros j w p w' Hst. eapply (daemon_start_keeps same_dropped) in Hst; try done.
    unfold same_dropped. congruence.
  - by apply daemon_threads_keeps.
  - split; [done|]. intros Hv. unfold stats_tick, printStats. rewrite Hv, Ha.
    eexists _, _. split; [reflexivity|]. simpl. split; [reflexivity|]. by rewrite Hd.
Qed.
Lemma shape_mode_reports_no_drops_witness :
  exists c, shaped = Some c
    /\ DelayOverflowDropped (w_counters (world c)) = 1
    /\ Dropped (w_counters (world c)) = 0.
Proof.
  assert (H : option_map (fun c => DelayOverflowDropped (w_counters (world c))) shaped = Some 1)
    by (vm_compute; reflexivity).
  destruct shaped as [c|] eqn:E; [|discriminate H]. injection H as H. exists c.
  split; [reflexivity|]. split; [exact H|]. apply execute_rtc in E.
  refine (proj1 (shape_mode_reports_no_drops shape_config _ _ _ _ _ _ _ c _ _ _ E)); reflexivity.
Defined.
