(* ===== verification/Ledger.v ===== *)
(** Conservation laws of the running daemon, in every interleaving: each packet
    gets exactly one verdict, [pendingDelays] counts the delayed packets and
    respects its limit, and a pending flow is released exactly once. *)

From S2P Require Import Prelude GoStrings GoNet GoTime Algorithm State Stats Window Whitelist.
From S2P Require Import Runtime RawSender Parser Payload Fake Config Daemon Handler Loops Scenarios.
From S2P Require Import Safety.
Open Scope Z_scope.

(** * Counting *)

Definition flag (P : Prop) `{Decision P} : nat := if decide P then 1 else 0.

(** Verdicts that reached the queue, and arrivals, for a packet identifier. *)
Definition verdict_for (id : Z) (e : Event) : nat :=
  match e with
  | SetVerdict i _ | SetVerdictWithMark i _ _ | SetVerdictModPacketWithConnMark i _ _ _ true =>
      flag (i = id)
  | _ => 0
  end.
Definition arrival_of (id : Z) (e : Event) : nat :=
  match e with Arrived a => flag (PacketID a = Some id) | _ => 0 end.
Definition verdicts (id : Z) (tr : list Event) : nat := sum_list_with (verdict_for id) tr.
Definition arrivals (id : Z) (tr : list Event) : nat := sum_list_with (arrival_of id) tr.

(** What a goroutine still has to do: a verdict, decrements of
    [pendingDelays], removing a pending flow; and what the handler has found
    out: that there is room for a delayed packet, that a flow is not pending. *)
Record duty := {
  main : bool;
  owes : option Z;
  tokens : nat;
  room : nat;
  key : option shapeFlowKey;
  fresh : option shapeFlowKey
}.
Definition no_duty : duty :=
  {| main := false; owes := None; tokens := 0; room := 0; key := None; fresh := None |}.
Definition handling (id : option Z) : duty :=
  {| main := true; owes := id; tokens := 0; room := 0; key := None; fresh := None |}.
Definition releasing (id : Z) (k : shapeFlowKey) : duty :=
  {| main := false; owes := Some id; tokens := 1; room := 0; key := Some k; fresh := None |}.
Definition Idle (g : duty) : Prop := owes g = None /\ tokens g = 0%nat /\ room g = 0%nat /\ key g = None.

Section ledger.
Context (limit : Z).

Record ledger (w : World) (gs : list duty) : Prop := {
  ledger_verdicts : forall id,
    (verdicts id (w_trace w) + sum_list_with (fun g => flag (owes g = Some id)) gs
     = arrivals id (w_trace w))%nat;
  ledger_pending : w_pendingDelays w = wrapI64 (Z.of_nat (sum_list_with tokens gs));
  ledger_limit : 0 < limit -> Z.of_nat (sum_list_with tokens gs + sum_list_with room gs) <= limit;
  ledger_flows : forall k,
    sum_list_with (fun g => flag (key g = Some k)) gs = flag (k ∈ w_shapePendingFlows w);
  ledger_main : forall i g, gs !! i = Some g ->
    (main g = true -> i = 0%nat) /\ (main g = false -> room g = 0%nat /\ fresh g = None);
  ledger_fresh : forall i g k, gs !! i = Some g -> fresh g = Some k -> k ∉ w_shapePendingFlows w
}.

Lemma sum_insert {A} (f : A -> nat) (l : list A) i x y :
  l !! i = Some x -> (sum_list_with f (<[i := y]> l) + f x = sum_list_with f l + f y)%nat.
Proof.
  revert i. induction l as [|z l IH]; intros [|i] Hi; simplify_eq/=; [lia|].
  specialize (IH i Hi). lia.
Qed.
Lemma sum_ge {A} (f : A -> nat) (l : list A) i x : l !! i = Some x -> (f x <= sum_list_with f l)%nat.
Proof.
  revert i. induction l as [|z l IH]; intros [|i] Hi; simplify_eq/=; [lia|].
  specialize (IH i Hi). lia.
Qed.
Lemma sum_one {A} (f : A -> nat) (l : list A) i x :
  l !! i = Some x -> (forall j y, l !! j = Some y -> j <> i -> f y = 0%nat) ->
  sum_list_with f l = f x.
Proof.
  revert i. induction l as [|z l IH]; intros [|i] Hi Hz; simplify_eq/=.
  - enough (sum_list_with f l = 0%nat) by lia. clear IH.
    assert (Hl : forall j y, l !! j = Some y -> f y = 0%nat) by (intros j y Hy; by apply (Hz (S j))).
    clear Hz. induction l as [|z l IH]; [done|]. simpl. rewrite (Hl 0%nat z) by done.
    apply IH. intros j y Hy. by apply (Hl (S j)).
  - rewrite (Hz 0%nat z) by done. apply (IH i); [done|]. intros j y Hy Hne. apply (Hz (S j)); [done|lia].
Qed.

(** The step of one goroutine: local conditions suffice. *)
Lemma ledger_step w w' gs i g g' :
  gs !! i = Some g -> ledger w gs -> main g' = main g ->
  (main g = false -> room g' = 0%nat /\ fresh g' = None
                     /\ w_shapePendingFlows w' ⊆ w_shapePendingFlows w) ->
  (main g = true -> forall k, fresh g' = Some k -> k ∉ w_shapePendingFlows w') ->
  (forall id, (verdicts id (w_trace w') + flag (owes g' = Some id) + arrivals id (w_trace w)
               = verdicts id (w_trace w) + flag (owes g = Some id) + arrivals id (w_trace w'))%nat) ->
  w_pendingDelays w' = wrapI64 (w_pendingDelays w + (Z.of_nat (tokens g') - Z.of_nat (tokens g))) ->
  (0 < limit -> Z.of_nat (sum_list_with tokens gs + sum_list_with room gs) + Z.of_nat (tokens g')
                + Z.of_nat (room g') <= limit + Z.of_nat (tokens g) + Z.of_nat (room g)) ->
  (forall k, (flag (key g' = Some k) + flag (k ∈ w_shapePendingFlows w)
              = flag (key g = Some k) + flag (k ∈ w_shapePendingFlows w'))%nat) ->
  ledger w' (<[i := g']> gs).
Proof.
  intros Hg [Hv Hp Hl Hf Hm Hfr] Hmain Hother Hself Hverd Hpend Hlim Hflow.
  pose proof (fun f => sum_insert f gs i g g' Hg) as Hsum.
  split.
  - intros id. pose proof (Hsum (fun g => flag (owes g = Some id))). specialize (Hv id).
    specialize (Hverd id). simpl in *. lia.
  - rewrite Hpend, Hp. pose proof (Hsum tokens).
    replace (Z.of_nat (sum_list_with tokens (<[i:=g']> gs)))
      with (Z.of_nat (sum_list_with tokens gs) + (Z.of_nat (tokens g') - Z.of_nat (tokens g))) by lia.
    apply wrapI64_add_l.
  - intros H0. pose proof (Hsum tokens). pose proof (Hsum room). specialize (Hlim H0). lia.
  - intros k. pose proof (Hsum (fun g => flag (key g = Some k))). specialize (Hf k).
    specialize (Hflow k). simpl in *. lia.
  - intros j g0 Hj. destruct (decide (j = i)) as [->|Hne].
    + rewrite list_lookup_insert_eq in Hj by (by eapply lookup_lt_Some). injection Hj as <-.
      rewrite Hmain. split; [by apply (Hm i g)|]. intros Hfalse. by destruct (Hother Hfalse) as (? & ? & _).
    + rewrite list_lookup_insert_ne in Hj by done. by apply (Hm j).
  - intros j g0 k Hj Hk. destruct (decide (j = i)) as [->|Hne].
    + rewrite list_lookup_insert_eq in Hj by (by eapply lookup_lt_Some). injection Hj as <-.
      destruct (main g) eqn:Eg; [by apply Hself|]. destruct (Hother eq_refl) as (_ & ? & _). congruence.
    + rewrite list_lookup_insert_ne in Hj by done. destruct (main g) eqn:Eg.
      * (* the main thread moved: the others know nothing fresh *)
        destruct (Hm j g0 Hj) as [Hj0 Hjf]. destruct (main g0) eqn:E0.
        -- destruct Hne. rewrite (Hj0 eq_refl). symmetry. by apply (Hm i g Hg).
        -- destruct (Hjf eq_refl) as [_ ?]. congruence.
      * destruct (Hother eq_refl) as (_ & _ & Hsub). intros Hin. by apply (Hfr j g0 k Hj Hk), Hsub.
Qed.

(** Worlds that agree on what the ledger counts. *)
Definition same_ledger (w w' : World) : Prop :=
  (forall id, verdicts id (w_trace w') = verdicts id (w_trace w))
  /\ (forall id, arrivals id (w_trace w') = arrivals id (w_trace w))
  /\ w_pendingDelays w' = w_pendingDelays w
  /\ w_shapePendingFlows w' = w_shapePendingFlows w.
Lemma ledger_same w w' gs : same_ledger w w' -> ledger w gs -> ledger w' gs.
Proof.
  intros (Hv & Ha & Hp & Hf) [H1 H2 H3 H4 H5 H6]. split.
  - intros id. by rewrite Hv, Ha.
  - by rewrite Hp.
  - done.
  - intros k. by rewrite Hf.
  - done.
  - by rewrite Hf.
Qed.
Lemma ledger_idle_thread w gs : ledger w gs -> ledger w (gs ++ [no_duty]).
Proof.
  intros [H1 H2 H3 H4 H5 H6].
  assert (Hs : forall f, sum_list_with f (gs ++ [no_duty]) = (sum_list_with f gs + f no_duty)%nat).
  { intros f. rewrite sum_list_with_app. simpl. lia. }
  split.
  - intros id. rewrite Hs. simpl. rewrite Nat.add_0_r. apply H1.
  - rewrite Hs. simpl. by rewrite Nat.add_0_r.
  - rewrite !Hs. simpl. rewrite !Nat.add_0_r. done.
  - intros k. rewrite Hs. simpl. rewrite Nat.add_0_r. apply H4.
  - intros i g [Hi|[_ Hi]]%lookup_app_Some; [by apply (H5 i)|].
    by apply list_lookup_singleton_Some in Hi as [_ <-].
  - intros i g k [Hi|[_ Hi]]%lookup_app_Some; [by apply (H6 i)|].
    by apply list_lookup_singleton_Some in Hi as [_ <-].
Qed.

(** ** Programs *)

#[local] Abbreviation safe_duty := (safe ledger Idle).
#[local] Abbreviation neutral := (keeps same_ledger).

Lemma safe_neutral {A : Type} (p : prog World A) g Q :
  neutral p -> (forall a, Q a g) -> safe_duty p g Q.
Proof.
  apply keeps_safe with no_duty; [|apply ledger_idle_thread|done].
  intros w w' gs. apply ledger_same.
Qed.
Lemma safe_first {A B : Type} (p : prog World A) (k : A -> prog World B) g Q :
  neutral p -> (forall a, safe_duty (k a) g Q) -> safe_duty (p ≫= k) g Q.
Proof. intros Hp Hk. apply safe_bind, safe_neutral; done. Qed.

(** Side conditions of [ledger_step] about what a step leaves unchanged. *)
Ltac unchanged HI :=
  match goal with
  | |- forall _ : Z, _ => intros ?; lia
  | |- w_pendingDelays _ = _ =>
      rewrite (ledger_pending _ _ HI), Z.sub_diag, Z.add_0_r;
      rewrite (wrapI64_small (wrapI64 _)); [done|apply wrapI64_range]
  | |- _ < _ -> _ <= _ =>
      let H0 := fresh in intros H0; pose proof (ledger_limit _ _ HI H0); lia
  end.

(** The verdict owed is given. *)
Definition paid (g : duty) : duty :=
  {| main := main g; owes := None; tokens := tokens g; room := room g; key := key g;
     fresh := fresh g |}.
Lemma ledger_pay w gs i g id e :
  gs !! i = Some g -> ledger w gs -> owes g = Some id ->
  (forall id', verdict_for id' e = flag (id = id')) -> (forall id', arrival_of id' e = 0%nat) ->
  ledger (with_event e w) (<[i := paid g]> gs).
Proof.
  intros Hg HI Ho Hv Ha. destruct (ledger_main _ _ HI i g Hg) as [_ Hm].
  eapply ledger_step; try done; simpl; try solve [unchanged HI].
  - intros Hf. by destruct (Hm Hf).
  - intros _ k. by apply (ledger_fresh _ _ HI i g k Hg).
  - intros id'. unfold verdicts, arrivals. simpl. rewrite Hv, Ha, Ho. unfold flag.
    repeat case_decide; simplify_eq; lia.
Qed.
Lemma emit_verdict_safe id e g Q :
  owes g = Some id -> (forall id', verdict_for id' e = flag (id = id')) ->
  (forall id', arrival_of id' e = 0%nat) -> Q tt (paid g) -> safe_duty (emit e) g Q.
Proof.
  intros Ho Hv Ha HQ w gs i r w' Hg HI [= <- <-]. exists (paid g). split; [|done].
  by eapply ledger_pay.
Qed.
Lemma accept_safe id g Q : owes g = Some id -> Q 0 (paid g) -> safe_duty (accept id) g Q.
Proof. intros Ho HQ. by apply safe_bind, (emit_verdict_safe id). Qed.
Lemma mod_verdict_safe env id mark packet g Q :
  owes g = Some id -> Q true (paid g) -> Q false g ->
  safe_duty (nf_SetVerdictModPacketWithConnMark env id NfAccept mark packet) g Q.
Proof.
  intros Ho HQ1 HQ2 w gs i r w' Hg HI [= <- <-].
  destruct (mod_verdict_ok env (w_trace w)).
  - exists (paid g). split; [|done]. by eapply ledger_pay.
  - exists g. split; [|done]. rewrite list_insert_id by done. eapply ledger_same; [|done].
    by split_and!.
Qed.
Lemma dropOrReject_safe cfg id mark g Q :
  owes g = Some id -> Q tt (paid g) -> safe_duty (dropOrReject cfg id mark) g Q.
Proof.
  intros Ho HQ. unfold dropOrReject. case_match; by apply (emit_verdict_safe id).
Qed.

(** *** Delayed packets *)

Context (cfg : Config) (Hlimit : MaxPendingDelays cfg = limit) (Hmax : limit <= MaxInt64).

Definition knows_fresh (k : shapeFlowKey) (g : duty) : duty :=
  {| main := main g; owes := owes g; tokens := tokens g; room := room g; key := key g;
     fresh := Some k |}.
Definition has_room (g : duty) : duty :=
  {| main := main g; owes := owes g; tokens := tokens g;
     room := if 0 <? limit then 1 else 0; key := key g; fresh := fresh g |}.
Definition holds_key (k : shapeFlowKey) (g : duty) : duty :=
  {| main := main g; owes := owes g; tokens := tokens g; room := room g; key := Some k;
     fresh := None |}.
Definition without_key (g : duty) : duty :=
  {| main := main g; owes := owes g; tokens := tokens g; room := room g; key := None;
     fresh := fresh g |}.
Definition one_token (g : duty) : duty :=
  {| main := main g; owes := owes g; tokens := 1; room := 0; key := key g; fresh := fresh g |}.
Definition no_token (g : duty) : duty :=
  {| main := main g; owes := owes g; tokens := 0; room := room g; key := key g; fresh := fresh g |}.

Lemma flows_Load_safe k g Q :
  main g = true -> Q true g -> Q false (knows_fresh k g) -> safe_duty (flows_Load k) g Q.
Proof.
  intros Hm HQ1 HQ2 w gs i r w' Hg HI [= <- <-]. case_bool_decide as Hk.
  - exists g. split; [by rewrite list_insert_id|done].
  - exists (knows_fresh k g). split; [|done]. eapply ledger_step; try done; simpl; try solve [unchanged HI].
    + by rewrite Hm.
    + by intros _ k' [= <-].
Qed.
Lemma full_safe g Q :
  main g = true -> room g = 0%nat -> Q true g -> Q false (has_room g) ->
  safe_duty (if 0 <? MaxPendingDelays cfg
             then n ← load_pendingDelays; Ret (MaxPendingDelays cfg <=? n) else Ret false) g Q.
Proof.
  intros Hm Hr HQ1 HQ2. rewrite Hlimit. destruct (Z.ltb_spec 0 limit) as [H0|H0].
  2: { simpl. unfold has_room in HQ2. destruct (Z.ltb_spec 0 limit); [lia|].
       destruct g. simpl in *. by subst. }
  intros w gs i r w' Hg HI [= <- <-]. simpl.
  destruct (Z.leb_spec limit (w_pendingDelays w)) as [Hle|Hlt].
  - exists g. split; [by rewrite list_insert_id|done].
  - exists (has_room g). split; [|done].
    assert (Hroom : sum_list_with room gs = room g).
    { apply (sum_one _ gs i); [done|]. intros j y Hj Hne.
      destruct (ledger_main _ _ HI j y Hj) as [Hj0 Hj1]. destruct (main y) eqn:Ey.
      - destruct Hne. rewrite (Hj0 eq_refl). symmetry. by apply (ledger_main _ _ HI i g Hg).
      - by apply Hj1. }
    pose proof (ledger_limit _ _ HI H0) as Hlim.
    rewrite (ledger_pending _ _ HI), wrapI64_small in Hlt by (unfold MinInt64; lia).
    eapply ledger_step; try done; simpl; try solve [unchanged HI].
    + by rewrite Hm.
    + intros _ k. by apply (ledger_fresh _ _ HI i g k Hg).
    + intros _. rewrite Hroom, Hr. destruct (Z.ltb_spec 0 limit); lia.
Qed.
Lemma flows_Store_safe k g Q :
  main g = true -> fresh g = Some k -> key g = None -> Q tt (holds_key k g) ->
  safe_duty (flows_Store k) g Q.
Proof.
  intros Hm Hfr Hk HQ w gs i r w' Hg HI [= <- <-]. exists (holds_key k g). split; [|done].
  pose proof (ledger_fresh _ _ HI i g k Hg Hfr) as Hnew.
  eapply ledger_step; try done; simpl; try solve [unchanged HI].
  - by rewrite Hm.
  - intros k'. rewrite Hk. unfold flag. repeat case_decide; simplify_eq; try lia; set_solver.
Qed.
Lemma flows_Delete_safe k g Q :
  key g = Some k -> Q tt (without_key g) -> safe_duty (flows_Delete k) g Q.
Proof.
  intros Hk HQ w gs i r w' Hg HI [= <- <-]. exists (without_key g). split; [|done].
  destruct (ledger_main _ _ HI i g Hg) as [_ Hm].
  assert (Hin : k ∈ w_shapePendingFlows w).
  { pose proof (ledger_flows _ _ HI k) as Hf.
    pose proof (sum_ge (fun g => flag (key g = Some k)) gs i g Hg) as Hge. simpl in Hge.
    rewrite Hf in Hge. unfold flag in Hge. rewrite decide_True in Hge by done. by case_decide; [|lia]. }
  eapply ledger_step; try done; simpl; try solve [unchanged HI].
  - intros Hf. destruct (Hm Hf). split_and!; try done. set_solver.
  - intros _ k' Hf Hin'. apply (ledger_fresh _ _ HI i g k' Hg Hf). set_solver.
  - intros k'. rewrite Hk. unfold flag. repeat case_decide; simplify_eq; try lia; set_solver.
Qed.
Lemma take_token_safe g Q :
  tokens g = 0%nat -> room g = (if (0 <? limit)%Z then 1 else 0)%nat -> Q tt (one_token g) ->
  safe_duty (add_pendingDelays 1) g Q.
Proof.
  intros Ht Hr HQ w gs i r w' Hg HI [= <- <-]. exists (one_token g). split; [|done].
  destruct (ledger_main _ _ HI i g Hg) as [_ Hm].
  eapply ledger_step; try done; simpl; try solve [unchanged HI].
  - intros Hf. destruct (Hm Hf). by split_and!.
  - intros _ k. by apply (ledger_fresh _ _ HI i g k Hg).
  - by rewrite Ht.
  - intros H0. pose proof (ledger_limit _ _ HI H0). rewrite Hr. destruct (Z.ltb_spec 0 limit); lia.
Qed.
Lemma return_token_safe g Q :
  tokens g = 1%nat -> Q tt (no_token g) -> safe_duty (add_pendingDelays (-1)) g Q.
Proof.
  intros Ht HQ w gs i r w' Hg HI [= <- <-]. exists (no_token g). split; [|done].
  destruct (ledger_main _ _ HI i g Hg) as [_ Hm].
  eapply ledger_step; try done; simpl; try solve [unchanged HI].
  - intros Hf. destruct (Hm Hf). by split_and!.
  - intros _ k. by apply (ledger_fresh _ _ HI i g k Hg).
  - by rewrite Ht.
Qed.
(** The handler hands its packet, token and flow to the goroutine it starts. *)
Lemma go_release_safe task id k g Q :
  main g = true -> owes g = Some id -> tokens g = 1%nat -> room g = 0%nat -> key g = Some k ->
  fresh g = None -> safe_duty task (releasing id k) (fun _ => Idle) -> Q tt (handling None) ->
  safe_duty (go_stmt task) g Q.
Proof.
  intros Hm Ho Ht Hr Hk Hf Htask HQ. exists (handling None), (releasing id k).
  split; [|done]. intros w gs i Hg [H1 H2 H3 H4 H5 H6].
  assert (Hs : forall f : duty -> nat, f g = (f (handling None) + f (releasing id k))%nat ->
    sum_list_with f (<[i := handling None]> gs ++ [releasing id k]) = sum_list_with f gs).
  { intros f Hfg. rewrite sum_list_with_app. simpl. pose proof (sum_insert f gs i g (handling None) Hg). lia. }
  split.
  - intros id'. rewrite Hs; [done|]. simpl. by rewrite Ho.
  - by rewrite Hs.
  - by rewrite !Hs.
  - intros k'. rewrite Hs; [done|]. simpl. by rewrite Hk.
  - intros j g0 [Hj|[_ Hj]]%lookup_app_Some.
    + destruct (decide (j = i)) as [->|Hne].
      * rewrite list_lookup_insert_eq in Hj by (by eapply lookup_lt_Some). injection Hj as <-.
        split; [intros _; by apply (H5 i g)|done].
      * rewrite list_lookup_insert_ne in Hj by done. by apply (H5 j).
    + by apply list_lookup_singleton_Some in Hj as [_ <-].
  - intros j g0 k' [Hj|[_ Hj]]%lookup_app_Some.
    + destruct (decide (j = i)) as [->|Hne].
      * rewrite list_lookup_insert_eq in Hj by (by eapply lookup_lt_Some). by injection Hj as <-.
      * rewrite list_lookup_insert_ne in Hj by done. by apply (H6 j).
    + by apply list_lookup_singleton_Some in Hj as [_ <-].
Qed.

Ltac leaf :=
  match goal with
  | |- True => exact I
  | |- keeps _ (Ret _) => exact I
  | |- keeps _ (modify _) => apply keeps_modify; intros; by split_and!
  | |- keeps _ (gets _) => apply keeps_gets; intros; by split_and!
  | |- keeps _ (update _) => apply keeps_update; intros; repeat case_match; simplify_eq; by split_and!
  | |- keeps _ (try_update _) =>
      apply keeps_try; intros; repeat case_match; simplify_eq; by split_and!
  | |- keeps _ (Send _ _ _ _) => apply Send_keeps; intros; by split_and!
  end.
Ltac keep :=
  repeat first
    [ leaf
    | progress unfold emit, logVerbose, count,
        state_op, seen_Delete, seen_Store, seen_Load,
        sleep_if, Sleep, Now, pacer_Lock, pacer_Unlock, pacer_read, pacer_write,
        pacers_LoadOrStore, pacers_Load, pacers_Delete,
        state_draw, window_decide, print_removed
    | apply keeps_bind; [|intros ?]
    | case_match
    | progress cbn [keeps] ].
(** Pass over the next statement, which the ledger does not see. *)
Ltac next := apply safe_first; [solve [keep]|intros ?].

Lemma release_safe id ip k delay pacer :
  safe_duty (release cfg id ip k delay pacer) (releasing id k) (fun _ => Idle).
Proof.
  unfold release. do 7 next. apply safe_bind, flows_Delete_safe; [done|]. do 2 next.
  apply safe_bind, (emit_verdict_safe id); [done..|]. by apply return_token_safe.
Qed.
Lemma shape_drop_safe id mark ev line g :
  owes g = Some id -> Idle (paid g) -> safe_duty (shape_drop cfg id mark ev line) g (fun _ => Idle).
Proof.
  intros Ho HI. unfold shape_drop. do 3 next. apply safe_bind. by apply (dropOrReject_safe cfg id).
Qed.
Lemma shape_handler_safe id info ip mark now :
  safe_duty (shape_handler cfg id info ip mark now) (handling (Some id)) (fun _ => Idle).
Proof.
  unfold shape_handler. apply safe_bind, flows_Load_safe; [done|by apply shape_drop_safe|].
  do 4 next. case_match.
  - do 7 next. by apply accept_safe.
  - unfold shape_wait. cbv zeta.
    match goal with |- context [if ?b <? 0 then 0 else ?d] => generalize (if b <? 0 then 0 else d) end.
    intros delay. case_match; [next; by apply shape_drop_safe|]. next.
    case_match; [next; by apply shape_drop_safe|].
    apply safe_bind, full_safe; [done|done|next; by apply shape_drop_safe|].
    unfold shape_delay. do 2 next. apply safe_bind, flows_Store_safe; [done..|]. next.
    apply safe_bind, take_token_safe; [done..|]. do 2 next.
    apply safe_bind. eapply go_release_safe; try done. apply release_safe.
Qed.
Lemma drop_handler_safe id ip mark now fuel :
  safe_duty (drop_handler cfg fuel id ip mark now) (handling (Some id)) (fun _ => Idle).
Proof.
  unfold drop_handler. next. case_match.
  - do 2 next. by apply accept_safe.
  - next. case_match.
    + do 4 next. by apply accept_safe.
    + do 4 next. apply safe_bind. by apply (dropOrReject_safe cfg id).
Qed.
(** *** Payload packets *)

Lemma accept_some_safe id g (Q : option Z -> duty -> Prop) :
  owes g = Some id -> Q (Some 0) (paid g) -> safe_duty (r ← accept id; Ret (Some r)) g Q.
Proof. intros Ho HQ. apply safe_bind. by apply accept_safe. Qed.

Lemma send_fake_safe env id payload sk mark g :
  owes g = Some id -> Idle (paid g) ->
  safe_duty (send_fake cfg env id payload sk mark) g
    (fun r g' => match r with Some _ => Idle g' | None => g' = g end).
Proof.
  intros Ho HI. unfold send_fake. next.
  destruct (clone_total a payload (FakePayload cfg) (FakeLength cfg)) as [r Hr].
  rewrite (lift_bind _ r) by done. destruct r as [[[[fake ?] ?] ?]|e].
  - next. case_match; [|do 2 next; by apply accept_some_safe]. do 2 next. case_match.
    + apply safe_bind. apply (mod_verdict_safe env id); [done|next; done|].
      do 2 next. by apply accept_some_safe.
    + by next.
  - do 2 next. by apply accept_some_safe.
Qed.
Lemma pass_window_safe id info sk g :
  owes g = Some id -> Idle (paid g) ->
  safe_duty (pass_window cfg id info sk) g (fun b g' => if b then Idle g' else g' = g).
Proof.
  intros Ho HI. unfold pass_window. case_match; [|done]. do 2 next. case_match. case_match.
  - do 3 next. apply safe_bind. by apply (emit_verdict_safe id).
  - by next.
Qed.
Lemma split_segments_safe env id payload info sk mark g :
  ParseIPv4TCPPayload payload = Val (Some info) -> owes g = Some id -> Idle (paid g) ->
  safe_duty (split_segments cfg env id payload info sk mark) g (fun _ => Idle).
Proof.
  intros Hp Ho HI. unfold split_segments.
  destruct (SplitIPv4TCPPacket payload info (SplitAt cfg)) as [r|] eqn:Hr;
    [|by apply split_total in Hr]. rewrite (lift_bind _ r) by done.
  destruct r as [[first second]|e]; [|do 2 next; by apply accept_safe].
  assert (Hfail : forall line, safe_duty (seen_Delete sk;; emit (LoggedError line);; accept id) g
                                 (fun _ => Idle)) by (intros line; do 2 next; by apply accept_safe).
  case_match.
  - unfold split_reversed. do 3 next. case_match.
    + do 2 next. apply safe_bind, (mod_verdict_safe env id); [done|by next|apply Hfail].
    + do 3 next. by apply accept_safe.
  - apply safe_bind, (mod_verdict_safe env id); [done| |apply Hfail]. simpl negb. cbv iota.
    case_match; [by next|]. do 2 next.
    apply safe_first; [apply keeps_go; unfold send_second; keep|intros _]. by next.
Qed.
Lemma payload_handler_safe env id payload mark :
  safe_duty (payload_handler cfg env id payload mark) (handling (Some id)) (fun _ => Idle).
Proof.
  unfold payload_handler. rewrite ParsePayload_closed.
  rewrite (lift_bind _ (if decide (payload_packet payload) then Some (payload_info payload) else None))
    by done.
  case_decide as Hp; [|by apply accept_safe]. case_match; [by apply accept_safe|]. next.
  case_match; [next; by apply accept_safe|].
  apply safe_bind. eapply safe_weaken; [|by apply pass_window_safe].
  intros [] g Hg; [done|]. subst g. do 2 next.
  assert (Hsplit : safe_duty (split_segments cfg env id payload (payload_info payload)
      (split_key (payload_info payload)) (or_mark (SplitMarkValue cfg) mark)) (handling (Some id))
      (fun _ => Idle)) by (apply split_segments_safe; [by apply ParsePayload_ok|done..]).
  apply safe_bind. case_match; [|done].
  eapply safe_weaken; [|by apply send_fake_safe]. intros [r|] g Hg; [done|]. by subst g.
Qed.

Lemma handler_safe whitelist env fuel a :
  safe_duty (handler cfg whitelist env fuel a) (handling (PacketID a)) (fun _ => Idle).
Proof.
  unfold handler. destruct (PacketID a) as [id|]; [|done].
  destruct (Daemon.Payload a) as [payload|]; [|by apply accept_safe].
  case_match; [apply payload_handler_safe|]. unfold syn_handler.
  destruct (match_packet cfg payload) as [r|] eqn:Hm; [|by apply match_packet_total in Hm].
  rewrite (lift_bind _ r) by done. destruct r as [[info ip]|]; [|by apply accept_safe].
  unfold pass_through. case_match; [do 3 next; by apply accept_safe|].
  case_match; [do 3 next; by apply accept_safe|]. next. case_match.
  - apply shape_handler_safe.
  - apply drop_handler_safe.
Qed.

(** ** The whole daemon *)

Context (whitelist : Whitelist.Whitelist) (env : environment) (fuel : nat).

Lemma ledger_arrival w gs g a :
  gs !! 0%nat = Some g -> Idle g -> ledger w gs ->
  ledger (with_event (Arrived a) w) (<[0%nat := handling (PacketID a)]> gs).
Proof.
  intros Hg (Ho & Ht & Hr & Hk) [H1 H2 H3 H4 H5 H6].
  pose proof (fun f => sum_insert f gs 0 g (handling (PacketID a)) Hg) as Hs. split.
  - intros id. specialize (Hs (fun g => flag (owes g = Some id))). specialize (H1 id).
    simpl in *. rewrite Ho in Hs. unfold flag in Hs at 2. rewrite decide_False in Hs by done.
    unfold verdicts, arrivals in *. simpl. lia.
  - specialize (Hs tokens). simpl in *. rewrite H2. f_equal. lia.
  - intros H0. specialize (H3 H0). pose proof (Hs tokens). pose proof (Hs room). simpl in *. lia.
  - intros k. specialize (Hs (fun g => flag (key g = Some k))). specialize (H4 k).
    simpl in *. rewrite Hk in Hs. lia.
  - intros j g' Hj. destruct (decide (j = 0%nat)) as [->|Hne].
    + rewrite list_lookup_insert_eq in Hj by (by eapply lookup_lt_Some). by injection Hj as <-.
    + rewrite list_lookup_insert_ne in Hj by done. by apply (H5 j).
  - intros j g' k Hj. destruct (decide (j = 0%nat)) as [->|Hne].
    + rewrite list_lookup_insert_eq in Hj by (by eapply lookup_lt_Some). by injection Hj as <-.
    + rewrite list_lookup_insert_ne in Hj by done. by apply (H6 j).
Qed.
Lemma daemon_start_safe j w p w' gs g :
  daemon_start cfg whitelist env fuel j w p w' -> gs !! j = Some g -> Idle g -> ledger w gs ->
  exists g', ledger w' (<[j := g']> gs) /\ safe_duty p g' (fun _ => Idle).
Proof.
  intros Hs Hg Hidle HI. destruct Hs as [w a|w order|w now order|w now order|w now order|w];
    [exists (handling (PacketID a)); split; [by eapply ledger_arrival|apply safe_bind];
     eapply safe_weaken; [|apply handler_safe]; by intros|..];
    exists g; (split; [by rewrite list_insert_id|]); apply safe_neutral; try done.
  - unfold cleanup_tick. keep.
  - unfold shape_tick. apply keeps_bind; [|intros; keep].
    generalize 0. induction order as [|k order IH]; intros n; cbn [shape_range]; keep; apply IH.
  - unfold split_seen_tick. apply keeps_bind; [|intros; keep].
    generalize 0. induction order as [|k order IH]; intros n; cbn [split_seen_range]; keep; apply IH.
  - unfold window_tick. keep.
  - unfold stats_tick, printStats. keep.
Qed.

Lemma daemon_ledger now alg r s c :
  0 < CleanupEvery cfg -> 0 < StatsEvery cfg ->
  rtc (daemon_step cfg whitelist env fuel) (daemon_conf cfg (initial_world now alg r s)) c ->
  conf_ok ledger Idle c.
Proof.
  intros Hc Hs Hr. eapply reachable_ok; [| |  |exact Hr].
  - intros w gs t. by apply ledger_same.
  - apply daemon_start_safe.
  - exists [handling None; no_duty; no_duty; no_duty; no_duty; no_duty]. split.
    + split; try done; simpl.
      * lia.
      * by intros [|[|[|[|[|[|?]]]]]] ? [= <-].
    + unfold daemon_conf, daemon_threads, loop_start, NewTicker. cbn [threads].
      destruct (Z.leb_spec (CleanupEvery cfg) 0); [lia|]. destruct (Z.leb_spec (StatsEvery cfg) 0); [lia|].
      repeat constructor. by case_match.
Qed.
End ledger.

(** * Properties *)

(** When all goroutines are idle, nothing is owed. *)
Lemma idle_settled cfg whitelist env fuel now alg r s c :
  0 < CleanupEvery cfg -> 0 < StatsEvery cfg -> MaxPendingDelays cfg <= MaxInt64 ->
  rtc (daemon_step cfg whitelist env fuel) (daemon_conf cfg (initial_world now alg r s)) c ->
  Forall (eq (Ret tt)) (threads c) ->
  (forall id, verdicts id (w_trace (world c)) = arrivals id (w_trace (world c)))
  /\ w_pendingDelays (world c) = 0 /\ w_shapePendingFlows (world c) = ∅.
Proof.
  intros Hc Hs Hm Hr Hidle.
  destruct (daemon_ledger (MaxPendingDelays cfg) cfg eq_refl Hm whitelist env fuel now alg r s c Hc Hs Hr)
    as (gs & [H1 H2 _ H4 _ _] & HF).
  assert (Hz : forall f : duty -> nat, (forall g, Idle g -> f g = 0%nat) -> sum_list_with f gs = 0%nat).
  { intros f Hf. clear - HF Hidle Hf. induction HF as [|p g ps gs Hp HF IH]; [done|].
    inversion Hidle as [|? ? Hpr Hps]; subst. simpl in *. rewrite Hf by done. by rewrite IH. }
  split_and!.
  - intros id. specialize (H1 id). rewrite Hz in H1; [lia|]. intros g (-> & _). done.
  - rewrite H2, Hz; [done|]. by intros g (_ & -> & _).
  - apply set_eq. intros k. specialize (H4 k). rewrite Hz in H4; [|by intros g (_ & _ & _ & ->)].
    unfold flag in H4. case_decide; [done|]. set_solver.
Qed.

(** C1: in every interleaving, a packet never gets more verdicts than it
    arrived times, and when all goroutines are idle every packet that arrived
    has got exactly one verdict, no delay is pending and no flow is marked
    pending, even when the queue refuses modified packets. *)
Theorem every_packet_gets_one_verdict cfg whitelist env fuel now alg r s c :
  0 < CleanupEvery cfg -> 0 < StatsEvery cfg -> MaxPendingDelays cfg <= MaxInt64 ->
  rtc (daemon_step cfg whitelist env fuel) (daemon_conf cfg (initial_world now alg r s)) c ->
  (forall id, (verdicts id (w_trace (world c)) <= arrivals id (w_trace (world c)))%nat)
  /\ (Forall (eq (Ret tt)) (threads c) ->
      (forall id, verdicts id (w_trace (world c)) = arrivals id (w_trace (world c)))
      /\ w_pendingDelays (world c) = 0 /\ w_shapePendingFlows (world c) = ∅).
Proof.
  intros Hc Hs Hm Hr. split; [|intros Hidle; by eapply idle_settled].
  destruct (daemon_ledger (MaxPendingDelays cfg) cfg eq_refl Hm whitelist env fuel now alg r s c Hc Hs Hr)
    as (gs & HI & _).
  intros id. pose proof (ledger_verdicts _ _ _ HI id). lia.
Qed.
Lemma every_packet_gets_one_verdict_witness :
  exists c, released = Some c
    /\ map (fun id => verdicts id (w_trace (world c))) [1; 2; 3; 4] = [1; 1; 1; 0]%nat
    /\ w_pendingDelays (world c) = 0 /\ w_shapePendingFlows (world c) = ∅.
Proof.
  assert (H : option_map (fun c => (map (fun id => verdicts id (w_trace (world c))) [1; 2; 3; 4],
                                    forallb idle (threads c))) released
              = Some ([1; 1; 1; 0]%nat, true)) by (vm_compute; reflexivity).
  destruct released as [c|] eqn:E; [|discriminate H]. apply (f_equal (from_option id ([], false))) in H.
  cbn [option_map from_option id] in H. apply pair_equal_spec in H as [Hv Hi]. exists c.
  split; [reflexivity|]. split; [exact Hv|].
  apply released_reachable in E.
  destruct (every_packet_gets_one_verdict shape_config scenario_whitelist scenario_env 1
              (1000 * ms) fixed500 no_draws {| fd := 3; mu := false; calls := [] |} c) as [_ Hall];
    [reflexivity|reflexivity|vm_compute; discriminate|exact E|].
  exact (proj2 (Hall (all_idle _ Hi))).
Defined.

(** C10: in every interleaving, with a limit configured, the number of pending
    delays is never negative and never exceeds the limit. *)
Theorem pending_delays_bounded cfg whitelist env fuel now alg r s c :
  0 < CleanupEvery cfg -> 0 < StatsEvery cfg -> 0 < MaxPendingDelays cfg <= MaxInt64 ->
  rtc (daemon_step cfg whitelist env fuel) (daemon_conf cfg (initial_world now alg r s)) c ->
  0 <= w_pendingDelays (world c) <= MaxPendingDelays cfg.
Proof.
  intros Hc Hs [H0 Hm] Hr.
  destruct (daemon_ledger (MaxPendingDelays cfg) cfg eq_refl Hm whitelist env fuel now alg r s c Hc Hs Hr)
    as (gs & [_ H2 H3 _ _ _] & _).
  specialize (H3 H0). rewrite H2, wrapI64_small by (unfold MinInt64, MaxInt64 in *; lia). lia.
Qed.
Lemma pending_delays_bounded_witness :
  exists c, shaped = Some c /\ w_pendingDelays (world c) = 1
    /\ 0 <= w_pendingDelays (world c) <= MaxPendingDelays shape_config.
Proof.
  assert (H : option_map (fun c => w_pendingDelays (world c)) shaped = Some 1)
    by (vm_compute; reflexivity).
  destruct shaped as [c|] eqn:E; [|discriminate H]. injection H as H. exists c.
  split; [reflexivity|]. split; [exact H|]. apply shaped_reachable in E.
  apply (pending_delays_bounded shape_config scenario_whitelist scenario_env 1
    (1000 * ms) fixed500 no_draws {| fd := 3; mu := false; calls := [] |} c);
    [reflexivity|reflexivity|vm_compute; split; [reflexivity|discriminate]|exact E].
Defined.
