(* ===== verification/Liveness.v ===== *)
(** The daemon comes to rest: its mutexes never block it for good, and once no
    new packet or tick comes every schedule ends with all goroutines idle. *)

From S2P Require Import Prelude GoStrings GoNet GoTime Algorithm State Stats Window Whitelist.
From S2P Require Import Runtime Progress RawSender Parser Payload Fake Config Daemon Handler Loops.
From S2P Require Import Scenarios Safety Ledger.
Open Scope Z_scope.

(** * Locks *)

Inductive lock := PacerLock (p : nat) | SenderLock.
#[local] Instance lock_eq_dec : EqDecision lock.
Proof. solve_decision. Defined.
(** The lock a goroutine holds, and a pacer it has a pointer to. *)
Record stake := { held : option lock; knows : option nat }.
Definition Free (g : stake) : Prop := held g = None.
Definition nothing_held : stake := {| held := None; knows := None |}.
Definition pointing (p : nat) : stake := {| held := None; knows := Some p |}.
Definition holding (p : nat) : stake := {| held := Some (PacerLock p); knows := Some p |}.
Definition sending (g : stake) : stake := {| held := Some SenderLock; knows := knows g |}.

(** Whether a cooldown is ever drawn from random numbers (the drop action on SYNs,
    with a mode that is not fixed), and a stream that lets the next draw return:
    one number in the upper half among the next [fuel]. *)
Definition draws_cooldowns (cfg : Config) (alg : Algorithm) : Prop :=
  PacketKind cfg <> "payload"%string /\ Action cfg <> "shape"%string
  /\ forall a, alg <> FixedAlg a.

Section locks.
Context (alg : Algorithm) (fuel : nat) (cfg : Config).

(** A cooldown is to be drawn and the generator rejects too many numbers. *)
Definition starved (w : World) : Prop := draws_cooldowns cfg alg /\ ~ high_draw fuel (w_rng w).

Record locks (w : World) (gs : list stake) : Prop := {
  locks_pacers : forall p b, w_pacers w !! p = Some b -> bp_mu b = true ->
    exists i g, gs !! i = Some g /\ held g = Some (PacerLock p);
  locks_sender : mu (w_rawSender w) = true -> exists i g, gs !! i = Some g /\ held g = Some SenderLock;
  locks_known : forall i g p, gs !! i = Some g -> knows g = Some p -> (p < length (w_pacers w))%nat;
  locks_map : forall ip p, w_burstPacerByIP w !! ip = Some p -> (p < length (w_pacers w))%nat;
  locks_alg : algorithm (w_state w) = alg
}.

(** Steps that take and release no lock and invalidate no pointer. *)
Definition same_locks (w w' : World) : Prop :=
  bp_mu <$> w_pacers w' = bp_mu <$> w_pacers w
  /\ w_burstPacerByIP w' ⊆ w_burstPacerByIP w
  /\ mu (w_rawSender w') = mu (w_rawSender w)
  /\ algorithm (w_state w') = algorithm (w_state w).
Lemma locks_same w w' gs : same_locks w w' -> locks w gs -> locks w' gs.
Proof.
  intros (Hp & Hm & Hs & Ha) [H1 H2 H3 H4 H5].
  assert (Hlen : length (w_pacers w') = length (w_pacers w)).
  { rewrite <-(length_fmap bp_mu), Hp. apply length_fmap. }
  split.
  - intros p b Hb Hmu. assert (Hl : (bp_mu <$> w_pacers w) !! p = Some true)
      by (rewrite <-Hp, list_lookup_fmap, Hb; simpl; by rewrite Hmu).
    rewrite list_lookup_fmap in Hl. destruct (w_pacers w !! p) as [b'|] eqn:Hb'; [|done].
    injection Hl as Hl. by apply (H1 p b').
  - by rewrite Hs.
  - intros i g p. rewrite Hlen. apply H3.
  - intros ip p Hip. rewrite Hlen. eapply H4. by eapply lookup_weaken.
  - by rewrite Ha.
Qed.
(** A step of the thread [i]: the locks taken after it are held by [i], or
    were already taken by another. *)
Lemma locks_step w w' gs i g g' :
  gs !! i = Some g -> locks w gs ->
  length (w_pacers w') = length (w_pacers w) -> w_burstPacerByIP w' = w_burstPacerByIP w ->
  algorithm (w_state w') = algorithm (w_state w) ->
  (forall p b, w_pacers w' !! p = Some b -> bp_mu b = true ->
     held g' = Some (PacerLock p)
     \/ held g <> Some (PacerLock p) /\ exists b0, w_pacers w !! p = Some b0 /\ bp_mu b0 = true) ->
  (mu (w_rawSender w') = true ->
     held g' = Some SenderLock \/ held g <> Some SenderLock /\ mu (w_rawSender w) = true) ->
  (forall p, knows g' = Some p -> (p < length (w_pacers w))%nat) ->
  locks w' (<[i := g']> gs).
Proof.
  intros Hg [H1 H2 H3 H4 H5] Hlen Hmap Halg Hp Hs Hk.
  assert (Hi : <[i := g']> gs !! i = Some g') by (apply list_lookup_insert_eq; by eapply lookup_lt_Some).
  assert (Hkeep : forall l, held g <> Some l -> (exists j x, gs !! j = Some x /\ held x = Some l) ->
    exists j x, <[i := g']> gs !! j = Some x /\ held x = Some l).
  { intros l Hl (j & x & Hx & Hxl). exists j, x. split; [|done].
    rewrite list_lookup_insert_ne; [done|]. intros ->. congruence. }
  split.
  - intros p b Hb Hmu. destruct (Hp p b Hb Hmu) as [?|(Hne & b0 & Hb0 & Hmu0)]; [by exists i, g'|].
    by apply Hkeep; [|apply (H1 p b0)].
  - intros Hmu. destruct (Hs Hmu) as [?|[Hne Hmu0]]; [by exists i, g'|]. by apply Hkeep; [|apply H2].
  - intros j x p Hj Hkp. rewrite Hlen. destruct (decide (j = i)) as [->|Hne].
    + simplify_eq. by apply Hk.
    + rewrite list_lookup_insert_ne in Hj by done. by eapply H3.
  - intros ip p. rewrite Hmap, Hlen. apply H4.
  - by rewrite Halg.
Qed.
Lemma locks_ghost w gs i g g' :
  gs !! i = Some g -> locks w gs -> held g' = held g ->
  (forall p, knows g' = Some p -> (p < length (w_pacers w))%nat) -> locks w (<[i := g']> gs).
Proof.
  intros Hg HI Hh Hk. eapply locks_step; try done; rewrite Hh.
  - intros p b Hb Hmu. destruct (decide (held g = Some (PacerLock p))); eauto.
  - intros Hmu. destruct (decide (held g = Some SenderLock)); eauto.
Qed.
Lemma locks_fork w gs i g gt :
  gs !! i = Some g -> locks w gs -> (knows gt = None \/ knows gt = knows g) ->
  locks w (gs ++ [gt]).
Proof.
  intros Hg [H1 H2 H3 H4 H5] Hk.
  assert (Hkeep : forall (P : stake -> Prop), (exists j x, gs !! j = Some x /\ P x) ->
    exists j x, (gs ++ [gt]) !! j = Some x /\ P x)
    by (intros P (j & x & Hj & HP); exists j, x; split; [by apply lookup_app_l_Some|done]).
  split; [| | |done|done].
  - intros p b Hb Hmu. by apply Hkeep, (H1 p b).
  - intros Hmu. by apply Hkeep, H2.
  - intros j x p [Hj|[_ Hj]]%lookup_app_Some Hp; [by eapply H3|].
    apply list_lookup_singleton_Some in Hj as [_ <-]. destruct Hk as [Hk|Hk]; [congruence|].
    eapply H3; [exact Hg|]. congruence.
Qed.

(** ** Operations *)

#[local] Abbreviation alive := (live locks Free starved).

Lemma blocked (gs : list stake) j h l : gs !! j = Some h -> held h = Some l ->
  exists j h, gs !! j = Some h /\ ~ Free h.
Proof. intros Hj Hh. exists j, h. split; [done|]. unfold Free. congruence. Qed.

Lemma pacer_Lock_live p g Q :
  held g = None -> knows g = Some p -> Q tt (holding p) -> alive (pacer_Lock p) g Q.
Proof.
  intros Hh Hk HQ w gs i Hg HI. pose proof (locks_known _ _ HI i g p Hg Hk) as Hlt.
  destruct (w_pacers w !! p) as [b|] eqn:Hb; [|apply lookup_ge_None in Hb; lia].
  destruct (bp_mu b) eqn:Hmu.
  - split; [|done]. intros _ _. split; [done|]. destruct (locks_pacers _ _ HI p b Hb Hmu) as (j & h & ? & ?).
    by eapply blocked.
  - split; [done|]. intros r w' [= <- <-]. exists (holding p). split; [|done].
    eapply locks_step; try done; simpl.
    + apply length_insert.
    + intros q b' Hq Hmu'. destruct (decide (q = p)) as [->|Hne]; [by left|]. right.
      rewrite list_lookup_insert_ne in Hq by done. split; [by rewrite Hh|eauto].
    + right. by rewrite Hh.
    + by intros q [= <-].
Qed.
Lemma pacer_Unlock_live p Q : Q tt (pointing p) -> alive (pacer_Unlock p) (holding p) Q.
Proof.
  intros HQ w gs i Hg HI. split; [done|]. intros r w' [= <- <-]. exists (pointing p). split; [|done].
  eapply locks_step; try done; simpl.
  - apply length_alter.
  - intros q b Hq Hmu. right. destruct (decide (q = p)) as [->|Hne].
    + rewrite list_lookup_alter_eq in Hq. destruct (w_pacers w !! p); [|done]. by simplify_eq/=.
    + rewrite list_lookup_alter_ne in Hq by done. split; [congruence|eauto].
  - by right.
  - intros q [= <-]. by apply (locks_known _ _ HI i (holding p) p Hg).
Qed.
Lemma pacer_read_live {R} p (f : burstPacerState -> R) g Q :
  knows g = Some p -> (forall a, Q a g) -> alive (pacer_read p f) g Q.
Proof.
  intros Hk HQ w gs i Hg HI. pose proof (locks_known _ _ HI i g p Hg Hk) as Hlt.
  destruct (w_pacers w !! p) as [b|] eqn:Hb; [|apply lookup_ge_None in Hb; lia].
  split; [done|]. intros r w' [= <- <-]. exists g. split; [by rewrite list_insert_id|apply HQ].
Qed.
Lemma pacers_LoadOrStore_live ip g (Q : nat -> stake -> Prop) :
  held g = None -> (forall p, Q p (pointing p)) -> alive (pacers_LoadOrStore ip) g Q.
Proof.
  intros Hh HQ w gs i Hg HI. split; [done|]. intros r w' [= Hw].
  destruct (w_burstPacerByIP w !! ip) as [p|] eqn:Hip; injection Hw as <- <-.
  - exists (pointing p). split; [|apply HQ]. eapply locks_ghost; try done.
    intros q [= <-]. by eapply (locks_map _ _ HI).
  - exists (pointing (length (w_pacers w))). split; [|apply HQ].
    assert (HI' : locks (with_pacers (<[ip:=length (w_pacers w)]> (w_burstPacerByIP w))
                           (w_pacers w ++ [burstPacerState_zero]) w) gs).
    { destruct HI as [H1 H2 H3 H4 H5]. split; simpl; try done.
      - intros p b [Hp|[_ Hp]]%lookup_app_Some Hmu; [by apply (H1 p b)|].
        apply list_lookup_singleton_Some in Hp as [_ <-]. done.
      - intros j x p Hj Hp. rewrite length_app. specialize (H3 j x p Hj Hp). lia.
      - intros ip' p. rewrite length_app. simpl. intros [[_ <-]|[_ Hp]]%lookup_insert_Some; [lia|].
        specialize (H4 ip' p Hp). lia. }
    eapply locks_ghost; try done. intros q [= <-]. simpl. rewrite length_app. simpl. lia.
Qed.
Lemma pacers_Load_live ip g (Q : option nat -> stake -> Prop) :
  held g = None -> Q None g -> (forall p, Q (Some p) (pointing p)) -> alive (pacers_Load ip) g Q.
Proof.
  intros Hh HQ1 HQ2 w gs i Hg HI. split; [done|]. intros r w' [= <- <-].
  destruct (w_burstPacerByIP w !! ip) as [p|] eqn:Hip.
  - exists (pointing p). split; [|apply HQ2]. eapply locks_ghost; try done.
    intros q [= <-]. by eapply (locks_map _ _ HI).
  - exists g. split; [by rewrite list_insert_id|apply HQ1].
Qed.
Lemma go_live task g gt Q :
  held g = None -> knows gt = None \/ knows gt = knows g -> alive task gt (fun _ => Free) ->
  Q tt g -> alive (go_stmt task) g Q.
Proof.
  intros Hh Hk Ht HQ. split; [done|]. split; [done|]. exists gt. split; [|done].
  intros w gs i Hg HI. by eapply locks_fork.
Qed.

(** *** Steps that concern no lock *)

Lemma calm_pacer_write p f :
  (forall b, bp_mu (f b) = bp_mu b) -> calm same_locks (pacer_write p f).
Proof.
  intros Hf. apply calm_modify. intros w. split_and!; try done. simpl. apply list_eq. intros q.
  rewrite !list_lookup_fmap. destruct (decide (q = p)) as [->|Hne].
  - rewrite list_lookup_alter_eq. destruct (w_pacers w !! p); simpl; by rewrite ?Hf.
  - by rewrite list_lookup_alter_ne.
Qed.
Lemma cleanup_algorithm order now ttl (s : State Algorithm) :
  algorithm (snd (Cleanup order now ttl s)) = algorithm s.
Proof.
  unfold Cleanup. generalize 0. revert s. induction order as [|ip order IH]; intros s n; simpl; [done|].
  repeat case_match; by rewrite IH.
Qed.

Ltac leaf :=
  match goal with
  | |- True => exact I
  | |- calm _ (Ret _) => exact I
  | |- calm _ (pacer_write _ _) => apply calm_pacer_write; done
  | |- calm _ (modify _) => apply calm_modify; intros; by split_and!
  | |- calm _ (gets _) => apply calm_gets; intros; by split_and!
  | |- calm _ (update _) => apply calm_update; intros; repeat case_match; by split_and!
  end.
Ltac calmly :=
  repeat first
    [ leaf
    | progress unfold accept, pass_through, nf_SetVerdict, emit, logVerbose, count, state_op,
        seen_Delete, seen_Store, seen_Load, flows_Load, flows_Store, flows_Delete, dropOrReject, Now,
        load_pendingDelays, add_pendingDelays, nf_SetVerdictModPacketWithConnMark, window_decide,
        print_removed, pacers_Delete, shape_drop
    | apply calm_bind; [|intros ?]
    | case_match
    | progress cbn [calm] ].
(** Pass over the next statement, which concerns no lock. *)
Ltac next := apply (live_calm locks Free starved same_locks); [apply locks_same|solve [calmly]|intros ?].

Lemma alive_calm {A : Type} (p : prog World A) g (Q : A -> stake -> Prop) :
  calm same_locks p -> (forall a, Q a g) -> alive p g Q.
Proof.
  intros Hp HQ. revert Hp HQ. induction p as [A a|A T f k IH|A t p IH|A task _ p IH|A]; simpl; try done.
  intros Hp HQ w gs i Hg HI. destruct (Hp w) as (r & w' & Hf & Hw & Hc). rewrite Hf.
  split; [done|]. intros r' w'' [= <- <-]. exists g. split; [|by apply IH].
  rewrite list_insert_id by done. by eapply locks_same.
Qed.
Lemma accept_live id g : Free g -> alive (accept id) g (fun _ => Free).
Proof. intros Hg. apply alive_calm; [calmly|done]. Qed.
Lemma sleep_live d g Q : Free g -> Q tt g -> alive (Sleep d) g Q.
Proof. intros Hg HQ. unfold Sleep. next. by split. Qed.
Lemma sleep_if_live d g Q : Free g -> Q tt g -> alive (sleep_if d) g Q.
Proof. intros Hg HQ. unfold sleep_if. case_match; [by apply sleep_live|done]. Qed.

Lemma lock_sender_live g Q : Free g -> Q tt (sending g) -> alive lock_sender g Q.
Proof.
  intros Hg HQ w gs i Hi HI. simpl. destruct (mu (w_rawSender w)) eqn:Hmu.
  - split; [|done]. intros _ _. split; [done|]. destruct (locks_sender _ _ HI Hmu) as (j & h & ? & ?).
    by eapply blocked.
  - split; [done|]. intros r w' [= <- <-]. exists (sending g). split; [|done].
    eapply locks_step; try done; simpl.
    + intros p b Hb Hb'. right. split; [by rewrite Hg|eauto].
    + by left.
    + intros p. by apply (locks_known _ _ HI i g).
Qed.
Lemma unlock_sender_live g Q : Free g -> Q tt g -> alive unlock_sender (sending g) Q.
Proof.
  intros Hg HQ w gs i Hi HI. split; [done|]. intros r w' [= <- <-]. exists g. split; [|done].
  eapply locks_step; try done; simpl.
  - intros p b Hb Hb'. right. split; [done|eauto].
  - intros p. by apply (locks_known _ _ HI i (sending g)).
Qed.
Lemma Send_live K ptr packet mark g (Q : res SendError unit -> stake -> Prop) :
  Free g -> (forall r, Q r g) -> alive (Send K ptr packet mark) g Q.
Proof.
  intros Hg HQ. destruct ptr; [apply HQ|]. unfold Send. case_decide as Hlen; [apply HQ|].
  assert (20 <= len packet) by (unfold ipv4MinHeaderLen in Hlen; lia).
  rewrite (lift_bind _ (byte_at packet 0)) by (apply idx_val; lia). case_decide; [apply HQ|].
  assert (Hun : forall r : res SendError unit, alive (unlock_sender;; Ret r) (sending g) Q)
    by (intros r; apply live_bind, unlock_sender_live; [done|apply HQ]).
  apply live_bind, lock_sender_live; [done|]. next. case_decide; [apply Hun|].
  unfold setsockopt_mark, sendto. next. case_match; [apply Hun|].
  rewrite (lift_bind _ (sub packet 16 20)) by (apply slice_val; lia). next. apply Hun.
Qed.

(** *** Draws *)

Section draws.
Context (Hsyn : PacketKind cfg <> "payload"%string) (Hdrop : Action cfg <> "shape"%string).

Lemma not_starved_draws w :
  algorithm (w_state w) = alg -> ~ starved w ->
  exists d r, Next fuel (algorithm (w_state w)) (w_rng w) = Some (d, r).
Proof.
  intros Ha Hns. destruct (Next fuel (algorithm (w_state w)) (w_rng w)) as [[d r]|] eqn:Hn;
    [by eexists _, _|]. destruct Hns. split.
  - split; [done|]. split; [done|]. intros a Halg. rewrite Ha, Halg in Hn. done.
  - intros Hh. destruct (Next_high fuel (algorithm (w_state w)) (w_rng w) Hh) as (d & r & Hd). congruence.
Qed.
Lemma draw_live {R} (f : State Algorithm -> rng -> option (R * State Algorithm * rng)) g Q :
  (forall s r a s' r', f s r = Some (a, s', r') -> algorithm s' = algorithm s) ->
  (forall s r d r', Next fuel (algorithm s) r = Some (d, r') -> f s r <> None) ->
  (forall a, Q a g) -> alive (state_draw f) g Q.
Proof.
  intros Halg Hf HQ w gs i Hg HI. simpl.
  destruct (f (w_state w) (w_rng w)) as [[[a s'] r']|] eqn:E.
  - split; [done|]. intros r0 w' [= <- <-]. exists g. split; [|apply HQ].
    rewrite list_insert_id by done. eapply locks_same; [|exact HI]. split_and!; try done.
    by eapply Halg.
  - split; [|done]. intros _ Hns. destruct (not_starved_draws w (locks_alg _ _ HI) Hns) as (d & r & Hd).
    by destruct (Hf _ _ _ _ Hd).
Qed.
Lemma Decide_live ip now id g Q :
  (forall d, Q d g) -> alive (state_draw (fun s r => Decide fuel ip now id s r)) g Q.
Proof.
  apply draw_live.
  - intros s r a s' r' (_ & _ & _ & Ha & _)%Decide_figures. done.
  - intros s r d r' Hn. unfold Decide. rewrite Hn. by repeat case_match.
Qed.
Lemma ForceAccept_live ip now id g Q :
  (forall cd, Q cd g) ->
  alive (state_draw (fun s r => match ForceAccept fuel ip now id s r with
                                | Some (cd, _, s, r) => Some (cd, s, r) | None => None end)) g Q.
Proof.
  apply draw_live.
  - intros s r a s' r' Hf. destruct (ForceAccept _ _ _ _ _ _) as [[[[cd ev] s1] r1]|] eqn:E; [|done].
    injection Hf as _ <- _. by apply ForceAccept_restarts in E as [[_ Ha] _].
  - intros s r d r' Hn. unfold ForceAccept. by rewrite Hn.
Qed.
Lemma drop_handler_live id ip mark now g :
  Free g -> alive (drop_handler cfg fuel id ip mark now) g (fun _ => Free).
Proof.
  intros Hg. unfold drop_handler. apply live_bind, Decide_live.
  intros d. case_match; [do 2 next; by apply alive_calm; [calmly|]|].
  apply live_bind, alive_calm.
  { apply calm_update. intros w. unfold IncDrop. destruct (clients (w_state w) !! ip); by split_and!. }
  intros n. case_match.
  - next. apply live_bind, ForceAccept_live. intros cd.
    do 2 next. by apply alive_calm; [calmly|].
  - do 4 next. apply alive_calm; [calmly|done].
Qed.
End draws.

(** ** Handlers and loops *)

Context (whitelist : Whitelist.Whitelist) (env : environment).

Lemma release_live id ip k delay p : alive (release cfg id ip k delay p) (pointing p) (fun _ => Free).
Proof.
  unfold release. apply live_bind, sleep_live; [done|]. apply live_bind, pacer_Lock_live; [done..|].
  do 4 next. apply live_bind, pacer_Unlock_live. do 4 next. by apply alive_calm; [calmly|].
Qed.
Lemma shape_drop_live id mark ev line g : Free g -> alive (shape_drop cfg id mark ev line) g (fun _ => Free).
Proof. intros Hg. apply alive_calm; [calmly|done]. Qed.
Lemma shape_wait_live id ip k mark now lastRelease p :
  alive (shape_wait cfg id ip k mark now lastRelease p) (holding p) (fun _ => Free).
Proof.
  unfold shape_wait. cbv zeta.
  match goal with |- context [if ?b <? 0 then 0 else ?d] => generalize (if b <? 0 then 0 else d) end.
  intros delay.
  assert (Hdrop : forall ev line, alive (pacer_Unlock p;; shape_drop cfg id mark ev line) (holding p)
                                    (fun _ => Free))
    by (intros ev line; by apply live_bind, pacer_Unlock_live, shape_drop_live).
  case_match; [apply Hdrop|]. apply live_bind, pacer_read_live; [done|]. intros pending.
  case_match; [apply Hdrop|]. next. case_match; [apply Hdrop|]. unfold shape_delay. next.
  apply live_bind, pacer_Unlock_live. do 5 next.
  apply live_bind. eapply go_live; [done|by right|apply release_live|done].
Qed.
Lemma shape_handler_live id info ip mark now g :
  Free g -> alive (shape_handler cfg id info ip mark now) g (fun _ => Free).
Proof.
  intros Hg. unfold shape_handler. next. case_match; [by apply shape_drop_live|].
  apply live_bind, pacers_LoadOrStore_live; [done|]. intros p.
  apply live_bind, pacer_Lock_live; [done..|]. next. apply live_bind, pacer_read_live; [done|].
  intros lastRelease. case_match; [|apply shape_wait_live].
  do 3 next. apply live_bind, pacer_Unlock_live. do 3 next. by apply accept_live.
Qed.
Lemma send_fake_live id payload sk mark g :
  Free g -> alive (send_fake cfg env id payload sk mark) g (fun _ => Free).
Proof.
  intros Hg. unfold send_fake. next.
  destruct (clone_total a payload (FakePayload cfg) (FakeLength cfg)) as [r Hr].
  rewrite (lift_bind _ r) by done. destruct r as [[[[fake ?] ?] ?]|e]; [|apply alive_calm; [calmly|done]].
  apply live_bind, Send_live; [done|]. intros [|e]; [|apply alive_calm; [calmly|done]].
  next. apply live_bind, sleep_if_live; [done|]. apply alive_calm; [calmly|done].
Qed.
Lemma send_second_live second k mark g :
  Free g -> alive (send_second cfg env second k mark) g (fun _ => Free).
Proof.
  intros Hg. unfold send_second. apply live_bind, sleep_if_live; [done|].
  apply live_bind, Send_live; [done|]. intros r. apply alive_calm; [calmly|done].
Qed.
Lemma split_segments_live id payload info sk mark g :
  ParseIPv4TCPPayload payload = Val (Some info) -> Free g ->
  alive (split_segments cfg env id payload info sk mark) g (fun _ => Free).
Proof.
  intros Hp Hg. unfold split_segments.
  destruct (SplitIPv4TCPPacket payload info (SplitAt cfg)) as [r|] eqn:Hr;
    [|by apply split_total in Hr]. rewrite (lift_bind _ r) by done.
  destruct r as [[first second]|e]; [|apply alive_calm; [calmly|done]]. case_match.
  - unfold split_reversed. do 2 next. apply live_bind, Send_live; [done|].
    intros [|e]; [|apply alive_calm; [calmly|done]]. next. apply live_bind, sleep_if_live; [done|].
    apply alive_calm; [calmly|done].
  - next. case_match; [apply alive_calm; [calmly|done]|]. case_match; [apply alive_calm; [calmly|done]|].
    do 2 next. apply live_bind, (go_live _ _ nothing_held); [done|by left|by apply send_second_live|].
    apply alive_calm; [calmly|done].
Qed.
Lemma payload_handler_live id payload mark g :
  Free g -> alive (payload_handler cfg env id payload mark) g (fun _ => Free).
Proof.
  intros Hg. unfold payload_handler. rewrite ParsePayload_closed.
  rewrite (lift_bind _ (if decide (payload_packet payload) then Some (payload_info payload) else None))
    by done.
  case_decide as Hp; [|by apply accept_live]. case_match; [by apply accept_live|]. next.
  case_match; [apply alive_calm; [calmly|done]|]. unfold pass_window. next. case_match; [done|].
  do 2 next. apply live_bind.
  assert (Hsplit : alive (split_segments cfg env id payload (payload_info payload)
      (split_key (payload_info payload)) (or_mark (SplitMarkValue cfg) mark)) g (fun _ => Free))
    by (apply split_segments_live; [by apply ParsePayload_ok|done]).
  case_match; [|done].
  eapply live_weaken; [|by apply send_fake_live]. intros [r|] g' Hg'; [done|].
  apply split_segments_live; [by apply ParsePayload_ok|done].
Qed.
Lemma handler_live a g : Free g -> alive (handler cfg whitelist env fuel a) g (fun _ => Free).
Proof.
  intros Hg. unfold handler. destruct (PacketID a) as [id|]; [|done].
  destruct (Daemon.Payload a) as [payload|]; [|by apply accept_live].
  destruct (seqb (PacketKind cfg) "payload") eqn:Hkind; [by apply payload_handler_live|]. unfold syn_handler.
  destruct (match_packet cfg payload) as [r|] eqn:Hm; [|by apply match_packet_total in Hm].
  rewrite (lift_bind _ r) by done. destruct r as [[info ip]|]; [|by apply accept_live].
  case_match; [apply alive_calm; [calmly|done]|]. case_match; [apply alive_calm; [calmly|done]|].
  next. destruct (seqb (Action cfg) "shape") eqn:Hact; [by apply shape_handler_live|].
  unfold seqb in *. apply bool_decide_eq_false in Hkind, Hact. by apply drop_handler_live.
Qed.
Lemma split_seen_range_calm now ttl order n : calm same_locks (split_seen_range now ttl order n).
Proof. revert n. induction order as [|k order IH]; intros n; cbn [split_seen_range]; calmly; apply IH. Qed.
Lemma shape_range_live now ttl order n g :
  Free g -> alive (shape_range now ttl order n) g (fun _ => Free).
Proof.
  intros Hg. revert n g Hg. induction order as [|k order IH]; intros n g Hg; cbn [shape_range]; [done|].
  apply live_bind, pacers_Load_live; [done|by apply IH|]. intros p.
  apply live_bind, pacer_Lock_live; [done..|]. apply live_bind, pacer_read_live; [done|]. intros stale.
  apply live_bind, pacer_Unlock_live. case_match; [|by apply IH].
  apply (live_calm locks Free starved same_locks); [apply locks_same| |intros _; by apply IH].
  apply calm_modify. intros w. split_and!; try done. apply delete_subseteq.
Qed.

Lemma daemon_start_live j w p w' gs g :
  daemon_start cfg whitelist env fuel j w p w' -> gs !! j = Some g -> Free g -> locks w gs ->
  locks w' gs /\ alive p g (fun _ => Free).
Proof.
  intros Hs Hg Hfree HI. destruct Hs; (split; [by eapply locks_same; [|exact HI]|]).
  - apply live_bind. eapply live_weaken; [|by apply handler_live]. by intros.
  - unfold cleanup_tick. next. apply live_bind, alive_calm.
    { apply calm_update. intros w0. pose proof (cleanup_algorithm order a (CleanupAfter cfg) (w_state w0)).
      destruct (Cleanup _ _ _ _). by split_and!. }
    intros n. apply alive_calm; [calmly|done].
  - unfold shape_tick. apply live_bind. eapply live_weaken; [|by apply shape_range_live].
    intros n g' Hg'. apply alive_calm; [calmly|done].
  - unfold split_seen_tick. apply live_bind, alive_calm; [apply split_seen_range_calm|].
    intros n. apply alive_calm; [calmly|done].
  - apply alive_calm; [unfold window_tick; calmly|done].
  - apply alive_calm; [unfold stats_tick, printStats; calmly|done].
Qed.
Lemma daemon_live now r s c :
  0 < CleanupEvery cfg -> 0 < StatsEvery cfg -> mu s = false ->
  rtc (daemon_step cfg whitelist env fuel) (daemon_conf cfg (initial_world now alg r s)) c ->
  conf_live locks Free starved c.
Proof.
  intros Hc Hs Hmu Hr. eapply reachable_live; [| |  |exact Hr].
  - intros w gs t. by apply locks_same.
  - apply daemon_start_live.
  - exists (replicate 6 nothing_held). split.
    + split; try done; simpl.
      * congruence.
      * by intros [|[|[|[|[|[|?]]]]]] ? ? [= <-].
    + unfold daemon_conf, daemon_threads, loop_start, NewTicker. cbn [threads].
      destruct (Z.leb_spec (CleanupEvery cfg) 0); [lia|]. destruct (Z.leb_spec (StatsEvery cfg) 0); [lia|].
      repeat constructor. by case_match.
Qed.
End locks.

(** * Properties *)

(** C2: from every reachable state, once no packet or tick comes, every schedule of
    the goroutines ends. Where none of them can take a step any more, however much
    time passes, all are idle, every packet that arrived has got exactly one
    verdict, and nothing is pending: no schedule deadlocks or loses a packet. The
    one proviso is on the random generator, where the drop action draws cooldowns
    from it: one of its next [fuel] numbers is in the upper half of the 64-bit
    range (rejection sampling always takes such a number). *)
Theorem daemon_comes_to_rest cfg whitelist env fuel now alg r s c :
  0 < CleanupEvery cfg -> 0 < StatsEvery cfg -> MaxPendingDelays cfg <= MaxInt64 ->
  mu s = false ->
  rtc (daemon_step cfg whitelist env fuel) (daemon_conf cfg (initial_world now alg r s)) c ->
  Acc (fun c2 c1 => quiet_step c1 c2) c
  /\ forall c', rtc quiet_step c c' -> (forall c'', ~ quiet_step c' c'') ->
       (draws_cooldowns cfg alg -> high_draw fuel (w_rng (world c'))) ->
       Forall (eq (Ret tt)) (threads c')
       /\ (forall id, verdicts id (w_trace (world c')) = arrivals id (w_trace (world c')))
       /\ w_pendingDelays (world c') = 0 /\ w_shapePendingFlows (world c') = ∅.
Proof.
  intros Hc Hs Hm Hmu Hr. split; [apply quiet_terminates|]. intros c' Hq Hstuck Hdraw.
  assert (Hr' : rtc (daemon_step cfg whitelist env fuel) (daemon_conf cfg (initial_world now alg r s)) c')
    by (etransitivity; [exact Hr|by apply quiet_csteps]).
  assert (Hidle : Forall (eq (Ret tt)) (threads c')).
  { eapply (stuck_idle (locks alg) Free (starved alg fuel cfg));
      [intros w gs t; by apply locks_same|by eapply daemon_live| |exact Hstuck].
    intros [Hd Hn]. by apply Hn, Hdraw. }
  split; [done|]. by eapply idle_settled.
Qed.

(** Idle goroutines take no step. *)
Lemma idle_stuck (c : conf World) : Forall (eq (Ret tt)) (threads c) -> forall c', ~ quiet_step c c'.
Proof.
  intros HF c' Hq. destruct Hq as [ts w t i p p' w' new Hi Ht].
  pose proof (Forall_lookup_1 _ _ _ _ HF Hi) as <-. inversion Ht.
Qed.
(** Two SYNs of one client in drop mode with random cooldowns, run to the end. *)
Definition random_alg : Algorithm := RandomAlg {| Min := 300 * ms; Max := 700 * ms |}.
Definition random_drop : option (conf World) :=
  execute drop_config scenario_whitelist scenario_env 4
    [Drive 1 1; Drive 2 1; Drive 3 1; Drive 5 1; Deliver (syn 1 1 5001); Drive 0 100;
     Deliver (syn 2 1 5002); Drive 0 100]
    (daemon_conf drop_config (initial_world (1000 * ms) random_alg (fun n => 2 ^ 63 + Z.of_nat n)
                                {| fd := 3; mu := false; calls := [] |})).

Lemma daemon_comes_to_rest_witness :
  (exists c, shaped = Some c /\ w_pendingDelays (world c) = 1
    /\ Acc (fun c2 c1 => quiet_step c1 c2) c
    /\ forall c', rtc quiet_step c c' -> (forall c'', ~ quiet_step c' c'') ->
         verdicts 2 (w_trace (world c')) = arrivals 2 (w_trace (world c')))
  /\ exists c, random_drop = Some c /\ draws_cooldowns drop_config random_alg
       /\ high_draw 4 (w_rng (world c))
       /\ verdicts 2 (w_trace (world c)) = arrivals 2 (w_trace (world c)).
Proof.
  split.
  - assert (H : option_map (fun c => w_pendingDelays (world c)) shaped = Some 1)
      by (vm_compute; reflexivity).
    destruct shaped as [c|] eqn:E; [|discriminate H]. injection H as H. exists c.
    split; [reflexivity|]. split; [exact H|]. apply shaped_reachable in E.
    destruct (daemon_comes_to_rest shape_config scenario_whitelist scenario_env 1
      (1000 * ms) fixed500 no_draws {| fd := 3; mu := false; calls := [] |} c) as [Hacc Hrest];
      [reflexivity|reflexivity|vm_compute; discriminate|reflexivity|exact E|].
    split; [exact Hacc|]. intros c' Hq Hs. apply (Hrest c' Hq Hs).
    intros (_ & Hne & _). by destruct Hne.
  - assert (H : option_map (fun c => (w_rng (world c) 0%nat, forallb idle (threads c))) random_drop
                = Some (2 ^ 63 + 1, true)) by (vm_compute; reflexivity).
    destruct random_drop as [c|] eqn:E; [|discriminate H]. injection H as Hrng Hidle. exists c.
    assert (Hhigh : high_draw 4 (w_rng (world c))).
    { exists 0%nat. split; [lia|]. rewrite Hrng. vm_compute. discriminate. }
    split; [reflexivity|]. split; [by split_and!|]. split; [exact Hhigh|].
    destruct (daemon_comes_to_rest drop_config scenario_whitelist scenario_env 4 (1000 * ms) random_alg
      (fun n => 2 ^ 63 + Z.of_nat n) {| fd := 3; mu := false; calls := [] |} c) as [_ Hrest];
      [reflexivity|reflexivity|vm_compute; discriminate|reflexivity|by eapply execute_rtc|].
    apply (Hrest c); [reflexivity|by apply idle_stuck, all_idle|by intros].
Defined.
