(* ===== verification/HandlerSpec.v ===== *)
(** What the handler does with one packet: marks, the decision of drop mode run
    alone, and the bound on consecutive drops, alone and with the cleanup loop at
    work between its steps. *)

From S2P Require Import Prelude GoStrings GoNet GoTime Algorithm State Stats Window Whitelist.
From S2P Require Import Runtime RawSender Parser Payload Fake Config Daemon Handler Loops Scenarios.
Open Scope Z_scope.

(** * Marks *)

Lemma land_eq_bits a b mask :
  0 <= mask -> (Z.land a mask = Z.land b mask
  <-> forall i, 0 <= i -> Z.testbit mask i = true -> Z.testbit a i = Z.testbit b i).
Proof.
  intros Hm. split.
  - intros He i Hi Hb. apply (f_equal (fun z => Z.testbit z i)) in He.
    rewrite !Z.land_spec, Hb, !andb_true_r in He. done.
  - intros Hb. apply Z.bits_inj'. intros i Hi. rewrite !Z.land_spec.
    destruct (Z.testbit mask i) eqn:E; [|by rewrite !andb_false_r].
    rewrite !andb_true_r. by apply Hb.
Qed.

(** C32: a packet is skipped exactly when skipping is enabled, it carries a mark
    and the mark agrees with the configured value on every bit of the mask; a
    refused packet is dropped, or accepted with exactly the bits of the
    reject mark added to its own; the same holds of split marks. *)
Theorem mark_semantics cfg packetMark id w :
  (SkipMarkEnabled cfg = true -> 0 <= SkipMarkMask cfg) ->
  (skip_marked cfg packetMark = true
   <-> SkipMarkEnabled cfg = true /\ exists m, packetMark = Some m
       /\ forall i, 0 <= i -> Z.testbit (SkipMarkMask cfg) i = true ->
            Z.testbit m i = Z.testbit (SkipMarkValue cfg) i)
  /\ (forall v i, 0 <= i -> Z.testbit (or_mark v packetMark) i
        = Z.testbit v i || match packetMark with Some m => Z.testbit m i | None => false end)
  /\ run (dropOrReject cfg id packetMark) w
     = Some (tt, with_event
              (if RejectMarkEnabled cfg
               then SetVerdictWithMark id NfAccept (or_mark (RejectMarkValue cfg) packetMark)
               else SetVerdict id NfDrop) w, []).
Proof.
  intros Hmask. split_and!.
  - unfold skip_marked. rewrite andb_true_iff. split.
    + intros [He Hm]. split; [done|]. destruct packetMark as [m|]; [|done]. exists m.
      split; [done|]. apply Z.eqb_eq in Hm. apply land_eq_bits; auto.
    + intros (He & m & -> & Hb). split; [done|]. apply Z.eqb_eq, land_eq_bits; auto.
  - intros v i Hi. unfold or_mark. destruct packetMark; [apply Z.lor_spec|by rewrite orb_false_r].
  - unfold dropOrReject. by destruct (RejectMarkEnabled cfg).
Qed.
Lemma mark_semantics_witness :
  skip_marked shape_config (Some 0x4c1) = true
  /\ Z.testbit (or_mark 0x800 (Some 0x2)) 11 = true.
Proof.
  destruct (mark_semantics shape_config (Some 0x4c1) 1 scenario_world) as ([_ H1] & _ & _);
    [by vm_compute|].
  destruct (mark_semantics shape_config (Some 0x2) 1 scenario_world) as (_ & H2 & _);
    [by vm_compute|].
  split.
  - apply H1. split; [reflexivity|]. exists 0x4c1. split; [reflexivity|].
    intros i Hi. change (SkipMarkMask shape_config) with (2 ^ 10).
    rewrite Z.pow2_bits_eqb by lia. intros Heq%Z.eqb_eq. by subst i.
  - rewrite H2 by lia. reflexivity.
Defined.

(** * Drop mode *)

Section drop.
Context (cfg : Config) (fuel : nat).

(** The verbose line, if enabled. *)
Definition lines (line : string) (tr : list Event) : list Event :=
  if Verbose cfg then Logged line :: tr else tr.
Definition refusal (id : Z) (packetMark : option Z) : Event :=
  if RejectMarkEnabled cfg
  then SetVerdictWithMark id NfAccept (or_mark (RejectMarkValue cfg) packetMark)
  else SetVerdict id NfDrop.

Lemma run_log {B : Type} line (k : unit -> prog World B) w :
  run (logVerbose (Verbose cfg) line ≫= k) w
  = run (k tt) (if Verbose cfg then with_event (Logged line) w else w).
Proof. unfold logVerbose. by destruct (Verbose cfg). Qed.
Lemma run_refuse {B : Type} id packetMark (k : unit -> prog World B) w :
  run (dropOrReject cfg id packetMark ≫= k) w = run (k tt) (with_event (refusal id packetMark) w).
Proof. unfold dropOrReject, refusal. by destruct (RejectMarkEnabled cfg). Qed.

(** The client entry after a refusal. *)
Definition one_more_drop (st : ClientState) : ClientState :=
  {| cs_LastSeen := cs_LastSeen st; cs_Cooldown := cs_Cooldown st;
     cs_DropCount := wrapI64 (cs_DropCount st + 1) |}.
Definition forced (st : ClientState) : Prop :=
  0 < MaxDropsPerIP cfg < wrapI64 (cs_DropCount st + 1).
#[export] Instance forced_dec st : Decision (forced st).
Proof. unfold forced. apply _. Defined.
Definition fresh_client (now : Time) (cd : Duration) : ClientState :=
  {| cs_LastSeen := now; cs_Cooldown := cd; cs_DropCount := 0 |}.

(** The world after a packet has been dealt with: a verbose line and what goes out
    after it, new clients, last event, counters and random stream; nothing else
    moves. *)
Definition settled (w : World) (out : list Event) (line : string)
    (cs : gmap string ClientState) (ev : LastEvent) (co : Counters) (r : rng) : World :=
  {| w_clock := w_clock w;
     w_state := {| clients := cs; lastEvent := ev; algorithm := algorithm (w_state w) |};
     w_rng := r; w_counters := co; w_pendingDelays := w_pendingDelays w;
     w_burstPacerByIP := w_burstPacerByIP w; w_pacers := w_pacers w;
     w_shapePendingFlows := w_shapePendingFlows w; w_splitSeen := w_splitSeen w;
     w_splitPayloadWindow := w_splitPayloadWindow w; w_rawSender := w_rawSender w;
     w_trace := out ++ lines line (w_trace w) |}.
Definition client_event (type ip : string) (id : Z) (cd el rem : Duration) : LastEvent :=
  {| ev_Type := type; ev_IP := ip; ev_PacketID := id; ev_Cooldown := cd; ev_Elapsed := el;
     ev_Remaining := rem |}.

(** The world after an accepted, a force-accepted and a refused packet. *)
Definition after_accept (id : Z) (ip : string) (now : Time) (cd : Duration) (r : rng)
    (w : World) : World :=
  let type := match clients (w_state w) !! ip with
              | None => "ACCEPT-FIRST" | Some _ => "ACCEPT" end%string in
  let el := match clients (w_state w) !! ip with
            | None => 0 | Some st => time_Sub now (cs_LastSeen st) end in
  settled w [SetVerdict id NfAccept] "ACCEPT"
    (<[ip := fresh_client now cd]> (clients (w_state w))) (client_event type ip id cd el 0)
    (IncAccepted (w_counters w)) r.
Definition after_force (id : Z) (ip : string) (cd : Duration) (r : rng) (w : World) : World :=
  settled w [SetVerdict id NfAccept] "FORCE-ACCEPT"
    (<[ip := fresh_client (w_clock w) cd]> (clients (w_state w)))
    (client_event "FORCE-ACCEPT" ip id cd 0 0) (IncAccepted (w_counters w)) r.
Definition after_drop (id : Z) (ip : string) (packetMark : option Z) (now : Time)
    (st : ClientState) (w : World) : World :=
  let el := time_Sub now (cs_LastSeen st) in
  settled w [refusal id packetMark] "DROP"
    (if ForgetOnDrop cfg then delete ip (clients (w_state w))
     else <[ip := one_more_drop st]> (clients (w_state w)))
    (client_event "DROP" ip id (cs_Cooldown st) el (wrapI64 (cs_Cooldown st - el)))
    (IncDropped (w_counters w)) (w_rng w).

Lemma drop_handler_refused id ip packetMark now w st :
  clients (w_state w) !! ip = Some st -> time_Sub now (cs_LastSeen st) < cs_Cooldown st ->
  ~ forced st ->
  run (drop_handler cfg fuel id ip packetMark now) w
  = Some (0, after_drop id ip packetMark now st w, []).
Proof.
  intros Hst Hin Hf. unfold drop_handler, state_draw.
  erewrite run_try_bind; [|unfold Decide; rewrite Hst;
    destruct (Z.leb_spec (cs_Cooldown st) (time_Sub now (cs_LastSeen st))); [lia|reflexivity]].
  cbn [allowed]. rewrite run_update_bind. unfold IncDrop. cbn [w_state with_state set_event clients].
  rewrite Hst. cbn [fst snd cs_DropCount].
  replace ((0 <? MaxDropsPerIP cfg) && (MaxDropsPerIP cfg <? wrapI64 (cs_DropCount st + 1)))
    with false by (unfold forced in Hf; lia).
  unfold count, state_op, after_drop, settled, lines. rewrite !run_modify_bind.
  destruct (ForgetOnDrop cfg).
  - rewrite run_modify_bind, run_log, run_refuse, run_ret.
    rewrite <-(delete_insert_eq (clients (w_state w)) ip (one_more_drop st)).
    by destruct (Verbose cfg).
  - rewrite ret_bind, run_log, run_refuse, run_ret. by destruct (Verbose cfg).
Qed.

Lemma drop_handler_accepted ip packetMark id now w :
  cooled_down ip now (w_state w) ->
  run (drop_handler cfg fuel id ip packetMark now) w
  = match Next fuel (algorithm (w_state w)) (w_rng w) with
    | Some (cd, r) => Some (0, after_accept id ip now cd r w, [])
    | None => None
    end.
Proof.
  intros Hc. unfold drop_handler, state_draw, after_accept, settled, lines.
  unfold try_update, mbind, prog_mbind. cbn [prog_bind run]. unfold Decide, cooled_down in *.
  destruct (clients (w_state w) !! ip) as [st|];
    [destruct (Z.leb_spec (cs_Cooldown st) (time_Sub now (cs_LastSeen st))); [|lia]|];
    (destruct (Next fuel (algorithm (w_state w)) (w_rng w)) as [[cd r]|]; [|done]);
    cbn [allowed]; by destruct (Verbose cfg).
Qed.

Lemma drop_handler_forced ip packetMark id now w st :
  clients (w_state w) !! ip = Some st -> time_Sub now (cs_LastSeen st) < cs_Cooldown st ->
  forced st ->
  run (drop_handler cfg fuel id ip packetMark now) w
  = match Next fuel (algorithm (w_state w)) (w_rng w) with
    | Some (cd, r) => Some (0, after_force id ip cd r w, [])
    | None => None
    end.
Proof.
  intros Hst Hin Hf. unfold drop_handler, state_draw.
  erewrite run_try_bind; [|unfold Decide; rewrite Hst;
    destruct (Z.leb_spec (cs_Cooldown st) (time_Sub now (cs_LastSeen st))); [lia|reflexivity]].
  cbn [allowed]. rewrite run_update_bind. unfold IncDrop. cbn [w_state with_state set_event clients].
  rewrite Hst. cbn [fst snd cs_DropCount].
  replace ((0 <? MaxDropsPerIP cfg) && (MaxDropsPerIP cfg <? wrapI64 (cs_DropCount st + 1)))
    with true by (unfold forced in Hf; lia).
  unfold Now. rewrite run_gets_bind. cbn [w_state w_rng w_clock clock World_clocked with_state].
  unfold after_force, settled, lines.
  destruct (Next fuel (algorithm (w_state w)) (w_rng w)) as [[cd r]|] eqn:En.
  - erewrite run_try_bind.
    2: { unfold ForceAccept. cbn [w_state w_rng with_state set_client set_event algorithm]. rewrite En. reflexivity. }
    unfold count. rewrite run_modify_bind, run_log. unfold accept, nf_SetVerdict, emit.
    rewrite run_modify_bind, run_ret.
    rewrite <-(insert_insert_eq (clients (w_state w)) ip (fresh_client (w_clock w) cd) (one_more_drop st)).
    by destruct (Verbose cfg).
  - unfold try_update, mbind, prog_mbind, ForceAccept. cbn [prog_bind run].
    cbn [w_state w_rng with_state set_client set_event algorithm]. by rewrite En.
Qed.
End drop.

(** C3: the whole effect of one packet in drop mode, run alone, on every part of
    the world. A packet of a client whose cooldown is over is accepted: the client
    restarts at the packet's time with a fresh draw and no drops, one more packet
    counts as accepted, the event is ACCEPT-FIRST or ACCEPT with the elapsed time.
    Inside the cooldown, one whose number of drops exceeds the maximum is accepted
    by force, restarting the client at the time read then; any other is refused by
    a drop or the reject mark, counted, recorded as DROP with the cooldown's
    figures, and its client keeps its cooldown with one more drop or is forgotten.
    The refusing branch draws nothing. The clock, the pacers, the flows, the split
    state and the raw sender do not change. *)
Theorem drop_mode_decision cfg fuel id ip packetMark now w :
  (cooled_down ip now (w_state w) ->
     forall cd r, Next fuel (algorithm (w_state w)) (w_rng w) = Some (cd, r) ->
     run (drop_handler cfg fuel id ip packetMark now) w
     = Some (0, after_accept cfg id ip now cd r w, []))
  /\ (forall st, clients (w_state w) !! ip = Some st ->
        time_Sub now (cs_LastSeen st) < cs_Cooldown st ->
        (forced cfg st ->
           forall cd r, Next fuel (algorithm (w_state w)) (w_rng w) = Some (cd, r) ->
           run (drop_handler cfg fuel id ip packetMark now) w
           = Some (0, after_force cfg id ip cd r w, []))
        /\ (~ forced cfg st ->
           run (drop_handler cfg fuel id ip packetMark now) w
           = Some (0, after_drop cfg id ip packetMark now st w, []))).
Proof.
  split; [|intros st Hst Hin; split].
  - intros Hc cd r Hn. by rewrite drop_handler_accepted, Hn.
  - intros Hf cd r Hn. by rewrite (drop_handler_forced cfg fuel ip packetMark id now w st), Hn.
  - by apply drop_handler_refused.
Qed.
Definition client_ip : string := "192.0.2.1".
Definition seen_world (drops : Z) : World :=
  with_state (set_client client_ip
    {| cs_LastSeen := 900 * ms; cs_Cooldown := 500 * ms; cs_DropCount := drops |} (NewState fixed500))
    no_draws scenario_world.
(** A third packet within the cooldown is refused, a fourth forced through. *)
Lemma drop_mode_decision_witness :
  (exists w', run (drop_handler drop_config 1 7 client_ip (Some 2) (1000 * ms)) (seen_world 1)
              = Some (0, w', [])
     /\ w_trace w' = [SetVerdictWithMark 7 NfAccept 0x802]
     /\ lastEvent (w_state w') = client_event "DROP" client_ip 7 (500 * ms) (100 * ms) (400 * ms)
     /\ clients (w_state w') !! client_ip
        = Some {| cs_LastSeen := 900 * ms; cs_Cooldown := 500 * ms; cs_DropCount := 2 |})
  /\ exists w', run (drop_handler drop_config 1 8 client_ip None (1000 * ms)) (seen_world 2)
                = Some (0, w', [])
     /\ w_trace w' = [SetVerdict 8 NfAccept]
     /\ lastEvent (w_state w') = client_event "FORCE-ACCEPT" client_ip 8 (500 * ms) 0 0.
Proof.
  split; eexists.
  - split; [apply (proj2 (drop_mode_decision drop_config 1 7 client_ip (Some 2) (1000 * ms) (seen_world 1))
                     _ eq_refl); [reflexivity|intros [_ Hf]; by vm_compute in Hf]|].
    split; [reflexivity|]. split; vm_compute; reflexivity.
  - split; [apply (proj2 (drop_mode_decision drop_config 1 8 client_ip None (1000 * ms) (seen_world 2))
                     _ eq_refl) with (cd := 500 * ms) (r := no_draws);
              [reflexivity|split; reflexivity|reflexivity]|].
    split; [reflexivity|]. vm_compute; reflexivity.
Defined.

(** ** Consecutive drops *)

(** What the cleanup and statistics loops may do while a packet is handled: any
    number of clients may be forgotten (none appears or changes) and no verdict is
    given; everything else is left free. *)
Definition verdict_event (e : Event) : bool :=
  match e with
  | SetVerdict _ _ | SetVerdictWithMark _ _ _ | SetVerdictModPacketWithConnMark _ _ _ _ _ => true
  | _ => false
  end.
Fixpoint last_verdict (tr : list Event) : option Event :=
  match tr with
  | [] => None
  | e :: tr => if verdict_event e then Some e else last_verdict tr
  end.
Definition forgets (w w' : World) : Prop :=
  clients (w_state w') ⊆ clients (w_state w)
  /\ last_verdict (w_trace w') = last_verdict (w_trace w).
#[export] Instance forgets_preorder : PreOrder forgets.
Proof.
  split; [by intros w|]. intros w1 w2 w3 [Hc1 Hv1] [Hc2 Hv2].
  split; [by etransitivity|congruence].
Qed.

(** The ticks of those loops do nothing else. *)
Lemma Cleanup_subset order now ttl (s : State Algorithm) :
  clients (Cleanup order now ttl s).2 ⊆ clients s.
Proof.
  unfold Cleanup. generalize 0 at 1. revert s.
  induction order as [|k order IH]; intros s n; [done|]. cbn [fold_left].
  destruct (cleanup_visit (time_Add now (wrapI64 (- ttl))) (n, s) k) as [n1 s1] eqn:E.
  etransitivity; [apply IH|]. unfold cleanup_visit in E.
  repeat case_match; simplify_eq; simpl; [apply delete_subseteq|done..].
Qed.
Lemma print_removed_forgets what n ttl : keeps forgets (print_removed what n ttl).
Proof. unfold print_removed. case_match; [|done]. by apply keeps_modify. Qed.
Lemma cleanup_tick_forgets cfg order : keeps forgets (cleanup_tick cfg order).
Proof.
  unfold cleanup_tick, Now. apply keeps_bind; [by apply keeps_gets|]. intros now.
  apply keeps_bind; [|intros; apply print_removed_forgets]. apply keeps_update. intros w.
  pose proof (Cleanup_subset order now (CleanupAfter cfg) (w_state w)) as Hs.
  by destruct (Cleanup _ _ _ _) as [n s].
Qed.
Lemma stats_tick_forgets cfg : keeps forgets (stats_tick cfg).
Proof.
  unfold stats_tick. case_match; [done|].
  apply keeps_bind; [by apply keeps_gets|]. intros [tracked ev].
  do 4 (apply keeps_bind; [by apply keeps_gets|]; intros ?). unfold printStats, emit.
  repeat case_match; (done || by apply keeps_modify).
Qed.

(** SYNs handled one after the other, and whether each was accepted. Within a
    handler the other goroutines act by [I]; between two handlers clients may be
    forgotten, and anything but the clients may change. *)
Record syn_event := { se_id : Z; se_ip : string; se_mark : option Z; se_now : Time }.
Definition accepted_now (v : option Event) : bool :=
  match v with Some (SetVerdict _ NfAccept) => true | _ => false end.
Inductive drop_run (I : World -> World -> Prop) (cfg : Config) (fuel : nat) :
    list (syn_event * bool) -> gmap string ClientState -> Prop :=
| drop_run_nil m : drop_run I cfg fuel [] m
| drop_run_cons e l m w w' :
    clients (w_state w) ⊆ m ->
    among I (drop_handler cfg fuel (se_id e) (se_ip e) (se_mark e) (se_now e)) w 0 w' ->
    drop_run I cfg fuel l (clients (w_state w')) ->
    drop_run I cfg fuel ((e, accepted_now (last_verdict (w_trace w'))) :: l) m.
Definition counts_ok (cfg : Config) (m : gmap string ClientState) : Prop :=
  map_Forall (fun _ st => 0 <= cs_DropCount st <= MaxDropsPerIP cfg) m.
Definition refused_of (ip : string) (l : list (syn_event * bool)) : list (syn_event * bool) :=
  List.filter (fun x => bool_decide (se_ip (fst x) = ip)) l.

Section among_others.
Context (I : World -> World -> Prop) `{!Reflexive I}.
Context (HI : forall w w', I w w' -> forgets w w').
Context (cfg : Config) (fuel : nat).

(** A sequence, and one atomic step, among the others. *)
Lemma among_seq {A B : Type} (p : prog World A) (k : A -> prog World B) w b w' :
  among I (p ≫= k) w b w' -> exists a w1, among I p w a w1 /\ among I (k a) w1 b w'.
Proof. apply (among_bind I). Qed.
Lemma among_step {R : Type} (f : World -> option (R * World)) w r w' :
  among I (Step f Ret) w r w' ->
  exists w1 w2, I w w1 /\ f w1 = Some (r, w2) /\ I w2 w'.
Proof. intros (w1 & r' & w2 & ? & ? & <- & ?). by exists w1, w2. Qed.
Lemma among_verdict {A : Type} e w (a : A) w' :
  verdict_event e = true -> among I (emit e;; (Ret a : prog World A)) w a w' ->
  clients (w_state w') ⊆ clients (w_state w) /\ last_verdict (w_trace w') = Some e.
Proof.
  intros He (u & w1 & (w2 & w3 & H1 & [= _ <-] & H2)%among_step & [_ H3])%among_seq.
  apply HI in H1 as [Hc1 _], H2 as [Hc2 Hv2], H3 as [Hc3 Hv3]. split.
  - by do 2 (etransitivity; [eassumption|]).
  - rewrite Hv3, Hv2. simpl. by rewrite He.
Qed.
(** The steps before the verdict that leave the clients alone. *)
Definition fewer (w w' : World) : Prop := clients (w_state w') ⊆ clients (w_state w).
#[local] Instance fewer_preorder : PreOrder fewer.
Proof. unfold fewer. split; [by intros w|]. intros w1 w2 w3 H1 H2. by etransitivity. Qed.
Lemma among_quiet {A : Type} (p : prog World A) w a w' :
  keeps fewer p -> among I p w a w' -> fewer w w'.
Proof. intros Hk. apply (among_keeps I fewer p); [by intros w1 w2 []%HI|by unfold fewer|done]. Qed.
Lemma among_log line w u w' :
  among I (logVerbose (Verbose cfg) line) w u w' -> clients (w_state w') ⊆ clients (w_state w).
Proof. apply among_quiet. unfold logVerbose, fewer. case_match; [by apply keeps_modify|done]. Qed.
Lemma among_count f w u w' :
  among I (count f) w u w' -> clients (w_state w') ⊆ clients (w_state w).
Proof. apply among_quiet. unfold fewer. by apply keeps_modify. Qed.
Lemma among_refuse id packetMark w w' :
  among I (dropOrReject cfg id packetMark;; Ret 0) w 0 w' ->
  clients (w_state w') ⊆ clients (w_state w)
  /\ accepted_now (last_verdict (w_trace w')) = false.
Proof.
  unfold dropOrReject. destruct (negb (RejectMarkEnabled cfg));
    intros [Hc Hv]%among_verdict; try done; by rewrite Hv.
Qed.
Lemma among_accepted id line w w' :
  among I (count IncAccepted;; logVerbose (Verbose cfg) line;; accept id) w 0 w' ->
  clients (w_state w') ⊆ clients (w_state w)
  /\ accepted_now (last_verdict (w_trace w')) = true.
Proof.
  intros (u1 & w1 & H1%among_count & H)%among_seq.
  apply among_seq in H as (u2 & w2 & H2%among_log & [Hc Hv]%among_verdict); [|done].
  rewrite Hv. split; [|done]. by do 2 (etransitivity; [eassumption|]).
Qed.
Lemma among_dropped id ip packetMark ev w w' :
  among I (count IncDropped;; state_op (RememberEvent ev);;
           (if ForgetOnDrop cfg then state_op (Forget ip) else Ret tt);;
           logVerbose (Verbose cfg) "DROP";; dropOrReject cfg id packetMark;; Ret 0) w 0 w' ->
  clients (w_state w')
    ⊆ (if ForgetOnDrop cfg then delete ip (clients (w_state w)) else clients (w_state w))
  /\ accepted_now (last_verdict (w_trace w')) = false.
Proof.
  intros (u1 & w1 & H1%among_count & H)%among_seq.
  apply among_seq in H as (u2 & w2 & H2%among_quiet & H); [|unfold fewer; by apply keeps_modify].
  apply among_seq in H as (u3 & w3 & H3 & H).
  apply among_seq in H as (u4 & w4 & H4%among_log & [H5 Hv]%among_refuse).
  split; [|done]. assert (H45 : clients (w_state w') ⊆ clients (w_state w3)) by by etransitivity.
  assert (H12 : clients (w_state w2) ⊆ clients (w_state w)) by by etransitivity.
  etransitivity; [exact H45|]. destruct (ForgetOnDrop cfg).
  - apply among_step in H3 as (w5 & w6 & [Hc5 _]%HI & [= _ <-] & [Hc6 _]%HI).
    etransitivity; [exact Hc6|]. simpl. apply delete_mono. by etransitivity.
  - destruct H3 as [_ [Hc3 _]%HI]. by etransitivity.
Qed.

Lemma subset_lookup (m m' : gmap string ClientState) ip st :
  m' ⊆ m -> m' !! ip = Some st -> m !! ip = Some st.
Proof. intros Hm Hl. by eapply lookup_weaken. Qed.
Lemma subset_delete (m m' : gmap string ClientState) ip :
  m' ⊆ m -> m' !! ip = None -> m' ⊆ delete ip m.
Proof.
  intros Hm Hip. apply map_subseteq_spec. intros j st Hj. rewrite lookup_delete_ne by congruence.
  by eapply subset_lookup.
Qed.

(** A forced accept, after the drop has been counted. *)
Lemma among_forced id ip w w' :
  among I (forcedAt ← Now;
           state_draw (fun s r => match ForceAccept fuel ip forcedAt id s r with
                                  | Some (cd, _, s, r) => Some (cd, s, r)
                                  | None => None
                                  end);;
           count IncAccepted;; logVerbose (Verbose cfg) "FORCE-ACCEPT";; accept id) w 0 w' ->
  (exists t cd, clients (w_state w') ⊆ <[ip := fresh_client t cd]> (clients (w_state w)))
  /\ accepted_now (last_verdict (w_trace w')) = true.
Proof.
  intros (t & w1 & H1%among_quiet & H)%among_seq; [|unfold fewer; by apply keeps_gets].
  apply among_seq in H as (c & w2 & (w3 & w4 & [H3 _]%HI & Hf & [H4 _]%HI)%among_step & [H5 Hv]%among_accepted).
  split; [|done]. unfold ForceAccept in Hf.
  destruct (Next fuel (algorithm (w_state w3)) (w_rng w3)) as [[cd r]|]; [|done].
  injection Hf as _ <-. exists t, cd. etransitivity; [exact H5|]. etransitivity; [exact H4|].
  simpl. apply insert_mono. by etransitivity.
Qed.

(** The three outcomes of a handler among the others: accepted; refused and
    counted; refused with the client forgotten before the refusal was counted. *)
Lemma drop_handler_among id ip packetMark now w w' :
  0 < MaxDropsPerIP cfg ->
  among I (drop_handler cfg fuel id ip packetMark now) w 0 w' ->
  let accepted := accepted_now (last_verdict (w_trace w')) in
  let m := clients (w_state w) in
  let m' := clients (w_state w') in
  (accepted = true /\ exists t cd, m' ⊆ <[ip := fresh_client t cd]> m)
  \/ (accepted = false /\ exists st, m !! ip = Some st /\ ~ forced cfg st
        /\ m' ⊆ <[ip := one_more_drop st]> m)
  \/ (accepted = false /\ is_Some (m !! ip) /\ m' ⊆ delete ip m
        /\ exists w1 w2, I w1 w2 /\ clients (w_state w1) !! ip <> clients (w_state w2) !! ip).
Proof.
  intros Hmax (d & w1 & (w2 & w3 & [H2 _]%HI & Hd & H3)%among_step & H)%among_seq.
  pose proof (HI _ _ H3) as [H3' _].
  destruct (Decide fuel ip now id (w_state w2) (w_rng w2)) as [[[d' s] r]|] eqn:ED; [|done].
  injection Hd as -> <-. cbv zeta.
  apply Decide_cases in ED as [(Ha & _ & [Hs _] & _)|(Ha & _ & Hs & _ & _ & st & Hst & _)]; rewrite Ha in H.
  { left. apply among_accepted in H as [Hc Hv]. split; [done|]. eexists now, _.
    etransitivity; [exact Hc|]. etransitivity; [exact H3'|]. simpl. rewrite Hs. by apply insert_mono. }
  cbn [w_state with_state] in H3'. rewrite Hs in H3'.
  pose proof (subset_lookup _ _ _ _ H2 Hst) as Hst0.
  apply among_seq in H as (n & w6 & (w4 & w5 & H4 & Hi & [H6 _]%HI)%among_step & H).
  pose proof (HI _ _ H4) as [H4' _].
  assert (Hw4 : clients (w_state w4) ⊆ clients (w_state w)) by (do 2 (etransitivity; [eassumption|]); done).
  unfold IncDrop in Hi. destruct (clients (w_state w4) !! ip) as [st4|] eqn:E4.
  - pose proof (subset_lookup _ _ _ _ Hw4 E4) as E0. rewrite Hst0 in E0. injection E0 as <-.
    injection Hi as <- <-. cbn [w_state with_state set_client clients cs_DropCount] in *.
    destruct ((0 <? MaxDropsPerIP cfg) && (MaxDropsPerIP cfg <? wrapI64 (cs_DropCount st + 1))) eqn:Eb.
    + apply among_forced in H as [(t & cd & Hc) Hv]. left. split; [done|]. exists t, cd.
      etransitivity; [exact Hc|]. etransitivity; [apply insert_mono, H6|].
      rewrite insert_insert_eq. by apply insert_mono.
    + apply among_dropped in H as [Hc Hv]. right; left. split; [done|]. exists st.
      split; [done|]. split; [unfold forced; lia|].
      etransitivity; [exact Hc|]. etransitivity; [|apply insert_mono, Hw4].
      etransitivity; [|exact H6]. case_match; [apply delete_subseteq|done].
  - injection Hi as <- <-. rewrite andb_false_intro2 in H by lia.
    apply among_dropped in H as [Hc Hv]. right; right. split; [done|]. split; [by eexists|].
    split.
    { etransitivity; [|by apply (subset_delete _ _ _ Hw4)]. etransitivity; [exact Hc|].
      etransitivity; [|exact H6]. case_match; [apply delete_subseteq|done]. }
    assert (H3ip : clients (w_state (with_state s r w2)) !! ip = Some st) by (simpl; by rewrite Hs).
    destruct (clients (w_state w1) !! ip) as [st1|] eqn:E1.
    + exists w1, w4. split; [done|]. by rewrite E1, E4.
    + exists (with_state s r w2), w1. split; [done|]. by rewrite H3ip, E1.
Qed.
End among_others.

(** Refusals of an address still possible before a packet of it is accepted;
    [slack] is 1 where a refusal may go uncounted. *)
Definition drops_left (slack : Z) (cfg : Config) (m : gmap string ClientState) (ip : string) : Z :=
  match m !! ip with Some st => slack + MaxDropsPerIP cfg - cs_DropCount st | None => 0 end.

Lemma counts_ok_subset cfg m m' : m' ⊆ m -> counts_ok cfg m -> counts_ok cfg m'.
Proof. intros Hm Hok ip st Hst. eapply Hok. by eapply lookup_weaken. Qed.
Lemma drops_left_subset slack cfg m m' ip :
  0 <= slack -> m' ⊆ m -> counts_ok cfg m -> drops_left slack cfg m' ip <= drops_left slack cfg m ip.
Proof.
  intros Hs Hm Hok. unfold drops_left. destruct (m' !! ip) as [st|] eqn:E.
  - by rewrite (lookup_weaken _ _ _ _ E Hm).
  - destruct (m !! ip) as [st|] eqn:E'; [|done]. specialize (Hok ip st E'). simpl in Hok. lia.
Qed.
Lemma one_more_drop_count cfg st :
  0 < MaxDropsPerIP cfg < MaxInt64 -> 0 <= cs_DropCount st <= MaxDropsPerIP cfg ->
  ~ forced cfg st -> cs_DropCount (one_more_drop st) = cs_DropCount st + 1
    /\ cs_DropCount st + 1 <= MaxDropsPerIP cfg.
Proof.
  unfold forced, one_more_drop. simpl. intros Hmax Hd Hf.
  rewrite wrapI64_small in * by (unfold MinInt64; lia). lia.
Qed.

(** What one packet does to the counts, and to the refusals left to each address. *)
Lemma drop_step_bound (I : World -> World -> Prop) `{!Reflexive I} slack cfg fuel e w w' ip :
  (forall w w', I w w' -> forgets w w') ->
  (slack = 1 \/ slack = 0 /\ forall w w', I w w' -> clients (w_state w') = clients (w_state w)) ->
  0 < MaxDropsPerIP cfg < MaxInt64 -> counts_ok cfg (clients (w_state w)) ->
  among I (drop_handler cfg fuel (se_id e) (se_ip e) (se_mark e) (se_now e)) w 0 w' ->
  counts_ok cfg (clients (w_state w'))
  /\ (se_ip e <> ip ->
        drops_left slack cfg (clients (w_state w')) ip <= drops_left slack cfg (clients (w_state w)) ip)
  /\ (se_ip e = ip -> accepted_now (last_verdict (w_trace w')) = false ->
        1 + drops_left slack cfg (clients (w_state w')) ip
          <= drops_left slack cfg (clients (w_state w)) ip).
Proof.
  intros HI Hslack Hmax Hok Hrun. assert (Hs : 0 <= slack) by lia.
  apply (drop_handler_among I HI) in Hrun as [(Hb & t & cd & Hsub)|[(Hb & st & Hst & Hf & Hsub)|(Hb & [st Hst] & Hsub & Hint)]];
    [| | |lia]; rewrite Hb.
  - assert (Hok' : counts_ok cfg (<[se_ip e := fresh_client t cd]> (clients (w_state w))))
      by (apply map_Forall_insert_2; [simpl; lia|done]).
    split_and!; [by eapply counts_ok_subset| |done]. intros Hne.
    etransitivity; [by apply drops_left_subset|]. unfold drops_left. by rewrite lookup_insert_ne.
  - pose proof (map_Forall_lookup_1 _ _ _ _ Hok Hst) as Hdc. simpl in Hdc.
    destruct (one_more_drop_count cfg st Hmax Hdc Hf) as [Hc1 Hc2].
    assert (Hok' : counts_ok cfg (<[se_ip e := one_more_drop st]> (clients (w_state w))))
      by (apply map_Forall_insert_2; [lia|done]).
    pose proof (drops_left_subset slack cfg _ _ ip Hs Hsub Hok') as Hle. unfold drops_left in Hle at 2.
    split_and!; [by eapply counts_ok_subset|intros Hne|intros <- _].
    + rewrite lookup_insert_ne in Hle by done. exact Hle.
    + rewrite lookup_insert_eq, Hc1 in Hle. unfold drops_left at 2. rewrite Hst. lia.
  - assert (Hok' : counts_ok cfg (delete (se_ip e) (clients (w_state w)))) by by apply map_Forall_delete.
    pose proof (drops_left_subset slack cfg _ _ ip Hs Hsub Hok') as Hle. unfold drops_left in Hle at 2.
    split_and!; [by eapply counts_ok_subset|intros Hne|intros <- _].
    + rewrite lookup_delete_ne in Hle by done. exact Hle.
    + rewrite lookup_delete_eq in Hle. pose proof (map_Forall_lookup_1 _ _ _ _ Hok Hst) as Hdc.
      simpl in Hdc. unfold drops_left at 2. rewrite Hst.
      destruct Hslack as [->|[_ Heq]]; [lia|]. destruct Hint as (w1 & w2 & HI12 & Hne).
      by rewrite (Heq _ _ HI12) in Hne.
Qed.

Lemma refusals_bounded (I : World -> World -> Prop) `{!Reflexive I} slack cfg fuel ip l m :
  (forall w w', I w w' -> forgets w w') ->
  (slack = 1 \/ slack = 0 /\ forall w w', I w w' -> clients (w_state w') = clients (w_state w)) ->
  0 < MaxDropsPerIP cfg < MaxInt64 -> counts_ok cfg m -> drop_run I cfg fuel l m ->
  Forall (fun x => snd x = false) (refused_of ip l) ->
  Z.of_nat (length (refused_of ip l)) <= slack + MaxDropsPerIP cfg.
Proof.
  intros HI Hslack Hmax Hok Hrun Hall. assert (Hs : 0 <= slack) by lia.
  enough (Z.of_nat (length (refused_of ip l)) <= Z.max 0 (drops_left slack cfg m ip)).
  { unfold drops_left in *. destruct (m !! ip) as [st|] eqn:Hst; [|lia].
    pose proof (map_Forall_lookup_1 _ _ _ _ Hok Hst) as Hdc. simpl in Hdc. lia. }
  induction Hrun as [m|e l m w w' Hsub Hr Hrun IH]; [simpl; lia|].
  pose proof (counts_ok_subset _ _ _ Hsub Hok) as Hokw.
  pose proof (drops_left_subset slack cfg _ _ ip Hs Hsub Hok) as Hlew.
  destruct (drop_step_bound I slack cfg fuel e w w' ip HI Hslack Hmax Hokw Hr) as (Hok' & Hother & Hstep).
  assert (Hnn : 0 <= drops_left slack cfg (clients (w_state w')) ip).
  { unfold drops_left. destruct (clients (w_state w') !! ip) as [st|] eqn:Hst; [|lia].
    specialize (Hok' ip st Hst). simpl in Hok'. lia. }
  unfold refused_of in Hall, IH |- *. cbn [List.filter fst] in Hall |- *. case_bool_decide as He.
  - apply Forall_cons in Hall as [Hb0 Hall]. simpl in Hb0. cbn [length].
    specialize (IH Hok' Hall). specialize (Hstep He Hb0). lia.
  - specialize (IH Hok' Hall). specialize (Hother He). lia.
Qed.

(** C14: with [--max-drops-per-ip N], at most N packets in a row of one address
    are refused, whatever other addresses send and whichever clients are
    forgotten between two packets, with or without [--forget-on-drop]. When the
    cleanup loop may also run inside a handler, between [Decide] and [IncDrop], one
    refusal of the row can go uncounted: at most N + 1. *)
Theorem consecutive_drops_bounded cfg fuel ip l m :
  0 < MaxDropsPerIP cfg < MaxInt64 -> counts_ok cfg m ->
  Forall (fun x => snd x = false) (refused_of ip l) ->
  (drop_run eq cfg fuel l m -> Z.of_nat (length (refused_of ip l)) <= MaxDropsPerIP cfg)
  /\ (drop_run forgets cfg fuel l m -> Z.of_nat (length (refused_of ip l)) <= MaxDropsPerIP cfg + 1).
Proof.
  intros Hmax Hok Hall. split; intros Hrun.
  - apply (refusals_bounded eq 0 cfg fuel ip l m); try done; [by intros w w' ->|].
    right. split; [done|]. by intros w w' ->.
  - rewrite Z.add_comm. apply (refusals_bounded forgets 1 cfg fuel ip l m); try done. by left.
Qed.

(** *** The bound is reached *)

(** Packets of the example client refused alone, counting its drops. *)
Definition se (id now : Z) : syn_event :=
  {| se_id := id; se_ip := client_ip; se_mark := None; se_now := now * ms |}.
Lemma refused_alone (I : World -> World -> Prop) `{!Reflexive I} id drops l :
  0 <= drops < 2 -> drop_run I drop_config 1 l (clients (w_state (seen_world (drops + 1)))) ->
  drop_run I drop_config 1 ((se id 1000, false) :: l) (clients (w_state (seen_world drops))).
Proof.
  intros Hd Hl.
  set (st := {| cs_LastSeen := 900 * ms; cs_Cooldown := 500 * ms; cs_DropCount := drops |}).
  assert (Hc : wrapI64 (drops + 1) = drops + 1) by (apply wrapI64_small; unfold MinInt64, MaxInt64; lia).
  apply (drop_run_cons I drop_config 1 (se id 1000) l _ (seen_world drops)
           (after_drop drop_config id client_ip None (1000 * ms) st (seen_world drops))); [done| |].
  - eapply (among_run I), drop_handler_refused; [reflexivity|reflexivity|].
    unfold forced, st. cbn [cs_DropCount]. rewrite Hc. change (MaxDropsPerIP drop_config) with 2. lia.
  - cbn [after_drop settled w_state clients]. change (ForgetOnDrop drop_config) with false. cbv iota.
    unfold one_more_drop, st. cbn [cs_LastSeen cs_Cooldown cs_DropCount]. rewrite Hc.
    unfold seen_world in *. cbn [with_state w_state set_client clients] in *. by rewrite insert_insert_eq.
Qed.
(** The client at its maximum, forgotten between [Decide] and [IncDrop]. *)
Definition forgotten_world : World :=
  with_state {| clients := ∅; lastEvent := client_event "INSIDE-COOLDOWN" client_ip 3 (500 * ms)
                                             (100 * ms) (400 * ms);
                algorithm := fixed500 |} no_draws (seen_world 2).
Lemma refused_uncounted :
  drop_run forgets drop_config 1 [(se 3 1000, false)] (clients (w_state (seen_world 2))).
Proof.
  apply (drop_run_cons forgets drop_config 1 (se 3 1000) [] _ (seen_world 2)
           (settled drop_config forgotten_world [refusal drop_config 3 None] "DROP" ∅
              (client_event "DROP" client_ip 3 (500 * ms) (100 * ms) (400 * ms))
              (IncDropped (w_counters forgotten_world)) no_draws)); [done| |constructor].
  unfold drop_handler. cbn [se se_id se_ip se_mark se_now].
  eexists _, _, _. split; [reflexivity|]. split; [vm_compute; reflexivity|].
  exists forgotten_world. eexists _, _. split.
  { split; [apply map_empty_subseteq|reflexivity]. }
  split; [reflexivity|]. eapply (among_run forgets). reflexivity.
Qed.

(** Both bounds are reached with N = 2: two refusals alone, three with the cleanup
    falling inside the last handler. *)
Definition refusals (ids : list Z) : list (syn_event * bool) := map (fun id => (se id 1000, false)) ids.
Lemma two_refusals : drop_run eq drop_config 1 (refusals [1; 2]) (clients (w_state (seen_world 0))).
Proof. apply (refused_alone eq 1 0); [lia|]. apply (refused_alone eq 2 1); [lia|]. constructor. Qed.
Lemma three_refusals :
  drop_run forgets drop_config 1 (refusals [1; 2; 3]) (clients (w_state (seen_world 0))).
Proof. apply (refused_alone forgets 1 0); [lia|]. apply (refused_alone forgets 2 1); [lia|]. apply refused_uncounted. Qed.

Lemma consecutive_drops_bounded_witness :
  Z.of_nat (length (refused_of client_ip (refusals [1; 2]))) = 2
  /\ Z.of_nat (length (refused_of client_ip (refusals [1; 2]))) <= MaxDropsPerIP drop_config
  /\ Z.of_nat (length (refused_of client_ip (refusals [1; 2; 3]))) = 3
  /\ Z.of_nat (length (refused_of client_ip (refusals [1; 2; 3]))) <= MaxDropsPerIP drop_config + 1.
Proof.
  assert (Hok : counts_ok drop_config (clients (w_state (seen_world 0)))).
  { unfold counts_ok. apply map_Forall_singleton. by vm_compute. }
  split; [reflexivity|]. split.
  - apply (consecutive_drops_bounded drop_config 1 client_ip (refusals [1; 2])
             (clients (w_state (seen_world 0)))); [by vm_compute|exact Hok| |exact two_refusals].
    by repeat constructor.
  - split; [reflexivity|].
    apply (consecutive_drops_bounded drop_config 1 client_ip (refusals [1; 2; 3])
             (clients (w_state (seen_world 0)))); [by vm_compute|exact Hok| |exact three_refusals].
    by repeat constructor.
Defined.
