(* ===== verification/ShapeSpec.v ===== *)
(** The shaper: the decision for one SYN, the release of a delayed one, and
    the effect of a release goroutine that wakes up late. *)

From S2P Require Import Prelude GoStrings GoNet GoTime Algorithm State Stats Window Whitelist.
From S2P Require Import Runtime RawSender Parser Payload Fake Config Daemon Handler Loops Scenarios.
From S2P Require Import HandlerSpec.
Open Scope Z_scope.

(** * Pacers *)

(** The pacer at an index replaced. *)
Definition set_pacer (p : nat) (b : burstPacerState) (w : World) : World :=
  with_pacers (w_burstPacerByIP w) (<[p := b]> (w_pacers w)) w.

Lemma alter_insert_list {A} (f : A -> A) (l : list A) i x : l !! i = Some x -> alter f i l = <[i := f x]> l.
Proof.
  revert i. induction l as [|y l IH]; intros [|i] Hi; simplify_eq/=; [done|].
  change (alter f (S i) (y :: l)) with (y :: alter f i l). by rewrite IH.
Qed.
Lemma set_pacer_lookup p b b0 w : w_pacers w !! p = Some b0 -> w_pacers (set_pacer p b w) !! p = Some b.
Proof. intros Hp. simpl. apply list_lookup_insert_eq. by eapply lookup_lt_Some. Qed.
Lemma set_pacer_twice p b b' w : set_pacer p b (set_pacer p b' w) = set_pacer p b w.
Proof. unfold set_pacer, with_pacers. simpl. by rewrite list_insert_insert_eq. Qed.

Lemma run_pacer_Lock {B : Type} p (k : unit -> prog World B) w b :
  w_pacers w !! p = Some b -> bp_mu b = false ->
  run (pacer_Lock p ≫= k) w = run (k tt) (set_pacer p (set_bp_mu true b) w).
Proof.
  intros Hp Hb. unfold pacer_Lock. erewrite run_try_bind; [reflexivity|]. cbv beta. by rewrite Hp, Hb.
Qed.
Lemma run_pacer_write {B : Type} p f (k : unit -> prog World B) w b :
  w_pacers w !! p = Some b ->
  run (pacer_write p f ≫= k) w = run (k tt) (set_pacer p (f b) w).
Proof.
  intros Hp. unfold pacer_write. rewrite run_modify_bind. unfold set_pacer.
  by rewrite (alter_insert_list f _ _ b).
Qed.
Lemma run_pacer_read {R B : Type} p (f : burstPacerState -> R) (k : R -> prog World B) w b :
  w_pacers w !! p = Some b -> run (pacer_read p f ≫= k) w = run (k (f b)) w.
Proof. intros Hp. unfold pacer_read. erewrite run_try_bind; [reflexivity|]. cbv beta. by rewrite Hp. Qed.

(** ** One pacer held by the running goroutine *)

(** The pacer of an address, as [LoadOrStore] finds or creates it. *)
Definition pacer_index (w : World) (ip : string) : nat :=
  default (length (w_pacers w)) (w_burstPacerByIP w !! ip).
Definition pacer_of (w : World) (ip : string) : burstPacerState :=
  default burstPacerState_zero (w_burstPacerByIP w !! ip ≫= (w_pacers w !!.)).
(** It exists and is not locked. *)
Definition pacer_free (w : World) (ip : string) : Prop :=
  match w_burstPacerByIP w !! ip with
  | Some p => exists b, w_pacers w !! p = Some b /\ bp_mu b = false
  | None => True
  end.
(** The world once the address has a pacer. *)
Definition with_pacer_for (ip : string) (w : World) : World :=
  match w_burstPacerByIP w !! ip with
  | Some _ => w
  | None => with_pacers (<[ip := length (w_pacers w)]> (w_burstPacerByIP w))
                        (w_pacers w ++ [burstPacerState_zero]) w
  end.
Lemma run_LoadOrStore {B : Type} ip (k : nat -> prog World B) w :
  run (pacers_LoadOrStore ip ≫= k) w = run (k (pacer_index w ip)) (with_pacer_for ip w).
Proof.
  unfold pacers_LoadOrStore, pacer_index, with_pacer_for. rewrite run_update_bind.
  by destruct (w_burstPacerByIP w !! ip).
Qed.
Lemma pacer_for_lookup ip w :
  pacer_free w ip ->
  w_pacers (with_pacer_for ip w) !! pacer_index w ip = Some (pacer_of w ip)
  /\ bp_mu (pacer_of w ip) = false.
Proof.
  unfold pacer_free, with_pacer_for, pacer_index, pacer_of.
  destruct (w_burstPacerByIP w !! ip) as [p|]; simpl.
  - intros (b & -> & Hb). done.
  - intros _. split; [|done]. apply list_lookup_middle. done.
Qed.

(** * The decision *)

Inductive shape_decision :=
| ShapeAccept
| ShapeFlowPending
| ShapeOverflow (delay : Duration)
| ShapeIPPending (delay : Duration)
| ShapeFull
| ShapeDelay (delay : Duration).

Definition delay_until (cfg : Config) (now lastRelease : Time) : Duration :=
  Z.max 0 (wrapI64 (BurstInterval cfg - time_Sub now lastRelease)).
Definition decide_shape (cfg : Config) (k : shapeFlowKey) (ip : string) (now : Time) (w : World)
    : shape_decision :=
  let b := pacer_of w ip in
  let delay := delay_until cfg now (LastRelease b) in
  if bool_decide (k ∈ w_shapePendingFlows w) then ShapeFlowPending
  else if IsZero (LastRelease b) || (BurstInterval cfg <=? time_Sub now (LastRelease b))
  then ShapeAccept
  else if (0 <? BurstMaxDelay cfg) && (BurstMaxDelay cfg <? delay) then ShapeOverflow delay
  else if Pending b then ShapeIPPending delay
  else if (0 <? MaxPendingDelays cfg) && (MaxPendingDelays cfg <=? w_pendingDelays w) then ShapeFull
  else ShapeDelay delay.

(** The world and the goroutines each decision leaves.  [at_pacer b]: the world in
    which the address has the pacer [b]; every other pacer, the client state, the
    random stream and the rest of the world stay as they were. *)
Definition shape_result (cfg : Config) (id : Z) (ip : string) (packetMark : option Z)
    (k : shapeFlowKey) (now : Time) (w : World) (d : shape_decision)
    : World * list (prog World unit) :=
  let b := pacer_of w ip in
  let at_pacer b' := set_pacer (pacer_index w ip) b' (with_pacer_for ip w) in
  let report w out line ev co :=
    settled cfg w out line (clients (w_state w)) ev (co (w_counters w)) (w_rng w) in
  let refused w line ev :=
    (report w [refusal cfg id packetMark] line ev IncDelayOverflowDropped, []) in
  match d with
  | ShapeAccept =>
      (report (at_pacer {| bp_mu := false; LastRelease := now; LastSeen := now; Pending := false |})
         [SetVerdict id NfAccept] "SHAPE-ACCEPT"%string (plain_event "SHAPE-ACCEPT" ip id)
         IncAccepted, [])
  | ShapeFlowPending =>
      refused w "SHAPE-FLOW-PENDING-DROP"%string (plain_event "SHAPE-FLOW-PENDING-DROP" ip id)
  | ShapeOverflow delay =>
      refused (at_pacer (set_LastSeen now b)) "SHAPE-OVERFLOW-DROP"%string
        (remaining_event "SHAPE-OVERFLOW-DROP" ip id delay)
  | ShapeIPPending delay =>
      refused (at_pacer (set_LastSeen now b)) "SHAPE-IP-PENDING-DROP"%string
        (remaining_event "SHAPE-IP-PENDING-DROP" ip id delay)
  | ShapeFull =>
      refused (at_pacer (set_LastSeen now b)) "SHAPE-PENDING-DROP"%string (lastEvent (w_state w))
  | ShapeDelay delay =>
      (with_flows (fun s => {[k]} ∪ s) (with_pendingDelays (fun n => wrapI64 (n + 1))
         (report (at_pacer (set_Pending true (set_LastSeen now b))) [] "SHAPE-DELAY"%string
            (remaining_event "SHAPE-DELAY" ip id delay) IncDelayed)),
       [release cfg id ip k delay (pacer_index w ip)])
  end.

Lemma run_count {B : Type} f (k : unit -> prog World B) w :
  run (count f ≫= k) w = run (k tt) (with_counters f w).
Proof. reflexivity. Qed.
Lemma run_state_op {B : Type} f (k : unit -> prog World B) w :
  run (state_op f ≫= k) w = run (k tt) (with_state (f (w_state w)) (w_rng w) w).
Proof. reflexivity. Qed.

(** A refusal by the shaper, from any world. *)
Lemma run_shape_drop cfg id packetMark ev line w :
  run (shape_drop cfg id packetMark ev line) w
  = Some (0, settled cfg w [refusal cfg id packetMark] line (clients (w_state w))
               (default (lastEvent (w_state w)) ev) (IncDelayOverflowDropped (w_counters w))
               (w_rng w), []).
Proof.
  unfold shape_drop, settled, lines. rewrite run_count.
  destruct ev as [ev|]; [rewrite run_state_op|rewrite ret_bind];
    rewrite run_log, run_refuse, run_ret; destruct w as [? [? ? ?]]; by destruct (Verbose cfg).
Qed.

Lemma with_pacer_for_frame ip w :
  w_state (with_pacer_for ip w) = w_state w
  /\ w_pendingDelays (with_pacer_for ip w) = w_pendingDelays w.
Proof. unfold with_pacer_for. by destruct (w_burstPacerByIP w !! ip). Qed.

Ltac pacer_step :=
  first [ erewrite run_pacer_write by (by eapply set_pacer_lookup); rewrite set_pacer_twice
        | erewrite run_pacer_read by (by eapply set_pacer_lookup) ].

Section decision.
Context (cfg : Config) (id : Z) (ip : string) (packetMark : option Z) (k : shapeFlowKey) (now : Time).
Context (w : World) (Hfree : pacer_free w ip).
#[local] Abbreviation p := (pacer_index w ip).
#[local] Abbreviation b := (pacer_of w ip).
#[local] Abbreviation w0 := (with_pacer_for ip w).

Lemma run_shape_wait :
  bp_mu b = false -> w_pacers w0 !! p = Some b -> bool_decide (k ∈ w_shapePendingFlows w) = false ->
  IsZero (LastRelease b) || (BurstInterval cfg <=? time_Sub now (LastRelease b)) = false ->
  let result := shape_result cfg id ip packetMark k now w (decide_shape cfg k ip now w) in
  run (shape_wait cfg id ip k packetMark now (LastRelease b) p)
      (set_pacer p (set_LastSeen now (set_bp_mu true b)) w0) = Some (0, fst result, snd result).
Proof.
  intros Hmu Hlook Hk Hint. unfold decide_shape. rewrite Hk, Hint. unfold shape_wait. cbv zeta.
  replace (if wrapI64 (BurstInterval cfg - time_Sub now (LastRelease b)) <? 0 then 0
           else wrapI64 (BurstInterval cfg - time_Sub now (LastRelease b)))
    with (delay_until cfg now (LastRelease b)) by (unfold delay_until; case_match; lia).
  assert (Hunlocked : set_bp_mu false (set_LastSeen now (set_bp_mu true b)) = set_LastSeen now b)
    by (destruct b; simpl in *; by subst).
  destruct (with_pacer_for_frame ip w) as [Fs Fp]. unfold pacer_Unlock.
  destruct ((0 <? BurstMaxDelay cfg) && _); [pacer_step; by rewrite Hunlocked, run_shape_drop|].
  pacer_step. cbn [Pending set_LastSeen set_bp_mu].
  destruct (Pending b) eqn:Hpend; [pacer_step; by rewrite Hunlocked, run_shape_drop|].
  assert (Hfull : forall B (f : bool -> prog World B) b',
    run ((if 0 <? MaxPendingDelays cfg
          then n ← load_pendingDelays; Ret (MaxPendingDelays cfg <=? n) else Ret false) ≫= f)
        (set_pacer p b' w0)
    = run (f ((0 <? MaxPendingDelays cfg) && (MaxPendingDelays cfg <=? w_pendingDelays w)))
          (set_pacer p b' w0)).
  { intros B f b'. destruct (0 <? MaxPendingDelays cfg); [|done]. simpl. by rewrite <-Fp. }
  rewrite Hfull. destruct ((0 <? MaxPendingDelays cfg) && _).
  { pacer_step. rewrite Hunlocked, run_shape_drop. cbn [shape_result fst snd default]. by rewrite <-Fs. }
  unfold shape_delay, pacer_Unlock. do 2 pacer_step.
  unfold flows_Store, add_pendingDelays. rewrite run_modify_bind, run_count, run_modify_bind, run_state_op, run_log.
  assert (set_bp_mu false (set_Pending true (set_LastSeen now (set_bp_mu true b)))
          = set_Pending true (set_LastSeen now b)) as -> by (destruct b; simpl in *; by subst).
  rewrite run_go_bind, run_ret. cbn [shape_result fst snd]. unfold settled, lines.
  by destruct (Verbose cfg).
Qed.

Lemma run_shape_handler info :
  flow_key info = k ->
  let result := shape_result cfg id ip packetMark k now w (decide_shape cfg k ip now w) in
  run (shape_handler cfg id info ip packetMark now) w = Some (0, fst result, snd result).
Proof.
  intros Hkey. destruct (pacer_for_lookup ip w Hfree) as [Hlook Hmu].
  unfold shape_handler. rewrite Hkey. cbv zeta. unfold flows_Load. rewrite run_gets_bind.
  destruct (bool_decide (k ∈ w_shapePendingFlows w)) eqn:Hk.
  { unfold decide_shape. by rewrite Hk, run_shape_drop. }
  rewrite run_LoadOrStore, (run_pacer_Lock _ _ _ b) by done. do 2 pacer_step.
  cbn [LastRelease set_LastSeen set_bp_mu].
  destruct (IsZero (LastRelease b) || _) eqn:Hint; [|by apply run_shape_wait].
  unfold decide_shape. rewrite Hk, Hint. unfold pacer_Unlock. do 4 pacer_step.
  rewrite run_count, run_state_op, run_log. unfold accept, nf_SetVerdict, emit.
  rewrite run_modify_bind, run_ret. cbn [shape_result fst snd]. unfold settled, lines.
  by destruct (Verbose cfg).
Qed.
End decision.

(** C6: the shaper's decision for one SYN, run alone, and its whole effect: the
    world it leaves, with the verdict, the verbose line, the last event, the
    counters, the address's pacer, the pending flows and delays all given and
    everything else unchanged, and the release goroutine it starts. A delay is at
    most the interval, at most the permitted maximum where one is set (0 sets none),
    and ends exactly one interval after the last release. *)
Theorem shape_mode_decision cfg id info ip packetMark now w :
  pacer_free w ip ->
  let d := decide_shape cfg (flow_key info) ip now w in
  let result := shape_result cfg id ip packetMark (flow_key info) now w d in
  run (shape_handler cfg id info ip packetMark now) w = Some (0, fst result, snd result)
  /\ forall delay, d = ShapeDelay delay ->
       0 <= LastRelease (pacer_of w ip) <= now -> now <= MaxInt64 -> 0 < BurstInterval cfg <= MaxInt64 ->
       0 < delay <= BurstInterval cfg
       /\ (0 < BurstMaxDelay cfg -> delay <= BurstMaxDelay cfg)
       /\ now + delay = LastRelease (pacer_of w ip) + BurstInterval cfg.
Proof.
  intros Hfree. cbv zeta. split; [by apply run_shape_handler|]. intros delay Hd Hlast Hnow Hint.
  unfold decide_shape in Hd. destruct (bool_decide _); [done|].
  destruct (IsZero _ || (BurstInterval cfg <=? time_Sub now _)) eqn:Hi; [done|].
  destruct ((0 <? BurstMaxDelay cfg) && _) eqn:Hmax; [done|].
  destruct (Pending _); [done|]. destruct ((0 <? MaxPendingDelays cfg) && _); [done|].
  injection Hd as <-. unfold delay_until in *.
  rewrite time_Sub_exact in * by (unfold MinInt64, MaxInt64 in *; lia).
  rewrite wrapI64_small in * by (unfold MinInt64, MaxInt64 in *; lia). lia.
Qed.
Definition paced_world : World :=
  with_pacers {[ client_ip := 0%nat ]}
    [{| bp_mu := false; LastRelease := 950 * ms; LastSeen := 950 * ms; Pending := false |}]
    scenario_world.
Definition syn_info : PacketInfo :=
  Parser.Build_PacketInfo client_ip 5001 443 7 0.
Lemma shape_mode_decision_witness :
  pacer_free paced_world client_ip
  /\ exists w' started,
       run (shape_handler shape_config 1 syn_info client_ip None (1000 * ms)) paced_world
       = Some (0, w', started)
       /\ started = [release shape_config 1 client_ip (flow_key syn_info) (50 * ms) 0]
       /\ w_pendingDelays w' = 1
       /\ lastEvent (w_state w') = remaining_event "SHAPE-DELAY" client_ip 1 (50 * ms)
       /\ 0 < 50 * ms <= BurstInterval shape_config.
Proof.
  assert (Hfree : pacer_free paced_world client_ip) by (by eexists).
  split; [exact Hfree|].
  assert (Hd : decide_shape shape_config (flow_key syn_info) client_ip (1000 * ms) paced_world
               = ShapeDelay (50 * ms)) by (vm_compute; reflexivity).
  destruct (shape_mode_decision shape_config 1 syn_info client_ip None (1000 * ms) paced_world Hfree)
    as [Hr Hb].
  eexists _, _. split; [exact Hr|]. rewrite Hd. split; [reflexivity|]. split; [reflexivity|].
  split; [reflexivity|].
  refine (proj1 (Hb (50 * ms) Hd _ _ _)); vm_compute; intuition discriminate.
Defined.

(** ** Two executions that break the interval *)

(** The packets with an id among those received. *)
Fixpoint arrivals (id : Z) (tr : list Event) : list Attribute :=
  match tr with
  | [] => []
  | Arrived a :: tr =>
      if bool_decide (PacketID a = Some id) then a :: arrivals id tr else arrivals id tr
  | _ :: tr => arrivals id tr
  end.
(** The client address of the one packet with that id, when it is an unmarked SYN
    of an address that is not whitelisted: a packet the shaper has to pace. *)
Definition paced_client (whitelist : Whitelist.Whitelist) (id : Z) (tr : list Event)
    : option string :=
  match arrivals id tr with
  | [a] =>
      match Daemon.Payload a, Mark a with
      | Some packet, None =>
          match ParseIPv4PureTCPSYNInfo packet with
          | Val (Some info) =>
              if Contains whitelist (ClientIP info) then None else Some (ClientIP info)
          | _ => None
          end
      | _, _ => None
      end
  | _ => None
  end.
Definition shape_cleanups (tr : list Event) : nat :=
  length (List.filter (fun e => match e with CleanupPrinted what _ _ => seqb what "shape cleanup"
                                | _ => false end) tr).

Section executions.
Context (cfg : Config) (whitelist : Whitelist.Whitelist) (env : environment) (fuel : nat).
#[local] Abbreviation step := (daemon_step cfg whitelist env fuel).

(** The step from [c] to [c'] gives the accept verdict, at the instant [t], to the
    packet [id], a SYN of [ip] subject to pacing. *)
Definition accepts_syn (ip : string) (id : Z) (t : Time) (c c' : conf World) : Prop :=
  step c c' /\ w_trace (world c') = SetVerdict id NfAccept :: w_trace (world c)
  /\ w_clock (world c) = t /\ w_clock (world c') = t
  /\ paced_client whitelist id (w_trace (world c)) = Some ip.

(** Two executions, each ending in one step of a thread. *)
Definition two_steps (acts1 : list action) (i1 : nat) (acts2 : list action) (i2 : nat)
    (P : conf World -> conf World -> conf World -> conf World -> Prop) (c0 : conf World) : Prop :=
  match execute cfg whitelist env fuel acts1 c0 with
  | Some c1 =>
      match exec_thread i1 c1 with
      | Some c1' =>
          match execute cfg whitelist env fuel acts2 c1' with
          | Some c2 => match exec_thread i2 c2 with Some c2' => P c1 c1' c2 c2' | None => False end
          | None => False
          end
      | None => False
      end
  | None => False
  end.
Lemma two_steps_run acts1 i1 acts2 i2 P c0 :
  two_steps acts1 i1 acts2 i2 P c0 ->
  exists c1 c1' c2 c2', rtc step c0 c1 /\ step c1 c1' /\ rtc step c1' c2 /\ step c2 c2'
    /\ P c1 c1' c2 c2'.
Proof.
  unfold two_steps. destruct (execute _ _ _ _ acts1 c0) as [c1|] eqn:E1; [|done].
  destruct (exec_thread i1 c1) as [c1'|] eqn:S1; [|done].
  destruct (execute _ _ _ _ acts2 c1') as [c2|] eqn:E2; [|done].
  destruct (exec_thread i2 c2) as [c2'|] eqn:S2; [|done]. intros HP. exists c1, c1', c2, c2'.
  split; [by eapply execute_rtc|]. split; [by eapply exec_thread_cstep|].
  split; [by eapply execute_rtc|]. split; [by eapply exec_thread_cstep|done].
Qed.
End executions.

#[local] Abbreviation shape_steps :=
  (daemon_step shape_config scenario_whitelist scenario_env 1).
#[local] Abbreviation shape_accepts :=
  (accepts_syn shape_config scenario_whitelist scenario_env 1).


