(* ===== verification/CleanupSpec.v ===== *)
(** The four cleanup loops: what one tick of each removes, run alone. *)

From S2P Require Import Prelude GoStrings GoNet GoTime Algorithm State Stats Window Whitelist.
From S2P Require Import Runtime RawSender Parser Payload Fake Config Daemon Handler Loops Scenarios.
From S2P Require Import HandlerSpec ShapeSpec.
Open Scope Z_scope.

(** * Sweeping a map *)

Section sweep.
Context {K V : Type} `{Countable K} (old : V -> bool).

Definition sweep_key (m : gmap K V) (k : K) : gmap K V :=
  match m !! k with Some v => if old v then delete k m else m | None => m end.
Definition sweep (order : list K) (m : gmap K V) : gmap K V := fold_left sweep_key order m.

Lemma sweep_key_lookup m k j :
  sweep_key m k !! j
  = if decide (j = k) then match m !! k with Some v => if old v then None else Some v | None => None end
    else m !! j.
Proof.
  unfold sweep_key. destruct (m !! k) as [v|] eqn:E; [destruct (old v)|]; case_decide; subst; try done.
  - by rewrite lookup_delete_eq.
  - by rewrite lookup_delete_ne.
Qed.
Lemma sweep_lookup order m j :
  sweep order m !! j
  = match m !! j with
    | Some v => if old v && bool_decide (j ∈ order) then None else Some v
    | None => None
    end.
Proof.
  revert m. induction order as [|k order IH]; intros m; cbn [sweep fold_left].
  { destruct (m !! j); [|done]. rewrite bool_decide_false by apply not_elem_of_nil. by rewrite andb_false_r. }
  change (sweep order (sweep_key m k) !! j
          = match m !! j with
            | Some v => if old v && bool_decide (j ∈ k :: order) then None else Some v | None => None end).
  rewrite IH, sweep_key_lookup. destruct (decide (j = k)) as [->|Hjk].
  - rewrite (bool_decide_true (k ∈ k :: order)) by left. destruct (m !! k) as [v|]; [|done].
    destruct (old v) eqn:Ev; [done|]. by rewrite Ev.
  - destruct (m !! j) as [v|]; [|done].
    rewrite (bool_decide_ext (j ∈ k :: order) (j ∈ order)); [done|].
    rewrite elem_of_cons. naive_solver.
Qed.
Lemma sweep_all order m :
  (forall k, k ∈ dom m -> k ∈ order) -> sweep order m = filter (fun kv => old (snd kv) = false) m.
Proof.
  intros Ho. apply map_eq. intros k. rewrite sweep_lookup, map_lookup_filter.
  destruct (m !! k) as [v|] eqn:E; [|done]. rewrite bool_decide_true by (apply Ho, elem_of_dom; eauto).
  rewrite andb_true_r. simpl. destruct (old v) eqn:Ev.
  - by rewrite option_guard_False.
  - by rewrite option_guard_True.
Qed.
End sweep.

(** * The ticks *)

(** The line a loop prints when it has removed something. *)
Definition reported (what : string) (removed ttl : Z) (w : World) : World :=
  if 0 <? removed then with_event (CleanupPrinted what removed ttl) w else w.
Lemma run_report what removed ttl w :
  run (print_removed what removed ttl) w = Some (tt, reported what removed ttl w, []).
Proof. unfold reported, print_removed. by case_match. Qed.

Lemma size_sweep_key {V} `{Countable K} (old : V -> bool) (m : gmap K V) k v :
  m !! k = Some v -> old v = true -> Z.of_nat (size (delete k m)) = Z.of_nat (size m) - 1.
Proof.
  intros Hk _. rewrite map_size_delete_Some by eauto.
  assert (size m <> 0%nat) by (intros Hz; apply map_size_empty_inv in Hz; by subst m). lia.
Qed.

(** ** Split segments *)

Definition seen_old (now : Time) (ttl : Duration) (t : Time) : bool := ttl <? time_Sub now t.
Lemma run_split_seen_range now ttl order n w :
  exists w', run (split_seen_range now ttl order n) w
    = Some (n + Z.of_nat (size (w_splitSeen w)) - Z.of_nat (size (w_splitSeen w')), w', [])
  /\ w_splitSeen w' = sweep (seen_old now ttl) order (w_splitSeen w)
  /\ w' = with_splitSeen (fun _ => w_splitSeen w') w.
Proof.
  revert n w. induction order as [|k order IH]; intros n w; cbn [split_seen_range].
  { exists w. rewrite run_ret. split_and!; [do 3 f_equal; lia|done|by destruct w]. }
  unfold seen_Load. rewrite run_gets_bind. cbn [sweep fold_left]. unfold sweep_key at 2.
  destruct (w_splitSeen w !! k) as [t|] eqn:Ek; [|apply IH].
  change (seen_old now ttl t) with (ttl <? time_Sub now t). destruct (ttl <? time_Sub now t) eqn:Eo; [|apply IH].
  unfold seen_Delete. rewrite run_modify_bind.
  destruct (IH (n + 1) (with_splitSeen (fun m => delete k m) w)) as (w' & Hr & Hm & Hw).
  exists w'. rewrite Hr. simpl in Hm, Hw |- *. split_and!; [|done|done]. do 3 f_equal.
  rewrite (size_sweep_key (seen_old now ttl) _ k t) by done. lia.
Qed.

(** ** Pacers *)

Definition pacer_stale (now : Time) (ttl : Duration) (b : burstPacerState) : bool :=
  negb (Pending b) && negb (IsZero (LastSeen b)) && (ttl <? time_Sub now (LastSeen b)).
(** Whether the pacer behind a pointer is stale. *)
Definition pointer_stale (now : Time) (ttl : Duration) (w : World) (p : nat) : bool :=
  match w_pacers w !! p with Some b => pacer_stale now ttl b | None => false end.
Lemma run_shape_range now ttl order n w :
  (forall ip, pacer_free w ip) ->
  exists w', run (shape_range now ttl order n) w
    = Some (n + Z.of_nat (size (w_burstPacerByIP w)) - Z.of_nat (size (w_burstPacerByIP w')), w', [])
  /\ w_burstPacerByIP w' = sweep (pointer_stale now ttl w) order (w_burstPacerByIP w)
  /\ w' = with_pacers (w_burstPacerByIP w') (w_pacers w) w.
Proof.
  revert n w. induction order as [|k order IH]; intros n w Hfree; cbn [shape_range].
  { exists w. rewrite run_ret. split_and!; [do 3 f_equal; lia|done|by destruct w]. }
  unfold pacers_Load. rewrite run_gets_bind. cbn [sweep fold_left]. unfold sweep_key at 2.
  specialize (Hfree k) as Hk. unfold pacer_free in Hk.
  destruct (w_burstPacerByIP w !! k) as [p|] eqn:Ek; [|by apply IH].
  destruct Hk as (b & Hb & Hmu). unfold pointer_stale at 2. rewrite Hb.
  rewrite (run_pacer_Lock _ _ _ b), (run_pacer_read _ _ _ _ (set_bp_mu true b)) by
    (done || by eapply set_pacer_lookup).
  unfold pacer_Unlock. rewrite (run_pacer_write _ _ _ _ (set_bp_mu true b)) by (by eapply set_pacer_lookup).
  rewrite set_pacer_twice.
  assert (Hw : set_pacer p (set_bp_mu false (set_bp_mu true b)) w = w).
  { unfold set_pacer, with_pacers. simpl.
    replace (set_bp_mu false (set_bp_mu true b)) with b by (destruct b; simpl in *; by subst).
    rewrite list_insert_id by done. by destruct w. }
  rewrite Hw. change (_ && _) with (pacer_stale now ttl b).
  destruct (pacer_stale now ttl b) eqn:Es; [|by apply IH].
  unfold pacers_Delete. rewrite run_modify_bind.
  destruct (IH (n + 1) (with_pacers (delete k (w_burstPacerByIP w)) (w_pacers w) w)) as (w' & Hr & Hm & Hw').
  { intros ip. unfold pacer_free. simpl. specialize (Hfree ip). unfold pacer_free in Hfree.
    destruct (decide (ip = k)) as [->|Hne]; [by rewrite lookup_delete_eq|by rewrite lookup_delete_ne]. }
  exists w'. rewrite Hr. simpl in Hm, Hw' |- *. split_and!; [|done|done]. do 3 f_equal.
  rewrite (size_sweep_key (pointer_stale now ttl w) _ k p) by (unfold pointer_stale; by rewrite ?Hb). lia.
Qed.

(** ** All four *)

Definition entries_gone {K V} `{Countable K} (m m' : gmap K V) : Z :=
  Z.of_nat (size m) - Z.of_nat (size m').

(** C20: a tick of each cleanup loop, visiting all keys in whatever order,
    removes exactly the entries older than the loop's time to live (for the
    pacers: that are not pending either), prints their number if there are any,
    and changes nothing else. *)
Theorem cleanup_ticks_spec cfg w now clientOrder windowOrder seenOrder pacerOrder :
  MinInt64 < CleanupAfter cfg <= MaxInt64 ->
  ranges_over clientOrder (w_state w) ->
  (forall ip, ip ∈ dom (lastPass (w_splitPayloadWindow w)) -> ip ∈ windowOrder) ->
  (forall k, k ∈ dom (w_splitSeen w) -> k ∈ seenOrder) ->
  (forall ip, ip ∈ dom (w_burstPacerByIP w) -> ip ∈ pacerOrder) ->
  (forall ip, pacer_free w ip) ->
  (exists s, let removed := entries_gone (clients (w_state w)) (clients s) in
     clients s = filter (fun kv => ~ (CleanupAfter cfg < w_clock w - cs_LastSeen kv.2)) (clients (w_state w))
     /\ run (cleanup_tick cfg clientOrder) w
        = Some (tt, reported "cleanup" removed (CleanupAfter cfg) (with_state s (w_rng w) w), []))
  /\ (exists s, let removed := entries_gone (lastPass (w_splitPayloadWindow w)) (lastPass s) in
     lastPass s = filter (fun kv => time_Sub now kv.2 <= PassWindow cfg) (lastPass (w_splitPayloadWindow w))
     /\ run (window_tick cfg now windowOrder) w
        = Some (tt, reported "split payload-window cleanup" removed (PassWindow cfg) (with_window s w), []))
  /\ (exists m, let removed := entries_gone (w_splitSeen w) m in
     m = filter (fun kv => (SplitSeenTTL cfg <? time_Sub now kv.2) = false) (w_splitSeen w)
     /\ run (split_seen_tick cfg now seenOrder) w
        = Some (tt, reported "split cleanup" removed (SplitSeenTTL cfg) (with_splitSeen (fun _ => m) w), []))
  /\ (exists m, let removed := entries_gone (w_burstPacerByIP w) m in
     m = filter (fun kv => pointer_stale now (CleanupAfter cfg) w kv.2 = false) (w_burstPacerByIP w)
     /\ run (shape_tick cfg now pacerOrder) w
        = Some (tt, reported "shape cleanup" removed (CleanupAfter cfg) (with_pacers m (w_pacers w) w), [])).
Proof.
  intros Httl Hclients Hwindow Hseen Hpacers Hfree. split_and!.
  - destruct (Cleanup clientOrder (w_clock w) (CleanupAfter cfg) (w_state w)) as [n s] eqn:E.
    exists s. cbv zeta. destruct (Cleanup_filter _ _ _ _ _ _ Hclients Httl E) as (Hs & Hn & _).
    split; [done|]. unfold cleanup_tick, Now. rewrite run_gets_bind, run_update_bind. cbn [clock World_clocked].
    rewrite E. cbn [fst snd]. by rewrite run_report, Hn.
  - destruct (cleanup_window windowOrder now (PassWindow cfg) (w_splitPayloadWindow w)) as [n s] eqn:E.
    exists s. cbv zeta. destruct (cleanup_window_filter _ _ _ _ _ _ Hwindow E) as (Hs & Hn).
    split; [done|]. unfold window_tick. rewrite run_update_bind, E. cbn [fst snd]. by rewrite run_report, Hn.
  - destruct (run_split_seen_range now (SplitSeenTTL cfg) seenOrder 0 w) as (w' & Hr & Hm & Hw).
    exists (w_splitSeen w'). cbv zeta. split; [by rewrite Hm, sweep_all|].
    unfold split_seen_tick. rewrite run_bind, Hr, run_report, Hw. done.
  - destruct (run_shape_range now (CleanupAfter cfg) pacerOrder 0 w Hfree) as (w' & Hr & Hm & Hw).
    exists (w_burstPacerByIP w'). cbv zeta. split; [by rewrite Hm, sweep_all|].
    unfold shape_tick. rewrite run_bind, Hr, run_report, Hw. done.
Qed.

Definition old_key : splitSegmentKey :=
  {| sk_SrcIP := []; sk_DstIP := []; sk_SrcPort := 443; sk_DstPort := 5001; sk_Seq := 7; sk_PayloadLen := 3 |}.
Definition old_pacer : burstPacerState :=
  {| bp_mu := false; LastRelease := ms; LastSeen := ms; Pending := false |}.
(** Twenty minutes after one client, one window, one split segment and one
    pacer were last used. *)
Definition old_world : World :=
  with_state (seen_at ms) no_draws
    (with_window {| lastPass := {[ [Byte.x01] := ms ]} |}
      (with_splitSeen (fun _ => {[ old_key := ms ]})
        (with_pacers {[ "192.0.2.1"%string := 0%nat ]} [old_pacer]
          (with_clock (fun _ => 1200000 * ms) scenario_world)))).

Lemma cleanup_ticks_spec_witness :
  let now := 1200000 * ms in
  (exists s, clients s = ∅ /\ run (cleanup_tick window_config ["1.2.3.4"%string]) old_world
     = Some (tt, reported "cleanup" 1 (CleanupAfter window_config) (with_state s no_draws old_world), []))
  /\ (exists m, m = ∅ /\ run (split_seen_tick window_config now [old_key]) old_world
     = Some (tt, reported "split cleanup" 1 (SplitSeenTTL window_config)
                   (with_splitSeen (fun _ => m) old_world), []))
  /\ (exists m, m = ∅ /\ run (shape_tick window_config now ["192.0.2.1"%string]) old_world
     = Some (tt, reported "shape cleanup" 1 (CleanupAfter window_config)
                   (with_pacers m [old_pacer] old_world), [])).
Proof.
  cbv zeta.
  destruct (cleanup_ticks_spec window_config old_world (1200000 * ms) ["1.2.3.4"%string] [[Byte.x01]]
              [old_key] ["192.0.2.1"%string]) as ((s & Hs & Hrs) & _ & (m1 & Hm1 & Hr1) & (m2 & Hm2 & Hr2)).
  - vm_compute. split; [reflexivity|discriminate].
  - split; [apply NoDup_singleton|]. intros ip [x Hx]. simpl in Hx.
    apply lookup_singleton_Some in Hx as [<- _]. by apply list_elem_of_singleton.
  - intros ip Hip. simpl in Hip. rewrite dom_singleton in Hip. by set_solver.
  - intros k Hk. simpl in Hk. rewrite dom_singleton in Hk. by set_solver.
  - intros ip Hip. simpl in Hip. rewrite dom_singleton in Hip. by set_solver.
  - intros ip. unfold pacer_free. simpl. destruct ({[ _ := _ ]} !! ip) as [p|] eqn:E; [|done].
    apply lookup_singleton_Some in E as [_ <-]. by exists old_pacer.
  - assert (E : clients s = ∅) by (rewrite Hs; vm_compute; reflexivity).
    assert (E1 : m1 = ∅) by (rewrite Hm1; vm_compute; reflexivity).
    assert (E2 : m2 = ∅) by (rewrite Hm2; vm_compute; reflexivity).
    split; [|split].
    + exists s. split; [exact E|]. rewrite Hrs, E. reflexivity.
    + exists m1. split; [exact E1|]. rewrite Hr1, E1. reflexivity.
    + exists m2. split; [exact E2|]. rewrite Hr2, E2. reflexivity.
Defined.
