(* ===== verification/SplitSpec.v ===== *)
(** Split mode: one payload packet from the queue to the wire, and what happens
    to its retransmissions. *)

From S2P Require Import Prelude GoStrings GoNet GoTime Algorithm State Stats Window Whitelist.
From S2P Require Import Runtime RawSender Parser Payload Fake Config Daemon Handler Loops Scenarios.
From S2P Require Import HandlerSpec.
Open Scope Z_scope.

(** * Sending *)

(** An idle, open sender. *)
Definition sender_ready (s : RawIPv4Sender) : Prop := mu s = false /\ 0 <= fd s.
Definition always_ok (K : kernel) : Prop :=
  forall l, setsockopt_ok K l = true /\ sendto_ok K l = true.
(** The sender after a successful send. *)
Definition sent_with (packet : bytes) (mark : Z) (s : RawIPv4Sender) : RawIPv4Sender :=
  {| fd := fd s; mu := false;
     calls := Sendto (fd s) packet (sub packet 16 20) true :: SetMark (fd s) mark true :: calls s |}.

Lemma run_Send_ok {B : Type} K packet mark (k : res SendError unit -> prog World B) w :
  20 <= len packet -> version (byte_at packet 0) = 4 -> sender_ready (w_rawSender w) -> always_ok K ->
  run (Send K SenderPtr packet mark ≫= k) w
  = run (k (Ok tt)) (with_rawSender (fun _ => sent_with packet mark (w_rawSender w)) w).
Proof.
  intros Hlen Hver [Hmu Hfd] HK. rewrite run_bind. unfold Send.
  rewrite decide_False by (unfold ipv4MinHeaderLen; lia).
  rewrite (lift_bind _ (byte_at packet 0)) by (apply idx_val; lia). rewrite decide_False by lia.
  unfold lock_sender. erewrite run_try_bind.
  2: { cbv beta. cbn [sender World_sender]. rewrite Hmu. reflexivity. }
  rewrite run_gets_bind. simpl sender. cbn [set_mu fd].
  rewrite decide_False by lia. unfold setsockopt_mark. rewrite run_update_bind. cbv zeta. cbn [fst snd].
  rewrite (proj1 (HK _)). simpl negb. cbv iota.
  rewrite (lift_bind _ (sub packet 16 20)) by (apply slice_val; lia).
  unfold sendto. rewrite run_update_bind. cbv zeta. cbn [fst snd]. rewrite (proj2 (HK _)).
  unfold unlock_sender. rewrite run_modify_bind, run_ret.
  match goal with |- match run (k ?r) ?w1 with _ => _ end = run _ ?w2 => replace w1 with w2 by reflexivity end.
  by destruct (run _ _) as [[[??]?]|].
Qed.

(** * One split *)

Definition plain_split (cfg : Config) : Prop :=
  Action cfg = "split"%string /\ SplitProbe cfg = false /\ SplitReverse cfg = false
  /\ FakeBadChecksum cfg = false /\ PassWindow cfg = 0.

Section split.
Context (cfg : Config) (env : environment).

(** A packet whose segment was seen before passes as it is. *)
Lemma seen_passes id p packetMark w t :
  payload_packet p -> w_splitSeen w !! split_key (payload_info p) = Some t ->
  exists w', run (payload_handler cfg env id p packetMark) w = Some (0, w', [])
    /\ (w_trace w' = SetVerdict id NfAccept :: w_trace w
        \/ w_trace w' = SetVerdict id NfAccept :: lines cfg "SPLIT-RETRANSMIT-PASS" (w_trace w))
    /\ w_splitSeen w' = w_splitSeen w /\ w_rawSender w' = w_rawSender w.
Proof.
  intros Hp Hseen. unfold payload_handler.
  rewrite (lift_bind _ (Some (payload_info p))) by (by apply ParsePayload_ok).
  destruct (skip_marked cfg packetMark).
  { eexists. split; [reflexivity|]. split; [by left|done]. }
  cbv zeta. unfold seen_Load. rewrite run_gets_bind, Hseen. cbv iota. rewrite run_log.
  eexists. split; [reflexivity|]. unfold lines. destruct (Verbose cfg); (split; [by right|done]).
Qed.

Lemma key_of_second info : second_key cfg info = split_key (second_info info (SplitAt cfg)).
Proof. unfold second_key, split_key, second_info. simpl. by rewrite wrapU32_add_r. Qed.

Lemma run_split id p packetMark w :
  plain_split cfg -> payload_packet p -> 0 < SplitAt cfg < PayloadLen (payload_info p) ->
  skip_marked cfg packetMark = false -> w_splitSeen w !! split_key (payload_info p) = None ->
  mod_verdict_ok env (w_trace w) = true ->
  let first := first_segment p (SplitAt cfg) in
  let second := second_segment p (SplitAt cfg) in
  let mark := or_mark (SplitMarkValue cfg) packetMark in
  let k1 := split_key (payload_info p) in
  let k2 := second_key cfg (payload_info p) in
  exists w', run (payload_handler cfg env id p packetMark) w
             = Some (0, w', [send_second cfg env second k2 mark])
    /\ w_trace w' = lines cfg "SPLIT"
         (SetVerdictModPacketWithConnMark id NfAccept mark first true :: w_trace w)
    /\ w_splitSeen w' = <[k2 := w_clock w]> (<[k1 := w_clock w]> (w_splitSeen w))
    /\ w_rawSender w' = w_rawSender w /\ w_clock w' = w_clock w.
Proof.
  intros (Ha & Hprobe & Hrev & Hfake & Hwin) Hp Hs Hskip Hseen Hmod. cbv zeta.
  unfold payload_handler. rewrite (lift_bind _ (Some (payload_info p))) by (by apply ParsePayload_ok).
  rewrite Hskip. unfold seen_Load. rewrite run_gets_bind, Hseen. unfold pass_window. rewrite Hwin.
  change (0 <? 0) with false. cbv iota. rewrite ret_bind. unfold Now, seen_Store.
  rewrite run_gets_bind, run_modify_bind, Hfake, ret_bind. unfold split_segments.
  rewrite (lift_bind _ (Ok (first_segment p (SplitAt cfg), second_segment p (SplitAt cfg))))
    by (by apply SplitIPv4TCPPacket_closed).
  rewrite Hrev. unfold nf_SetVerdictModPacketWithConnMark. rewrite run_update_bind. cbn [fst snd].
  cbn [w_trace with_splitSeen]. rewrite Hmod. simpl negb. cbv iota. rewrite Hprobe.
  unfold Now, seen_Store. rewrite run_gets_bind, run_modify_bind.
  rewrite run_go_bind, run_log, run_ret.
  eexists. split; [reflexivity|]. unfold lines. destruct (Verbose cfg); simpl; by split_and!.
Qed.

Lemma run_send_second second k mark w :
  Action cfg = "split"%string -> SplitProbe cfg = false ->
  20 <= len second -> version (byte_at second 0) = 4 ->
  sender_ready (w_rawSender w) -> always_ok (os env) ->
  exists w', run (send_second cfg env second k mark) w = Some (tt, w', [])
    /\ w_rawSender w' = sent_with second mark (w_rawSender w)
    /\ w_trace w' = lines cfg "SPLIT-RAW-SENT" (w_trace w)
    /\ w_splitSeen w' = w_splitSeen w
    /\ w_clock w' = Z.max (w_clock w) (w_clock w + Z.max 0 (SplitDelay cfg)).
Proof.
  intros Ha Hprobe Hlen Hver Hready HK. unfold send_second, rawSender. rewrite Ha, Hprobe.
  change (seqb "split" "split" && negb false) with true. cbv iota. unfold sleep_if, Sleep, Now.
  destruct (Z.ltb_spec 0 (SplitDelay cfg)) as [Hd|Hd].
  - rewrite run_bind, run_gets_bind. cbn [run]. rewrite run_Send_ok by done. unfold logVerbose, lines.
    destruct (Verbose cfg); eexists; (split; [reflexivity|]); simpl; (split_and!; try done);
      unfold time_Add; lia.
  - rewrite ret_bind, run_Send_ok by done. unfold logVerbose, lines.
    destruct (Verbose cfg); eexists; (split; [reflexivity|]); simpl; (split_and!; try done); lia.
Qed.
End split.

Lemma segment_version p splitAt :
  payload_packet p -> 0 < splitAt < PayloadLen (payload_info p) ->
  payload_packet (second_segment p splitAt) /\ payload_info (second_segment p splitAt)
    = second_info (payload_info p) splitAt.
Proof. intros Hp Hs. split; [by apply second_segment_ok|by apply second_segment_parsed]. Qed.

Lemma second_segment_dst p splitAt :
  payload_packet p -> 0 < splitAt < PayloadLen (payload_info p) ->
  sub (second_segment p splitAt) 16 20 = sub p 16 20.
Proof.
  intros Hp Hs. pose proof (Payload.segment_bounds p splitAt Hp Hs).
  pose proof (len_second_segment p splitAt Hp Hs).
  apply bytes_ext; [rewrite !len_sub by lia; lia|].
  intros j Hj. rewrite len_sub in Hj by lia. rewrite !byte_at_sub by lia.
  apply byte_at_second_segment; done || lia.
Qed.

(** C4: in plain split mode an unseen, unmarked payload packet longer than the
    split offset leaves the daemon as two segments: the first as the modified
    verdict, the second through the raw socket after the delay, both with the
    split mark added to the packet's own, to the packet's destination, their
    payloads being exactly the packet's payload cut at the offset. *)
Theorem split_mode_end_to_end cfg env id p packetMark w :
  plain_split cfg -> payload_packet p -> 0 < SplitAt cfg < PayloadLen (payload_info p) ->
  skip_marked cfg packetMark = false -> w_splitSeen w !! split_key (payload_info p) = None ->
  mod_verdict_ok env (w_trace w) = true -> sender_ready (w_rawSender w) -> always_ok (os env) ->
  exists first second mark w1 task w2,
    run (payload_handler cfg env id p packetMark) w = Some (0, w1, [task])
    /\ run task w1 = Some (tt, w2, [])
    /\ (exists line, w_trace w1 = lines cfg line
          (SetVerdictModPacketWithConnMark id NfAccept mark first true :: w_trace w))
    /\ datagrams (calls (w_rawSender w2))
       = (second, mark, sub p 16 20) :: datagrams (calls (w_rawSender w))
    /\ (forall i, 0 <= i -> Z.testbit mark i
          = Z.testbit (SplitMarkValue cfg) i
            || match packetMark with Some m => Z.testbit m i | None => false end)
    /\ payload_bytes first ++ payload_bytes second = payload_bytes p
    /\ payload_info first = first_info (payload_info p) (SplitAt cfg)
    /\ payload_info second = second_info (payload_info p) (SplitAt cfg)
    /\ w_clock w2 = w_clock w + Z.max 0 (SplitDelay cfg).
Proof.
  intros Hplain Hp Hs Hskip Hseen Hmod Hready HK.
  destruct (run_split cfg env id p packetMark w Hplain Hp Hs Hskip Hseen Hmod)
    as (w1 & Hr1 & Ht1 & _ & Hsd1 & Hc1).
  destruct (segment_version p (SplitAt cfg) Hp Hs) as [Hp2 Hi2].
  pose proof Hplain as (Ha & Hprobe & _). pose proof Hp2 as (Hver2 & _).
  destruct (run_send_second cfg env (second_segment p (SplitAt cfg)) (second_key cfg (payload_info p))
    (or_mark (SplitMarkValue cfg) packetMark) w1) as (w2 & Hr2 & Hsd2 & _ & _ & Hc2);
    [done|done|pose proof (Payload.segment_bounds p (SplitAt cfg) Hp Hs); rewrite len_second_segment by done; lia
    |done|by rewrite Hsd1|done|].
  exists (first_segment p (SplitAt cfg)), (second_segment p (SplitAt cfg)),
    (or_mark (SplitMarkValue cfg) packetMark), w1,
    (send_second cfg env (second_segment p (SplitAt cfg)) (second_key cfg (payload_info p))
       (or_mark (SplitMarkValue cfg) packetMark)), w2.
  split_and!; [exact Hr1|exact Hr2|by eexists| | |by apply segments_payload
    |by apply first_segment_parsed|done|].
  - rewrite Hsd2, Hsd1. simpl. by rewrite second_segment_dst.
  - intros i Hi. unfold or_mark. destruct packetMark; [apply Z.lor_spec|by rewrite orb_false_r].
  - rewrite Hc2, Hc1. lia.
Qed.
Lemma split_mode_end_to_end_witness :
  exists first second mark w1 task w2,
    run (payload_handler split_config scenario_env 9 example_packet (Some 2)) scenario_world
    = Some (0, w1, [task])
    /\ run task w1 = Some (tt, w2, [])
    /\ datagrams (calls (w_rawSender w2)) = [(second, mark, sub example_packet 16 20)]
    /\ Z.testbit mark 1 = true
    /\ payload_bytes first ++ payload_bytes second = payload_bytes example_packet
    /\ w_clock w2 = 1001 * ms.
Proof.
  destruct (split_mode_end_to_end split_config scenario_env 9 example_packet (Some 2) scenario_world)
    as (first & second & mark & w1 & task & w2 & Hr1 & Hr2 & _ & Hd & Hb & Hp & _ & _ & Hc);
    [by repeat split|by apply (bool_decide_unpack _)|by vm_compute|reflexivity|reflexivity
    |reflexivity|by split|done|].
  exists first, second, mark, w1, task, w2. split; [exact Hr1|]. split; [exact Hr2|].
  split; [exact Hd|]. split; [rewrite Hb by lia; reflexivity|]. split; [exact Hp|].
  rewrite Hc. reflexivity.
Defined.

(** C15: once a packet has been split, its retransmissions and the second
    segment itself, whatever their marks, pass through the daemon unmodified
    and start nothing, until the cleanup forgets them. *)
Theorem split_retransmissions_pass cfg env id p packetMark w :
  plain_split cfg -> payload_packet p -> 0 < SplitAt cfg < PayloadLen (payload_info p) ->
  skip_marked cfg packetMark = false -> w_splitSeen w !! split_key (payload_info p) = None ->
  mod_verdict_ok env (w_trace w) = true ->
  exists w1 task, run (payload_handler cfg env id p packetMark) w = Some (0, w1, [task])
    /\ forall w2 id2 mark2 q, w_splitSeen w2 = w_splitSeen w1 ->
         q = p \/ q = second_segment p (SplitAt cfg) ->
         exists w3, run (payload_handler cfg env id2 q mark2) w2 = Some (0, w3, [])
           /\ hd_error (w_trace w3) = Some (SetVerdict id2 NfAccept)
           /\ w_splitSeen w3 = w_splitSeen w2 /\ w_rawSender w3 = w_rawSender w2.
Proof.
  intros Hplain Hp Hs Hskip Hseen Hmod.
  destruct (run_split cfg env id p packetMark w Hplain Hp Hs Hskip Hseen Hmod)
    as (w1 & Hr1 & _ & Hk & _ & _).
  eexists w1, _. split; [exact Hr1|]. intros w2 id2 mark2 q Hsame Hq.
  destruct (segment_version p (SplitAt cfg) Hp Hs) as [Hp2 Hi2].
  assert (exists t, payload_packet q /\ w_splitSeen w2 !! split_key (payload_info q) = Some t)
    as (t & Hpq & Ht).
  { rewrite Hsame, Hk. destruct Hq as [Hq|Hq]; subst q.
    - destruct (decide (second_key cfg (payload_info p) = split_key (payload_info p))) as [He|He].
      + eexists. split; [done|]. rewrite He. apply lookup_insert_eq.
      + eexists. split; [done|]. rewrite lookup_insert_ne by done. apply lookup_insert_eq.
    - eexists. split; [done|]. rewrite Hi2, <-key_of_second. apply lookup_insert_eq. }
  destruct (seen_passes cfg env id2 q mark2 w2 t Hpq Ht) as (w3 & Hr3 & Ht3 & Hs3 & Hd3).
  exists w3. split_and!; [exact Hr3| |done|done]. destruct Ht3 as [Ht3|Ht3]; rewrite Ht3; reflexivity.
Qed.
Lemma split_retransmissions_pass_witness :
  exists w1 task w3,
    run (payload_handler split_config scenario_env 9 example_packet (Some 2)) scenario_world
    = Some (0, w1, [task])
    /\ run (payload_handler split_config scenario_env 10 (second_segment example_packet 2) None) w1
       = Some (0, w3, [])
    /\ hd_error (w_trace w3) = Some (SetVerdict 10 NfAccept).
Proof.
  destruct (split_retransmissions_pass split_config scenario_env 9 example_packet (Some 2) scenario_world)
    as (w1 & task & Hr & Hall);
    [by repeat split|by apply (bool_decide_unpack _)|by vm_compute|reflexivity|reflexivity|reflexivity|].
  destruct (Hall w1 10 None (second_segment example_packet 2) eq_refl (or_intror eq_refl))
    as (w3 & Hr3 & Ht & _).
  exists w1, task, w3. split; [exact Hr|]. split; [exact Hr3|exact Ht].
Defined.
