(* ===== verification/Delivery.v ===== *)
(** What split mode forwards: with every combination of options and whatever fails,
    one packet goes on, the original or its first segment, and what becomes of the
    second segment in each case. *)

From S2P Require Import Prelude GoStrings GoNet GoTime Algorithm State Stats Window Whitelist.
From S2P Require Import Runtime Progress RawSender Parser Payload Fake Config Daemon Handler Loops.
From S2P Require Import Scenarios HandlerSpec SplitSpec.
Open Scope Z_scope.

(** * Programs run alone, by postcondition *)

Definition runs {A : Type} (p : prog World A) (w : World)
    (Q : A -> World -> list (prog World unit) -> Prop) : Prop :=
  exists a w' ts, run p w = Some (a, w', ts) /\ Q a w' ts.

Lemma runs_ret {A : Type} (a : A) w Q : Q a w [] -> runs (Ret a) w Q.
Proof. intros HQ. by exists a, w, []. Qed.
Lemma runs_bind {A B : Type} (p : prog World A) (k : A -> prog World B) w Q :
  runs p w (fun a w' ts => runs (k a) w' (fun b w'' ts' => Q b w'' (ts ++ ts'))) ->
  runs (p ≫= k) w Q.
Proof.
  intros (a & w1 & ts & Hr & b & w2 & ts' & Hr' & HQ). exists b, w2, (ts ++ ts').
  by rewrite run_bind, Hr, Hr'.
Qed.
Lemma runs_weaken {A : Type} (p : prog World A) w (Q Q' : A -> World -> list (prog World unit) -> Prop) :
  (forall a w' ts, Q a w' ts -> Q' a w' ts) -> runs p w Q -> runs p w Q'.
Proof. intros HQ (a & w1 & ts & Hr & H). exists a, w1, ts. auto. Qed.
Lemma run_calm (R : World -> World -> Prop) `{!PreOrder R} {A : Type} (p : prog World A) w :
  calm R p -> exists a w', run p w = Some (a, w', []) /\ R w w'.
Proof.
  revert w. induction p as [A a|A T f k IH|A t p IH|A task _ p IH|A]; intros w; simpl; try done.
  - intros _. by exists a, w.
  - intros Hp. destruct (Hp w) as (r & w1 & -> & H1 & Hk). destruct (IH r w1 Hk) as (a & w2 & Hr & H2).
    exists a, w2. split; [done|by etransitivity].
Qed.

(** * What the network gets *)

(** The datagrams the system took from the raw socket, with their marks and
    destinations, newest first. *)
Fixpoint sent (l : list syscall) : list (bytes * Z * bytes) :=
  match l with
  | Sendto _ p dst true :: l => (p, current_mark l, dst) :: sent l
  | _ :: l => sent l
  | [] => []
  end.
Lemma sent_suffix l l' : l `suffix_of` l' -> sent l `suffix_of` sent l'.
Proof.
  intros [new ->]. induction new as [|c new IH]; [done|].
  destruct c as [| d p dst []|]; simpl; try exact IH. by apply suffix_cons_r.
Qed.

Section delivery.
Context (cfg : Config) (env : environment) (id : Z) (p : bytes).

(** The packet the kernel goes on with after a verdict on [p]. *)
Definition passed (e : Event) : option bytes :=
  match e with
  | SetVerdict i NfAccept => if decide (i = id) then Some p else None
  | SetVerdictModPacketWithConnMark i NfAccept _ q true => if decide (i = id) then Some q else None
  | _ => None
  end.
Definition passes (w : World) : list bytes := omap passed (w_trace w).

(** No verdict given, respectively the packet [q] let through; the raw sender
    may have been used and is free again. *)
Definition sender_used (w w' : World) : Prop :=
  mu (w_rawSender w') = mu (w_rawSender w)
  /\ calls (w_rawSender w) `suffix_of` calls (w_rawSender w')
  /\ (rawSender cfg = NilSender -> calls (w_rawSender w') = calls (w_rawSender w)).
#[local] Instance sender_used_preorder : PreOrder sender_used.
Proof.
  split; [by intros w|]. intros w1 w2 w3 (H1 & H2 & H3) (H4 & H5 & H6).
  split_and!; [congruence|by etransitivity|]. intros Hn. rewrite H6, H3; done.
Qed.
Definition silent (w w' : World) : Prop := passes w' = passes w /\ sender_used w w'.
Definition gave (q : bytes) (w w' : World) : Prop := passes w' = q :: passes w /\ sender_used w w'.

#[local] Instance silent_preorder : PreOrder silent.
Proof.
  split; [by intros w|]. intros w1 w2 w3 [H1 H2] [H3 H4]. split; [congruence|by etransitivity].
Qed.
Lemma silent_gave q w w1 w2 : silent w w1 -> gave q w1 w2 -> gave q w w2.
Proof. intros [H1 H2] [H3 H4]. split; [congruence|by etransitivity]. Qed.
Lemma gave_silent q w w1 w2 : gave q w w1 -> silent w1 w2 -> gave q w w2.
Proof. intros [H1 H2] [H3 H4]. split; [congruence|by etransitivity]. Qed.

Ltac leaf :=
  match goal with
  | |- True => exact I
  | |- calm _ (Ret _) => exact I
  | |- calm _ (modify _) => apply calm_modify; intros; by split_and!
  | |- calm _ (gets _) => apply calm_gets; intros; by split_and!
  | |- calm _ (update _) => apply calm_update; intros; repeat case_match; by split_and!
  end.
Ltac calmly :=
  repeat first
    [ leaf
    | progress unfold emit, logVerbose, seen_Delete, seen_Store, seen_Load, Now, window_decide
    | apply calm_bind; [|intros ?]
    | case_match
    | progress cbn [calm] ].

Lemma runs_calm {A : Type} (q : prog World A) w Q :
  calm silent q -> (forall a w', silent w w' -> Q a w' []) -> runs q w Q.
Proof.
  intros Hq HQ. destruct (run_calm silent q w Hq) as (a & w' & Hr & Hw). exists a, w', []. auto.
Qed.
(** Pass over the next statement, which gives no verdict. *)
Ltac next w H := apply runs_bind, runs_calm; [solve [calmly]|intros ? w H; cbv beta].

Lemma runs_accept w Q : (forall w', gave p w w' -> Q 0 w' []) -> runs (accept id) w Q.
Proof.
  intros HQ. exists 0, (with_event (SetVerdict id NfAccept) w), []. split; [done|]. apply HQ.
  split; [|done]. unfold passes. simpl. by rewrite decide_True.
Qed.
Lemma runs_mod_verdict mark q w Q :
  (forall w', gave q w w' -> Q true w' []) -> (forall w', silent w w' -> Q false w' []) ->
  runs (nf_SetVerdictModPacketWithConnMark env id NfAccept mark q) w Q.
Proof.
  intros HQ1 HQ2. unfold runs, nf_SetVerdictModPacketWithConnMark, update. simpl.
  destruct (mod_verdict_ok env (w_trace w)).
  - do 3 eexists. split; [done|]. apply HQ1. split; [|done]. unfold passes. simpl. by rewrite decide_True.
  - do 3 eexists. split; [done|]. by apply HQ2.
Qed.
Lemma runs_sleep_if d w Q :
  (forall w', silent w w' -> w_rawSender w' = w_rawSender w -> w_splitSeen w' = w_splitSeen w ->
     Q tt w' []) -> runs (sleep_if d) w Q.
Proof.
  intros HQ. unfold sleep_if. case_match; [|by apply runs_ret, HQ].
  exists tt, (advance (time_Add (w_clock w) d) w), []. split; [done|]. by apply HQ.
Qed.
Lemma runs_Send packet mark w Q :
  mu (w_rawSender w) = false ->
  (forall r w', silent w w' -> w_splitSeen w' = w_splitSeen w ->
     sent (calls (w_rawSender w'))
       = (if r is Ok _ then [(packet, mark, sub packet 16 20)] else []) ++ sent (calls (w_rawSender w)) ->
     Q r w' []) ->
  runs (Send (os env) (rawSender cfg) packet mark) w Q.
Proof.
  intros Hmu HQ. destruct (rawSender cfg) eqn:Hptr; [by apply runs_ret, HQ|]. unfold Send.
  case_decide as Hlen; [by apply runs_ret, HQ|].
  assert (20 <= len packet) by (unfold ipv4MinHeaderLen in Hlen; lia).
  rewrite (lift_bind _ (byte_at packet 0)) by (apply idx_val; lia). case_decide; [by apply runs_ret, HQ|].
  unfold runs, lock_sender. erewrite run_try_bind.
  2: { cbv beta. cbn [sender World_sender]. rewrite Hmu. reflexivity. }
  rewrite run_gets_bind. simpl sender. cbn [set_mu fd].
  assert (Hdone : forall l w', w_trace w' = w_trace w -> mu (w_rawSender w') = false ->
    calls (w_rawSender w') = l ++ calls (w_rawSender w) -> silent w w').
  { intros l w' Ht Hm Hl. split; [unfold passes; by rewrite Ht|].
    split_and!; [congruence|by exists l|congruence]. }
  case_decide.
  { do 3 eexists. split; [reflexivity|]. apply HQ; [by apply (Hdone [])|done..]. }
  unfold setsockopt_mark. rewrite run_update_bind. cbv zeta. cbn [fst snd].
  match goal with |- context [negb ?b] => destruct b eqn:Eset end; cbn [negb].
  2: { do 3 eexists. split; [reflexivity|]. apply HQ; [by eapply (Hdone [_])|done..]. }
  rewrite (lift_bind _ (sub packet 16 20)) by (apply slice_val; lia).
  unfold sendto. rewrite run_update_bind. cbv zeta. cbn [fst snd].
  match goal with |- context [if ?b then Ok tt else _] => destruct b eqn:Esend end;
    (do 3 eexists; split; [reflexivity|]; apply HQ; [by eapply (Hdone [_; _])|done|]);
    simpl; simpl in Eset, Esend; by rewrite ?Eset, ?Esend.
Qed.

(** Follow the steps that gave no verdict. *)
Ltac later := first [assumption | reflexivity | etransitivity; [|eassumption]; later].

(** ** The payload handler *)

(** What becomes of the second segment, a datagram with the mark and destination. *)
Definition newly_sent (datagram : bytes * Z * bytes) (w w' : World) : Prop :=
  exists new, sent (calls (w_rawSender w')) = new ++ sent (calls (w_rawSender w)) /\ datagram ∈ new.
(** The goroutine [task], run alone from any later world with a free sender, gives
    no verdict and sends the datagram; or the send fails, and it logs the error and
    forgets the segment's key. *)
Definition sends_or_forgets (datagram : bytes * Z * bytes) (key : splitSegmentKey)
    (task : prog World unit) : Prop :=
  forall w, mu (w_rawSender w) = false -> exists w',
    run task w = Some (tt, w', []) /\ passes w' = passes w
    /\ (sent (calls (w_rawSender w')) = datagram :: sent (calls (w_rawSender w))
        /\ w_splitSeen w' = w_splitSeen w
        \/ sent (calls (w_rawSender w')) = sent (calls (w_rawSender w))
           /\ w_splitSeen w' = delete key (w_splitSeen w)
           /\ hd_error (w_trace w') = Some (LoggedError "split raw send failed")).
Definition second_segment_sent (second : bytes) (mark : Z) (w w' : World)
    (started : list (prog World unit)) : Prop :=
  let datagram := (second, mark, sub second 16 20) in
  if SplitReverse cfg then started = [] /\ newly_sent datagram w w'
  else if SplitProbe cfg then started = [] /\ (rawSender cfg = NilSender ->
                                calls (w_rawSender w') = calls (w_rawSender w))
  else exists task, started = [task]
         /\ sends_or_forgets datagram (second_key cfg (payload_info p)) task.
Definition delivered (mark : Z) (w w' : World) (started : list (prog World unit)) : Prop :=
  gave p w w' /\ started = []
  \/ payload_packet p /\ 0 < SplitAt cfg < PayloadLen (payload_info p)
     /\ gave (first_segment p (SplitAt cfg)) w w'
     /\ second_segment_sent (second_segment p (SplitAt cfg)) mark w w' started.

Section from.
Context (w0 : World) (Hmu : mu (w_rawSender w0) = false) (mark : Z).

Lemma free_later w : silent w0 w -> mu (w_rawSender w) = false.
Proof. intros (_ & Hm & _). congruence. Qed.

(** Whatever is noted first, the packet goes on whole. *)
Lemma falls_back w : silent w0 w -> runs (accept id) w (fun r w' ts => r = 0 /\ delivered mark w0 w' ts).
Proof. intros Hw. apply runs_accept. intros w' Hg. split; [done|]. left. split; [by eapply silent_gave|done]. Qed.

Lemma runs_split_reversed key1 key2 w :
  payload_packet p -> 0 < SplitAt cfg < PayloadLen (payload_info p) -> SplitReverse cfg = true ->
  silent w0 w ->
  runs (split_reversed cfg env id (first_segment p (SplitAt cfg)) (second_segment p (SplitAt cfg))
          key1 key2 mark) w (fun r w' ts => r = 0 /\ delivered mark w0 w' ts).
Proof.
  intros Hp Hs Hrev Hw. unfold split_reversed. next w1 H1. next w2 H2.
  assert (Hw2 : silent w0 w2) by later.
  apply runs_bind, runs_Send; [by apply free_later|]. intros r w3 H3 _ Hsent.
  assert (Hw3 : silent w0 w3) by later.
  destruct r as [[]|e].
  - next w4 H4. apply runs_bind, runs_sleep_if. intros w5 H5 _ _. apply runs_bind, runs_mod_verdict.
    + intros w6 H6. next w7 H7. apply runs_ret. split; [done|]. right.
      assert (Hg : gave (first_segment p (SplitAt cfg)) w5 w7) by (by eapply gave_silent).
      split_and!; [done|lia|lia|eapply silent_gave; [|exact Hg]; later|].
      unfold second_segment_sent. rewrite Hrev. split; [done|].
      destruct (sent_suffix _ _ (proj1 (proj2 (proj2 Hw2)))) as [n Hn].
      assert (Hafter : sender_used w3 w7)
        by (transitivity w4; [by destruct H4|]; transitivity w5; [by destruct H5|by destruct Hg]).
      destruct (sent_suffix _ _ (proj1 (proj2 Hafter))) as [n' Hn'].
      exists (n' ++ (second_segment p (SplitAt cfg), mark, sub (second_segment p (SplitAt cfg)) 16 20) :: n).
      rewrite Hn', Hsent, Hn. split; [by rewrite <-!app_assoc|]. apply elem_of_app. right. left.
    + intros w6 H6. next w7 H7. next w8 H8. apply falls_back. later.
  - next w4 H4. next w5 H5. next w6 H6. apply falls_back. later.
Qed.
Lemma send_second_outcome second key :
  sends_or_forgets (second, mark, sub second 16 20) key (send_second cfg env second key mark).
Proof.
  intros w Hfree. cut (runs (send_second cfg env second key mark) w (fun _ w' ts =>
    ts = [] /\ passes w' = passes w
    /\ (sent (calls (w_rawSender w')) = (second, mark, sub second 16 20) :: sent (calls (w_rawSender w))
        /\ w_splitSeen w' = w_splitSeen w
        \/ sent (calls (w_rawSender w')) = sent (calls (w_rawSender w))
           /\ w_splitSeen w' = delete key (w_splitSeen w)
           /\ hd_error (w_trace w') = Some (LoggedError "split raw send failed")))).
  { intros ([] & w' & ts & Hr & -> & HQ). by exists w'. }
  unfold send_second. apply runs_bind, runs_sleep_if. intros w1 H1 Hs1 Hk1.
  apply runs_bind, runs_Send; [by rewrite Hs1|]. intros r w2 [H2 _] Hk2 Hsent. destruct H1 as [H1 _].
  destruct r as [[]|e].
  - unfold logVerbose. destruct (Verbose cfg);
      (do 3 eexists; split; [reflexivity|]; split; [done|]; split; [by rewrite <-H1, <-H2|left];
       split; [by rewrite <-Hs1|by rewrite <-Hk1, <-Hk2]).
  - do 3 eexists. split; [reflexivity|]. split; [done|]. split; [by rewrite <-H1, <-H2|right].
    split; [by rewrite <-Hs1|]. split; [|done]. simpl. by rewrite <-Hk1, <-Hk2.
Qed.
Lemma runs_split_segments key1 w :
  payload_packet p -> silent w0 w ->
  runs (split_segments cfg env id p (payload_info p) key1 mark) w
    (fun r w' ts => r = 0 /\ delivered mark w0 w' ts).
Proof.
  intros Hp Hw. unfold split_segments.
  destruct (decide (0 < SplitAt cfg < PayloadLen (payload_info p))) as [Hs|Hs].
  2: { rewrite (lift_bind _ (Fail (SplitOutsidePayload (SplitAt cfg) (PayloadLen (payload_info p)))))
         by (unfold SplitIPv4TCPPacket; by rewrite decide_True by lia).
       next w1 H1. next w2 H2. apply falls_back. later. }
  rewrite (lift_bind _ (Ok (first_segment p (SplitAt cfg), second_segment p (SplitAt cfg))))
    by (by apply SplitIPv4TCPPacket_closed).
  cbv zeta. case_match; [by apply runs_split_reversed|].
  apply runs_bind, runs_mod_verdict.
  - intros w1 H1. cbn [negb]. destruct (SplitProbe cfg) eqn:Hprobe.
    + next w2 H2. apply runs_ret. split; [done|]. right.
      assert (Hg : gave (first_segment p (SplitAt cfg)) w0 w2)
        by (eapply silent_gave; [done|by eapply gave_silent]).
      split_and!; [done|lia|lia|done|]. unfold second_segment_sent. rewrite Hprobe.
      case_match; [done|]. split; [done|]. apply Hg.
    + next w2 H2. next w3 H3.
      apply runs_bind. eexists tt, w3, [_]. split; [reflexivity|]. next w4 H4. apply runs_ret.
      split; [done|]. right. split_and!; [done|lia|lia| |].
      * eapply silent_gave; [done|]. eapply gave_silent; [exact H1|]. later.
      * unfold second_segment_sent. rewrite Hprobe. case_match; [done|].
        eexists. split; [reflexivity|]. apply send_second_outcome.
  - intros w1 H1. next w2 H2. next w3 H3. apply falls_back. later.
Qed.

Lemma runs_send_fake key1 w :
  silent w0 w ->
  runs (send_fake cfg env id p key1 mark) w
    (fun r w' ts => match r with
                    | Some r => r = 0 /\ delivered mark w0 w' ts
                    | None => ts = [] /\ silent w0 w'
                    end).
Proof.
  intros Hw. unfold send_fake. apply runs_bind, runs_calm; [calmly|]. intros rand w1 H1.
  assert (Hback : forall line w2, silent w0 w2 ->
    runs (seen_Delete key1;; emit (LoggedError line);; r ← accept id; Ret (Some r)) w2
      (fun r w' ts => match r with
                      | Some r => r = 0 /\ delivered mark w0 w' ts
                      | None => ts = [] /\ silent w0 w'
                      end)).
  { intros line w2 H2. next w3 H3. next w4 H4. apply runs_bind. eapply runs_weaken; [|apply falls_back; later].
    intros r w' ts [-> Hd]. apply runs_ret. rewrite app_nil_r. done. }
  destruct (clone_total rand p (FakePayload cfg) (FakeLength cfg)) as [r Hr].
  rewrite (lift_bind _ r) by done. destruct r as [[[[fake ?] ?] ?]|e].
  2: { next w2 H2. next w3 H3. apply runs_bind. eapply runs_weaken; [|apply falls_back; later].
       intros r w' ts [-> Hd]. apply runs_ret. rewrite app_nil_r. done. }
  apply runs_bind, runs_Send; [apply free_later; later|]. intros r w2 H2 _ _.
  destruct r as [[]|e]; [|apply Hback; later]. next w3 H3. apply runs_bind, runs_sleep_if. intros w4 H4 _ _.
  case_match; [|next w5 H5; apply runs_ret; split; [done|later]].
  apply runs_bind, runs_mod_verdict.
  - intros w5 H5. next w6 H6. apply runs_ret. split; [done|]. left. split; [|done].
    eapply silent_gave; [|by eapply gave_silent]. later.
  - intros w5 H5. cbn [negb]. apply Hback. later.
Qed.
Lemma runs_pass_window key1 w :
  silent w0 w ->
  runs (pass_window cfg id (payload_info p) key1) w
    (fun b w' ts => ts = [] /\ if b then gave p w0 w' else silent w0 w').
Proof.
  intros Hw. unfold pass_window. case_match; [|by apply runs_ret].
  next w1 H1. apply runs_bind, runs_calm; [calmly|]. intros [split ?] w2 H2. case_match.
  - next w3 H3. next w4 H4. next w5 H5. apply runs_bind.
    eexists tt, _, []. split; [reflexivity|]. apply runs_ret. split; [done|].
    apply (silent_gave _ _ w5); [later|]. split; [|done]. unfold passes. simpl. by rewrite decide_True.
  - next w3 H3. apply runs_ret. split; [done|later].
Qed.
End from.

Lemma runs_payload_handler packetMark w :
  mu (w_rawSender w) = false ->
  runs (payload_handler cfg env id p packetMark) w
    (fun r w' ts => r = 0 /\ delivered (or_mark (SplitMarkValue cfg) packetMark) w w' ts).
Proof.
  intros Hmu. unfold payload_handler. rewrite ParsePayload_closed.
  rewrite (lift_bind _ (if decide (payload_packet p) then Some (payload_info p) else None)) by done.
  case_decide as Hp; [|by apply falls_back]. case_match; [by apply falls_back|]. cbv zeta.
  apply runs_bind, runs_calm; [calmly|]. intros [t|] w1 H1.
  { next w2 H2. apply falls_back. later. }
  apply runs_bind. eapply runs_weaken; [|apply (runs_pass_window w); later].
  intros [] w2 ts [-> H2]; cbv beta iota.
  { apply runs_ret. split; [done|]. by left. }
  next w3 H3. next w4 H4. apply runs_bind. destruct (FakeBadChecksum cfg).
  - eapply runs_weaken; [|apply (runs_send_fake w Hmu (or_mark (SplitMarkValue cfg) packetMark)); later].
    intros [r|] w5 ts H5.
    + apply runs_ret. by rewrite !app_nil_r.
    + destruct H5 as [-> H5]. apply runs_split_segments; done.
  - apply runs_ret. apply runs_split_segments; [done..|later].
Qed.
End delivery.

(** * Properties *)

(** C5: in split mode, with every combination of options and whatever fails
    (parsing, the fake, the raw socket, the queue's verdict), handling one packet
    with the sender free returns and lets exactly one packet through. Either that
    is the original as a whole, and nothing is left to do; or it is the first
    segment, and then, with --split-reverse, the second one has just been sent
    successfully with its mark to its destination; with --split-probe nothing of it
    is sent (it is left to the client's retransmission); and otherwise the one
    goroutine started, run alone from any later world, sends it, or its send fails
    (the socket is closed, or the system refuses the mark or the datagram), the
    error is logged and the segment's key forgotten. Both segments together carry
    exactly the payload. *)
Theorem split_mode_forwards_packet cfg env id p packetMark w :
  mu (w_rawSender w) = false ->
  let mark := or_mark (SplitMarkValue cfg) packetMark in
  let first := first_segment p (SplitAt cfg) in
  let second := second_segment p (SplitAt cfg) in
  let datagram := (second, mark, sub p 16 20) in
  exists w' started,
    run (payload_handler cfg env id p packetMark) w = Some (0, w', started)
    /\ (passes id p w' = p :: passes id p w /\ started = []
        \/ passes id p w' = first :: passes id p w
           /\ payload_bytes first ++ payload_bytes second = payload_bytes p
           /\ (SplitReverse cfg = true -> started = [] /\ newly_sent datagram w w')
           /\ (SplitReverse cfg = false -> SplitProbe cfg = true ->
                 started = [] /\ calls (w_rawSender w') = calls (w_rawSender w))
           /\ (SplitReverse cfg = false -> SplitProbe cfg = false ->
                 exists task, started = [task]
                   /\ sends_or_forgets id p datagram (second_key cfg (payload_info p)) task)).
Proof.
  intros Hmu. cbv zeta. destruct (runs_payload_handler cfg env id p packetMark w Hmu)
    as (r & w' & ts & Hr & -> & [[[Hg _] ->]|(Hp & Hs & [Hg _] & Hsecond)]).
  - exists w', []. split; [done|by left].
  - exists w', ts. split; [done|]. right. unfold second_segment_sent in Hsecond.
    rewrite second_segment_dst in Hsecond by done.
    split; [done|]. split; [by apply segments_payload|].
    split_and!; intros Hrev; [by rewrite Hrev in Hsecond|intros Hprobe..];
      rewrite Hrev, Hprobe in Hsecond; [|done].
    destruct Hsecond as [-> Hcalls]. split; [done|]. apply Hcalls.
    unfold rawSender. by rewrite Hprobe, andb_false_r.
Qed.

(** The plain split of the example packet, and the goroutine it starts. *)
Lemma split_mode_forwards_packet_witness :
  exists w' task w'',
    run (payload_handler split_config scenario_env 9 example_packet (Some 2)) scenario_world
    = Some (0, w', [task])
    /\ passes 9 example_packet w' = [first_segment example_packet 2]
    /\ payload_bytes (first_segment example_packet 2)
         ++ payload_bytes (second_segment example_packet 2) = payload_bytes example_packet
    /\ run task w' = Some (tt, w'', [])
    /\ (sent (calls (w_rawSender w''))
           = [(second_segment example_packet 2, 0x1002, sub example_packet 16 20)]
        \/ sent (calls (w_rawSender w'')) = []).
Proof.
  destruct (split_mode_forwards_packet split_config scenario_env 9 example_packet (Some 2)
              scenario_world eq_refl) as (w' & ts & Hr & Hd).
  assert (Hv : option_map (fun x => (length x.2, passes 9 example_packet x.1.2,
                                     mu (w_rawSender x.1.2), calls (w_rawSender x.1.2)))
      (run (payload_handler split_config scenario_env 9 example_packet (Some 2)) scenario_world)
      = Some (1%nat, [first_segment example_packet 2], false, [])) by (vm_compute; reflexivity).
  rewrite Hr in Hv. injection Hv as Hlen Hpass Hmu Hcalls.
  destruct Hd as [[_ ->]|(Hp & Hb & _ & _ & Ht)]; [discriminate Hlen|].
  destruct (Ht eq_refl eq_refl) as (task & -> & Htask).
  destruct (Htask w' Hmu) as (w'' & Hrt & _ & Hout). rewrite Hcalls in Hout.
  exists w', task, w''. split; [exact Hr|]. split; [exact Hpass|]. split; [exact Hb|].
  split; [exact Hrt|]. destruct Hout as [[Ho _]|[Ho _]]; [left; exact Ho|right; exact Ho].
Defined.
